(* ===== verification/_CoqProject ===== *)
-Q . S2P
Prelude.v
Locks.v
Arbiters.v
Telemetry.v
Permalink.v
Relation.v
RelationGraph.v
Schema.v
Store.v
Database.v
Knowledge.v
Completions.v
ReResolution.v
Capability.v
Publishing.v
Capture.v
Reporting.v
BrowserCapture.v
RawObjects.v
PublicResolution.v
Recorders.v
CaptureResolution.v
Claims.v
MediaRetention.v
AccountSync.v
RemovalAck.v
OutboxRelay.v
DeletionAcks.v
Inventory.v
PrivacyDeletion.v
OwnerErasure.v
Reprocessing.v
ExportArchive.v
DataExport.v
OAuth.v
Config.v
System.v
Archive.v
Intake.v
BusWorker.v
Service.v
Disclosure.v
Workers.v
Main.v
TestSupport.v
