(* ===== verification/Prelude.v ===== *)
(** * Ratatoskr Threads archive: verification of the archive service

    The program (src/crates/threads-archive, with its binary in src/services/threads-archive) keeps
    an archive of Threads posts for its users. It accepts captures over its own interface and
    as browser commands from a message broker, resolves them through a public oEmbed endpoint,
    stores the evidence as content-addressed raw objects, publishes facts about the archived
    sources through a transactional outbox, reports the end of every operation, and keeps
    publishing removals until the downstream service Knowledge acknowledges them. Owners can
    import their data exports, reprocess them, connect an official account and delete what the
    archive holds for them. Its state is a PostgreSQL schema (src/schema.sql), a directory of raw
    objects and the broker's stream; a process with three background workers serves it.

    ** Files

    - [Prelude]: Rust's [Result] and [?], machine integers, byte strings, the string functions of
      the standard library the sources use, UTF-8 characters, sorting, the [rust] hint databases.
    - [Locks]: transactions that take an advisory lock, as statements that interleave, with the class
      [LockLaws] of what such a protocol promises and the invariant that follows.
    - [Arbiters]: transactions that meet at unique keys instead, as statements that interleave, with the
      class [KeyLaws] under which they have the effect of a serial run and drain.
    - [Telemetry] (telemetry.rs): the metrics registry, the lifecycle vocabulary, the installation once
      per process.
    - [Permalink] (permalink.rs): the parser and canonicalizer of post URLs.
    - [Relation] (relation.rs) and [RelationGraph] (public_resolution.rs, [normalize_relations],
      [has_reply_cycle], [visits_cycle]): relation kinds and the search for reply cycles.
    - [Schema] (src/schema.sql): the tables as finite maps, the row types, and the statements'
      constraint checks (primary, unique and foreign keys, checks) as errors.
    - [Store]: the world of a computation and its monad. [World] has the tables, the number of
      round trips made, the identifiers minted, the open transaction's start time, the raw-object
      directory and the broker's stream; [M E A] is [World -> Result E A * World]. [Env] gives
      the outcome of the n-th round trip, file operation and publication (done, not done, or
      done with the answer lost), the clock and the minted identifiers. [query], [read],
      [execute] and [transaction] are the statements of sqlx.
    - [Database] (database.rs): connecting, the readiness round trip, and the application of the schema
      by one process and, as an instance of [Locks], by any number at once.
    - [Capability] (capability.rs): the acquisition matrix and its stored vocabularies.
    - [Publishing] (publishing.rs): snapshots of sources and the facts appended to the outbox.
    - [Capture] (capture.rs): capture requests, submission, records, unavailability.
    - [Reporting] (capture_reporting.rs): operation reports appended to the outbox.
    - [BrowserCapture] (browser_capture_command.rs, browser_capture_inbox.rs): intake of command
      bytes, delivery and refusal with the inbox record.
    - [RawObjects] (public_resolution/raw_object_store.rs, raw_object_delete.rs): the
      content-addressed store over a directory whose operations can fail.
    - [PublicResolution] (public_resolution.rs): response checks, parsing, and the transaction that
      records an observation. [Recorders]: concurrent recordings statement by statement under
      [RELATION_LOCK], the other instance of [Locks].
    - [CaptureResolution] (capture_resolution.rs): a resolver pass - claim, attempt, classify, retry,
      terminal report - and the polling loop around passes. [Claims]: the claims of concurrent passes
      statement by statement, with the row locks of [for update skip locked].
    - [MediaRetention] (media_retention.rs): the policy that leases a media fetch, the archival of
      fetched bytes, and the deletion tasks of unreferenced objects.
    - [AccountSync] (account_sync.rs): one page of the official listing per call.
    - [Knowledge] (knowledge.rs): completion facts and their links to source revisions.
      [Completions]: recordings of such facts statement by statement, with owners' withdrawals in between.
    - [ReResolution] (re_resolution.rs): selection of candidates and request budgets.
    - [RemovalAck] (removal_acknowledgement.rs), [OutboxRelay] (outbox_relay.rs) and
      [DeletionAcks] (deletion_acks.rs): the state machine of removals, the pump that
      publishes the outbox, and the consumer of Knowledge's answers.
    - [Inventory] (privacy_deletion/inventory.rs): the owned data classes with their target-specific
      dispositions. [PrivacyDeletion] (privacy_deletion.rs): preview, plan, the deleting transaction
      with every foreign key, the audit rows and the replay of an operation. [OwnerErasure]: what a
      deletion does, as relations between the tables before and after, and its theorems.
    - [ExportArchive] (data_export_archive.rs): inspection, extraction and parsing of an export
      archive against its limits. [DataExport] (data_export.rs): receipts, the reconciling
      transaction and the completeness report. [Reprocessing] (data_export_reprocessing.rs): the plan
      of a reprocessing, its fingerprint, and its application in chunks.
    - [OAuth] (oauth.rs): credential envelopes, the lifecycle of an official connection, budgets and
      capabilities.
    - [Config] (config.rs): loading and validation of the environment.
    - [System]: the steps of all components on one [World] ([service_step]) and the invariant they keep.
      [Archive]: the same steps with owner deletions among them and the at-most-once accounting left.
      [Intake]: deliveries, refusals and submissions statement by statement, an instance of [Arbiters],
      with the steps of [Archive] in between.
    - [BusWorker] (nats.rs): the durable's verification, the connection watch, the settlement of a
      command and the worker loop, which takes only steps of [service_step], as the other two loops do.
    - [Service]: [Runtime] (services/threads-archive/src/lib.rs: runtime facts, readiness, routes),
      [Process] (main.rs: boot stages, exit codes, supervision) and [Cli] (main.rs: reprocess-export).
    - [Disclosure] (the [Debug] implementations of config.rs and oauth.rs, the texts of main.rs): what
      check-config and the start print.
    - [Workers] (services/threads-archive/src/workers.rs, scheduler.rs, the end of main.rs): stop and
      completion channels, the supervised workers, the time an exit takes up to the drop of the runtime, the
      synchronization timer.
    - [Main] (main.rs, the connection of nats.rs): [Transport] (the broker identity), [Report] (the JSON
      of reprocess-export) and [Main] (from the arguments to the exit status, with the boot's stages
      answered by [Telemetry], [Database], [Transport] and [Config]).
    - [TestSupport] (test_support.rs, test_support/fake_oembed.rs): the fake endpoint and the disposable
      databases of the integration tests.

    Components call each other as the code does: [CaptureResolution.attempt_] calls
    [PublicResolution.resolve_and_record], which calls [RawObjects.store] and
    [Publishing.append_fact]; [BrowserCapture.deliver] and [CaptureResolution.report] call
    [Reporting.append_report]; the pump sends what all of them append. [PrivacyDeletion.apply] appends
    removals through [Publishing.append_removal], [DataExport.reconcile] records facts through
    [Publishing.append_export_fact], [BusWorker.run_loop] alternates [BrowserCapture.deliver] with
    [OutboxRelay.flush_outbox], [Service.Process.boot] starts what [Config.load] accepted, and
    [Service.Cli.run_reprocess_export] plans from the records an import left.

    ** What the theorems show

    - Texts: the permalink parser accepts exactly its documented grammar, its canonical form is
      a fixed point and identifies posts, and each refusal names a rule that is broken; the
      relation-kind grammar equals the CHECK of the schema.
    - Reply graph: the search terminates and answers exactly whether a cycle exists; recording
      keeps the stored replies acyclic, also when recordings of several processes interleave.
    - Concurrency: in every interleaving of statements the schema is applied once, recordings keep the
      reply graph acyclic, and claims of one capture are at least a lease apart as long as no pass
      outlives its lease. Concurrent deliveries, refusals and submissions leave the tables of a serial
      run of the same calls in the order of their commits and never block each other for good; a completion link has its event and
      an exact revision of its tenant however recordings and withdrawals interleave.
    - Exactly once: commands are answered once under redelivery and lost answers; a capture has
      one terminal report however passes are cut short; submission and publication are
      idempotent.
    - Atomicity: recordings, observations, synchronized pages and completion links take effect
      completely or not at all; raw evidence is never overwritten, media is archived only as
      authorized, and a deletion task removes exactly its unreferenced object.
    - Budgets: a re-resolution run never exceeds its ceilings, and selection admits exactly the
      live, due and retryable captures.
    - Delivery: the pump changes no event, sends only what it may, deals with every due row that has fewer than 1024 failed attempts, and
      a removal stays due until an answer to exactly it arrives; answers change exactly the
      row they name; the waits of all three schedules are given in closed form.
    - Composition: every interleaving of the components' steps keeps the service's invariant, the
      three worker loops take only those steps; the bus worker handles its events in order, ends for
      the reasons it names, and a settled command is one that is recorded and reported; with owner deletions among the steps commands and captures keep at most one report.
    - Owner deletion: complete or without effect under every failure, isolated from what others
      hold, retracted downstream until answered, and answered from its audit when repeated; the
      plan of a preview is the plan that is applied.
    - Exports: inspection is equivalent to the limits, extraction stays below its root, an import is
      all or nothing, receipts and finished imports replay, and the chunked reprocessing refines a
      counter and reaches its end; the command-line run composes them.
    - Credentials: envelopes open exactly for what sealed them; accounts are connected with one
      readable grant or revoked with none; a revocation scrubs.
    - Process: accepted configurations are well formed, the report of an environment is exact and
      independent of its order, boot and supervision have the documented exit codes, and readiness
      agrees with its report; a lost worker is always noticed, an exit takes bounded time once the running
      file operations end, the status is
      determined by arguments, configuration and host (101 for a panic), and the printed report loses nothing. What
      check-config and the start print depends neither on the database URL they accept nor on which value
      a rule refuses.
    - Telemetry: the metric surface is closed and its counters are exact; it is installed once.
    - Test support: the fake endpoint reads a request however it is cut into pieces and answers in
      order; a created database is gone after its cleanup and no other is touched.
    - Error theorems state behaviours of the code that lose work: content that returns to an
      earlier digest, permalinks known under two identities, stored cycles, Telegram captures,
      interrupted raw writes, second commands for one key, backoffs that overflow, evidence
      deleted between its store and its recording, imports that interleave, accounts that cannot
      be connected again, commands acknowledged before their report was sent, and passes that
      outlive their lease and schedule over the claim of another.

    ** Conventions and bounds

    Theorems quantify over every [Env], that is over every pattern of failures, unless they name
    [Healthy] (every round trip is answered) or a condition on single steps. The fuel of
    [RelationGraph.visits_cycle] is one unit per node, which [visits_cycle_spec] proves enough;
    [ExportArchive.copy_bounded] recurses on the chunks a reader returns, [Reprocessing.apply_chunks]
    on the number of calls, and the worker loops on the list of events they see, whose length is
    universally quantified; all other recursion is structural. Integers that are stored or computed at a width are in
    [Z] with the operation's own overflow (saturation, checked addition, the [integer] columns'
    range, the double-precision [power]). Strings are byte strings. Times are microseconds.

    Code outside the repository is a parameter: the contract crates ([Publishing.Contracts],
    [Reporting.ReportContracts], [BrowserCapture.CommandCodec], [DeletionAcks.AckCodec]), HTTP,
    URL and JSON parsing ([PublicResolution.Web]), the zip library ([ExportArchive.ZipLibrary]), the
    AEAD cipher ([OAuth.Aead]), the database driver's URL parser ([Config.PgUrl]), UUID parsing
    ([Service.Cli.UuidText]), the standard library's quoting ([Disclosure.DebugText]), the NATS client
    ([Main.Transport.Broker]), what the host answers a process ([Main.Main.Host]), SHA-256 and UUIDs ([Store.Env]). Laws used of them are classes of
    their own ([ZipLaws], [AeadLaws], [ReportLaws], [DigestWidth]) with an instance.

    ** Not modelled

    Statements of concurrent transactions interleave in [Database], [Recorders] and [Claims], where the
    code takes a lock to order them, and in [Intake] and [Completions], where they meet at unique keys;
    elsewhere a transaction body runs on the tables it started with. The transactions [Intake] and
    [Completions] do not spell out commit in one step and leave alone the rows an open transaction has
    locked, as PostgreSQL makes them wait.
    [Recorders] supposes of other transactions that they add no reply; data export and account
    synchronization do, and take no lock (see [PublicResolution.stored_cycle_refuses_all]). Of two
    source revisions observed at the same instant [Publishing.newest_digest] takes a fixed one, where
    PostgreSQL may take either. Log
    lines other than the start's, and the formatter behind them; the connection pool, the broker client
    and HTTP, which are parameters; the bytes of the JSON answers of the operator plane; how the operating
    system delivers signals; accessors and constructors that only move fields. The accounting of [System] is exactly
    once and about runs without an owner deletion, which deletes captures and queued reports of its
    target; [Archive] has the runs with deletions, under the condition that identifiers are not reused. *)
From stdpp Require Export prelude strings gmap sorting.
From Stdlib Require Export Ascii.
From Stdlib Require Export Lia ZifyBool.

(** Shared vocabulary of the development: Rust's [Result], the string and
    integer primitives of the Rust standard library the sources use, and the
    automation of the other files. *)

Declare Scope rust_scope.
Delimit Scope rust_scope with rust.

(** Rust's [Result<A, E>]. *)
Inductive Result (E A : Type) : Type :=
| Ok (a : A)
| Err (e : E).
Arguments Ok {E A} a.
Arguments Err {E A} e.

Definition result_bind {E A B} (r : Result E A) (k : A -> Result E B) : Result E B :=
  match r with
  | Ok a => k a
  | Err e => Err e
  end.

(** [let? x := r in k] is the [?] operator: the error is returned early. *)
Notation "'let?' x ':=' r 'in' k" := (result_bind r (fun x => k))
  (at level 10, x pattern, r at level 100, k at level 200) : rust_scope.

Definition map_err {E F A} (f : E -> F) (r : Result E A) : Result F A :=
  match r with Ok a => Ok a | Err e => Err (f e) end.

Definition ok_or {E A} (o : option A) (e : E) : Result E A :=
  match o with Some a => Ok a | None => Err e end.

Lemma ok_or_Ok {E A} (o : option A) (e : E) a : ok_or o e = Ok a -> o = Some a.
Proof. by destruct o; intros; simplify_eq/=. Qed.

Definition is_ok {E A} (r : Result E A) : bool :=
  match r with Ok _ => true | Err _ => false end.

(** * Machine integers: values in [Z] with the operations' own overflow rules. *)

Section Integers.
Local Open Scope Z_scope.

Definition u32_max : Z := 2 ^ 32 - 1.
Definition u64_max : Z := 2 ^ 64 - 1.
Definition i32_max : Z := 2 ^ 31 - 1.
Definition i64_max : Z := 2 ^ 63 - 1.

Definition checked_add (max a b : Z) : option Z :=
  if a + b <=? max then Some (a + b) else None.

Definition saturating_add (max a b : Z) : Z := Z.min (a + b) max.
Definition saturating_sub (a b : Z) : Z := Z.max (a - b) 0.
Definition saturating_mul (max a b : Z) : Z := Z.min (a * b) max.
Definition saturating_pow (max a n : Z) : Z := Z.min (a ^ n) max.

Lemma checked_add_Some max a b c :
  checked_add max a b = Some c <-> c = a + b /\ a + b <= max.
Proof. unfold checked_add. case_match; split; intros; simplify_eq; try lia; f_equal; lia. Qed.

Lemma checked_add_None max a b :
  checked_add max a b = None <-> max < a + b.
Proof. unfold checked_add. case_match; split; intros; simplify_eq; try lia; f_equal; lia. Qed.
End Integers.

(** * Bytes and strings: a Rust [str] is the byte string of its UTF-8 form. *)

Definition byte_val (c : ascii) : Z := Z.of_N (N_of_ascii c).

Definition in_range (lo hi : ascii) (c : ascii) : bool :=
  ((byte_val lo <=? byte_val c) && (byte_val c <=? byte_val hi))%Z.

Definition is_ascii_lowercase (c : ascii) : bool := in_range "a" "z" c.
Definition is_ascii_uppercase (c : ascii) : bool := in_range "A" "Z" c.
Definition is_ascii_digit (c : ascii) : bool := in_range "0" "9" c.
Definition is_ascii_byte (c : ascii) : bool := (byte_val c <? 128)%Z.

(** [u8::to_ascii_lowercase]. *)
Definition byte_to_lower (c : ascii) : ascii :=
  if is_ascii_uppercase c then ascii_of_N (N_of_ascii c + 32) else c.

Fixpoint str_all (p : ascii -> bool) (s : string) : bool :=
  match s with
  | EmptyString => true
  | String c s' => p c && str_all p s'
  end.

Fixpoint str_map (f : ascii -> ascii) (s : string) : string :=
  match s with
  | EmptyString => EmptyString
  | String c s' => String (f c) (str_map f s')
  end.

Definition to_ascii_lowercase (s : string) : string := str_map byte_to_lower s.

Definition eq_ignore_ascii_case (s t : string) : bool :=
  bool_decide (to_ascii_lowercase s = to_ascii_lowercase t).

(** [str::is_ascii]. *)
Definition is_ascii (s : string) : bool := str_all is_ascii_byte s.

(** [str::contains] with a [char] pattern. *)
Definition contains (c : ascii) (s : string) : bool :=
  negb (str_all (fun d => negb (bool_decide (d = c))) s).

(** [str::strip_prefix]. *)
Fixpoint strip_prefix (p s : string) : option string :=
  match p, s with
  | EmptyString, _ => Some s
  | String c p', String d s' => if decide (c = d) then strip_prefix p' s' else None
  | String _ _, EmptyString => None
  end.

Definition starts_with (p s : string) : bool := bool_decide (is_Some (strip_prefix p s)).

(** [str::split_once]: around the first occurrence of the pattern. *)
Fixpoint split_once (pat s : string) : option (string * string) :=
  match strip_prefix pat s with
  | Some rest => Some (EmptyString, rest)
  | None =>
      match s with
      | EmptyString => None
      | String c s' =>
          match split_once pat s' with
          | Some (before, after) => Some (String c before, after)
          | None => None
          end
      end
  end.

(** [str::rsplit_once] with a [char] pattern: around its last occurrence. *)
Fixpoint rsplit_once (c : ascii) (s : string) : option (string * string) :=
  match s with
  | EmptyString => None
  | String d s' =>
      match rsplit_once c s' with
      | Some (before, after) => Some (String d before, after)
      | None => if decide (d = c) then Some (EmptyString, s') else None
      end
  end.

Definition ends_with (suffix s : string) : bool :=
  let n := String.length s - String.length suffix in
  (String.length suffix <=? String.length s)
  && bool_decide (String.substring n (String.length suffix) s = suffix).

(** The ASCII members of White_Space: tab to carriage return, and space. *)
Definition is_ascii_space (c : ascii) : bool :=
  let b := byte_val c in (((9 <=? b) && (b <=? 13)) || (b =? 32))%Z.

Fixpoint trim_start (s : string) : string :=
  match s with
  | EmptyString => EmptyString
  | String c s' => if is_ascii_space c then trim_start s' else s
  end.

Fixpoint trim_end (s : string) : string :=
  match s with
  | EmptyString => EmptyString
  | String c s' =>
      match trim_end s' with
      | EmptyString => if is_ascii_space c then EmptyString else String c EmptyString
      | t => String c t
      end
  end.

(** [str::trim] of a text whose white space is ASCII. *)
Definition trim (s : string) : string := trim_end (trim_start s).

(** [str::trim_end_matches] with a [char] pattern. *)
Fixpoint trim_end_matches (c : ascii) (s : string) : string :=
  match s with
  | EmptyString => EmptyString
  | String d s' =>
      match trim_end_matches c s' with
      | EmptyString => if decide (d = c) then EmptyString else String d EmptyString
      | t => String d t
      end
  end.

(** [str::split] with a [char] pattern: always at least one piece. *)
Fixpoint split_char (c : ascii) (s : string) : list string :=
  match s with
  | EmptyString => [EmptyString]
  | String d s' =>
      if decide (d = c) then EmptyString :: split_char c s'
      else match split_char c s' with
           | piece :: rest => String d piece :: rest
           | [] => [String d EmptyString]
           end
  end.

(** [str::chars]: the code points of a UTF-8 string, decoded the way
    [core::str::validations::next_code_point] does. *)
Fixpoint chars_fuel (fuel : nat) (s : string) : list Z :=
  match fuel with
  | O => []
  | S fuel =>
      match s with
      | EmptyString => []
      | String x s1 =>
          let bx := byte_val x in
          if (bx <? 128)%Z then bx :: chars_fuel fuel s1
          else
            match s1 with
            | EmptyString => []
            | String y s2 =>
                let cont (acc : Z) (b : ascii) := Z.lor (Z.shiftl acc 6) (Z.land (byte_val b) 63) in
                let y' := Z.land (byte_val y) 63 in
                if (bx <? 224)%Z then
                  Z.lor (Z.shiftl (Z.land bx 31) 6) y' :: chars_fuel fuel s2
                else
                  match s2 with
                  | EmptyString => []
                  | String z s3 =>
                      let yz := cont y' z in
                      if (bx <? 240)%Z then
                        Z.lor (Z.shiftl (Z.land bx 31) 12) yz :: chars_fuel fuel s3
                      else
                        match s3 with
                        | EmptyString => []
                        | String w s4 =>
                            Z.lor (Z.shiftl (Z.land bx 7) 18) (cont yz w) :: chars_fuel fuel s4
                        end
                  end
            end
      end
  end.

Definition chars (s : string) : list Z := chars_fuel (String.length s) s.

(** * Lemmas on strings *)

Ltac ascii_cases c :=
  destruct c as [[] [] [] [] [] [] [] []].

#[global] Arguments String.append !_ _ / : simpl nomatch.

Lemma append_nil_r s : s +:+ "" = s.
Proof. induction s; simpl; congruence. Qed.

Lemma append_assoc s t u : (s +:+ t) +:+ u = s +:+ (t +:+ u).
Proof. induction s; simpl; congruence. Qed.

Lemma length_append s t : String.length (s +:+ t) = String.length s + String.length t.
Proof. induction s; simpl; congruence. Qed.

Lemma append_inj_l s t u : s +:+ t = s +:+ u -> t = u.
Proof. induction s; simpl; intros; simplify_eq; auto. Qed.

Lemma str_all_append p s t : str_all p (s +:+ t) = str_all p s && str_all p t.
Proof. induction s as [|c s IH]; simpl; [done|]. by rewrite IH, andb_assoc. Qed.

Lemma str_all_mono (p q : ascii -> bool) s :
  (forall c, p c = true -> q c = true) -> str_all p s = true -> str_all q s = true.
Proof.
  intros Hpq. induction s as [|c s IH]; simpl; [done|].
  rewrite !andb_true_iff. intros [Hc Hs]; auto.
Qed.

Lemma to_ascii_lowercase_append s t :
  to_ascii_lowercase (s +:+ t) = to_ascii_lowercase s +:+ to_ascii_lowercase t.
Proof. unfold to_ascii_lowercase. induction s; simpl; congruence. Qed.

Lemma length_to_ascii_lowercase s :
  String.length (to_ascii_lowercase s) = String.length s.
Proof. unfold to_ascii_lowercase. induction s; simpl; congruence. Qed.

Lemma byte_to_lower_idemp c : byte_to_lower (byte_to_lower c) = byte_to_lower c.
Proof. ascii_cases c; reflexivity. Qed.

Lemma to_ascii_lowercase_idemp s :
  to_ascii_lowercase (to_ascii_lowercase s) = to_ascii_lowercase s.
Proof.
  unfold to_ascii_lowercase. induction s; simpl; [done|].
  by rewrite byte_to_lower_idemp, IHs.
Qed.

Lemma contains_append c s t : contains c (s +:+ t) = contains c s || contains c t.
Proof. unfold contains. by rewrite str_all_append, negb_andb. Qed.

Lemma contains_cons c d s : contains c (String d s) = bool_decide (d = c) || contains c s.
Proof. unfold contains; simpl. by rewrite negb_andb, negb_involutive. Qed.

(** A byte refused by [p] does not occur in a string all of whose bytes pass [p]. *)
Lemma str_all_not_contains p c s :
  str_all p s = true -> p c = false -> contains c s = false.
Proof.
  intros Hall Hc. induction s as [|d s IH]; [done|].
  simpl in Hall. apply andb_true_iff in Hall as [Hd Hs].
  rewrite contains_cons, (IH Hs), orb_false_r.
  apply bool_decide_eq_false. by intros ->; congruence.
Qed.

Lemma strip_prefix_Some p s t : strip_prefix p s = Some t <-> s = p +:+ t.
Proof.
  revert s. induction p as [|c p IH]; intros [|d s]; simpl.
  1-3: by split; intros; simplify_eq.
  case_decide; subst; [rewrite IH|]; split; intros; by simplify_eq.
Qed.

Lemma strip_prefix_append p s : strip_prefix p (p +:+ s) = Some s.
Proof. by apply strip_prefix_Some. Qed.

Lemma starts_with_true p s : starts_with p s = true <-> exists t, s = p +:+ t.
Proof.
  unfold starts_with. rewrite bool_decide_eq_true. unfold is_Some.
  split; intros [t Ht]; exists t; by apply strip_prefix_Some.
Qed.

Lemma split_once_Some_eq pat s a b :
  split_once pat s = Some (a, b) -> s = a +:+ pat +:+ b.
Proof.
  revert a. induction s as [|c s IH]; intros a; simpl.
  - destruct (strip_prefix pat "") eqn:E; intros; simplify_eq.
    by apply strip_prefix_Some in E.
  - destruct (strip_prefix pat (String c s)) eqn:E.
    + intros; simplify_eq. by apply strip_prefix_Some in E.
    + destruct (split_once pat s) as [[x y]|]; intros; simplify_eq; simpl.
      by rewrite (IH x).
Qed.

(** Splitting at a one-byte pattern: the part before it does not contain the byte. *)
Lemma split_once_char_before c s a b :
  split_once (String c "") s = Some (a, b) -> contains c a = false.
Proof.
  revert a. induction s as [|d s IH]; intros a; simpl; [done|].
  case_decide as Hcd; [by intros; simplify_eq|].
  destruct (split_once _ s) as [[x y]|]; intros; simplify_eq.
  rewrite contains_cons, (IH x), orb_false_r by done.
  apply bool_decide_eq_false. by intros ->.
Qed.

Lemma split_once_char_None c s :
  split_once (String c "") s = None <-> contains c s = false.
Proof.
  induction s as [|d s IH]; simpl; [done|].
  rewrite contains_cons. case_decide as Hcd.
  - subst. rewrite bool_decide_eq_true_2 by done. by split.
  - rewrite bool_decide_eq_false_2 by congruence. simpl. rewrite <- IH.
    destruct (split_once _ s) as [[]|]; split; done.
Qed.

(** A first occurrence is found after a part that lacks the pattern's first byte. *)
Lemma split_once_append c pat a b :
  contains c a = false ->
  split_once (String c pat) (a +:+ String c (pat +:+ b)) = Some (a, b).
Proof.
  induction a as [|d a IH]; simpl.
  - intros _. rewrite decide_True by done. by rewrite strip_prefix_append.
  - rewrite contains_cons, orb_false_iff, bool_decide_eq_false. intros [Hd Ha].
    rewrite decide_False by congruence. by rewrite IH.
Qed.

Lemma split_once_None pat s a b : split_once pat s = None -> s <> a +:+ pat +:+ b.
Proof.
  revert s. induction a as [|c a IH]; intros s; simpl.
  - intros H ->. destruct (pat +:+ b) eqn:E; simpl in H; rewrite <- E in H;
      by rewrite strip_prefix_append in H.
  - intros H ->. simpl in H. destruct (strip_prefix pat _); [done|].
    destruct (split_once pat (a +:+ pat +:+ b)) as [[]|] eqn:E; [done|].
    by apply (IH _ E).
Qed.

Lemma rsplit_once_None c s : rsplit_once c s = None <-> contains c s = false.
Proof.
  induction s as [|d s IH]; simpl; [done|].
  rewrite contains_cons. destruct (rsplit_once c s) as [[]|] eqn:E.
  - split; [done|]. rewrite orb_false_iff. intros [_ H].
    apply IH in H. congruence.
  - rewrite (proj1 IH eq_refl), orb_false_r. case_decide.
    + subst. by rewrite bool_decide_eq_true_2.
    + by rewrite bool_decide_eq_false_2.
Qed.

Lemma rsplit_once_Some c s a b :
  rsplit_once c s = Some (a, b) <-> s = a +:+ String c b /\ contains c b = false.
Proof.
  revert a b. induction s as [|d s IH]; intros a b; simpl.
  - split; [done|]. by destruct a as [|? ?]; intros [? _].
  - destruct (rsplit_once c s) as [[x y]|] eqn:E.
    + assert (s = x +:+ String c y /\ contains c y = false) as [Es Ey] by (by apply IH).
      split.
      * intros; simplify_eq. done.
      * intros [Heq Hb]. destruct a as [|a0 a]; simpl in *; simplify_eq.
        -- exfalso. apply rsplit_once_None in Hb. congruence.
        -- assert (Some (x, y) = Some (a, b)) by (by apply IH). congruence.
    + apply rsplit_once_None in E. case_decide; subst.
      * split; [intros; simplify_eq; done|]. intros [Heq Hb].
        destruct a as [|a0 a]; simpl in Heq; [by injection Heq as ->|].
        injection Heq as _ Heq. rewrite Heq, contains_append, contains_cons in E.
        rewrite bool_decide_eq_true_2 in E by done. by destruct (contains c a).
      * split; [done|]. intros [Heq Hb].
        destruct a as [|a0 a]; simpl in Heq; [by injection Heq as -> ->|].
        injection Heq as _ Heq. rewrite Heq, contains_append, contains_cons in E.
        rewrite bool_decide_eq_true_2 in E by done. by destruct (contains c a).
Qed.

(** A string made of the byte [c] only, and nothing else. *)
Definition only_byte (c : ascii) (s : string) : bool := str_all (fun d => bool_decide (d = c)) s.

Lemma trim_end_matches_split c s :
  exists slashes, s = trim_end_matches c s +:+ slashes /\ only_byte c slashes = true.
Proof.
  induction s as [|d s (sl & Hs & Hall)]; [by exists ""|]. simpl.
  destruct (trim_end_matches c s) as [|e t] eqn:E; simpl in *.
  - case_decide; subst.
    + exists (String c sl). split; [done|]. unfold only_byte in *. simpl.
      by rewrite bool_decide_eq_true_2, Hall.
    + by exists sl.
  - exists sl. split; [|done]. by rewrite Hs at 1.
Qed.

Lemma trim_end_matches_only c s : only_byte c s = true -> trim_end_matches c s = "".
Proof.
  unfold only_byte. induction s as [|d s IH]; simpl; [done|].
  rewrite andb_true_iff, bool_decide_eq_true. intros [-> H].
  rewrite (IH H). by rewrite decide_True.
Qed.

Lemma trim_end_matches_append c s sl :
  contains c s = false -> only_byte c sl = true -> trim_end_matches c (s +:+ sl) = s.
Proof.
  intros Hs Hsl. induction s as [|d s IH]; simpl; [by apply trim_end_matches_only|].
  rewrite contains_cons, orb_false_iff, bool_decide_eq_false in Hs.
  destruct Hs as [Hd Hs]. rewrite (IH Hs).
  destruct s; [by rewrite decide_False|done].
Qed.

Lemma chars_fuel_ascii n s :
  is_ascii s = true -> String.length s <= n -> length (chars_fuel n s) = String.length s.
Proof.
  revert n. induction s as [|c s IH]; intros [|n]; simpl; try done; try lia.
  unfold is_ascii in *. simpl. rewrite andb_true_iff. intros [Hc Hs] Hn.
  unfold is_ascii_byte in Hc. rewrite Hc. simpl. rewrite IH; [done|done|lia].
Qed.

Lemma length_chars_ascii s : is_ascii s = true -> length (chars s) = String.length s.
Proof. intros H. by apply chars_fuel_ascii. Qed.

(** A Rust [str] is always valid UTF-8: no overlong forms, surrogates or
    truncated sequences. *)
Definition cont_byte (c : ascii) : bool := ((128 <=? byte_val c) && (byte_val c <? 192))%Z.

Fixpoint valid_utf8_fuel (fuel : nat) (s : string) : bool :=
  match fuel with
  | O => bool_decide (s = EmptyString)
  | S fuel =>
      match s with
      | EmptyString => true
      | String x s1 =>
          let bx := byte_val x in
          if (bx <? 128)%Z then valid_utf8_fuel fuel s1
          else if (bx <? 194)%Z then false
          else
            match s1 with
            | EmptyString => false
            | String y s2 =>
                let by_ := byte_val y in
                if (bx <? 224)%Z then cont_byte y && valid_utf8_fuel fuel s2
                else
                  match s2 with
                  | EmptyString => false
                  | String z s3 =>
                      if (bx <? 240)%Z then
                        cont_byte y && cont_byte z
                        && ((if (bx =? 224) then 160 <=? by_ else true)
                            && (if (bx =? 237) then by_ <? 160 else true))%Z
                        && valid_utf8_fuel fuel s3
                      else
                        match s3 with
                        | EmptyString => false
                        | String w s4 =>
                            cont_byte y && cont_byte z && cont_byte w
                            && ((if (bx =? 240) then 144 <=? by_ else true)
                                && (if (bx =? 244) then by_ <? 144 else true)
                                && (bx <=? 244))%Z
                            && valid_utf8_fuel fuel s4
                        end
                  end
            end
      end
  end.

Definition valid_utf8 (s : string) : bool := valid_utf8_fuel (String.length s) s.

(** The ASCII strings among the valid ones are those whose code points are below 128. *)
Section Utf8.
Local Open Scope Z_scope.

Lemma byte_val_range c : 0 <= byte_val c < 256.
Proof. ascii_cases c; vm_compute; intuition congruence. Qed.

Lemma lor_ge_l a b : 0 <= a -> 0 <= b -> a <= Z.lor a b.
Proof.
  intros Ha Hb. pose proof (Z.add_lor_land a b) as E.
  assert (Z.land a b <= b); [|lia].
  apply Z.ldiff_le; [done|].
  apply Z.bits_inj'. intros i Hi.
  rewrite Z.ldiff_spec, Z.land_spec, Z.bits_0.
  by destruct (Z.testbit b i), (Z.testbit a i).
Qed.

Lemma lor_ge_r a b : 0 <= a -> 0 <= b -> b <= Z.lor a b.
Proof. intros. rewrite Z.lor_comm. by apply lor_ge_l. Qed.

Lemma land_nonneg_l a b : 0 <= a -> 0 <= Z.land a b.
Proof. intros. apply Z.land_nonneg. by left. Qed.

Lemma shiftl_lor_ge a b k m :
  0 <= a -> 0 <= b -> 0 <= k -> m <= a * 2 ^ k -> m <= Z.lor (Z.shiftl a k) b.
Proof.
  intros. rewrite Z.shiftl_mul_pow2 by done.
  pose proof (lor_ge_l (a * 2 ^ k) b). lia.
Qed.

Lemma lead2_ge x : 194 <= byte_val x < 224 -> 2 <= Z.land (byte_val x) 31.
Proof. ascii_cases x; vm_compute; intuition congruence. Qed.

Lemma lead3_ge x : 224 < byte_val x < 240 -> 1 <= Z.land (byte_val x) 31.
Proof. ascii_cases x; vm_compute; intuition congruence. Qed.

Lemma lead4_ge x : 240 < byte_val x <= 244 -> 1 <= Z.land (byte_val x) 7.
Proof. ascii_cases x; vm_compute; intuition congruence. Qed.

Lemma second_ge y : 144 <= byte_val y < 192 -> 16 <= Z.land (byte_val y) 63.
Proof. ascii_cases y; vm_compute; intuition congruence. Qed.

Lemma chars_fuel_below_128 n s :
  valid_utf8_fuel n s = true -> Forall (fun c => c < 128) (chars_fuel n s) ->
  is_ascii s = true.
Proof.
  revert s. induction n as [|n IH]; intros s; cbn [valid_utf8_fuel chars_fuel].
  { intros Hs%bool_decide_eq_true _. by subst. }
  destruct s as [|x s1]; [done|].
  pose proof (byte_val_range x) as Rx.
  destruct (Z.ltb_spec (byte_val x) 128).
  { intros Hv [_ Hf]%Forall_cons. unfold is_ascii; simpl.
    fold (is_ascii s1). rewrite (IH s1) by done.
    unfold is_ascii_byte. rewrite andb_true_r. lia. }
  destruct (Z.ltb_spec (byte_val x) 194); [done|].
  destruct s1 as [|y s2]; [done|]. pose proof (byte_val_range y) as Ry.
  pose proof (land_nonneg_l (byte_val y) 63 ltac:(lia)).
  destruct (Z.ltb_spec (byte_val x) 224).
  { intros _ [Hc _]%Forall_cons. exfalso. pose proof (lead2_ge x ltac:(lia)).
    pose proof (shiftl_lor_ge (Z.land (byte_val x) 31) (Z.land (byte_val y) 63) 6 128). lia. }
  destruct s2 as [|z s3]; [done|]. pose proof (byte_val_range z) as Rz.
  pose proof (land_nonneg_l (byte_val z) 63 ltac:(lia)).
  pose proof (land_nonneg_l (byte_val x) 31 ltac:(lia)).
  pose proof (land_nonneg_l (byte_val x) 7 ltac:(lia)).
  set (yz := Z.lor (Z.shiftl (Z.land (byte_val y) 63) 6) (Z.land (byte_val z) 63)) in *.
  assert (Z.land (byte_val y) 63 * 64 <= yz)
    by (apply (shiftl_lor_ge (Z.land (byte_val y) 63) (Z.land (byte_val z) 63) 6); lia).
  destruct (Z.ltb_spec (byte_val x) 240).
  { rewrite !andb_true_iff. unfold cont_byte. intros [[[Hy Hz] Hb] _] [Hc _]%Forall_cons.
    exfalso. destruct Hb as [Hb _]. destruct (Z.eqb_spec (byte_val x) 224) as [Ex|Ex].
    - pose proof (second_ge y ltac:(lia)).
      assert (0 <= Z.shiftl (Z.land (byte_val x) 31) 12) by (apply Z.shiftl_nonneg; lia).
      pose proof (lor_ge_r (Z.shiftl (Z.land (byte_val x) 31) 12) yz). lia.
    - pose proof (lead3_ge x ltac:(lia)).
      pose proof (shiftl_lor_ge (Z.land (byte_val x) 31) yz 12 128). lia. }
  destruct s3 as [|w s4]; [done|]. pose proof (byte_val_range w) as Rw.
  pose proof (land_nonneg_l (byte_val w) 63 ltac:(lia)).
  set (yzw := Z.lor (Z.shiftl yz 6) (Z.land (byte_val w) 63)) in *.
  assert (yz * 64 <= yzw) by (apply (shiftl_lor_ge yz (Z.land (byte_val w) 63) 6); lia).
  rewrite !andb_true_iff. unfold cont_byte. intros [[[[Hy Hz] Hw] Hb] _] [Hc _]%Forall_cons.
  exfalso. destruct Hb as [[Hb _] Hb4]. destruct (Z.eqb_spec (byte_val x) 240) as [Ex|Ex].
  - pose proof (second_ge y ltac:(lia)).
    assert (0 <= Z.shiftl (Z.land (byte_val x) 7) 18) by (apply Z.shiftl_nonneg; lia).
    pose proof (lor_ge_r (Z.shiftl (Z.land (byte_val x) 7) 18) yzw). lia.
  - pose proof (lead4_ge x ltac:(lia)).
    pose proof (shiftl_lor_ge (Z.land (byte_val x) 7) yzw 18 128). lia.
Qed.

Lemma chars_fuel_ascii_bytes n s :
  is_ascii s = true -> (String.length s <= n)%nat ->
  chars_fuel n s = byte_val <$> String.list_ascii_of_string s.
Proof.
  revert n. induction s as [|c s IH]; intros [|n]; try done; simpl; try lia.
  unfold is_ascii in *. simpl. rewrite andb_true_iff. intros [Hc Hs] Hn.
  unfold is_ascii_byte in Hc. rewrite Hc. rewrite IH; [done|done|lia].
Qed.
End Utf8.

(** * Stable sorting, as Rust's [sort_by] and SQL's [order by] *)

Section SortBy.
Context {A : Type} (le : A -> A -> bool).

Fixpoint insert_by (x : A) (l : list A) : list A :=
  match l with
  | [] => [x]
  | y :: l' => if le x y then x :: l else y :: insert_by x l'
  end.

Fixpoint sort_by (l : list A) : list A :=
  match l with
  | [] => []
  | x :: l' => insert_by x (sort_by l')
  end.

Lemma insert_by_perm x l : insert_by x l ≡ₚ x :: l.
Proof.
  induction l as [|y l IH]; simpl; [done|]. destruct (le x y); [done|].
  rewrite IH. apply Permutation_swap.
Qed.

Lemma sort_by_perm l : sort_by l ≡ₚ l.
Proof. induction l as [|x l IH]; simpl; [done|]. by rewrite insert_by_perm, IH. Qed.

Lemma elem_of_sort_by x l : x ∈ sort_by l <-> x ∈ l.
Proof. by rewrite sort_by_perm. Qed.

Lemma length_sort_by l : length (sort_by l) = length l.
Proof. by rewrite sort_by_perm. Qed.

Context (Htotal : forall x y, le x y = true \/ le y x = true).
Context (Htrans : forall x y z, le x y = true -> le y z = true -> le x z = true).

Lemma sort_by_sorted l : StronglySorted (fun x y => le x y = true) (sort_by l).
Proof using Htotal Htrans.
  induction l as [|x l IH]; simpl; [constructor|].
  induction (sort_by l) as [|y l' IH']; simpl; [repeat constructor|].
  apply StronglySorted_inv in IH as [Hs Hall].
  destruct (le x y) eqn:E.
  - constructor; [by constructor|]. constructor; [done|].
    eapply Forall_impl; [exact Hall|]. eauto.
  - constructor; [by apply IH'|]. rewrite insert_by_perm. constructor; [|done].
    by destruct (Htotal x y) as [?|?]; [congruence|].
Qed.

(** Sorting has one outcome whatever order the rows arrive in. *)
Lemma sort_by_unique l l' : (forall x y, x ∈ l -> y ∈ l -> le x y = true -> le y x = true -> x = y) ->
  StronglySorted (fun x y => le x y = true) l -> l' ≡ₚ l -> sort_by l' = l.
Proof using Htotal Htrans.
  intros Hanti Hs Hp. apply (StronglySorted_unique_strong (fun x y => le x y = true)).
  - intros x y Hx Hy. apply Hanti; rewrite ?elem_of_sort_by, ?Hp in Hx; done.
  - apply sort_by_sorted.
  - done.
  - by rewrite sort_by_perm.
Qed.
End SortBy.

(** Lexicographic comparison on string keys, as tuples and derived [Ord] compare. *)
Section LexOrder.
Context {A : Type}.

Fixpoint lex_leb (keys : list (A -> string)) (x y : A) : bool :=
  match keys with
  | [] => true
  | k :: ks =>
      match String.compare (k x) (k y) with
      | Lt => true
      | Gt => false
      | Eq => lex_leb ks x y
      end
  end.

Lemma compare_trans_Lt s t u :
  String.compare s t = Lt -> String.compare t u = Lt -> String.compare s u = Lt.
Proof.
  revert t u. induction s as [|a s IH]; intros [|b t] [|c u]; simpl; try done.
  unfold Ascii.compare.
  destruct (N.compare_spec (N_of_ascii a) (N_of_ascii b)) as [E1|E1|E1]; try done;
  destruct (N.compare_spec (N_of_ascii b) (N_of_ascii c)) as [E2|E2|E2]; try done; intros H1 H2.
  - rewrite E1, E2, N.compare_refl. by eapply IH.
  - rewrite E1. by rewrite (proj2 (N.compare_lt_iff _ _) E2).
  - rewrite <- E2. by rewrite (proj2 (N.compare_lt_iff _ _) E1).
  - by rewrite (proj2 (N.compare_lt_iff _ _) (N.lt_trans _ _ _ E1 E2)).
Qed.

Lemma lex_leb_total keys x y : lex_leb keys x y = true \/ lex_leb keys y x = true.
Proof.
  induction keys as [|k ks IH]; simpl; [by left|].
  rewrite (String.compare_antisym (k x) (k y)).
  destruct (String.compare (k y) (k x)); simpl; auto.
Qed.

Lemma lex_leb_trans keys x y z :
  lex_leb keys x y = true -> lex_leb keys y z = true -> lex_leb keys x z = true.
Proof.
  induction keys as [|k ks IH]; simpl; [done|].
  destruct (String.compare (k x) (k y)) eqn:E1; [|destruct (String.compare (k y) (k z)) eqn:E2|done].
  - apply String.compare_eq_iff in E1. rewrite E1.
    destruct (String.compare (k y) (k z)) eqn:E2; auto.
  - apply String.compare_eq_iff in E2. rewrite <- E2, E1. done.
  - by rewrite (compare_trans_Lt _ _ _ E1 E2).
  - done.
Qed.

Lemma lex_leb_antisym keys x y :
  lex_leb keys x y = true -> lex_leb keys y x = true -> Forall (fun k => k x = k y) keys.
Proof.
  induction keys as [|k ks IH]; simpl; [constructor|]. rewrite (String.compare_antisym (k y)).
  destruct (String.compare (k x) (k y)) eqn:E; simpl; [|done|done].
  apply String.compare_eq_iff in E. constructor; auto.
Qed.

Lemma sort_by_lex_sorted keys l :
  StronglySorted (fun x y => lex_leb keys x y = true) (sort_by (lex_leb keys) l).
Proof. apply sort_by_sorted; eauto using lex_leb_total, lex_leb_trans. Qed.
End LexOrder.

Create HintDb rust.
Create Rewrite HintDb rust.
#[export] Hint Rewrite append_nil_r append_assoc length_append str_all_append
  to_ascii_lowercase_append length_to_ascii_lowercase contains_append contains_cons
  strip_prefix_append : rust.
#[export] Hint Resolve str_all_not_contains str_all_mono : rust.

Lemma elem_of_take_in {A} (x : A) n l : x ∈ take n l -> x ∈ l.
Proof. rewrite elem_of_take. intros (i & Hi & _). by apply list_elem_of_lookup_2 in Hi. Qed.

(** Case analysis on a [Result] produced by a chain of [let?]. *)
Ltac result_step :=
  match goal with
  | H : Ok _ = Ok _ |- _ => injection H as H; subst
  | H : Err _ = Err _ |- _ => injection H as H; subst
  | H : Ok _ = Err _ |- _ => discriminate H
  | H : Err _ = Ok _ |- _ => discriminate H
  | H : result_bind ?r _ = _ |- _ => destruct r eqn:?; simpl in H
  end.
