(* ===== verification/Locks.v ===== *)
(** Transactions that take one advisory lock (pg_advisory_xact_lock), interleaved statement by
    statement.

    The service guards two critical sections this way: the application of the schema
    (src/crates/threads-archive/src/database.rs) and the recording of reply relations
    (src/crates/threads-archive/src/public_resolution.rs). A [LockProtocol] says what the
    statements of such a transaction do before and after it holds the lock; PostgreSQL grants the
    lock to one transaction at a time and takes it back when that transaction ends. What a
    transaction writes is private to it until it commits, so the shared state is what is committed. *)
From S2P Require Import Prelude.

Module Locks.

(** A locking transaction over shared states [S] with private states [T]. *)
Record LockProtocol (S T : Type) := mk_protocol {
  pr_begin : T -> Prop;             (* the private state after [begin()] *)
  pr_outside : S -> T -> T -> Prop; (* a statement before the lock is held *)
  pr_enter : T -> T -> Prop;        (* the statement that waits for the lock returns *)
  pr_inside : S -> T -> T -> Prop;  (* a statement under the lock *)
  pr_commit : S -> T -> S -> Prop;  (* [commit()] *)
  pr_other : S -> S -> Prop;        (* a transaction that takes no lock commits *)
}.
Arguments mk_protocol {S T}.
Arguments pr_begin {S T}.
Arguments pr_outside {S T}.
Arguments pr_enter {S T}.
Arguments pr_inside {S T}.
Arguments pr_commit {S T}.
Arguments pr_other {S T}.

Inductive Thread (T : Type) := Outside (t : T) | Inside (t : T) | Ended.
Arguments Outside {T} t.
Arguments Inside {T} t.
Arguments Ended {T}.

Record Config (S T : Type) := mk_config {
  shared : S;
  holder : option nat;       (* the thread that holds the lock *)
  threads : list (Thread T);
}.
Arguments mk_config {S T}.
Arguments shared {S T}.
Arguments holder {S T}.
Arguments threads {S T}.

(** The lock when thread [i] ends. *)
Definition released (holder : option nat) (i : nat) : option nat :=
  if bool_decide (holder = Some i) then None else holder.

Section Protocol.
Context {S T : Type} (P : LockProtocol S T).

(** One statement of one transaction, or its end; any transaction may fail at any time. *)
Inductive step : Config S T -> Config S T -> Prop :=
| step_begin s h ts t : pr_begin P t -> step (mk_config s h ts) (mk_config s h (ts ++ [Outside t])%list)
| step_outside s h ts i t t' : ts !! i = Some (Outside t) -> pr_outside P s t t' ->
    step (mk_config s h ts) (mk_config s h (<[i := Outside t']> ts))
| step_acquire s ts i t t' : ts !! i = Some (Outside t) -> pr_enter P t t' ->
    step (mk_config s None ts) (mk_config s (Some i) (<[i := Inside t']> ts))
| step_inside s h ts i t t' : ts !! i = Some (Inside t) -> pr_inside P s t t' ->
    step (mk_config s h ts) (mk_config s h (<[i := Inside t']> ts))
| step_commit s h ts i t s' : ts !! i = Some (Inside t) -> pr_commit P s t s' ->
    step (mk_config s h ts) (mk_config s' (released h i) (<[i := Ended]> ts))
| step_abort s h ts i : step (mk_config s h ts) (mk_config s (released h i) (<[i := Ended]> ts))
| step_other s h ts s' : pr_other P s s' -> step (mk_config s h ts) (mk_config s' h ts).

(** What a protocol promises: [Out] holds before the lock whatever others commit; [In] holds under
    the lock and only has to survive the transactions that take no lock. *)
Class LockLaws (Inv : S -> Prop) (Out : T -> Prop) (In : S -> T -> Prop) : Prop := {
  law_begin t : pr_begin P t -> Out t;
  law_outside s t t' : Inv s -> Out t -> pr_outside P s t t' -> Out t';
  law_enter s t t' : Inv s -> Out t -> pr_enter P t t' -> In s t';
  law_inside s t t' : Inv s -> In s t -> pr_inside P s t t' -> In s t';
  law_commit s t s' : Inv s -> In s t -> pr_commit P s t s' -> Inv s';
  law_other s s' : Inv s -> pr_other P s s' -> Inv s' /\ forall t, In s t -> In s' t;
}.

Section Laws.
Context {Inv : S -> Prop} {Out : T -> Prop} {In : S -> T -> Prop} {Hlaws : LockLaws Inv Out In}.

(** The invariant of the interleaving: a thread under the lock is its holder. *)
Record protected (c : Config S T) : Prop := {
  pt_shared : Inv (shared c);
  pt_outside i t : threads c !! i = Some (Outside t) -> Out t;
  pt_inside i t : threads c !! i = Some (Inside t) -> holder c = Some i /\ In (shared c) t;
}.

Lemma released_other h i j : h = Some j -> i <> j -> released h i = Some j.
Proof. intros -> Hne. unfold released. rewrite bool_decide_eq_false_2; [done|congruence]. Qed.

(** Ending a thread keeps what is known of the others. *)
Lemma protected_end s h ts i :
  protected (mk_config s h ts) -> protected (mk_config s (released h i) (<[i := Ended]> ts)).
Proof.
  intros [Hs Ho Hi]. split; cbn in *; [done|..].
  - intros j t [(_ & [=] & _)|[_ Hj]]%list_lookup_insert_Some. eauto.
  - intros j t [(_ & [=] & _)|[Hne Hj]]%list_lookup_insert_Some. destruct (Hi _ _ Hj) as [Hh ?].
    split; [by apply released_other|done].
Qed.

(** A thread that stays outside. *)
Lemma protected_outside s h ts i t :
  protected (mk_config s h ts) -> Out t -> protected (mk_config s h (<[i := Outside t]> ts)).
Proof.
  intros [Hs Ho Hi] Ht. split; cbn in *; [done|..].
  - intros j u [(_ & [= <-] & _)|[_ Hj]]%list_lookup_insert_Some; eauto.
  - intros j u [(_ & [=] & _)|[_ Hj]]%list_lookup_insert_Some. eauto.
Qed.

(** A thread that is under the lock, as its holder. *)
Lemma protected_inside s h ts i t :
  protected (mk_config s h ts) -> h = None \/ h = Some i -> In s t ->
  protected (mk_config s (Some i) (<[i := Inside t]> ts)).
Proof.
  intros [Hs Ho Hi] Hh Ht. split; cbn in *; [done|..].
  - intros j u [(_ & [=] & _)|[_ Hj]]%list_lookup_insert_Some. eauto.
  - intros j u [(-> & [= <-] & _)|[Hne Hj]]%list_lookup_insert_Some; [done|].
    destruct (Hi _ _ Hj) as [? _]. destruct Hh; congruence.
Qed.

(** The committed state changes while nobody else is under the lock. *)
Lemma protected_commit s s' h ts i :
  protected (mk_config s h ts) -> h = Some i -> Inv s' ->
  protected (mk_config s' (released h i) (<[i := Ended]> ts)).
Proof.
  intros [Hs Ho Hi] -> Hs'. split; cbn in *; [done|..].
  - intros j t [(_ & [=] & _)|[_ Hj]]%list_lookup_insert_Some. eauto.
  - intros j t [(_ & [=] & _)|[Hne Hj]]%list_lookup_insert_Some.
    destruct (Hi _ _ Hj) as [? _]. congruence.
Qed.

(** Every step of every thread keeps the invariant. *)
Lemma step_protected c c' : step c c' -> protected c -> protected c'.
Proof.
  intros Hstep Hp. destruct Hstep as [s h ts t Hb|s h ts i t t' Hl Hb|s ts i t t' Hl Hb
    |s h ts i t t' Hl Hb|s h ts i t s' Hl Hb|s h ts i|s h ts s' Hb]; pose proof Hp as [Hs Ho Hi]; cbn in *.
  - split; cbn; [done|..]; intros j u [Hj|[_ [_ [= <-]]%list_lookup_singleton_Some]]%lookup_app_Some;
      eauto. by eapply law_begin.
  - apply protected_outside; [done|]. eapply law_outside; eauto.
  - eapply protected_inside; [done|by left|]. eapply law_enter; eauto.
  - destruct (Hi _ _ Hl) as [-> Ht]. eapply protected_inside; [done|by right|]. eapply law_inside; eauto.
  - destruct (Hi _ _ Hl) as [-> Ht]. eapply protected_commit; [done..|]. eapply law_commit; eauto.
  - by apply protected_end.
  - destruct (law_other _ _ Hs Hb) as [Hs' Hin]. split; cbn; [done|done|].
    intros j u Hj. destruct (Hi _ _ Hj). auto.
Qed.

Lemma protected_init s : Inv s -> protected (mk_config s None []).
Proof. intros Hs. split; cbn; [done|intros ?? [=]..]. Qed.

(** Hence after any interleaving of any number of transactions. *)
Lemma steps_protected s c : Inv s -> rtc step (mk_config s None []) c -> protected c.
Proof.
  intros Hs Hsteps. pose proof (protected_init s Hs) as Hp. revert Hp.
  induction Hsteps as [|? ? ? Hstep _ IH]; [done|]. intros Hp. eauto using step_protected.
Qed.

(** Two threads are never under the lock together. *)
Lemma protected_exclusive c i j t u :
  protected c -> threads c !! i = Some (Inside t) -> threads c !! j = Some (Inside u) -> i = j.
Proof. intros [_ _ Hi] Hti Htj. destruct (Hi _ _ Hti), (Hi _ _ Htj). congruence. Qed.

End Laws.
End Protocol.

End Locks.
