(* ===== verification/Arbiters.v ===== *)
(** Transactions that meet at unique keys, interleaved statement by statement.

    The intake of the service takes no advisory lock: two deliveries of one command, or two requests
    under one idempotency key, are told apart by [insert ... on conflict] at a unique index
    (src/crates/threads-archive/src/browser_capture_inbox.rs and
    src/crates/threads-archive/src/capture.rs). PostgreSQL makes such a statement wait while another
    open transaction has inserted the key or locked its row, and lets it continue when that
    transaction ends. A [KeyProtocol] says what the statements of a transaction do and which keys
    they wait for and keep; what a transaction writes is private to it until it commits. *)
From S2P Require Import Prelude.

Module Arbiters.

(** A transaction over shared states [S] with private states [T] and arbiter keys [K]. *)
Record KeyProtocol (S T K : Type) := mk_key_protocol {
  kp_begin : T -> Prop;                      (* the private state after [begin()] *)
  kp_statement : S -> T -> list K -> T -> Prop; (* a statement, with the keys it waits for *)
  kp_holds : T -> K -> Prop;                 (* the keys kept until the transaction ends *)
  kp_commit : S -> T -> S -> Prop;           (* [commit()] *)
  kp_fails : S -> T -> Prop;                 (* the next statement is an error: the call rolls back *)
  kp_other : (K -> Prop) -> S -> S -> Prop;  (* another transaction commits, around the held keys *)
}.
Arguments mk_key_protocol {S T K}.
Arguments kp_begin {S T K}.
Arguments kp_statement {S T K}.
Arguments kp_holds {S T K}.
Arguments kp_commit {S T K}.
Arguments kp_fails {S T K}.
Arguments kp_other {S T K}.

Record Sessions (S T : Type) := mk_sessions {
  committed : S;
  sessions : list (option T);   (* [None]: the transaction ended *)
}.
Arguments mk_sessions {S T}.
Arguments committed {S T}.
Arguments sessions {S T}.

Section Protocol.
Context {S T K : Type} (P : KeyProtocol S T K).

(** Session [j] keeps key [k]. *)
Definition keeps (ts : list (option T)) (j : nat) (k : K) : Prop :=
  exists t, ts !! j = Some (Some t) /\ kp_holds P t k.

Definition held (ts : list (option T)) (k : K) : Prop := exists j, keeps ts j k.

(** Nobody but session [i] keeps any of the keys. *)
Definition free (ts : list (option T)) (i : nat) (ks : list K) : Prop :=
  forall j k, k ∈ ks -> keeps ts j k -> j = i.

(** What is seen of a run from outside, with the state a transaction began or committed in. *)
Inductive Event :=
| Begins (i : nat) (t : T)
| Commits (i : nat) (t : T)
| Foreign.                    (* a commit of another component *)

(** One statement of one transaction, or its end; any transaction may fail at any time. *)
Inductive step_event : option Event -> Sessions S T -> Sessions S T -> Prop :=
| event_begin s ts t : kp_begin P t ->
    step_event (Some (Begins (length ts) t)) (mk_sessions s ts) (mk_sessions s (ts ++ [Some t])%list)
| event_statement s ts i t ks t' : ts !! i = Some (Some t) -> kp_statement P s t ks t' -> free ts i ks ->
    step_event None (mk_sessions s ts) (mk_sessions s (<[i := Some t']> ts))
| event_commit s ts i t s' : ts !! i = Some (Some t) -> kp_commit P s t s' ->
    step_event (Some (Commits i t)) (mk_sessions s ts) (mk_sessions s' (<[i := None]> ts))
| event_abort s ts i : step_event None (mk_sessions s ts) (mk_sessions s (<[i := None]> ts))
| event_other s ts s' : kp_other P (held ts) s s' ->
    step_event (Some Foreign) (mk_sessions s ts) (mk_sessions s' ts).

(** A run from [c0] with its events, oldest first. *)
Inductive run (c0 : Sessions S T) : list Event -> Sessions S T -> Prop :=
| run_start : run c0 [] c0
| run_step l c e c' : run c0 l c -> step_event e c c' -> run c0 (l ++ option_list e)%list c'.

Definition step (c c' : Sessions S T) : Prop := exists e, step_event e c c'.

Lemma step_begin s ts t : kp_begin P t -> step (mk_sessions s ts) (mk_sessions s (ts ++ [Some t])%list).
Proof. eexists. by apply event_begin. Qed.

Lemma step_statement s ts i t ks t' : ts !! i = Some (Some t) -> kp_statement P s t ks t' -> free ts i ks ->
  step (mk_sessions s ts) (mk_sessions s (<[i := Some t']> ts)).
Proof. eexists. by eapply event_statement. Qed.

Lemma step_commit s ts i t s' : ts !! i = Some (Some t) -> kp_commit P s t s' ->
  step (mk_sessions s ts) (mk_sessions s' (<[i := None]> ts)).
Proof. eexists. by eapply event_commit. Qed.

Lemma step_abort s ts i : step (mk_sessions s ts) (mk_sessions s (<[i := None]> ts)).
Proof. eexists. apply event_abort. Qed.

Lemma step_other s ts s' : kp_other P (held ts) s s' -> step (mk_sessions s ts) (mk_sessions s' ts).
Proof. eexists. by apply event_other. Qed.

(** The steps of a run with their events forgotten, and back. *)
Lemma steps_run c0 c : rtc step c0 c -> exists l, run c0 l c.
Proof.
  revert c. apply (rtc_ind_r (fun c => exists l, run c0 l c)).
  - eexists. apply run_start.
  - intros c c' _ [e He] [l Hl]. eexists. by eapply run_step.
Qed.

(** Session [i] goes on by itself: its next statement finds its keys free, it commits, or it returns
    the error of its next statement. *)
Inductive advance (i : nat) : Sessions S T -> Sessions S T -> Prop :=
| advance_statement s ts t ks t' : ts !! i = Some (Some t) -> kp_statement P s t ks t' -> free ts i ks ->
    advance i (mk_sessions s ts) (mk_sessions s (<[i := Some t']> ts))
| advance_commit s ts t s' : ts !! i = Some (Some t) -> kp_commit P s t s' ->
    advance i (mk_sessions s ts) (mk_sessions s' (<[i := None]> ts))
| advance_error s ts t : ts !! i = Some (Some t) -> kp_fails P s t ->
    advance i (mk_sessions s ts) (mk_sessions s (<[i := None]> ts)).

Definition advances (c : Sessions S T) (i : nat) : Prop := exists c', advance i c c'.

Lemma advance_step i c c' : advance i c c' -> step c c'.
Proof.
  intros [s ts t ks t' Hl Hst Hf|s ts t s' Hl Hc|s ts t Hl He];
    [by eapply step_statement|by eapply step_commit|apply step_abort].
Qed.

(** ** Draining

    When some open session can always go on and every session has a bound on its statements, all of
    them end whatever the order. *)

Section Drain.
Context (remaining : T -> nat)
  (Hstatement : forall s t ks t', kp_statement P s t ks t' -> remaining t' < remaining t)
  (Hprogress : forall s ts i t, ts !! i = Some (Some t) -> exists j, advances (mk_sessions s ts) j).

(** The statements and commits that are left. *)
Definition cost (s : option T) : nat := match s with Some t => Datatypes.S (remaining t) | None => 0 end.

Definition work (ts : list (option T)) : nat := sum_list_with cost ts.

Lemma work_insert (ts : list (option T)) i t s' : ts !! i = Some (Some t) ->
  match s' with Some t' => remaining t' < remaining t | None => True end ->
  work (<[i := s']> ts) < work ts.
Proof.
  intros Hi Hs. unfold work. revert i Hi.
  induction ts as [|s ts IH]; intros [|i] Hi; cbn in *; simplify_eq; [unfold cost; destruct s'; lia|].
  apply Nat.add_lt_mono_l, IH, Hi.
Qed.

Lemma advance_work i c c' : advance i c c' -> work (sessions c') < work (sessions c).
Proof using Hstatement.
  intros [s ts t ks t' Hl Hst Hf|s ts t s' Hl Hc|s ts t Hl He]; cbn; eapply work_insert; eauto.
Qed.

(** Every schedule of the open sessions is finite and can be completed. *)
Lemma drains c : (forall n c', nsteps (fun a b => exists i, advance i a b) n c c' -> n <= work (sessions c))
  /\ exists c', rtc (fun a b => exists i, advance i a b) c c' /\ forall i t, sessions c' !! i <> Some (Some t).
Proof using Hstatement Hprogress.
  split.
  - intros n c' Hn. induction Hn as [|n c1 c2 c3 [i Hadv] _ IH]; [lia|]. apply advance_work in Hadv. lia.
  - induction c as [[s ts] IH] using (well_founded_induction (well_founded_ltof _ (fun c => work (sessions c)))).
    destruct (decide (Exists is_Some ts)) as [He|Hn].
    + apply Exists_exists in He as (? & [i Hi]%list_elem_of_lookup & [t ->]).
      destruct (Hprogress s ts i t Hi) as (j & c1 & Hadv).
      destruct (IH c1) as (c' & Hrest & Hend); [by eapply advance_work|].
      exists c'. split; [eapply rtc_l; [by exists j|done]|done].
    + exists (mk_sessions s ts). split; [done|]. intros i t Hi. apply Hn. apply Exists_exists.
      exists (Some t). split; [by eapply list_elem_of_lookup_2|done].
Qed.

End Drain.

(** What a protocol promises: [Know] is what a transaction relies on of the committed state; it
    holds a key for everything in it that a commit around its keys could change. [Call t] is the
    atomic call a transaction that commits in the state [t] stands for. *)
Class KeyLaws (Inv : S -> Prop) (Know : S -> T -> Prop) (Call : T -> S -> S -> Prop) : Prop := {
  key_begin s t : kp_begin P t -> Know s t;
  key_begin_free t k : kp_begin P t -> ~ kp_holds P t k;
  key_statement s t ks t' : Inv s -> Know s t -> kp_statement P s t ks t' -> Know s t';
  key_waited s t ks t' k : kp_statement P s t ks t' -> kp_holds P t' k -> kp_holds P t k \/ k ∈ ks;
  key_commit s t s' : Inv s -> Know s t -> kp_commit P s t s' -> Inv s' /\ Call t s s';
  key_stable s t s' u : Inv s -> Know s t -> Know s u -> kp_commit P s t s' ->
    (forall k, kp_holds P t k -> ~ kp_holds P u k) -> Know s' u;
  key_other H s s' : Inv s -> kp_other P H s s' ->
    Inv s' /\ forall t, Know s t -> (forall k, kp_holds P t k -> H k) -> Know s' t;
}.

Section Laws.
Context {Inv : S -> Prop} {Know : S -> T -> Prop} {Call : T -> S -> S -> Prop} {Hlaws : KeyLaws Inv Know Call}.

(** The invariant of the interleaving: no key is kept twice. *)
Record arbitrated (c : Sessions S T) : Prop := {
  ar_committed : Inv (committed c);
  ar_knows i t : sessions c !! i = Some (Some t) -> Know (committed c) t;
  ar_apart i j k : keeps (sessions c) i k -> keeps (sessions c) j k -> i = j;
}.

Lemma keeps_end ts i j k : keeps (<[i := None]> ts) j k -> j <> i /\ keeps ts j k.
Proof.
  intros (t & [(-> & [=] & _)|[Hne Hj]]%list_lookup_insert_Some & Hk). split; [done|by exists t].
Qed.

Lemma keeps_insert ts i t j k : keeps (<[i := Some t]> ts) j k ->
  (j = i /\ kp_holds P t k) \/ (j <> i /\ keeps ts j k).
Proof.
  intros (u & [(-> & [= <-] & _)|[Hne Hj]]%list_lookup_insert_Some & Hk); [by left|right].
  split; [done|by exists u].
Qed.

Lemma keeps_app ts t j k : keeps (ts ++ [Some t])%list j k -> kp_holds P t k \/ keeps ts j k.
Proof.
  intros (u & [Hj|[_ [_ [= <-]]%list_lookup_singleton_Some]]%lookup_app_Some & Hk); [right; by exists u|by left].
Qed.

(** Ending a session frees its keys and changes nothing for the others. *)
Lemma arbitrated_end s ts i : arbitrated (mk_sessions s ts) -> arbitrated (mk_sessions s (<[i := None]> ts)).
Proof.
  intros [Hs Hk Ha]. split; cbn in *; [done|..].
  - intros j t [(_ & [=] & _)|[_ Hj]]%list_lookup_insert_Some. eauto.
  - intros j j' k [_ Hj]%keeps_end [_ Hj']%keeps_end. eauto.
Qed.

Lemma arbitrated_statement s ts i t ks t' : arbitrated (mk_sessions s ts) -> ts !! i = Some (Some t) ->
  kp_statement P s t ks t' -> free ts i ks -> arbitrated (mk_sessions s (<[i := Some t']> ts)).
Proof using Hlaws.
  intros [Hs Hk Ha] Hl Hst Hfree. split; cbn in *; [done|..].
  - intros j u [(-> & [= <-] & _)|[_ Hj]]%list_lookup_insert_Some; [|eauto]. eapply key_statement; eauto.
  - assert (forall j k, kp_holds P t' k -> keeps ts j k -> j = i) as Hown.
    { intros j k Hh Hj. destruct (key_waited _ _ _ _ k Hst Hh) as [Ht|Hin]; [|eauto].
      eapply Ha; [exact Hj|]. by exists t. }
    intros j j' k [[-> Hj]|[Hne Hj]]%keeps_insert [[-> Hj']|[Hne' Hj']]%keeps_insert; eauto.
    symmetry. eauto.
Qed.

(** A commit leaves every other transaction what it relies on. *)
Lemma arbitrated_commit s ts i t s' : arbitrated (mk_sessions s ts) -> ts !! i = Some (Some t) ->
  kp_commit P s t s' -> arbitrated (mk_sessions s' (<[i := None]> ts)) /\ Call t s s'.
Proof using Hlaws.
  intros Har Hl Hc. pose proof Har as [Hs Hk Ha]. cbn in *.
  destruct (key_commit _ _ _ Hs (Hk _ _ Hl) Hc) as [Hs' Hcall]. split; [|done].
  destruct (arbitrated_end _ _ i Har) as [_ _ Ha']. split; cbn in *; [done| |done].
  intros j u [(_ & [=] & _)|[Hne Hj]]%list_lookup_insert_Some.
  eapply key_stable; [exact Hs|exact (Hk _ _ Hl)|eauto|exact Hc|].
  intros k Ht Hu. apply Hne. eapply (Ha i j k); eexists; eauto.
Qed.

Lemma arbitrated_other s ts s' : arbitrated (mk_sessions s ts) -> kp_other P (held ts) s s' ->
  arbitrated (mk_sessions s' ts).
Proof using Hlaws.
  intros [Hs Hk Ha] Ho. cbn in *. destruct (key_other _ _ _ Hs Ho) as [Hs' Hsurv].
  split; cbn; [done| |done]. intros i t Hi. apply Hsurv; [eauto|]. intros k Hh. exists i, t. eauto.
Qed.

(** The same events one after another: each commit is the atomic call on the tables it finds. *)
Definition serial (e : option Event) (s s' : S) : Prop :=
  match e with
  | None | Some (Begins _ _) => s' = s
  | Some (Commits _ t) => Call t s s'
  | Some Foreign => exists H, kp_other P H s s'
  end.

Inductive serial_run (s0 : S) : list Event -> S -> Prop :=
| serial_start : serial_run s0 [] s0
| serial_step l s e s' : serial_run s0 l s -> serial (Some e) s s' -> serial_run s0 (l ++ [e])%list s'.

(** One step of the interleaving is at most one step of the serial execution. *)
Lemma step_arbitrated e c c' : step_event e c c' -> arbitrated c ->
  arbitrated c' /\ serial e (committed c) (committed c').
Proof using Hlaws.
  intros Hstep Har. destruct Hstep as [s ts t Hb|s ts i t ks t' Hl Hst Hf|s ts i t s' Hl Hc|s ts i|s ts s' Ho]; cbn.
  - split; [|done]. destruct Har as [Hs Hk Ha]. split; cbn in *; [done|..].
    + intros j u [Hj|[_ [_ [= <-]]%list_lookup_singleton_Some]]%lookup_app_Some; [eauto|by apply key_begin].
    + intros j j' k [Hj|Hj]%keeps_app [Hj'|Hj']%keeps_app; [by destruct (key_begin_free t k Hb)..|eauto].
  - split; [by eapply arbitrated_statement|done].
  - by eapply arbitrated_commit.
  - split; [by apply arbitrated_end|done].
  - split; [by eapply arbitrated_other|eauto].
Qed.

Lemma arbitrated_init s : Inv s -> arbitrated (mk_sessions s []).
Proof. intros Hs. split; cbn; [done|intros ?? [=]|]. intros i j k (t & [=] & _). Qed.

(** Every interleaving of every number of transactions leaves what running them one after
    another, in the order of their commits, would leave. *)
Lemma run_serial s l c : Inv s -> run (mk_sessions s []) l c ->
  arbitrated c /\ serial_run s l (committed c).
Proof using Hlaws.
  intros Hs Hrun. induction Hrun as [|l c e c' _ [Har Hser] Hstep]; [split; [by apply arbitrated_init|apply serial_start]|].
  destruct (step_arbitrated _ _ _ Hstep Har) as [Har' He]. split; [done|].
  destruct e as [e|]; cbn [option_list]; [by eapply serial_step|].
  cbn in He. by rewrite app_nil_r, He.
Qed.

End Laws.

(** ** Whose commits they are

    A transaction stands for one call throughout, so the commits of a run are those of calls that
    began in it, each at most once. *)

Definition committers (l : list Event) : list nat :=
  omap (fun e => match e with Commits i _ => Some i | _ => None end) l.

Section Origin.
Context {C : Type} (origin : T -> C)
  (Hsame : forall s t ks t', kp_statement P s t ks t' -> origin t' = origin t).

Definition begun (l : list Event) (i : nat) (t : T) : Prop :=
  exists t0, Begins i t0 ∈ l /\ kp_begin P t0 /\ origin t0 = origin t.

Record accounted (l : list Event) (ts : list (option T)) : Prop := {
  ac_open i t : ts !! i = Some (Some t) -> begun l i t;
  ac_ended i : i ∈ committers l -> ts !! i = Some None;
  ac_once : NoDup (committers l);
  ac_begun l1 i t l2 : l = (l1 ++ Commits i t :: l2)%list -> begun l1 i t;
}.

Lemma begun_app l l' i t : begun l i t -> begun (l ++ l')%list i t.
Proof. intros (t0 & Hin & H). exists t0. split; [apply elem_of_app; by left|done]. Qed.

(** An event that is not a commit leaves the account of the earlier ones. *)
Lemma accounted_quiet l e ts ts' : accounted l ts -> match e with Commits _ _ => False | _ => True end ->
  (forall i t, ts' !! i = Some (Some t) -> begun (l ++ [e])%list i t) ->
  (forall i, ts !! i = Some None -> ts' !! i = Some None) -> accounted (l ++ [e])%list ts'.
Proof.
  intros [Ho He Hd Hb] Hquiet Hopen Hend. assert (committers (l ++ [e])%list = committers l) as Hc.
  { unfold committers. rewrite omap_app. destruct e; [|done|]; cbn; by rewrite app_nil_r. }
  split; rewrite ?Hc; [done|by auto|done|]. intros l1 i t l2 Heq.
  destruct l2 as [|x l2 _] using rev_ind; [apply app_inj_tail in Heq as [_ ->]; done|].
  rewrite app_comm_cons, app_assoc in Heq. apply app_inj_tail in Heq as [-> _]. by eapply Hb.
Qed.

Lemma accounted_same l ts ts' : accounted l ts -> (forall i t, ts' !! i = Some (Some t) -> begun l i t) ->
  (forall i, ts !! i = Some None -> ts' !! i = Some None) -> accounted l ts'.
Proof. intros [Ho He Hd Hb] Hopen Hend. split; auto. Qed.

Lemma accounted_commit l ts i t : accounted l ts -> ts !! i = Some (Some t) ->
  accounted (l ++ [Commits i t])%list (<[i := None]> ts).
Proof.
  intros [Ho He Hd Hb] Hi. assert (committers (l ++ [Commits i t])%list = (committers l ++ [i])%list) as Hc.
  { unfold committers. by rewrite omap_app. }
  split; rewrite ?Hc.
  - intros j u [(_ & [=] & _)|[_ Hj]]%list_lookup_insert_Some. by apply begun_app, Ho.
  - intros j [Hj| ->%list_elem_of_singleton]%elem_of_app.
    + destruct (decide (i = j)) as [->|Hne]; [apply list_lookup_insert_eq; by eapply lookup_lt_Some|].
      rewrite list_lookup_insert_ne by done. auto.
    + apply list_lookup_insert_eq. by eapply lookup_lt_Some.
  - apply NoDup_app. split_and!; [done| |apply NoDup_singleton].
    intros j Hj ->%list_elem_of_singleton. apply He in Hj. congruence.
  - intros l1 j u l2 Heq. destruct l2 as [|x l2 _] using rev_ind.
    + apply app_inj_tail in Heq as [-> [= -> ->]]. auto.
    + rewrite app_comm_cons, app_assoc in Heq. apply app_inj_tail in Heq as [-> _]. by eapply Hb.
Qed.

Lemma run_accounted s l c : run (mk_sessions s []) l c -> accounted l (sessions c).
Proof using Hsame.
  induction 1 as [|l c e c' _ IH Hstep].
  { split; cbn; [done|by intros i ?%elem_of_nil|apply NoDup_nil_2|by intros [] ? ? ? ?]. }
  destruct Hstep as [s1 ts t Hb|s1 ts i t ks t' Hl Hst Hf|s1 ts i t s' Hl Hc|s1 ts i|s1 ts s' Ho]; cbn in *;
    rewrite ?app_nil_r.
  - eapply accounted_quiet; [done|done|..].
    + intros j u [Hj|[Hlen [Hz [= <-]]%list_lookup_singleton_Some]]%lookup_app_Some; [by eapply begun_app, ac_open|].
      exists t. split; [|done]. apply elem_of_app. right. apply list_elem_of_singleton. f_equal. lia.
    + intros j Hj. by apply lookup_app_l_Some.
  - eapply accounted_same; [done|..].
    + intros j u [(<- & [= <-] & _)|[_ Hj]]%list_lookup_insert_Some; [|by eapply ac_open].
      destruct (ac_open _ _ IH _ _ Hl) as (t0 & Hin & Hb & Heq). exists t0. split_and!; [done|done|].
      rewrite Heq. symmetry. eauto.
    + intros j Hj. rewrite list_lookup_insert_ne; [done|congruence].
  - by eapply accounted_commit.
  - eapply accounted_same; [done|..].
    + intros j u [(_ & [=] & _)|[_ Hj]]%list_lookup_insert_Some. by eapply ac_open.
    + intros j Hj. destruct (decide (i = j)) as [->|Hne]; [|by rewrite list_lookup_insert_ne].
      apply list_lookup_insert_eq. by eapply lookup_lt_Some.
  - eapply accounted_quiet; [done|done|..]; [|done]. intros j u Hj. by eapply begun_app, ac_open.
Qed.

End Origin.
End Protocol.

End Arbiters.
