(* ===== verification/Telemetry.v ===== *)
(** Structured telemetry (src/crates/threads-archive/src/telemetry.rs, with the gauges of
    src/crates/threads-archive/src/outbox_relay.rs and the refusal counter of deletion_acks.rs): the
    metrics registry, the closed lifecycle vocabulary and the once-per-process installation.

    The registry is the Prometheus recorder's map from a name with its labels to a metric; before a
    recorder is installed the macros do nothing. The log filter's grammar belongs to a library and
    is a parameter, and so is what the build compiled in ([Build]). A 64-bit float is an opaque
    value ([F64]): the code only passes it on. *)
From S2P Require Import Prelude.

Module Telemetry.
Local Open Scope string_scope.

Definition SERVICE_NAME : string := "ratatoskr-threads".
Definition ROLE : string := "archive".
Definition BUILD_INFO_METRIC : string := "threads_build_info".

(** What the build compiled in: [CARGO_PKG_VERSION], [RATATOSKR_GIT_SHA], [CARGO_PKG_RUST_VERSION]. *)
Record Build := mk_build {
  VERSION : string;
  ratatoskr_git_sha : option string;
  RUST_VERSION : string;
}.

Definition GIT_SHA (b : Build) : string := default "unknown" (ratatoskr_git_sha b).

(** * The registry *)

Inductive Metric (F64 : Type) :=
| Counter (value : Z)            (* u64, wrapping *)
| Gauge (value : F64)
| Histogram (samples : list F64).

Arguments Counter {F64} value.
Arguments Gauge {F64} value.
Arguments Histogram {F64} samples.

(** A series: its name and its labels in the order the macro writes them. *)
Abbreviation Series := (string * list (string * string))%type.
Abbreviation Registry F64 := (gmap Series (Metric F64)).

Section Registry.
Context {F64 : Type}.

Definition counter_value (m : option (Metric F64)) : Z :=
  match m with Some (Counter n) => n | _ => 0%Z end.

Definition increment (key : Series) (n : Z) (r : Registry F64) : Registry F64 :=
  <[key := Counter ((counter_value (r !! key) + n) mod (u64_max + 1))%Z]> r.

Definition set_gauge (key : Series) (v : F64) (r : Registry F64) : Registry F64 := <[key := Gauge v]> r.

Definition record_sample (key : Series) (v : F64) (r : Registry F64) : Registry F64 :=
  <[key := Histogram (match r !! key with Some (Histogram l) => (l ++ [v])%list | _ => [v] end)]> r.

End Registry.

(** * The lifecycle vocabulary *)

Record LifecycleMetricDescriptor := mk_descriptor { md_name : string; md_labels : list string }.

#[global] Instance LifecycleMetricDescriptor_eq_dec : EqDecision LifecycleMetricDescriptor.
Proof. solve_decision. Defined.

Definition lifecycle_metric_descriptors : list LifecycleMetricDescriptor :=
  [mk_descriptor "threads_media_admission_total" ["outcome"; "reason"];
   mk_descriptor "threads_deletion_operations_total" ["target"; "outcome"];
   mk_descriptor "threads_blob_deletion_attempts_total" ["outcome"; "failure_class"];
   mk_descriptor "threads_reresolution_attempts_total" ["outcome"; "reason"];
   mk_descriptor "threads_reresolution_duration_seconds" ["outcome"];
   mk_descriptor "threads_export_reprocessing_total" ["mode"; "outcome"];
   mk_descriptor "threads_export_reprocessing_duration_seconds" ["mode"; "outcome"]].

Inductive LifecycleOperation :=
| MediaAdmission | CaptureDeletion | ConnectionDeletion | BlobDeletion | ReResolution | ExportDryRun | ExportApply.

#[global] Instance LifecycleOperation_eq_dec : EqDecision LifecycleOperation.
Proof. solve_decision. Defined.

Inductive LifecycleOutcome := WorkAdmitted | MetadataOnly | Complete | Pending | Skipped | Failed.

#[global] Instance LifecycleOutcome_eq_dec : EqDecision LifecycleOutcome.
Proof. solve_decision. Defined.

Definition as_str (o : LifecycleOutcome) : string :=
  match o with
  | WorkAdmitted => "admitted"
  | MetadataOnly => "metadata_only"
  | Complete => "complete"
  | Pending => "pending"
  | Skipped => "skipped"
  | Failed => "failed"
  end.

(** The counter of a call. *)
Definition counter_key (operation : LifecycleOperation) (outcome : LifecycleOutcome) : Series :=
  let outcome := as_str outcome in
  match operation with
  | MediaAdmission => ("threads_media_admission_total", [("outcome", outcome); ("reason", "bounded")])
  | CaptureDeletion => ("threads_deletion_operations_total", [("target", "capture"); ("outcome", outcome)])
  | ConnectionDeletion => ("threads_deletion_operations_total", [("target", "connection"); ("outcome", outcome)])
  | BlobDeletion => ("threads_blob_deletion_attempts_total", [("outcome", outcome); ("failure_class", "bounded")])
  | ReResolution => ("threads_reresolution_attempts_total", [("outcome", outcome); ("reason", "bounded")])
  | ExportDryRun => ("threads_export_reprocessing_total", [("mode", "dry_run"); ("outcome", outcome)])
  | ExportApply => ("threads_export_reprocessing_total", [("mode", "apply"); ("outcome", outcome)])
  end.

(** The histogram of a call with a duration. *)
Definition histogram_key (operation : LifecycleOperation) (outcome : LifecycleOutcome) : option Series :=
  let outcome := as_str outcome in
  match operation with
  | ReResolution => Some ("threads_reresolution_duration_seconds", [("outcome", outcome)])
  | ExportDryRun => Some ("threads_export_reprocessing_duration_seconds", [("mode", "dry_run"); ("outcome", outcome)])
  | ExportApply => Some ("threads_export_reprocessing_duration_seconds", [("mode", "apply"); ("outcome", outcome)])
  | MediaAdmission | CaptureDeletion | ConnectionDeletion | BlobDeletion => None
  end.

Section Recording.
Context {F64 : Type}.

Definition record_lifecycle_outcome (operation : LifecycleOperation) (outcome : LifecycleOutcome)
    (duration_seconds : option F64) (r : Registry F64) : Registry F64 :=
  let r := increment (counter_key operation outcome) 1 r in
  match histogram_key operation outcome, duration_seconds with
  | Some key, Some duration => record_sample key duration r
  | _, _ => r
  end.

Definition Call : Type := LifecycleOperation * LifecycleOutcome * option F64.

Definition record_all (calls : list Call) (r : Registry F64) : Registry F64 :=
  foldl (fun r c => record_lifecycle_outcome c.1.1 c.1.2 c.2 r) r calls.

(** The gauges of one pump pass; [of_u32] is [f64::from]. *)
Definition refresh_tombstone_gauges (of_u32 : Z -> F64) (count : Z) (oldest_age_seconds : F64)
    (r : Registry F64) : Registry F64 :=
  let count := of_u32 (if (0 <=? count)%Z && (count <=? u32_max)%Z then count else u32_max) in
  set_gauge ("threads_oldest_unacknowledged_tombstone_age_seconds", []) oldest_age_seconds
    (set_gauge ("threads_unacknowledged_tombstones", []) count r).

Definition REFUSED_COUNTER : Series := ("threads_tombstone_refused_total", []).

(** * Installation *)

Inductive TelemetryError := LogFilter | MetricsRecorder | AlreadyInstalled.

(** The process-wide state: the log subscriber's filter and the metrics recorder. *)
Record Globals := mk_globals {
  subscriber : option string;
  recorder : option (Registry F64);
}.

Definition fresh_process : Globals := mk_globals None None.

Definition build_info (b : Build) : Series :=
  (BUILD_INFO_METRIC, [("service", SERVICE_NAME); ("role", ROLE); ("version", VERSION b);
                       ("git_sha", GIT_SHA b); ("rust_version", RUST_VERSION b)]).

(** [parses] is [EnvFilter::try_new], [one] is [1.0]. *)
Definition init_telemetry (parses : string -> bool) (one : F64) (b : Build) (log_filter : string)
    (g : Globals) : Result TelemetryError () * Globals :=
  if negb (parses log_filter) then (Err LogFilter, g) else
  match subscriber g with
  | Some _ => (Err AlreadyInstalled, g)
  | None =>
      let g := mk_globals (Some log_filter) (recorder g) in
      match recorder g with
      | Some _ => (Err MetricsRecorder, g)
      | None => (Ok (), mk_globals (subscriber g) (Some (set_gauge (build_info b) one ∅)))
      end
  end.

(** A macro call: it reaches the recorder when there is one. *)
Definition emit (f : Registry F64 -> Registry F64) (g : Globals) : Globals :=
  mk_globals (subscriber g) (f <$> recorder g).

End Recording.
Arguments Globals : clear implicits.

(** * The startup record *)

(** [RecordBuffer]: the bytes, and whether a writer panicked with the lock held. *)
Record RecordBuffer := mk_buffer { rb_bytes : string; rb_poisoned : bool }.

Definition write (buf : string) (b : RecordBuffer) : nat * RecordBuffer :=
  (String.length buf, mk_buffer (rb_bytes b ++ buf) (rb_poisoned b)).

(** The bytes to render; [String::from_utf8_lossy] is applied to them. *)
Definition snapshot (b : RecordBuffer) : string := rb_bytes b.

(** The fields [emit_startup_record] gives the formatter. *)
Definition startup_fields (b : Build) : list (string * string) :=
  [("service_name", SERVICE_NAME); ("version", VERSION b); ("git_sha", GIT_SHA b); ("message", "startup")].

(** [render_startup_record], where [chunks] is how the JSON formatter writes the record. *)
Definition render_startup_record (chunks : list (string * string) -> list string) (b : Build) : string :=
  snapshot (foldl (fun buffer c => (write c buffer).2) (mk_buffer "" false) (chunks (startup_fields b))).

(** * What is recorded *)

Definition all_operations : list LifecycleOperation :=
  [MediaAdmission; CaptureDeletion; ConnectionDeletion; BlobDeletion; ReResolution; ExportDryRun; ExportApply].

Definition all_outcomes : list LifecycleOutcome := [WorkAdmitted; MetadataOnly; Complete; Pending; Skipped; Failed].

(** Every series a call can create. *)
Definition lifecycle_series : list Series :=
  op ← all_operations; o ← all_outcomes; counter_key op o :: option_list (histogram_key op o).

Lemma lifecycle_series_counter op o : counter_key op o ∈ lifecycle_series.
Proof.
  apply (bool_decide_unpack _). destruct op, o; vm_compute; exact I.
Qed.

Lemma lifecycle_series_histogram op o key : histogram_key op o = Some key -> key ∈ lifecycle_series.
Proof.
  intros Hk. apply (bool_decide_unpack _). destruct op, o; cbn in Hk; simplify_eq; vm_compute; exact I.
Qed.

(** The label keys of every series are those its descriptor names. *)
Lemma lifecycle_series_described key : key ∈ lifecycle_series ->
  mk_descriptor key.1 (key.2).*1 ∈ lifecycle_metric_descriptors.
Proof.
  revert key. apply Forall_forall. apply (bool_decide_unpack _). vm_compute. exact I.
Qed.

Lemma lifecycle_series_size : size (list_to_set lifecycle_series : gset Series) = 60.
Proof. vm_compute. reflexivity. Qed.

Lemma counter_key_inj op o op' o' : counter_key op o = counter_key op' o' -> op = op' /\ o = o'.
Proof. destruct op, op'; intros H; try discriminate H; split; try done; destruct o, o'; done. Qed.

Lemma histogram_key_inj op o op' o' key :
  histogram_key op o = Some key -> histogram_key op' o' = Some key -> op = op' /\ o = o'.
Proof.
  destruct op, op'; intros H H'; try discriminate; simplify_eq/=; split; try done; destruct o, o'; done.
Qed.

Lemma counter_not_histogram op o op' o' : histogram_key op o <> Some (counter_key op' o').
Proof. destruct op, op'; discriminate. Qed.

Section Counting.
Context {F64 : Type}.

Definition samples (m : option (Metric F64)) : list F64 :=
  match m with Some (Histogram l) => l | _ => [] end.

(** The calls of one operation and outcome. *)
Definition calls_of (op : LifecycleOperation) (o : LifecycleOutcome) (calls : list (@Call F64)) : list (@Call F64) :=
  filter (fun c => c.1 = (op, o)) calls.

Lemma record_counter (op : LifecycleOperation) (o : LifecycleOutcome) (c : @Call F64) (r : Registry F64) :
  counter_value (record_lifecycle_outcome c.1.1 c.1.2 c.2 r !! counter_key op o)
  = if bool_decide (c.1 = (op, o)) then ((counter_value (r !! counter_key op o) + 1) mod (u64_max + 1))%Z
    else counter_value (r !! counter_key op o).
Proof.
  destruct c as [[op' o'] d]. cbn. unfold record_lifecycle_outcome.
  transitivity (counter_value (increment (counter_key op' o') 1 r !! counter_key op o)).
  { destruct (histogram_key op' o') as [key|] eqn:Hk; [|done]. destruct d as [v|]; [|done].
    unfold record_sample. rewrite lookup_insert_ne; [done|]. intros ->. by eapply counter_not_histogram. }
  unfold increment. case_bool_decide as H; simplify_eq.
  - by rewrite lookup_insert_eq.
  - rewrite lookup_insert_ne; [done|]. intros [-> ->]%counter_key_inj. done.
Qed.

Lemma record_histogram (op : LifecycleOperation) (o : LifecycleOutcome) (key : Series) (c : @Call F64) (r : Registry F64) : histogram_key op o = Some key ->
  samples (record_lifecycle_outcome c.1.1 c.1.2 c.2 r !! key)
  = (samples (r !! key) ++ if bool_decide (c.1 = (op, o)) then option_list c.2 else [])%list.
Proof.
  intros Hkey. destruct c as [[op' o'] d]. cbn. unfold record_lifecycle_outcome.
  assert (increment (counter_key op' o') 1 r !! key = r !! key) as Hinc.
  { unfold increment. rewrite lookup_insert_ne; [done|]. intros <-. by eapply counter_not_histogram. }
  case_bool_decide as H; simplify_eq.
  - rewrite Hkey. destruct d as [v|]; cbn; [|by rewrite Hinc, app_nil_r].
    unfold record_sample. rewrite lookup_insert_eq, Hinc. by destruct (r !! key) as [[]|].
  - rewrite app_nil_r. destruct (histogram_key op' o') as [key'|] eqn:Hk; [|by rewrite Hinc].
    destruct d as [v|]; [|by rewrite Hinc]. unfold record_sample.
    rewrite lookup_insert_ne; [by rewrite Hinc|]. intros ->.
    destruct (histogram_key_inj _ _ _ _ _ Hkey Hk) as [-> ->]. done.
Qed.

Lemma record_keys (op : LifecycleOperation) (o : LifecycleOutcome) (d : option F64) (r : Registry F64) (key : Series) :
  is_Some (record_lifecycle_outcome op o d r !! key) -> key ∈ lifecycle_series \/ is_Some (r !! key).
Proof.
  unfold record_lifecycle_outcome, increment, record_sample.
  assert (is_Some ((<[counter_key op o := Counter ((counter_value (r !! counter_key op o) + 1) mod (u64_max + 1))]> r
    : Registry F64) !! key) -> key ∈ lifecycle_series \/ is_Some (r !! key)) as Hc.
  { rewrite lookup_insert_is_Some'. intros [<-|?]; [left; apply lifecycle_series_counter|by right]. }
  destruct (histogram_key op o) as [key'|] eqn:Hk; [|done]. destruct d; [|done].
  rewrite lookup_insert_is_Some'. intros [<-|?]; [left; by eapply lifecycle_series_histogram|auto].
Qed.

(** [C39] The metric surface is closed and exact: whatever calls are made, every series has the name and
    the label keys of a published descriptor and there are at most 60 series; the counter of an
    operation and outcome is the number of its calls, at the width of a [u64], and its histogram holds
    the durations of its calls in order. *)
Theorem lifecycle_metrics_exact (calls : list (@Call F64)) :
  let r := record_all calls ∅ in
  (forall key, is_Some (r !! key) -> mk_descriptor key.1 (key.2).*1 ∈ lifecycle_metric_descriptors) /\
  size r <= 60 /\
  (forall op o, counter_value (r !! counter_key op o)
     = (Z.of_nat (length (calls_of op o calls)) mod (u64_max + 1))%Z) /\
  (forall op o key, histogram_key op o = Some key -> samples (r !! key) = omap snd (calls_of op o calls)).
Proof.
  cbv zeta. assert (forall key, is_Some (record_all calls ∅ !! key) -> key ∈ lifecycle_series) as Hkeys.
  { induction calls as [|c calls IH] using rev_ind; intros key; [cbn; rewrite lookup_empty; by intros []|].
    unfold record_all. rewrite foldl_snoc. intros [?|?]%record_keys; auto. }
  split_and!.
  - intros key Hkey. by apply lifecycle_series_described, Hkeys.
  - rewrite <- size_dom, <- lifecycle_series_size. apply subseteq_size. intros key Hkey%elem_of_dom.
    apply elem_of_list_to_set. auto.
  - intros op o. unfold record_all. clear Hkeys. induction calls as [|c calls IH] using rev_ind; [done|].
    rewrite foldl_snoc, record_counter, IH. unfold calls_of in *. rewrite filter_app, length_app.
    case_bool_decide as H; [rewrite filter_cons_True by done|rewrite filter_cons_False by done]; cbn.
    + rewrite Zplus_mod_idemp_l. f_equal. by rewrite Nat2Z.inj_add.
    + by rewrite Nat.add_0_r.
  - intros op o key Hkey. unfold record_all. clear Hkeys. induction calls as [|c calls IH] using rev_ind; [done|].
    rewrite foldl_snoc, (record_histogram _ _ _ _ _ Hkey), IH. unfold calls_of in *.
    rewrite filter_app, omap_app. f_equal. case_bool_decide as H;
      [rewrite filter_cons_True by done|rewrite filter_cons_False by done]; cbn; by destruct c.2.
Qed.

(** Telemetry is installed once per process: a fresh process with a filter that parses gets the
    subscriber, the recorder and the build-identity series, and nothing when it does not parse; after
    an installation every later attempt, whatever was recorded in between, is refused and changes
    nothing. *)
Theorem telemetry_installed_once parses (one : F64) b f :
  init_telemetry parses one b f fresh_process
    = (if parses f then (Ok (), mk_globals (Some f) (Some {[build_info b := Gauge one]}))
       else (Err LogFilter, fresh_process)) /\
  forall (fs : list (Registry F64 -> Registry F64)) g f' b',
    init_telemetry parses one b f fresh_process = (Ok (), g) ->
    let g' := foldl (fun g emitted => emit emitted g) g fs in
    init_telemetry parses one b' f' g'
      = (Err (if parses f' then AlreadyInstalled else LogFilter), g').
Proof.
  unfold init_telemetry at 1. cbn. split; [by destruct (parses f)|].
  intros fs g f' b'. unfold init_telemetry at 1. cbn. destruct (parses f); [|done]. intros [= <-]. cbv zeta.
  assert (forall fs (g : Globals F64), subscriber g = Some f -> subscriber (foldl (fun g emitted => emit emitted g) g fs) = Some f)
    as Hs. { clear fs. intros fs. induction fs as [|e fs IH]; intros g Hg; [done|]. cbn. by apply IH. }
  unfold init_telemetry. rewrite Hs by done. by destruct (parses f').
Qed.

(** The two gauges of a pump pass, with the count kept at the width of a [u32]. *)
Lemma tombstone_gauges (of_u32 : Z -> F64) count age r : (0 <= count)%Z ->
  refresh_tombstone_gauges of_u32 count age r !! ("threads_unacknowledged_tombstones", [])
    = Some (Gauge (of_u32 (Z.min count u32_max))) /\
  refresh_tombstone_gauges of_u32 count age r !! ("threads_oldest_unacknowledged_tombstone_age_seconds", [])
    = Some (Gauge age).
Proof.
  intros Hc. unfold refresh_tombstone_gauges, set_gauge. rewrite lookup_insert_ne by done.
  rewrite !lookup_insert_eq. split; [|done]. do 3 f_equal.
  destruct (0 <=? count)%Z eqn:E, (count <=? u32_max)%Z eqn:E'; cbn; lia.
Qed.

End Counting.

(** What the contract tests parse is exactly what the formatter wrote. *)
Lemma render_startup_record_exact chunks b :
  render_startup_record chunks b = foldl String.append "" (chunks (startup_fields b)).
Proof.
  unfold render_startup_record.
  assert (forall l acc p, snapshot (foldl (fun buffer c => (write c buffer).2) (mk_buffer acc p) l)
    = foldl String.append acc l) as H; [|apply H].
  intros l. induction l as [|c l IH]; intros acc p; [done|]. cbn. apply IH.
Qed.

(** A run from an installed process. *)
Lemma telemetry_installed_once_witness :
  let b := mk_build "0.1.0" None "1.88" in
  (@init_telemetry Z (fun f => negb (bool_decide (f = ""))) 1%Z b "info"
     (@init_telemetry Z (fun f => negb (bool_decide (f = ""))) 1%Z b "info" fresh_process).2).1
  = Err AlreadyInstalled.
Proof.
  cbv zeta. set (b := mk_build "0.1.0" None "1.88").
  destruct (telemetry_installed_once (fun f => negb (bool_decide (f = ""))) 1%Z b "info") as [_ H].
  exact (f_equal fst (H [] (mk_globals (Some "info") (Some {[build_info b := Gauge 1%Z]})) "info" b eq_refl)).
Defined.

End Telemetry.
