(* ===== verification/Permalink.v ===== *)
(** Canonicalization of Threads post permalinks
    (src/crates/threads-archive/src/permalink.rs).

    [try_from] is [TryFrom<&str> for CanonicalizedUrl] with its refusals in the
    source's order; [Grammar] is the input grammar of the module documentation,
    written as one equation on the raw text. It is stated without the parser's steps, but with the same
    character classes, lengths and host names. *)
From S2P Require Import Prelude.

Module Permalink.
Local Open Scope string_scope.
Local Open Scope rust_scope.

Definition CANONICAL_HOST : string := "www.threads.net".

Definition ACCEPTED_HOSTS : list string :=
  ["threads.net"; "www.threads.net"; "threads.com"; "www.threads.com"].

Definition MAX_INPUT_LEN : nat := 2048.
Definition HANDLE_MAX_LEN : nat := 30.
Definition CODE_MAX_LEN : nat := 128.

Definition is_handle_byte (byte : ascii) : bool :=
  is_ascii_lowercase byte || is_ascii_uppercase byte || is_ascii_digit byte
  || bool_decide (byte = "."%char) || bool_decide (byte = "_"%char).

Definition is_code_byte (byte : ascii) : bool :=
  is_ascii_lowercase byte || is_ascii_uppercase byte || is_ascii_digit byte
  || bool_decide (byte = "_"%char) || bool_decide (byte = "-"%char).

(** The newtype [Permalink(String)]. *)
Record Permalink := mkPermalink { as_str : string }.

Record CanonicalizedUrl := mkCanonicalizedUrl {
  original : string;
  permalink : Permalink;
}.

Inductive PermalinkError :=
| InvalidUrl
| Scheme
| Host
| Port
| PathShape
| HandleGrammar
| PostCodeGrammar
| PercentEncoded
| NonAscii
| TooLong (length : nat)
| ShortFormUnsupported.

#[global] Instance Permalink_eq_dec : EqDecision Permalink.
Proof. solve_decision. Defined.
#[global] Instance PermalinkError_eq_dec : EqDecision PermalinkError.
Proof. solve_decision. Defined.

Definition before_or_all (pat s : string) : string :=
  match split_once pat s with
  | Some (before, _) => before
  | None => s
  end.

Definition handle_valid (handle : string) : bool :=
  negb (bool_decide (handle = ""))
  && (String.length handle <=? HANDLE_MAX_LEN)%nat
  && str_all is_handle_byte handle.

Definition code_valid (code : string) : bool :=
  negb (bool_decide (code = ""))
  && (String.length code <=? CODE_MAX_LEN)%nat
  && str_all is_code_byte code.

(** [format!("https://{CANONICAL_HOST}/@{}/post/{code}", handle.to_ascii_lowercase())]. *)
Definition canonical (handle code : string) : string :=
  "https://" +:+ CANONICAL_HOST +:+ "/@" +:+ to_ascii_lowercase handle +:+ "/post/" +:+ code.

(** The host of an authority: the text before a default port, or all of it. *)
Definition host_of_authority (authority : string) : Result PermalinkError string :=
  match rsplit_once ":" authority with
  | Some (bare_host, port) =>
      if bool_decide (port = "80") || bool_decide (port = "443") then Ok bare_host
      else Err Port
  | None => Ok authority
  end.

(** The path after its leading slash: handle and post code of the post shape. *)
Definition parse_path (path : string) : Result PermalinkError (string * string) :=
  if starts_with "t/" path then Err ShortFormUnsupported else
  match strip_prefix "@" path with
  | None => Err PathShape
  | Some after_marker =>
      match split_once "/post/" after_marker with
      | None => Err PathShape
      | Some (handle, code_with_trailing_slashes) =>
          let code := trim_end_matches "/" code_with_trailing_slashes in
          if negb (handle_valid handle) then Err HandleGrammar
          else if negb (code_valid code) then Err PostCodeGrammar
          else Ok (handle, code)
      end
  end.

(** [CanonicalizedUrl::try_from]. *)
Definition try_from (raw : string) : Result PermalinkError CanonicalizedUrl :=
  let length := List.length (chars raw) in
  if (MAX_INPUT_LEN <? length)%nat then Err (TooLong length) else
  match split_once "://" raw with
  | None => Err InvalidUrl
  | Some (scheme, rest) =>
      if negb (eq_ignore_ascii_case scheme "http" || eq_ignore_ascii_case scheme "https")
      then Err Scheme else
      let without_fragment := before_or_all "#" rest in
      let without_query := before_or_all "?" without_fragment in
      if negb (is_ascii without_query) then Err NonAscii else
      if contains "%" without_query then Err PercentEncoded else
      let '(authority, path) :=
        match split_once "/" without_query with
        | Some (host_part, path_part) => (host_part, path_part)
        | None => (without_query, "")
        end in
      let? host := host_of_authority authority in
      if negb (existsb (eq_ignore_ascii_case host) ACCEPTED_HOSTS) then Err Host else
      let? (handle, code) := parse_path path in
      Ok {| original := raw; permalink := mkPermalink (canonical handle code) |}
  end.

(** * The documented grammar *)

(** A query or a fragment: anything, introduced by its separator. *)
Definition discarded_tail (tail : string) : Prop :=
  tail = "" \/ (exists t, tail = "?" +:+ t) \/ (exists t, tail = "#" +:+ t).

(** The text before the discarded tail, for a scheme, host, port, handle, code and
    run of trailing slashes. *)
Definition grammar_text (scheme host port handle code slashes : string) : string :=
  scheme +:+ "://" +:+ host +:+ port +:+ "/@" +:+ handle +:+ "/post/" +:+ code +:+ slashes.

Record Grammar (raw scheme host port handle code slashes tail : string) : Prop := {
  g_text : raw = grammar_text scheme host port handle code slashes +:+ tail;
  g_length : (length (chars raw) <= MAX_INPUT_LEN)%nat;
  g_scheme : to_ascii_lowercase scheme = "http" \/ to_ascii_lowercase scheme = "https";
  g_host : to_ascii_lowercase host ∈ ACCEPTED_HOSTS;
  g_port : port = "" \/ port = ":80" \/ port = ":443";
  g_handle : handle_valid handle = true;
  g_code : code_valid code = true;
  g_slashes : only_byte "/" slashes = true;
  g_tail : discarded_tail tail;
}.

Example try_from_sample :
  try_from "HTTP://Threads.NET:443/@Some.One/post/C-9_x//?xmt=%C3#top"
  = Ok {| original := "HTTP://Threads.NET:443/@Some.One/post/C-9_x//?xmt=%C3#top";
          permalink := mkPermalink "https://www.threads.net/@some.one/post/C-9_x" |}.
Proof. vm_compute. reflexivity. Qed.

Example try_from_short : try_from "https://threads.net/t/abc" = Err ShortFormUnsupported.
Proof. vm_compute. reflexivity. Qed.

(** * Lemmas on the parser's pieces *)

(** Bytes that no separator of the grammar uses. *)
Definition plain (c : ascii) : bool :=
  is_ascii_byte c
  && negb (bool_decide (c = "#"%char)) && negb (bool_decide (c = "?"%char))
  && negb (bool_decide (c = "%"%char)).

Definition name_byte (c : ascii) : bool :=
  plain c && negb (bool_decide (c = ":"%char)) && negb (bool_decide (c = "/"%char)).

Lemma name_byte_plain c : name_byte c = true -> plain c = true.
Proof. unfold name_byte. destruct (plain c); done. Qed.

Lemma handle_byte_name c : is_handle_byte c = true -> name_byte c = true.
Proof. ascii_cases c; vm_compute; done. Qed.

Lemma code_byte_name c : is_code_byte c = true -> name_byte c = true.
Proof. ascii_cases c; vm_compute; done. Qed.

Lemma lower_name c : name_byte (byte_to_lower c) = true -> name_byte c = true.
Proof. ascii_cases c; vm_compute; done. Qed.

Lemma str_all_lower (p : ascii -> bool) s :
  (forall c, p (byte_to_lower c) = true -> p c = true) ->
  str_all p (to_ascii_lowercase s) = true -> str_all p s = true.
Proof.
  intros Hp. unfold to_ascii_lowercase. induction s as [|c s IH]; simpl; [done|].
  rewrite !andb_true_iff. intros [Hc Hs]; auto.
Qed.

Lemma plain_ascii s : str_all plain s = true -> is_ascii s = true.
Proof.
  apply str_all_mono. intros c. unfold plain. by destruct (is_ascii_byte c).
Qed.

Lemma name_plain s : str_all name_byte s = true -> str_all plain s = true.
Proof. apply str_all_mono, name_byte_plain. Qed.

Lemma handle_valid_spec handle :
  handle_valid handle = true <->
  handle <> "" /\ (String.length handle <= HANDLE_MAX_LEN)%nat
  /\ str_all is_handle_byte handle = true.
Proof.
  unfold handle_valid. rewrite !andb_true_iff, negb_true_iff, bool_decide_eq_false.
  rewrite Nat.leb_le. tauto.
Qed.

Lemma code_valid_spec code :
  code_valid code = true <->
  code <> "" /\ (String.length code <= CODE_MAX_LEN)%nat
  /\ str_all is_code_byte code = true.
Proof.
  unfold code_valid. rewrite !andb_true_iff, negb_true_iff, bool_decide_eq_false.
  rewrite Nat.leb_le. tauto.
Qed.

Lemma handle_valid_name handle : handle_valid handle = true -> str_all name_byte handle = true.
Proof.
  rewrite handle_valid_spec. intros (_ & _ & H). eapply str_all_mono, H. apply handle_byte_name.
Qed.

Lemma code_valid_name code : code_valid code = true -> str_all name_byte code = true.
Proof.
  rewrite code_valid_spec. intros (_ & _ & H). eapply str_all_mono, H. apply code_byte_name.
Qed.

Lemma before_or_all_split c s :
  exists tail, s = before_or_all (String c "") s +:+ tail
    /\ contains c (before_or_all (String c "") s) = false
    /\ (tail = "" \/ exists t, tail = String c t).
Proof.
  unfold before_or_all. destruct (split_once _ s) as [[a b]|] eqn:E.
  - exists (String c b). split_and!; [|by eapply split_once_char_before|by eauto].
    by apply split_once_Some_eq in E.
  - exists "". rewrite append_nil_r. split_and!; [done| |by left].
    by apply split_once_char_None in E.
Qed.

Lemma before_or_all_append c a t :
  contains c a = false -> (t = "" \/ exists u, t = String c u) ->
  before_or_all (String c "") (a +:+ t) = a.
Proof.
  intros Ha [->|[u ->]]; unfold before_or_all.
  - rewrite append_nil_r. by rewrite (proj2 (split_once_char_None c a) Ha).
  - pose proof (split_once_append c "" a u Ha) as E. simpl in E. by rewrite E.
Qed.

(** What the two cuts at [#] and [?] leave, and what they drop. *)
Lemma without_query_split rest :
  exists tail, rest = before_or_all "?" (before_or_all "#" rest) +:+ tail
    /\ discarded_tail tail.
Proof.
  destruct (before_or_all_split "#" rest) as (t1 & E1 & _ & H1).
  destruct (before_or_all_split "?" (before_or_all "#" rest)) as (t2 & E2 & _ & H2).
  exists (t2 +:+ t1). split; [by rewrite <- append_assoc, <- E2|].
  unfold discarded_tail.
  destruct H2 as [->|[u ->]].
  - destruct H1 as [->|[v ->]]; [by left|]. right; right. by exists v.
  - right; left. by exists (u +:+ t1).
Qed.

Lemma without_query_append text tail :
  str_all plain text = true -> discarded_tail tail ->
  before_or_all "?" (before_or_all "#" (text +:+ tail)) = text.
Proof.
  intros Hp Ht.
  assert (Hh : contains "#" text = false) by (by eapply str_all_not_contains).
  assert (Hq : contains "?" text = false) by (by eapply str_all_not_contains).
  destruct Ht as [->|[[t ->]|[t ->]]].
  - rewrite append_nil_r. rewrite <- (append_nil_r text) at 1.
    rewrite before_or_all_append by auto. rewrite <- (append_nil_r text) at 1.
    by rewrite before_or_all_append by auto.
  - destruct (before_or_all_split "#" (text +:+ "?" +:+ t)) as (t1 & E1 & _ & H1).
    unfold before_or_all at 2. destruct (split_once "#" _) as [[a b]|] eqn:E.
    + assert (exists u, a = text +:+ "?" +:+ u) as [u ->].
      { pose proof (split_once_Some_eq _ _ _ _ E) as Hs. clear - Hs Hh.
        revert a Hs. induction text as [|c x IH]; intros a Hs; simpl in *.
        - destruct a as [|a0 a]; simpl in *; simplify_eq. by eexists.
        - rewrite contains_cons, orb_false_iff, bool_decide_eq_false in Hh.
          destruct Hh as [Hc Hx]. destruct a as [|a0 a]; simpl in *; simplify_eq.
          destruct (IH Hx _ ltac:(eassumption)) as [u ->]. by exists u. }
      by apply before_or_all_append; eauto.
    + by apply before_or_all_append; eauto.
  - rewrite before_or_all_append by eauto. rewrite <- (append_nil_r text) at 1.
    by rewrite before_or_all_append by auto.
Qed.

Lemma host_of_authority_Ok authority host :
  host_of_authority authority = Ok host ->
  exists port, authority = host +:+ port /\ (port = "" \/ port = ":80" \/ port = ":443").
Proof.
  unfold host_of_authority. destruct (rsplit_once ":" authority) as [[b p]|] eqn:E.
  - apply rsplit_once_Some in E as [-> _].
    destruct (bool_decide (p = "80")) eqn:E1;
      [|destruct (bool_decide (p = "443")) eqn:E2]; simpl; intros; simplify_eq.
    + apply bool_decide_eq_true in E1 as ->. exists ":80". auto.
    + apply bool_decide_eq_true in E2 as ->. exists ":443". auto.
  - intros; simplify_eq. exists "". rewrite append_nil_r. auto.
Qed.

Lemma host_of_authority_append host port :
  contains ":" host = false -> (port = "" \/ port = ":80" \/ port = ":443") ->
  host_of_authority (host +:+ port) = Ok host.
Proof.
  intros Hc Hp. unfold host_of_authority.
  destruct Hp as [->|[->| ->]].
  - rewrite append_nil_r. by rewrite (proj2 (rsplit_once_None ":" host) Hc).
  - by rewrite (proj2 (rsplit_once_Some ":" (host +:+ ":80") host "80")).
  - by rewrite (proj2 (rsplit_once_Some ":" (host +:+ ":443") host "443")).
Qed.

Lemma accepted_host_lower host :
  existsb (eq_ignore_ascii_case host) ACCEPTED_HOSTS = true
  <-> to_ascii_lowercase host ∈ ACCEPTED_HOSTS.
Proof.
  unfold eq_ignore_ascii_case, ACCEPTED_HOSTS. simpl.
  rewrite !orb_true_iff, !bool_decide_eq_true. set_solver.
Qed.

Lemma accepted_host_name host :
  to_ascii_lowercase host ∈ ACCEPTED_HOSTS -> str_all name_byte host = true.
Proof.
  intros H. apply (str_all_lower _ _ lower_name).
  unfold ACCEPTED_HOSTS in H. set_unfold in H.
  destruct_or! H; by rewrite H.
Qed.

Lemma parse_path_Ok path handle code :
  parse_path path = Ok (handle, code) <->
  exists slashes, path = "@" +:+ handle +:+ "/post/" +:+ code +:+ slashes
    /\ handle_valid handle = true /\ code_valid code = true
    /\ only_byte "/" slashes = true.
Proof.
  unfold parse_path. split.
  - destruct (starts_with "t/" path); [done|].
    destruct (strip_prefix "@" path) as [am|] eqn:E1; [|done].
    destruct (split_once "/post/" am) as [[h c]|] eqn:E2; [|done].
    destruct (handle_valid h) eqn:Hh; simpl; [|done].
    destruct (code_valid _) eqn:Hc; simpl; [|done]. intros; simplify_eq.
    destruct (trim_end_matches_split "/" c) as (sl & Hsl & Hall).
    exists sl. split_and!; try done.
    apply strip_prefix_Some in E1 as ->. apply split_once_Some_eq in E2 as ->.
    by rewrite <- Hsl.
  - intros (sl & -> & Hh & Hc & Hs).
    assert (starts_with "t/" ("@" +:+ handle +:+ "/post/" +:+ code +:+ sl) = false) as ->.
    { apply not_true_iff_false. rewrite starts_with_true. by intros [t Ht]. }
    rewrite strip_prefix_append.
    change ("/post/" +:+ code +:+ sl) with (String "/" ("post/" +:+ (code +:+ sl))).
    rewrite (split_once_append "/" "post/" handle (code +:+ sl)); last first.
    { by eapply str_all_not_contains; [by apply handle_valid_name|]. }
    rewrite trim_end_matches_append; last done; last first.
    { by eapply str_all_not_contains; [by apply code_valid_name|]. }
    by rewrite Hh, Hc.
Qed.

Lemma scheme_lower scheme :
  eq_ignore_ascii_case scheme "http" || eq_ignore_ascii_case scheme "https" = true
  <-> to_ascii_lowercase scheme = "http" \/ to_ascii_lowercase scheme = "https".
Proof. unfold eq_ignore_ascii_case. by rewrite orb_true_iff, !bool_decide_eq_true. Qed.

Lemma scheme_name scheme :
  to_ascii_lowercase scheme = "http" \/ to_ascii_lowercase scheme = "https" ->
  str_all name_byte scheme = true.
Proof. intros H. apply (str_all_lower _ _ lower_name). by destruct H as [->| ->]. Qed.

Lemma grammar_plain host port handle code slashes :
  to_ascii_lowercase host ∈ ACCEPTED_HOSTS ->
  (port = "" \/ port = ":80" \/ port = ":443") ->
  handle_valid handle = true -> code_valid code = true -> only_byte "/" slashes = true ->
  str_all plain (host +:+ port +:+ "/@" +:+ handle +:+ "/post/" +:+ code +:+ slashes) = true.
Proof.
  intros Hh Hp Ha Hc Hs. rewrite !str_all_append.
  rewrite (name_plain host), (name_plain handle), (name_plain code)
    by auto using accepted_host_name, handle_valid_name, code_valid_name.
  assert (str_all plain slashes = true) as ->.
  { eapply str_all_mono, Hs. intros c. rewrite bool_decide_eq_true. by intros ->. }
  by destruct Hp as [->|[->| ->]].
Qed.

Lemma try_from_sound raw c :
  try_from raw = Ok c ->
  exists scheme host port handle code slashes tail,
    Grammar raw scheme host port handle code slashes tail
    /\ c = mkCanonicalizedUrl raw (mkPermalink (canonical handle code)).
Proof.
  unfold try_from.
  destruct (Nat.ltb_spec MAX_INPUT_LEN (length (chars raw))) as [|Hlen]; [done|].
  destruct (split_once "://" raw) as [[scheme rest]|] eqn:E0; [|done].
  destruct (_ || _) eqn:Hscheme; cbn [negb]; [|done].
  destruct (without_query_split rest) as (tail & Hrest & Htail).
  set (wq := before_or_all "?" (before_or_all "#" rest)) in *.
  destruct (is_ascii wq); cbn [negb]; [|done].
  destruct (contains "%" wq); [done|].
  destruct (split_once "/" wq) as [[authority path]|] eqn:E1.
  2:{ destruct (host_of_authority wq); simpl; [|done]. by destruct (negb _). }
  destruct (host_of_authority authority) as [host|] eqn:E2; cbn [result_bind]; [|done].
  destruct (existsb _ _) eqn:Hhost; cbn [negb]; [|done].
  destruct (parse_path path) as [[handle code]|] eqn:E3; cbn [result_bind]; [|done].
  intros; simplify_eq.
  apply host_of_authority_Ok in E2 as (port & -> & Hport).
  apply parse_path_Ok in E3 as (slashes & -> & Hh & Hc & Hsl).
  exists scheme, host, port, handle, code, slashes, tail. split; [|done].
  apply split_once_Some_eq in E0, E1.
  split; try done; [|by apply scheme_lower|by apply accepted_host_lower].
  rewrite E0, Hrest, E1. unfold grammar_text. by autorewrite with rust.
Qed.

Lemma try_from_complete raw scheme host port handle code slashes tail :
  Grammar raw scheme host port handle code slashes tail ->
  try_from raw = Ok (mkCanonicalizedUrl raw (mkPermalink (canonical handle code))).
Proof.
  intros [Htext Hlen Hs Hh Hp Ha Hc Hsl Ht].
  pose proof (grammar_plain _ _ _ _ _ Hh Hp Ha Hc Hsl) as Hplain.
  set (text := host +:+ port +:+ "/@" +:+ handle +:+ "/post/" +:+ code +:+ slashes) in *.
  unfold try_from.
  rewrite (proj2 (Nat.ltb_ge _ _) Hlen).
  assert (raw = scheme +:+ String ":" ("//" +:+ (text +:+ tail))) as Hraw.
  { rewrite Htext. unfold grammar_text, text. by autorewrite with rust. }
  rewrite Hraw at 1. rewrite split_once_append.
  2:{ by eapply str_all_not_contains; [by apply scheme_name|]. }
  rewrite (proj2 (scheme_lower _) Hs). cbn [negb].
  rewrite without_query_append by done.
  rewrite (plain_ascii _ Hplain). cbn [negb].
  rewrite (str_all_not_contains plain "%" _ Hplain) by done.
  assert (split_once "/" text
    = Some (host +:+ port, "@" +:+ handle +:+ "/post/" +:+ code +:+ slashes)) as ->.
  { unfold text. rewrite <- (append_assoc host port).
    pose proof (split_once_append "/" "" (host +:+ port)) as E. cbn in E. apply E.
    rewrite contains_append.
    rewrite (str_all_not_contains name_byte "/" host) by auto using accepted_host_name.
    by destruct Hp as [->|[->| ->]]. }
  rewrite host_of_authority_append; [|by eapply str_all_not_contains; [by apply accepted_host_name|]|done].
  cbn [result_bind]. rewrite (proj2 (accepted_host_lower _) Hh). cbn [negb].
  rewrite (proj2 (parse_path_Ok _ handle code)); [done|]. by exists slashes.
Qed.

(** [C24] The parser accepts exactly the documented grammar: a raw text is
    canonicalized if and only if it splits into a scheme, host, default port,
    handle, post code, trailing slashes and a discarded query or fragment, and
    the result keeps the raw text beside the canonical permalink of that handle
    and code. *)
Theorem try_from_accepts_grammar raw c :
  try_from raw = Ok c <->
  exists scheme host port handle code slashes tail,
    Grammar raw scheme host port handle code slashes tail
    /\ c = mkCanonicalizedUrl raw (mkPermalink (canonical handle code)).
Proof.
  split; [apply try_from_sound|].
  intros (scheme & host & port & handle & code & slashes & tail & Hg & ->).
  by eapply try_from_complete.
Qed.

Lemma lower_valid handle :
  handle_valid handle = true -> handle_valid (to_ascii_lowercase handle) = true.
Proof.
  rewrite !handle_valid_spec, length_to_ascii_lowercase. intros (Hn & Hl & Hall).
  split_and!; [by destruct handle|done|].
  unfold to_ascii_lowercase. clear Hn Hl. induction handle as [|c s IH]; simpl in *; [done|].
  apply andb_true_iff in Hall as [Hc Hs]. rewrite IH by done. rewrite andb_true_r.
  revert Hc. by ascii_cases c.
Qed.

Lemma canonical_grammar handle code :
  handle_valid handle = true -> code_valid code = true ->
  Grammar (canonical handle code) "https" CANONICAL_HOST "" (to_ascii_lowercase handle) code "" "".
Proof.
  intros Hh Hc. pose proof (lower_valid _ Hh) as Hlh.
  split; try done; auto using lower_valid.
  - unfold canonical, grammar_text, CANONICAL_HOST. by autorewrite with rust.
  - rewrite length_chars_ascii.
    + apply handle_valid_spec in Hlh as (_ & Hl & _). apply code_valid_spec in Hc as (_ & Hl' & _).
      unfold canonical. autorewrite with rust in *. simpl.
      unfold HANDLE_MAX_LEN, CODE_MAX_LEN, MAX_INPUT_LEN in *. lia.
    + apply plain_ascii. unfold canonical, CANONICAL_HOST. rewrite !str_all_append.
      by rewrite (name_plain (to_ascii_lowercase handle)), (name_plain code)
        by auto using handle_valid_name, code_valid_name.
  - unfold CANONICAL_HOST, ACCEPTED_HOSTS. set_solver.
  - by left.
Qed.

Lemma canonical_lower handle code :
  canonical (to_ascii_lowercase handle) code = canonical handle code.
Proof. unfold canonical. by rewrite to_ascii_lowercase_idemp. Qed.

(** The permalink of an accepted text is a fixed point of the canonicalization. *)
Lemma try_from_permalink raw c :
  try_from raw = Ok c ->
  try_from (as_str (permalink c)) = Ok (mkCanonicalizedUrl (as_str (permalink c)) (permalink c)).
Proof.
  intros H. apply try_from_sound in H as (sc & ho & po & ha & co & sl & ta & Hg & ->). simpl.
  destruct Hg. erewrite try_from_complete by (by apply canonical_grammar).
  by rewrite canonical_lower.
Qed.

(** Canonicalization is idempotent: the canonical permalink of any
    accepted text is itself accepted and is its own canonical form, so a stored
    permalink read back is the one that was written. *)
Theorem try_from_idempotent raw c (H : try_from raw = Ok c) :
  try_from (as_str (permalink c)) = Ok (mkCanonicalizedUrl (as_str (permalink c)) (permalink c))
  /\ original c = raw.
Proof.
  split; [by eapply try_from_permalink|].
  by apply try_from_sound in H as (? & ? & ? & ? & ? & ? & ? & _ & ->).
Qed.

Definition sample_raw : string := "http://www.threads.com/@Ada.L/post/CxY_9-z/?a=1".

Lemma try_from_idempotent_witness :
  try_from "https://www.threads.net/@ada.l/post/CxY_9-z"
  = Ok (mkCanonicalizedUrl "https://www.threads.net/@ada.l/post/CxY_9-z"
          (mkPermalink "https://www.threads.net/@ada.l/post/CxY_9-z")).
Proof.
  exact (proj1 (try_from_idempotent sample_raw
    (mkCanonicalizedUrl sample_raw (mkPermalink "https://www.threads.net/@ada.l/post/CxY_9-z"))
    ltac:(vm_compute; reflexivity))).
Defined.

Lemma canonical_inj handle code handle' code' :
  handle_valid handle = true -> handle_valid handle' = true ->
  canonical handle code = canonical handle' code' ->
  to_ascii_lowercase handle = to_ascii_lowercase handle' /\ code = code'.
Proof.
  intros Hh Hh' H. unfold canonical in H. do 3 apply append_inj_l in H.
  assert (forall h c, handle_valid h = true ->
    split_once "/post/" (to_ascii_lowercase h +:+ "/post/" +:+ c)
    = Some (to_ascii_lowercase h, c)) as Hsplit.
  { intros h c Hv. change ("/post/" +:+ c) with (String "/" ("post/" +:+ c)).
    apply split_once_append. apply (str_all_not_contains name_byte); [|done].
    by apply handle_valid_name, lower_valid. }
  pose proof (Hsplit handle code Hh) as E. rewrite H, Hsplit in E by done. injection E as E1 E2; auto.
Qed.

(** Two accepted texts share a canonical permalink exactly when they name
    the same post: the handles agree up to ASCII case and the case-sensitive
    post codes are equal. Scheme, host, port, slashes, query and fragment never
    separate two captures of one post, and never merge two posts. *)
Theorem permalink_identity raw raw' c c' s h p ha co sl t s' h' p' ha' co' sl' t'
  (Hc : try_from raw = Ok c) (Hc' : try_from raw' = Ok c')
  (Hg : Grammar raw s h p ha co sl t) (Hg' : Grammar raw' s' h' p' ha' co' sl' t') :
  permalink c = permalink c' <->
  to_ascii_lowercase ha = to_ascii_lowercase ha' /\ co = co'.
Proof.
  rewrite (try_from_complete _ _ _ _ _ _ _ _ Hg) in Hc.
  rewrite (try_from_complete _ _ _ _ _ _ _ _ Hg') in Hc'. simplify_eq. simpl.
  destruct Hg, Hg'. split.
  - intros H. apply (f_equal as_str) in H. cbn [as_str] in H. by apply canonical_inj.
  - intros [E ->]. rewrite <- (canonical_lower ha), E. by rewrite canonical_lower.
Qed.

Lemma permalink_identity_witness :
  let raw := "http://threads.net/@Ada/post/Cx" in
  let raw' := "https://www.threads.com:443/@aDA/post/Cx/#f" in
  permalink (mkCanonicalizedUrl raw (mkPermalink (canonical "Ada" "Cx")))
  = permalink (mkCanonicalizedUrl raw' (mkPermalink (canonical "aDA" "Cx"))).
Proof.
  intros raw raw'.
  refine (proj2 (permalink_identity raw raw' _ _ "http" "threads.net" "" "Ada" "Cx" "" ""
    "https" "www.threads.com" ":443" "aDA" "Cx" "/" "#f" _ _ _ _) _).
  1,2: vm_compute; reflexivity.
  - constructor; try (vm_compute; reflexivity); vm_compute; auto; try lia.
    by left. 
  - constructor; try (vm_compute; reflexivity); vm_compute; auto; try lia.
    + by right; right; right; left.
    + right; right. by exists "f".
  - by split.
Defined.

(** The rule each refusal names, as a property of the raw text alone. *)
Definition violates (e : PermalinkError) (raw : string) : Prop :=
  match e with
  | TooLong n => n = length (chars raw) /\ (MAX_INPUT_LEN < n)%nat
  | InvalidUrl => split_once "://" raw = None
  | Scheme => exists scheme rest, split_once "://" raw = Some (scheme, rest)
      /\ to_ascii_lowercase scheme <> "http" /\ to_ascii_lowercase scheme <> "https"
  | _ => exists scheme rest, split_once "://" raw = Some (scheme, rest)
      /\ let wq := before_or_all "?" (before_or_all "#" rest) in
      match e with
      | NonAscii => is_ascii wq = false
      | PercentEncoded => contains "%" wq = true
      | Port => exists authority host port, authority = before_or_all "/" wq
          /\ authority = host +:+ String ":" port /\ contains ":" port = false
          /\ port <> "80" /\ port <> "443"
      | Host => exists host, host_of_authority (before_or_all "/" wq) = Ok host
          /\ to_ascii_lowercase host ∉ ACCEPTED_HOSTS
      | ShortFormUnsupported => exists path, wq = before_or_all "/" wq +:+ "/t/" +:+ path
      | HandleGrammar | PostCodeGrammar =>
          exists handle rest', wq = before_or_all "/" wq +:+ "/@" +:+ handle +:+ "/post/" +:+ rest'
          /\ (if bool_decide (e = HandleGrammar) then handle_valid handle = false
              else handle_valid handle = true
                   /\ code_valid (trim_end_matches "/" rest') = false)
      | _ => forall handle rest', wq <> before_or_all "/" wq +:+ "/@" +:+ handle +:+ "/post/" +:+ rest'
      end
  end.

Lemma parse_path_Err path e :
  parse_path path = Err e ->
  match e with
  | ShortFormUnsupported => exists p, path = "t/" +:+ p
  | HandleGrammar => exists h r, path = "@" +:+ h +:+ "/post/" +:+ r /\ handle_valid h = false
  | PostCodeGrammar => exists h r, path = "@" +:+ h +:+ "/post/" +:+ r
      /\ handle_valid h = true /\ code_valid (trim_end_matches "/" r) = false
  | PathShape => forall h r, path <> "@" +:+ h +:+ "/post/" +:+ r
  | _ => False
  end.
Proof.
  unfold parse_path. destruct (starts_with "t/" path) eqn:Et.
  { intros; simplify_eq. by apply starts_with_true. }
  destruct (strip_prefix "@" path) as [am|] eqn:E1.
  2:{ intros; simplify_eq. intros h r ->. by rewrite strip_prefix_append in E1. }
  apply strip_prefix_Some in E1 as ->.
  destruct (split_once "/post/" am) as [[h c]|] eqn:E2.
  2:{ intros; simplify_eq. intros h r Heq. apply append_inj_l in Heq.
      by eapply split_once_None in E2. }
  apply split_once_Some_eq in E2 as ->.
  destruct (handle_valid h) eqn:Hh; simpl; [destruct (code_valid _) eqn:Hc; simpl|];
    intros; simplify_eq; exists h, c; done.
Qed.

Lemma before_slash_split wq :
  match split_once "/" wq with
  | Some (a, p) => before_or_all "/" wq = a /\ wq = a +:+ "/" +:+ p
  | None => before_or_all "/" wq = wq
  end.
Proof.
  unfold before_or_all. destruct (split_once "/" wq) as [[a p]|] eqn:E; [|done].
  split; [done|]. by apply split_once_Some_eq in E.
Qed.

Lemma host_of_authority_Err authority e :
  host_of_authority authority = Err e ->
  e = Port /\ exists host port, authority = host +:+ String ":" port
    /\ contains ":" port = false /\ port <> "80" /\ port <> "443".
Proof.
  unfold host_of_authority. destruct (rsplit_once ":" authority) as [[b p]|] eqn:E; [|done].
  apply rsplit_once_Some in E as [-> Hp].
  destruct (_ || _) eqn:Eo; [done|]. intros; simplify_eq.
  rewrite orb_false_iff, !bool_decide_eq_false in Eo. naive_solver.
Qed.

Lemma append_not_self a c s : a <> a +:+ String c s.
Proof.
  intros H. apply (f_equal String.length) in H. rewrite length_append in H. simpl in H. lia.
Qed.

(** Every refusal names a rule the raw text breaks, so a caller can fix an
    input one defect at a time. *)
Theorem refusal_names_violated_rule raw e (H : try_from raw = Err e) : violates e raw.
Proof.
  revert H. unfold try_from.
  destruct (Nat.ltb_spec MAX_INPUT_LEN (length (chars raw))) as [Hlen|Hlen].
  { intros; simplify_eq. done. }
  destruct (split_once "://" raw) as [[scheme rest]|] eqn:E0; [|by intros; simplify_eq].
  destruct (_ || _) eqn:Hscheme; cbn [negb].
  2:{ intros; simplify_eq. exists scheme, rest. unfold eq_ignore_ascii_case in Hscheme.
      by rewrite orb_false_iff, !bool_decide_eq_false in Hscheme. }
  assert (forall P, (exists s r, Some (scheme, rest) = Some (s, r) /\ P s r) <-> P scheme rest)
    as Hex by (intros P; split; [intros (? & ? & ? & ?); by simplify_eq|by eauto]).
  set (wq := before_or_all "?" (before_or_all "#" rest)).
  destruct (is_ascii wq) eqn:Ha; cbn [negb].
  2:{ intros; simplify_eq. simpl. rewrite E0. by apply Hex. }
  destruct (contains "%" wq) eqn:Hp.
  { intros; simplify_eq. simpl. rewrite E0. by apply Hex. }
  pose proof (before_slash_split wq) as Hb.
  set (ap := match split_once "/" wq with Some (a, p) => (a, p) | None => (wq, "") end).
  assert (ap.1 = before_or_all "/" wq) as Hap
    by (subst ap; destruct (split_once "/" wq) as [[]|]; naive_solver).
  destruct ap as [authority path] eqn:Eap; simpl in Hap; subst authority.
  destruct (host_of_authority _) as [host|pe] eqn:E2; cbn [result_bind].
  2:{ intros; simplify_eq. apply host_of_authority_Err in E2 as [-> (h & p & Hh)].
      simpl. rewrite E0. apply Hex. by exists (before_or_all "/" wq), h, p. }
  destruct (existsb _ _) eqn:Hhost; cbn [negb].
  2:{ intros; simplify_eq. simpl. rewrite E0. apply Hex. exists host. split; [done|].
      rewrite <- accepted_host_lower. by rewrite Hhost. }
  destruct (parse_path path) as [[handle code]|pe] eqn:E3; cbn [result_bind]; [done|].
  intros; simplify_eq. apply parse_path_Err in E3.
  destruct e; simpl in *; try done; rewrite E0; apply Hex; fold wq.
  all: destruct (split_once "/" wq) as [[a p]|]; simplify_eq;
    [destruct Hb as [_ Hb]|rewrite Hb; simpl in E3].
  - intros h r Heq. rewrite Hb in Heq at 1. apply append_inj_l in Heq. injection Heq as Heq. by eapply E3.
  - intros h r. apply append_not_self.
  - destruct E3 as (h & r & Hq & Hv). exists h, r. split; [|done]. by rewrite Hb, Hq at 1.
  - by destruct E3 as (h & r & [=] & Hv).
  - destruct E3 as (h & r & Hq & Hv). exists h, r. split; [|done]. by rewrite Hb, Hq at 1.
  - by destruct E3 as (h & r & [=] & Hv).
  - destruct E3 as (q & Hq). exists q. by rewrite Hb, Hq at 1.
  - by destruct E3 as (q & [=]).
Qed.

Lemma refusal_names_violated_rule_witness :
  violates HandleGrammar "https://threads.net/@bad!/post/x".
Proof.
  apply (refusal_names_violated_rule "https://threads.net/@bad!/post/x").
  vm_compute; reflexivity.
Defined.

End Permalink.
