(* ===== verification/Relation.v ===== *)
(** The relation-kind grammar and the relation edge types
    (src/crates/threads-archive/src/relation.rs). *)
From S2P Require Import Prelude.

Module Relation.
Local Open Scope string_scope.
Local Open Scope rust_scope.

Definition MAX_LEN : nat := 32.

(** [RelationKind(String)]. *)
Record RelationKind := mkRelationKind { kind_str : string }.

#[global] Instance RelationKind_eq_dec : EqDecision RelationKind.
Proof. solve_decision. Defined.

(** The [char] a refusal carries is a code point. *)
Inductive RelationKindError :=
| Empty
| LeadingCharacter (first : Z)
| IllegalCharacter (illegal : Z)
| KindTooLong (length : nat).

(** [char::is_ascii_lowercase] and [char::is_ascii_digit]. *)
Definition char_is_ascii_lowercase (c : Z) : bool := ((97 <=? c) && (c <=? 122))%Z.
Definition char_is_ascii_digit (c : Z) : bool := ((48 <=? c) && (c <=? 57))%Z.

Definition kind_char (c : Z) : bool :=
  char_is_ascii_lowercase c || char_is_ascii_digit c || (c =? 95)%Z.

(** [RelationKind::validate]. *)
Definition validate (token : string) : Result RelationKindError () :=
  let cs := chars token in
  match cs with
  | [] => Err Empty
  | first :: rest =>
      if negb (char_is_ascii_lowercase first) then Err (LeadingCharacter first)
      else match list_find (fun c => kind_char c = false) rest with
           | Some (_, illegal) => Err (IllegalCharacter illegal)
           | None =>
               if (MAX_LEN <? length cs)%nat then Err (KindTooLong (length cs)) else Ok ()
           end
  end.

(** [TryFrom<&str>] and [TryFrom<String>] for [RelationKind]. *)
Definition relation_kind_try_from (value : string) : Result RelationKindError RelationKind :=
  let? _ := validate value in Ok (mkRelationKind value).

Record ResolvedTarget := { rt_provider_post_id : string }.

Record UnresolvedTarget := {
  ut_provider_post_id : option string;
  ut_permalink : option string;
}.

Inductive RelationTarget :=
| Resolved (t : ResolvedTarget)
| Unresolved (t : UnresolvedTarget).

Record PostRelation := {
  referencing_post_id : string;
  kind : RelationKind;
  target : RelationTarget;
}.

(** The schema's own test of the same column, [relation_kind ~ '^[a-z][a-z0-9_]{0,31}$']. *)
Definition kind_byte (c : ascii) : bool :=
  is_ascii_lowercase c || is_ascii_digit c || bool_decide (c = "_"%char).

Definition kind_regex (s : string) : bool :=
  match s with
  | EmptyString => false
  | String c s' => is_ascii_lowercase c && str_all kind_byte s' && (String.length s' <=? 31)%nat
  end.

Example kind_reply : relation_kind_try_from "reply" = Ok (mkRelationKind "reply").
Proof. reflexivity. Qed.

Lemma kind_char_byte c : kind_char (byte_val c) = kind_byte c.
Proof. ascii_cases c; reflexivity. Qed.

Lemma lower_char_byte c : char_is_ascii_lowercase (byte_val c) = is_ascii_lowercase c.
Proof. ascii_cases c; reflexivity. Qed.

Lemma kind_byte_ascii c : kind_byte c = true -> is_ascii_byte c = true.
Proof. ascii_cases c; vm_compute; done. Qed.

Lemma lower_kind_byte c : is_ascii_lowercase c = true -> kind_byte c = true.
Proof. unfold kind_byte. by intros ->. Qed.

Lemma kind_char_below c : kind_char c = true -> (c < 128)%Z.
Proof.
  unfold kind_char, char_is_ascii_lowercase, char_is_ascii_digit. lia.
Qed.

Lemma lower_char_kind c : char_is_ascii_lowercase c = true -> kind_char c = true.
Proof. unfold kind_char. by intros ->. Qed.

Lemma find_illegal_None l :
  list_find (fun c => kind_char c = false) l = None <-> Forall (fun c => kind_char c = true) l.
Proof.
  rewrite list_find_None. split; intros H; (eapply Forall_impl; [exact H|]); intros c; simpl;
    by destruct (kind_char c).
Qed.

Lemma str_all_Forall (p : ascii -> bool) s :
  str_all p s = true <-> Forall (fun c => p c = true) (String.list_ascii_of_string s).
Proof.
  induction s as [|c s IH]; simpl; [by split|].
  rewrite andb_true_iff, Forall_cons. by rewrite IH.
Qed.

Lemma length_list_ascii s : length (String.list_ascii_of_string s) = String.length s.
Proof. induction s; simpl; congruence. Qed.

Lemma chars_ascii s : is_ascii s = true -> chars s = byte_val <$> String.list_ascii_of_string s.
Proof. intros H. by apply chars_fuel_ascii_bytes. Qed.

Lemma validate_ascii token :
  is_ascii token = true -> validate token = Ok () <-> kind_regex token = true.
Proof.
  intros Ha. unfold validate. rewrite (chars_ascii _ Ha).
  destruct token as [|c s]; simpl; [by split|].
  rewrite lower_char_byte. destruct (is_ascii_lowercase c); simpl; [|by split].
  assert (list_find (fun x => kind_char x = false) (byte_val <$> String.list_ascii_of_string s)
    = None <-> str_all kind_byte s = true) as Hfind.
  { rewrite find_illegal_None, Forall_fmap, str_all_Forall.
    apply Forall_iff. intros d. simpl. by rewrite kind_char_byte. }
  destruct (list_find _ _) as [[i z]|].
  - destruct (str_all kind_byte s); [discriminate (proj2 Hfind eq_refl)|by split].
  - rewrite (proj1 Hfind eq_refl). rewrite length_fmap, length_list_ascii.
    unfold MAX_LEN.
    destruct (Nat.ltb_spec 32 (S (String.length s))), (Nat.leb_spec (String.length s) 31);
      first [exfalso; lia | by split].
Qed.

(** The token grammar of [RelationKind] and the schema's CHECK on
    [post_relations.relation_kind] accept the same strings, so an edge that
    passes one cannot be refused by the other; accepted tokens are kept as they are. *)
Theorem relation_kind_matches_schema_check token k (Hutf8 : valid_utf8 token = true) :
  relation_kind_try_from token = Ok k <-> kind_regex token = true /\ k = mkRelationKind token.
Proof.
  assert (validate token = Ok () <-> kind_regex token = true) as Hv.
  { split.
    - intros Hok. apply validate_ascii; [|done]. eapply chars_fuel_below_128; [exact Hutf8|].
      unfold validate, chars in *. destruct (chars_fuel _ token) as [|f r]; [done|].
      destruct (char_is_ascii_lowercase f) eqn:Hf; [|done]. simpl in Hok.
      destruct (list_find _ r) as [[]|] eqn:E; [done|]. apply find_illegal_None in E.
      constructor; [by apply kind_char_below, lower_char_kind|].
      eapply Forall_impl; [exact E|]. apply kind_char_below.
    - intros Hr. apply validate_ascii; [|done]. destruct token as [|c s]; [done|].
      simpl in Hr. rewrite !andb_true_iff in Hr. destruct Hr as [[Hc Hs] _].
      unfold is_ascii; simpl. rewrite (kind_byte_ascii c) by (by apply lower_kind_byte). simpl.
      eapply str_all_mono, Hs. apply kind_byte_ascii. }
  unfold relation_kind_try_from. destruct (validate token) as [[]|e] eqn:E; simpl.
  - rewrite <- Hv. naive_solver.
  - rewrite <- Hv. naive_solver.
Qed.

Lemma relation_kind_matches_schema_check_witness :
  relation_kind_try_from "quote_2" = Ok (mkRelationKind "quote_2").
Proof.
  apply (relation_kind_matches_schema_check "quote_2"); [vm_compute; reflexivity|].
  split; vm_compute; reflexivity.
Defined.

End Relation.
