(* ===== verification/RelationGraph.v ===== *)
(** Normalization of provider relations and detection of reply cycles
    (src/crates/threads-archive/src/public_resolution.rs, [normalize_relations],
    [has_reply_cycle], [visits_cycle]).

    [visits_cycle] recurses along edges, so it takes fuel; [None] means the fuel
    ran out. [visits_cycle_spec] shows that one unit per node not yet on the path
    is enough, and [has_reply_cycle] supplies it. *)
From S2P Require Import Prelude Relation.

Module RelationGraph.
Local Open Scope string_scope.
Import Relation.

Record RelationInput := {
  ri_referencing_provider_post_id : string;
  ri_relation_kind : string;
  ri_target_provider_post_id : string;
  ri_target_permalink : option string;
}.

Inductive GraphTarget :=
| GResolved
| GUnresolved (permalink : option string).

Record GraphRelation := {
  gr_referencing_provider_post_id : string;
  gr_relation_kind : RelationKind;
  gr_target_provider_post_id : string;
  gr_target : GraphTarget;
}.

Inductive RelationGraphError :=
| InvalidKind (e : RelationKindError)
| ReplyCycle.

(** [BTreeMap<String, Vec<String>>]: reply edges by referencing post. *)
Abbreviation replies_map := (gmap string (list string)).

Section VisitTargets.
Context (visit : string -> gset string -> gset string -> option (bool * gset string * gset string)).

(** The [for target in targets] loop of [visits_cycle]. *)
Fixpoint visit_targets (targets : list string) (visiting complete : gset string)
  : option (bool * gset string * gset string) :=
  match targets with
  | [] => Some (false, visiting, complete)
  | target :: rest =>
      if decide (target ∈ complete) then visit_targets rest visiting complete
      else match visit target visiting complete with
           | Some (false, visiting', complete') => visit_targets rest visiting' complete'
           | r => r
           end
  end.
End VisitTargets.

(** [visits_cycle]; the two [&mut BTreeSet] arguments are returned. *)
Fixpoint visits_cycle (fuel : nat) (replies : replies_map) (current : string)
  (visiting complete : gset string) : option (bool * gset string * gset string) :=
  match fuel with
  | O => None
  | S fuel =>
      if decide (current ∈ visiting) then Some (true, visiting, complete)
      else
        match visit_targets (visits_cycle fuel replies) (default [] (replies !! current))
                ({[current]} ∪ visiting) complete with
        | Some (false, visiting', complete') =>
            Some (false, visiting' ∖ {[current]}, {[current]} ∪ complete')
        | r => r
        end
  end.

Definition str_leb (s t : string) : bool := bool_decide (String.le s t).

(** The keys of a [BTreeMap], ascending. *)
Definition sorted_keys (replies : replies_map) : list string :=
  sort_by str_leb (map_to_list replies).*1.

(** Every post named by an edge. *)
Definition nodes (replies : replies_map) : gset string :=
  dom replies ∪ list_to_set (concat (map_to_list replies).*2).

Definition graph_fuel (replies : replies_map) : nat := S (size (nodes replies)).

Fixpoint check_sources (fuel : nat) (replies : replies_map) (sources : list string)
  (complete : gset string) : option bool :=
  match sources with
  | [] => Some false
  | source :: rest =>
      if decide (source ∈ complete) then check_sources fuel replies rest complete
      else match visits_cycle fuel replies source ∅ complete with
           | None => None
           | Some (true, _, _) => Some true
           | Some (false, _, complete') => check_sources fuel replies rest complete'
           end
  end.

(** [has_reply_cycle]. *)
Definition has_reply_cycle (replies : replies_map) : option bool :=
  check_sources (graph_fuel replies) replies (sorted_keys replies) ∅.

(** The first loop of [normalize_relations]: validated edges and the reply map. *)
Fixpoint collect (known : gset string) (relations : list RelationInput)
  (normalized : list GraphRelation) (replies : replies_map)
  : Result RelationGraphError (list GraphRelation * replies_map) :=
  match relations with
  | [] => Ok (normalized, replies)
  | relation :: rest =>
      match relation_kind_try_from (ri_relation_kind relation) with
      | Err e => Err (InvalidKind e)
      | Ok kind =>
          let resolved := bool_decide (ri_target_provider_post_id relation ∈ known) in
          let replies' :=
            if bool_decide (kind_str kind = "reply") && resolved
            then <[ri_referencing_provider_post_id relation :=
                     (default [] (replies !! ri_referencing_provider_post_id relation)
                      ++ [ri_target_provider_post_id relation])%list]> replies
            else replies in
          let edge :=
            {| gr_referencing_provider_post_id := ri_referencing_provider_post_id relation;
               gr_relation_kind := kind;
               gr_target_provider_post_id := ri_target_provider_post_id relation;
               gr_target := if resolved then GResolved
                            else GUnresolved (ri_target_permalink relation) |} in
          collect known rest (normalized ++ [edge])%list replies'
      end
  end.

(** The sort key: referencing post, kind, target, compared lexicographically. *)
Definition edge_leb : GraphRelation -> GraphRelation -> bool :=
  lex_leb [gr_referencing_provider_post_id; fun g => kind_str (gr_relation_kind g);
           gr_target_provider_post_id].

(** [normalize_relations]; [None] when the cycle search runs out of fuel. *)
Definition normalize_relations (known : gset string) (relations : list RelationInput)
  : option (Result RelationGraphError (list GraphRelation)) :=
  match collect known relations [] ∅ with
  | Err e => Some (Err e)
  | Ok (normalized, replies) =>
      match has_reply_cycle replies with
      | None => None
      | Some true => Some (Err ReplyCycle)
      | Some false => Some (Ok (sort_by edge_leb normalized))
      end
  end.

(** * The graph the search runs on *)

Definition edge (replies : replies_map) (a b : string) : Prop :=
  b ∈ default [] (replies !! a).

(** A directed cycle: some post reaches itself by at least one reply edge. *)
Definition cyclic (replies : replies_map) : Prop := exists x, tc (edge replies) x x.

Definition closed (replies : replies_map) (c : gset string) : Prop :=
  forall x y, x ∈ c -> edge replies x y -> y ∈ c.

Definition acyclic_in (replies : replies_map) (c : gset string) : Prop :=
  forall x, x ∈ c -> ~ tc (edge replies) x x.

Lemma edge_nodes replies a b : edge replies a b -> a ∈ nodes replies /\ b ∈ nodes replies.
Proof.
  unfold edge, nodes. destruct (replies !! a) as [ts|] eqn:E; simpl; [|by intros ?%not_elem_of_nil].
  intros Hb. rewrite !elem_of_union, elem_of_dom, E, !elem_of_list_to_set. split; [by eauto|].
  right. apply list_elem_of_In, in_concat. exists ts. rewrite <- !list_elem_of_In. split; [|done].
  apply list_elem_of_fmap. exists (a, ts). split; [done|]. by apply elem_of_map_to_list.
Qed.

Lemma closed_tc replies c x y : closed replies c -> tc (edge replies) x y -> x ∈ c -> y ∈ c.
Proof. intros Hc. induction 1; eauto. Qed.

(** Adding a post all of whose targets are complete keeps the complete set closed and acyclic. *)
Lemma complete_extend replies c x :
  closed replies c -> acyclic_in replies c -> (forall y, edge replies x y -> y ∈ c) ->
  closed replies ({[x]} ∪ c) /\ acyclic_in replies ({[x]} ∪ c).
Proof.
  intros Hc Ha Hx. split.
  - intros a b [->%elem_of_singleton|Hin]%elem_of_union He; apply elem_of_union_r; eauto.
  - intros a Hin Htc. apply elem_of_union in Hin as [->%elem_of_singleton|Hin]; [|by eapply Ha].
    assert (x ∈ c) as Hxc; [|by eapply Ha].
    inversion Htc as [? ? He|? y ? He Ht]; subst; [by apply Hx|].
    by eapply closed_tc; [done| |apply Hx].
Qed.

(** What a visit returns: with [true] a cycle exists; with [false] the path is
    unchanged and the visited posts joined a closed, acyclic complete set. *)
Definition visit_post (replies : replies_map) (visiting complete : gset string)
  (covered : gset string -> Prop) (r : bool * gset string * gset string) : Prop :=
  match r with
  | (true, _, _) => cyclic replies
  | (false, visiting', complete') =>
      visiting' = visiting /\ complete ⊆ complete' /\ closed replies complete'
      /\ acyclic_in replies complete' /\ covered complete'
  end.

Lemma visit_targets_spec replies (visit : string -> _) targets visiting complete :
  (forall t c, t ∈ targets -> closed replies c -> acyclic_in replies c ->
     exists r, visit t visiting c = Some r
       /\ visit_post replies visiting c (fun c' => t ∈ c') r) ->
  closed replies complete -> acyclic_in replies complete ->
  exists r, visit_targets visit targets visiting complete = Some r
    /\ visit_post replies visiting complete (fun c' => forall t, t ∈ targets -> t ∈ c') r.
Proof.
  revert complete. induction targets as [|t ts IH]; intros c Hv Hc Ha; cbn [visit_targets].
  - eexists. split; [done|]. simpl. set_solver.
  - destruct (decide (t ∈ c)) as [Htc|Htc].
    + destruct (IH c) as ([[[] v'] c'] & E & Hp); [set_solver|done|done| |]; eexists; (split; [done|]).
      * done.
      * destruct Hp as (? & ? & ? & ? & ?). simpl. split_and!; set_solver.
    + destruct (Hv t c) as ([[[] v'] c'] & E & Hp); [set_solver|done|done| |]; rewrite E.
      { eexists. split; [done|]. done. }
      destruct Hp as (-> & Hsub & Hc' & Ha' & Hin).
      destruct (IH c') as ([[[] v''] c''] & E' & Hp'); [set_solver|done|done| |]; rewrite E'.
      * eexists. split; [done|]. done.
      * destruct Hp' as (-> & Hsub' & Hc'' & Ha'' & Hcov).
        eexists. split; [done|]. simpl. split_and!; set_solver.
Qed.

Lemma visits_cycle_spec fuel replies current visiting complete :
  (size (nodes replies ∖ visiting) < fuel)%nat ->
  current ∈ nodes replies ->
  (forall v, v ∈ visiting -> tc (edge replies) v current) ->
  closed replies complete -> acyclic_in replies complete ->
  exists r, visits_cycle fuel replies current visiting complete = Some r
    /\ visit_post replies visiting complete (fun c' => current ∈ c') r.
Proof.
  revert current visiting complete. induction fuel as [|fuel IH];
    intros cur vis comp Hfuel Hcur Hpath Hc Ha; [lia|]. cbn [visits_cycle].
  destruct (decide (cur ∈ vis)) as [Hin|Hin].
  { eexists. split; [done|]. simpl. exists cur. by apply Hpath. }
  set (vis' := {[cur]} ∪ vis).
  destruct (visit_targets_spec replies (visits_cycle fuel replies)
    (default [] (replies !! cur)) vis' comp) as ([[[] v] c] & E & Hp); [|done|done| |]; rewrite ?E.
  - intros t c Ht Hcc Hca. assert (edge replies cur t) as He by done.
    apply IH; [|by apply edge_nodes in He as [_ ?]| |done|done].
    + assert (size (nodes replies ∖ vis') < size (nodes replies ∖ vis))%nat; [|lia].
      apply subset_size. set_solver.
    + intros v [->%elem_of_singleton|Hv]%elem_of_union; [by apply tc_once|].
      eapply tc_transitive; [by apply Hpath|by apply tc_once].
  - eexists. split; [done|]. done.
  - destruct Hp as (-> & Hsub & Hcc & Hca & Hcov).
    destruct (complete_extend replies c cur) as [Hc' Ha']; [done|done|by intros y Hy; apply Hcov|].
    eexists. split; [done|]. simpl. split_and!; [|set_solver|done|done|set_solver].
    subst vis'. set_solver.
Qed.

Lemma check_sources_spec replies sources complete :
  (forall s, s ∈ sources -> s ∈ nodes replies) ->
  closed replies complete -> acyclic_in replies complete ->
  exists b, check_sources (graph_fuel replies) replies sources complete = Some b
    /\ (b = true -> cyclic replies)
    /\ (b = false -> exists c, closed replies c /\ acyclic_in replies c
          /\ forall s, s ∈ sources -> s ∈ c).
Proof.
  revert complete. induction sources as [|s ss IH]; intros c Hn Hc Ha; cbn [check_sources].
  - exists false. split; [done|]. split; [done|]. intros _. exists c. set_solver.
  - destruct (decide (s ∈ c)) as [Hs|Hs].
    + destruct (IH c) as (b & -> & Ht & Hf); [set_solver|done|done|].
      exists b. split; [done|]. split; [done|]. intros Hb.
      (* the sources left are covered by a complete set that also holds [s] *)
      destruct (Hf Hb) as (c' & Hc' & Ha' & Hcov).
      exists (c ∪ c'). split_and!.
      * intros x y [Hx|Hx]%elem_of_union He; apply elem_of_union; eauto.
      * intros x [Hx|Hx]%elem_of_union; [by apply Ha|by apply Ha'].
      * set_solver.
    + destruct (visits_cycle_spec (graph_fuel replies) replies s ∅ c)
        as ([[[] v] c'] & -> & Hp);
        [unfold graph_fuel; rewrite difference_empty_L; lia|set_solver|set_solver|done|done| |].
      * exists true. split; [done|]. split; [by intros _|done].
      * destruct Hp as (-> & Hsub & Hc' & Ha' & Hin).
        destruct (IH c') as (b & -> & Ht & Hf); [set_solver|done|done|].
        exists b. split; [done|]. split; [done|]. intros Hb.
        destruct (Hf Hb) as (c'' & Hc'' & Ha'' & Hcov). exists (c' ∪ c''). split_and!.
        -- intros x y [Hx|Hx]%elem_of_union He; apply elem_of_union; eauto.
        -- intros x [Hx|Hx]%elem_of_union; [by apply Ha'|by apply Ha''].
        -- set_solver.
Qed.

Lemma elem_of_sorted_keys replies s : s ∈ sorted_keys replies <-> s ∈ dom replies.
Proof.
  unfold sorted_keys. rewrite elem_of_sort_by, list_elem_of_fmap, elem_of_dom. split.
  - intros ([k v] & -> & ?%elem_of_map_to_list). by eexists.
  - intros [v Hv]. exists (s, v). split; [done|]. by apply elem_of_map_to_list.
Qed.

(** The search returns, and it answers [true] exactly on graphs with a cycle. *)
Lemma has_reply_cycle_decides replies :
  exists b, has_reply_cycle replies = Some b /\ (b = true <-> cyclic replies).
Proof.
  destruct (check_sources_spec replies (sorted_keys replies) ∅) as (b & E & Ht & Hf).
  - intros s Hs%elem_of_sorted_keys. unfold nodes. set_solver.
  - intros x y Hx. set_solver.
  - intros x Hx. set_solver.
  - exists b. split; [done|]. split; [done|]. intros [x Hx]. destruct b; [done|].
    destruct (Hf eq_refl) as (c & Hc & Ha & Hcov). exfalso.
    assert (exists y, edge replies x y) as [y Hy] by (inversion Hx; subst; eauto).
    eapply Ha, Hx. apply Hcov, elem_of_sorted_keys, elem_of_dom.
    unfold edge in Hy. destruct (replies !! x); [by eexists|]. by apply not_elem_of_nil in Hy.
Qed.

(** [C25] The cycle search terminates on every reply map and answers [true]
    exactly when some post reaches itself along reply edges: no cyclic reply
    graph is accepted and no acyclic one refused. *)
Theorem has_reply_cycle_correct replies :
  (has_reply_cycle replies = Some true <-> cyclic replies)
  /\ (has_reply_cycle replies = Some false <-> ~ cyclic replies).
Proof.
  destruct (has_reply_cycle_decides replies) as ([] & -> & H); split; split;
    try done; naive_solver.
Qed.

(** * Normalization *)

(** The graph row of one input edge whose kind token is well formed. *)
Definition graph_relation_of (known : gset string) (r : RelationInput) : GraphRelation :=
  {| gr_referencing_provider_post_id := ri_referencing_provider_post_id r;
     gr_relation_kind := mkRelationKind (ri_relation_kind r);
     gr_target_provider_post_id := ri_target_provider_post_id r;
     gr_target := if bool_decide (ri_target_provider_post_id r ∈ known) then GResolved
                  else GUnresolved (ri_target_permalink r) |}.

(** Reply edges between posts, the target being known locally. *)
Definition reply_edge (known : gset string) (rels : list RelationInput) (a b : string) : Prop :=
  exists r, r ∈ rels /\ ri_relation_kind r = "reply" /\ ri_referencing_provider_post_id r = a
    /\ ri_target_provider_post_id r = b /\ b ∈ known.

Definition kinds_valid (rels : list RelationInput) : Prop :=
  Forall (fun r => validate (ri_relation_kind r) = Ok ()) rels.

Lemma kind_try_from_valid s :
  validate s = Ok () -> relation_kind_try_from s = Ok (mkRelationKind s).
Proof. unfold relation_kind_try_from. by intros ->. Qed.

Lemma collect_valid known rels acc replies :
  kinds_valid rels ->
  exists replies', collect known rels acc replies
      = Ok ((acc ++ (graph_relation_of known <$> rels))%list, replies')
    /\ forall a b, edge replies' a b <-> edge replies a b \/ reply_edge known rels a b.
Proof.
  intros Hv. revert acc replies. induction Hv as [|r rels Hr Hv IH]; intros acc replies; simpl.
  - exists replies. rewrite app_nil_r. split; [done|]. intros a b. split; [by left|].
    intros [?|(r & Hr & _)]; [done|]. by apply not_elem_of_nil in Hr.
  - rewrite (kind_try_from_valid _ Hr). simpl.
    set (rep1 := if _ && _ then _ else replies).
    destruct (IH (acc ++ [graph_relation_of known r])%list rep1) as (rep' & E & He).
    exists rep'. split; [by rewrite <- app_assoc in E|]. intros a b. rewrite He.
    assert (edge rep1 a b <-> edge replies a b \/
      (ri_relation_kind r = "reply" /\ ri_referencing_provider_post_id r = a
       /\ ri_target_provider_post_id r = b /\ b ∈ known)) as ->.
    { subst rep1. destruct (bool_decide (ri_relation_kind r = "reply")) eqn:E1;
        [destruct (bool_decide (ri_target_provider_post_id r ∈ known)) eqn:E2|]; simpl;
        rewrite ?bool_decide_eq_true, ?bool_decide_eq_false in *; [|naive_solver|naive_solver].
      unfold edge. rewrite lookup_insert. case_decide as Ha.
      - subst a. simpl. rewrite elem_of_app, list_elem_of_singleton. naive_solver.
      - naive_solver. }
    unfold reply_edge. setoid_rewrite elem_of_cons. naive_solver.
Qed.

Lemma collect_invalid known rels acc replies :
  ~ kinds_valid rels -> exists e, collect known rels acc replies = Err (InvalidKind e).
Proof.
  revert acc replies. induction rels as [|r rels IH]; intros acc replies Hn; simpl.
  - exfalso. apply Hn. constructor.
  - unfold relation_kind_try_from. destruct (validate (ri_relation_kind r)) as [[]|e] eqn:E; simpl.
    + apply IH. intros Hv. apply Hn. by constructor.
    + by exists e.
Qed.

#[global] Instance kinds_valid_dec rels : Decision (kinds_valid rels).
Proof.
  apply Forall_dec. intros r. destruct (validate _) as [[]|]; [by left|by right].
Defined.

Lemma tc_weaken {A} (R S : relation A) x y : (forall a b, R a b -> S a b) -> tc R x y -> tc S x y.
Proof.
  intros H. induction 1 as [? ? ?|? ? ? ? ? ?]; [by apply tc_once, H|].
  eapply tc_l; [by apply H|done].
Qed.

Lemma tc_iff {A} (R S : relation A) (H : forall a b, R a b <-> S a b) x y : tc R x y <-> tc S x y.
Proof. split; apply tc_weaken; intros; by apply H. Qed.

Lemma normalize_relations_total known rels : is_Some (normalize_relations known rels).
Proof.
  unfold normalize_relations. destruct (collect _ _ _ _) as [[normalized replies]|]; [|done].
  destruct (has_reply_cycle_decides replies) as ([] & -> & _); done.
Qed.

Lemma normalize_relations_cases known rels :
  (~ kinds_valid rels /\ exists e, normalize_relations known rels = Some (Err (InvalidKind e)))
  \/ (kinds_valid rels /\ (exists x, tc (reply_edge known rels) x x)
      /\ normalize_relations known rels = Some (Err ReplyCycle))
  \/ (kinds_valid rels /\ ~ (exists x, tc (reply_edge known rels) x x)
      /\ exists edges, normalize_relations known rels = Some (Ok edges)
         /\ edges ≡ₚ graph_relation_of known <$> rels
         /\ StronglySorted (fun l r => edge_leb l r = true) edges).
Proof.
  unfold normalize_relations. destruct (decide (kinds_valid rels)) as [Hv|Hv].
  2:{ left. split; [done|]. destruct (collect_invalid known rels [] ∅ Hv) as [e ->]. by exists e. }
  right. destruct (collect_valid known rels [] ∅ Hv) as (replies & -> & He). simpl.
  assert (forall a b, edge replies a b <-> reply_edge known rels a b) as He'.
  { intros a b. rewrite He. unfold edge at 1. rewrite lookup_empty. simpl.
    rewrite elem_of_nil. naive_solver. }
  destruct (has_reply_cycle_decides replies) as (b & -> & Hb).
  assert (cyclic replies <-> exists x, tc (reply_edge known rels) x x) as Hc.
  { unfold cyclic. split; intros [x Hx]; exists x; by eapply (tc_iff _ _ He'). }
  destruct b; [left|right]; (split; [done|]).
  - rewrite <- Hc. naive_solver.
  - split; [rewrite <- Hc; naive_solver|]. eexists. split; [done|].
    split; [apply sort_by_perm|apply sort_by_lex_sorted].
Qed.

Lemma normalize_relations_Ok known rels edges :
  normalize_relations known rels = Some (Ok edges) ->
  ~ (exists x, tc (reply_edge known rels) x x) /\ edges ≡ₚ graph_relation_of known <$> rels.
Proof.
  intros H. destruct (normalize_relations_cases known rels)
    as [(_ & e & E)|[(_ & _ & E)|(_ & Hn & edges' & E & Hp & _)]]; rewrite E in H; simplify_eq. done.
Qed.

Lemma reply_edge_mono known known' rels rels' a b :
  known ⊆ known' -> rels ⊆ rels' -> reply_edge known rels a b -> reply_edge known' rels' a b.
Proof. unfold reply_edge. set_solver. Qed.

(** Normalization is total and has exactly three outcomes: a malformed
    kind token is refused; with well-formed kinds a reply cycle among locally
    known posts is refused; otherwise every input edge is kept once, resolved
    exactly when its target is known and with its permalink evidence otherwise,
    in the order of referencing post, kind and target. *)
Theorem normalize_relations_outcomes known rels :
  (~ kinds_valid rels /\ exists e, normalize_relations known rels = Some (Err (InvalidKind e)))
  \/ (kinds_valid rels /\ (exists x, tc (reply_edge known rels) x x)
      /\ normalize_relations known rels = Some (Err ReplyCycle))
  \/ (kinds_valid rels /\ ~ (exists x, tc (reply_edge known rels) x x)
      /\ exists edges, normalize_relations known rels = Some (Ok edges)
         /\ edges ≡ₚ graph_relation_of known <$> rels
         /\ StronglySorted (fun l r => edge_leb l r = true) edges).
Proof. apply normalize_relations_cases. Qed.

Example cycle_of_two :
  has_reply_cycle {["a" := ["b"]; "b" := ["c"; "a"]]} = Some true.
Proof. vm_compute. reflexivity. Qed.

Example shared_parent :
  has_reply_cycle {["a" := ["c"]; "b" := ["a"; "c"]]} = Some false.
Proof. vm_compute. reflexivity. Qed.

End RelationGraph.
