(* ===== verification/Schema.v ===== *)
(** The [threads_archive] database state (schema.sql) as the service's queries
    read and write it: one finite map per table, keyed by its primary key, with
    the columns the queries name. Text columns keep their wire text. Unique
    keys, CHECKs and foreign keys are part of the insert operations, so a
    statement PostgreSQL refuses is an error here too. *)
From S2P Require Import Prelude.

Module Schema.
Local Open Scope string_scope.

(** A 128-bit UUID; PostgreSQL and Rust compare UUIDs as unsigned integers. *)
Abbreviation Uuid := N.

(** [timestamptz]: microseconds since the epoch. *)
Abbreviation Time := Z.

Definition seconds (n : Z) : Z := (n * 1000000)%Z.

(** * Stored JSON: the members of an outbox envelope the service reads or writes *)

(** Why a source is unavailable, the vocabulary of the operation reports. *)
Inductive SourceUnavailability := SU_Deleted | SU_Inaccessible | SU_Transient.

#[global] Instance SourceUnavailability_eq_dec : EqDecision SourceUnavailability.
Proof. solve_decision. Defined.

(** The reports the service queues: [queued_report], [unavailable_report] and
    [preserved_report] of the contract crate, by what they are built from. *)
Inductive OperationReported :=
| QueuedReport (operation : Uuid)
| UnavailableReport (operation : Uuid) (reason : SourceUnavailability)
| PreservedReport (operation : Uuid) (source : Uuid).

(** The published snapshot of one source (the fields that vary). *)
Record Snapshot := mk_snapshot {
  sn_social_source_id : Uuid;
  sn_external_post_id : string;
  sn_permalink : string;
  sn_owner : Uuid;
  sn_published_at : option Time;
  sn_captured_at : Time;
  sn_text : option string;
  sn_relations : list (string * string);
  sn_content_digest : string;
  sn_raw_digest : string;
  sn_raw_media_type : string;
  sn_raw_length : Z;
  sn_acquisition : string;
  sn_saved_authority : string;
  sn_upstream_availability : string;
}.

Inductive Body :=
| ReportBody (report : OperationReported)
| CapturedBody (source : Snapshot)
| UpdatedBody (source : Snapshot)
| RemovedBody (social_source_id owner : Uuid).

(** An event envelope as stored in [outbox_events.payload]. *)
Record Payload := mk_payload {
  pl_event_id : Uuid;
  pl_event_type : string;
  pl_aggregate_id : string;
  pl_correlation_id : string;
  pl_tenant_id : string;
  pl_body : Body;
}.

(** [CompletenessReport] of data_export.rs, stored in [export_runs]. *)
Record CompletenessReport := mk_completeness_report {
  export_identities : nat;
  matched_captures : nat;
  export_only : nat;
  capture_only : nat;
  non_comparable_captures : nat;
}.

(** * Tables *)

Record capture_row := mk_capture_row {
  c_user_ref : Uuid;
  c_post_id : option Uuid;
  c_idempotency_key : string;
  c_canonical_url : string;
  c_original_url : string;
  c_acquisition_method : string;
  c_saved_authority : string;
  c_client_source : string;
  c_status : string;
  c_note : option string;
  c_captured_at : Time;
  c_next_resolution_at : option Time;
  c_operation_id : option Uuid;
  c_command_id : option Uuid;
  c_resolution_attempts : Z;
  c_operation_reported_at : option Time;
}.

Record resolution_row := mk_resolution_row {
  r_capture_id : Uuid;
  r_outcome : string;
  r_resolver_version : option string;
  r_raw_object_id : option Uuid;
  r_observed_at : Time;
}.

Record post_row := mk_post_row {
  p_account_id : option Uuid;
  p_provider_post_id : option string;
  p_permalink : string;
  p_post_kind : string;
  p_text_content : option string;
  p_published_at : option Time;
  p_acquisition_method : string;
  p_saved_authority : string;
  p_upstream_status : string;
  p_updated_at : Time;
}.

Record revision_row := mk_revision_row {
  rev_post_id : Uuid;
  rev_raw_object_id : Uuid;
  rev_parser_version : string;
  rev_observed_at : Time;
}.

Record relation_row := mk_relation_row {
  rel_referencing_post_id : Uuid;
  rel_target_post_id : option Uuid;
  rel_target_provider_post_id : string;
  rel_target_permalink : option string;
  rel_relation_kind : string;
}.

Record raw_object_row := mk_raw_object_row {
  raw_object_kind : string;
  raw_blob_ref : string;
  raw_content_hash : string;
  raw_byte_size : Z;
  raw_media_type : string;
  raw_observed_at : Time;
}.

Record media_row := mk_media_row {
  m_post_id : Uuid;
  m_blob_ref : option string;
  m_content_hash : option string;
}.

Record source_row := mk_source_row {
  ss_user_ref : Uuid;
  ss_post_id : Uuid;
  ss_first_capture_id : option Uuid;
}.

Record source_revision_row := mk_source_revision_row {
  ssr_social_source_id : Uuid;
  ssr_content_digest : string;
  ssr_observed_at : Time;
}.

Record analysis_link_row := mk_analysis_link_row {
  al_user_ref : Uuid;
  al_social_source_id : Uuid;
  al_content_digest : string;
}.

Record tombstone_row := mk_tombstone_row {
  t_post_id : option Uuid;
  t_capture_id : option Uuid;
  t_availability : string;
  t_reason_code : option string;
  t_observed_at : Time;
}.

Record outbox_row := mk_outbox_row {
  o_event_type : string;
  o_aggregate_type : string;
  o_aggregate_id : Uuid;
  o_payload : Payload;
  o_correlation_id : option Uuid;
  o_causation_id : option Uuid;
  o_occurred_at : Time;
  o_published_at : option Time;
  o_attempt_count : Z;
  o_next_attempt_at : option Time;
  o_last_error : option string;
  o_acknowledged_at : option Time;
  o_ack_outcome : option string;
  o_resend_count : Z;
  o_next_resend_at : option Time;
}.

Record local_removal_row := mk_local_removal_row {
  lr_post_id : Uuid;
  lr_operation_id : Uuid;
}.

Record deletion_operation_row := mk_deletion_operation_row {
  do_user_ref : Uuid;
  do_target_kind : string;
  do_target_id : Uuid;
  do_state : string;
}.

Record blob_task_row := mk_blob_task_row {
  bt_operation_id : option Uuid;
  bt_blob_ref : string;
  bt_content_hash : string;
  bt_state : string;
  bt_attempt_count : Z;
  bt_last_failure_class : option string;
}.

Record export_run_row := mk_export_run_row {
  er_user_ref : Uuid;
  er_archive_hash : string;
  er_archive_blob_ref : string;
  er_archive_byte_size : Z;
  er_parser_version : string;
  er_outcome : string;
  er_detected_version : option string;
  er_records_processed : Z;
  er_warnings_summary : option string;
  er_completeness : option CompletenessReport;
}.

(** [ExportPost] and [ExportRelation] of data_export.rs, stored in [export_records.payload]. *)
Record ExportPost := mk_export_post {
  ep_provider_post_id : string;
  ep_permalink : string;
  ep_text : option string;
}.

Record ExportRelation := mk_export_relation {
  xl_referencing_provider_post_id : string;
  xl_relation_kind : string;
  xl_target_provider_post_id : string;
}.

(** The JSON bodies the service stores in [export_records.payload]. *)
Inductive ExportPayload :=
| NormalizedPayload (post : ExportPost)
| UnknownSectionPayload
| WarningPayload (warning referencing_provider_post_id target_provider_post_id : string).

Record export_record_row := mk_export_record_row {
  xr_run_id : Uuid;
  xr_record_kind : string;
  xr_category : string;
  xr_provider_record_id : option string;
  xr_raw_object_id : option Uuid;
  xr_payload : ExportPayload;
}.

Record account_row := mk_account_row {
  a_user_ref : Uuid;
  a_provider_account_id : string;
  a_username : string;
  a_account_type : string;
  a_connection_status : string;
  a_scopes : string;
}.

Record credential_row := mk_credential_row {
  cr_account_id : Uuid;
  cr_access_token_ciphertext : string;
  cr_token_version : Z;
  cr_scopes : string;
  cr_refresh_token_ciphertext : option string;
  cr_expires_at : option Time;
}.

Record credential_audit_row := mk_credential_audit_row {
  ca_account_id : Uuid;
  ca_event_kind : string;
}.

Record budget_row := mk_budget_row {
  ab_remaining : Z;
  ab_resets_at : option Time;
  ab_request_id : option string;
}.

(** The stored report of a reprocessing run: all its members but the items. *)
Record ReprocessSummary := mk_reprocess_summary {
  rs_counts : gmap string Z;
  rs_warnings : list string;
  rs_conflicts : list string;
  rs_plan_fingerprint : string;
  rs_state_fingerprint : string;
}.

Record reprocessing_run_row := mk_reprocessing_run_row {
  rr_operation_id : Uuid;
  rr_export_run_id : Uuid;
  rr_user_ref : Uuid;
  rr_detected_version : string;
  rr_parser_version : string;
  rr_state : string;
  rr_plan_fingerprint : string;
  rr_state_fingerprint : string;
  rr_checkpoint_item_key : option string;
  rr_report : option ReprocessSummary;
  rr_finished_at : option Time;
}.

Record reprocessing_item_row := mk_reprocessing_item_row {
  ri_classification : string;
  ri_state : string;
  ri_prospective_digest : option string;
  ri_applied_digest : option string;
}.

Record db := mk_db {
  captures : gmap Uuid capture_row;
  capture_resolutions : gmap Uuid resolution_row;
  posts : gmap Uuid post_row;
  post_revisions : gmap Uuid revision_row;
  post_relations : gmap Uuid relation_row;
  raw_objects : gmap Uuid raw_object_row;
  media : gmap Uuid media_row;
  accounts : gmap Uuid account_row;
  credentials : gmap Uuid credential_row;
  credential_audit : gmap Uuid credential_audit_row;
  account_budgets : gmap (Uuid * string) budget_row;
  social_sources : gmap Uuid source_row;
  social_source_revisions : gmap Uuid source_revision_row;
  social_analysis_links : gmap Uuid analysis_link_row;
  tombstones : gmap Uuid tombstone_row;
  outbox_events : gmap Uuid outbox_row;
  inbox_events : gmap (string * Uuid) string;
  local_source_removals : gmap (Uuid * Uuid) local_removal_row;
  deletion_operations : gmap Uuid deletion_operation_row;
  deletion_effects : gmap (Uuid * string * string) Z;
  blob_deletion_tasks : gmap Uuid blob_task_row;
  reresolution_items : gmap (Uuid * Uuid) string;
  export_runs : gmap Uuid export_run_row;
  export_records : gmap Uuid export_record_row;
  export_reprocessing_runs : gmap Uuid reprocessing_run_row;
  export_reprocessing_items : gmap (Uuid * string) reprocessing_item_row;
  account_sync_checkpoints : gmap Uuid (option string);
}.

Definition empty_db : db := mk_db ∅ ∅ ∅ ∅ ∅ ∅ ∅ ∅ ∅ ∅ ∅ ∅ ∅ ∅ ∅ ∅ ∅ ∅ ∅ ∅ ∅ ∅ ∅ ∅ ∅ ∅ ∅.

Definition set_captures (v : gmap Uuid capture_row) (d : db) : db :=
  mk_db v (capture_resolutions d) (posts d) (post_revisions d) (post_relations d) (raw_objects d) (media d) (accounts d) (credentials d) (credential_audit d) (account_budgets d) (social_sources d) (social_source_revisions d) (social_analysis_links d) (tombstones d) (outbox_events d) (inbox_events d) (local_source_removals d) (deletion_operations d) (deletion_effects d) (blob_deletion_tasks d) (reresolution_items d) (export_runs d) (export_records d) (export_reprocessing_runs d) (export_reprocessing_items d) (account_sync_checkpoints d).

Definition set_capture_resolutions (v : gmap Uuid resolution_row) (d : db) : db :=
  mk_db (captures d) v (posts d) (post_revisions d) (post_relations d) (raw_objects d) (media d) (accounts d) (credentials d) (credential_audit d) (account_budgets d) (social_sources d) (social_source_revisions d) (social_analysis_links d) (tombstones d) (outbox_events d) (inbox_events d) (local_source_removals d) (deletion_operations d) (deletion_effects d) (blob_deletion_tasks d) (reresolution_items d) (export_runs d) (export_records d) (export_reprocessing_runs d) (export_reprocessing_items d) (account_sync_checkpoints d).

Definition set_posts (v : gmap Uuid post_row) (d : db) : db :=
  mk_db (captures d) (capture_resolutions d) v (post_revisions d) (post_relations d) (raw_objects d) (media d) (accounts d) (credentials d) (credential_audit d) (account_budgets d) (social_sources d) (social_source_revisions d) (social_analysis_links d) (tombstones d) (outbox_events d) (inbox_events d) (local_source_removals d) (deletion_operations d) (deletion_effects d) (blob_deletion_tasks d) (reresolution_items d) (export_runs d) (export_records d) (export_reprocessing_runs d) (export_reprocessing_items d) (account_sync_checkpoints d).

Definition set_post_revisions (v : gmap Uuid revision_row) (d : db) : db :=
  mk_db (captures d) (capture_resolutions d) (posts d) v (post_relations d) (raw_objects d) (media d) (accounts d) (credentials d) (credential_audit d) (account_budgets d) (social_sources d) (social_source_revisions d) (social_analysis_links d) (tombstones d) (outbox_events d) (inbox_events d) (local_source_removals d) (deletion_operations d) (deletion_effects d) (blob_deletion_tasks d) (reresolution_items d) (export_runs d) (export_records d) (export_reprocessing_runs d) (export_reprocessing_items d) (account_sync_checkpoints d).

Definition set_post_relations (v : gmap Uuid relation_row) (d : db) : db :=
  mk_db (captures d) (capture_resolutions d) (posts d) (post_revisions d) v (raw_objects d) (media d) (accounts d) (credentials d) (credential_audit d) (account_budgets d) (social_sources d) (social_source_revisions d) (social_analysis_links d) (tombstones d) (outbox_events d) (inbox_events d) (local_source_removals d) (deletion_operations d) (deletion_effects d) (blob_deletion_tasks d) (reresolution_items d) (export_runs d) (export_records d) (export_reprocessing_runs d) (export_reprocessing_items d) (account_sync_checkpoints d).

Definition set_raw_objects (v : gmap Uuid raw_object_row) (d : db) : db :=
  mk_db (captures d) (capture_resolutions d) (posts d) (post_revisions d) (post_relations d) v (media d) (accounts d) (credentials d) (credential_audit d) (account_budgets d) (social_sources d) (social_source_revisions d) (social_analysis_links d) (tombstones d) (outbox_events d) (inbox_events d) (local_source_removals d) (deletion_operations d) (deletion_effects d) (blob_deletion_tasks d) (reresolution_items d) (export_runs d) (export_records d) (export_reprocessing_runs d) (export_reprocessing_items d) (account_sync_checkpoints d).

Definition set_media (v : gmap Uuid media_row) (d : db) : db :=
  mk_db (captures d) (capture_resolutions d) (posts d) (post_revisions d) (post_relations d) (raw_objects d) v (accounts d) (credentials d) (credential_audit d) (account_budgets d) (social_sources d) (social_source_revisions d) (social_analysis_links d) (tombstones d) (outbox_events d) (inbox_events d) (local_source_removals d) (deletion_operations d) (deletion_effects d) (blob_deletion_tasks d) (reresolution_items d) (export_runs d) (export_records d) (export_reprocessing_runs d) (export_reprocessing_items d) (account_sync_checkpoints d).

Definition set_accounts (v : gmap Uuid account_row) (d : db) : db :=
  mk_db (captures d) (capture_resolutions d) (posts d) (post_revisions d) (post_relations d) (raw_objects d) (media d) v (credentials d) (credential_audit d) (account_budgets d) (social_sources d) (social_source_revisions d) (social_analysis_links d) (tombstones d) (outbox_events d) (inbox_events d) (local_source_removals d) (deletion_operations d) (deletion_effects d) (blob_deletion_tasks d) (reresolution_items d) (export_runs d) (export_records d) (export_reprocessing_runs d) (export_reprocessing_items d) (account_sync_checkpoints d).

Definition set_credentials (v : gmap Uuid credential_row) (d : db) : db :=
  mk_db (captures d) (capture_resolutions d) (posts d) (post_revisions d) (post_relations d) (raw_objects d) (media d) (accounts d) v (credential_audit d) (account_budgets d) (social_sources d) (social_source_revisions d) (social_analysis_links d) (tombstones d) (outbox_events d) (inbox_events d) (local_source_removals d) (deletion_operations d) (deletion_effects d) (blob_deletion_tasks d) (reresolution_items d) (export_runs d) (export_records d) (export_reprocessing_runs d) (export_reprocessing_items d) (account_sync_checkpoints d).

Definition set_credential_audit (v : gmap Uuid credential_audit_row) (d : db) : db :=
  mk_db (captures d) (capture_resolutions d) (posts d) (post_revisions d) (post_relations d) (raw_objects d) (media d) (accounts d) (credentials d) v (account_budgets d) (social_sources d) (social_source_revisions d) (social_analysis_links d) (tombstones d) (outbox_events d) (inbox_events d) (local_source_removals d) (deletion_operations d) (deletion_effects d) (blob_deletion_tasks d) (reresolution_items d) (export_runs d) (export_records d) (export_reprocessing_runs d) (export_reprocessing_items d) (account_sync_checkpoints d).

Definition set_account_budgets (v : gmap (Uuid * string) budget_row) (d : db) : db :=
  mk_db (captures d) (capture_resolutions d) (posts d) (post_revisions d) (post_relations d) (raw_objects d) (media d) (accounts d) (credentials d) (credential_audit d) v (social_sources d) (social_source_revisions d) (social_analysis_links d) (tombstones d) (outbox_events d) (inbox_events d) (local_source_removals d) (deletion_operations d) (deletion_effects d) (blob_deletion_tasks d) (reresolution_items d) (export_runs d) (export_records d) (export_reprocessing_runs d) (export_reprocessing_items d) (account_sync_checkpoints d).

Definition set_social_sources (v : gmap Uuid source_row) (d : db) : db :=
  mk_db (captures d) (capture_resolutions d) (posts d) (post_revisions d) (post_relations d) (raw_objects d) (media d) (accounts d) (credentials d) (credential_audit d) (account_budgets d) v (social_source_revisions d) (social_analysis_links d) (tombstones d) (outbox_events d) (inbox_events d) (local_source_removals d) (deletion_operations d) (deletion_effects d) (blob_deletion_tasks d) (reresolution_items d) (export_runs d) (export_records d) (export_reprocessing_runs d) (export_reprocessing_items d) (account_sync_checkpoints d).

Definition set_social_source_revisions (v : gmap Uuid source_revision_row) (d : db) : db :=
  mk_db (captures d) (capture_resolutions d) (posts d) (post_revisions d) (post_relations d) (raw_objects d) (media d) (accounts d) (credentials d) (credential_audit d) (account_budgets d) (social_sources d) v (social_analysis_links d) (tombstones d) (outbox_events d) (inbox_events d) (local_source_removals d) (deletion_operations d) (deletion_effects d) (blob_deletion_tasks d) (reresolution_items d) (export_runs d) (export_records d) (export_reprocessing_runs d) (export_reprocessing_items d) (account_sync_checkpoints d).

Definition set_social_analysis_links (v : gmap Uuid analysis_link_row) (d : db) : db :=
  mk_db (captures d) (capture_resolutions d) (posts d) (post_revisions d) (post_relations d) (raw_objects d) (media d) (accounts d) (credentials d) (credential_audit d) (account_budgets d) (social_sources d) (social_source_revisions d) v (tombstones d) (outbox_events d) (inbox_events d) (local_source_removals d) (deletion_operations d) (deletion_effects d) (blob_deletion_tasks d) (reresolution_items d) (export_runs d) (export_records d) (export_reprocessing_runs d) (export_reprocessing_items d) (account_sync_checkpoints d).

Definition set_tombstones (v : gmap Uuid tombstone_row) (d : db) : db :=
  mk_db (captures d) (capture_resolutions d) (posts d) (post_revisions d) (post_relations d) (raw_objects d) (media d) (accounts d) (credentials d) (credential_audit d) (account_budgets d) (social_sources d) (social_source_revisions d) (social_analysis_links d) v (outbox_events d) (inbox_events d) (local_source_removals d) (deletion_operations d) (deletion_effects d) (blob_deletion_tasks d) (reresolution_items d) (export_runs d) (export_records d) (export_reprocessing_runs d) (export_reprocessing_items d) (account_sync_checkpoints d).

Definition set_outbox_events (v : gmap Uuid outbox_row) (d : db) : db :=
  mk_db (captures d) (capture_resolutions d) (posts d) (post_revisions d) (post_relations d) (raw_objects d) (media d) (accounts d) (credentials d) (credential_audit d) (account_budgets d) (social_sources d) (social_source_revisions d) (social_analysis_links d) (tombstones d) v (inbox_events d) (local_source_removals d) (deletion_operations d) (deletion_effects d) (blob_deletion_tasks d) (reresolution_items d) (export_runs d) (export_records d) (export_reprocessing_runs d) (export_reprocessing_items d) (account_sync_checkpoints d).

Definition set_inbox_events (v : gmap (string * Uuid) string) (d : db) : db :=
  mk_db (captures d) (capture_resolutions d) (posts d) (post_revisions d) (post_relations d) (raw_objects d) (media d) (accounts d) (credentials d) (credential_audit d) (account_budgets d) (social_sources d) (social_source_revisions d) (social_analysis_links d) (tombstones d) (outbox_events d) v (local_source_removals d) (deletion_operations d) (deletion_effects d) (blob_deletion_tasks d) (reresolution_items d) (export_runs d) (export_records d) (export_reprocessing_runs d) (export_reprocessing_items d) (account_sync_checkpoints d).

Definition set_local_source_removals (v : gmap (Uuid * Uuid) local_removal_row) (d : db) : db :=
  mk_db (captures d) (capture_resolutions d) (posts d) (post_revisions d) (post_relations d) (raw_objects d) (media d) (accounts d) (credentials d) (credential_audit d) (account_budgets d) (social_sources d) (social_source_revisions d) (social_analysis_links d) (tombstones d) (outbox_events d) (inbox_events d) v (deletion_operations d) (deletion_effects d) (blob_deletion_tasks d) (reresolution_items d) (export_runs d) (export_records d) (export_reprocessing_runs d) (export_reprocessing_items d) (account_sync_checkpoints d).

Definition set_deletion_operations (v : gmap Uuid deletion_operation_row) (d : db) : db :=
  mk_db (captures d) (capture_resolutions d) (posts d) (post_revisions d) (post_relations d) (raw_objects d) (media d) (accounts d) (credentials d) (credential_audit d) (account_budgets d) (social_sources d) (social_source_revisions d) (social_analysis_links d) (tombstones d) (outbox_events d) (inbox_events d) (local_source_removals d) v (deletion_effects d) (blob_deletion_tasks d) (reresolution_items d) (export_runs d) (export_records d) (export_reprocessing_runs d) (export_reprocessing_items d) (account_sync_checkpoints d).

Definition set_deletion_effects (v : gmap (Uuid * string * string) Z) (d : db) : db :=
  mk_db (captures d) (capture_resolutions d) (posts d) (post_revisions d) (post_relations d) (raw_objects d) (media d) (accounts d) (credentials d) (credential_audit d) (account_budgets d) (social_sources d) (social_source_revisions d) (social_analysis_links d) (tombstones d) (outbox_events d) (inbox_events d) (local_source_removals d) (deletion_operations d) v (blob_deletion_tasks d) (reresolution_items d) (export_runs d) (export_records d) (export_reprocessing_runs d) (export_reprocessing_items d) (account_sync_checkpoints d).

Definition set_blob_deletion_tasks (v : gmap Uuid blob_task_row) (d : db) : db :=
  mk_db (captures d) (capture_resolutions d) (posts d) (post_revisions d) (post_relations d) (raw_objects d) (media d) (accounts d) (credentials d) (credential_audit d) (account_budgets d) (social_sources d) (social_source_revisions d) (social_analysis_links d) (tombstones d) (outbox_events d) (inbox_events d) (local_source_removals d) (deletion_operations d) (deletion_effects d) v (reresolution_items d) (export_runs d) (export_records d) (export_reprocessing_runs d) (export_reprocessing_items d) (account_sync_checkpoints d).

Definition set_reresolution_items (v : gmap (Uuid * Uuid) string) (d : db) : db :=
  mk_db (captures d) (capture_resolutions d) (posts d) (post_revisions d) (post_relations d) (raw_objects d) (media d) (accounts d) (credentials d) (credential_audit d) (account_budgets d) (social_sources d) (social_source_revisions d) (social_analysis_links d) (tombstones d) (outbox_events d) (inbox_events d) (local_source_removals d) (deletion_operations d) (deletion_effects d) (blob_deletion_tasks d) v (export_runs d) (export_records d) (export_reprocessing_runs d) (export_reprocessing_items d) (account_sync_checkpoints d).

Definition set_export_runs (v : gmap Uuid export_run_row) (d : db) : db :=
  mk_db (captures d) (capture_resolutions d) (posts d) (post_revisions d) (post_relations d) (raw_objects d) (media d) (accounts d) (credentials d) (credential_audit d) (account_budgets d) (social_sources d) (social_source_revisions d) (social_analysis_links d) (tombstones d) (outbox_events d) (inbox_events d) (local_source_removals d) (deletion_operations d) (deletion_effects d) (blob_deletion_tasks d) (reresolution_items d) v (export_records d) (export_reprocessing_runs d) (export_reprocessing_items d) (account_sync_checkpoints d).

Definition set_export_records (v : gmap Uuid export_record_row) (d : db) : db :=
  mk_db (captures d) (capture_resolutions d) (posts d) (post_revisions d) (post_relations d) (raw_objects d) (media d) (accounts d) (credentials d) (credential_audit d) (account_budgets d) (social_sources d) (social_source_revisions d) (social_analysis_links d) (tombstones d) (outbox_events d) (inbox_events d) (local_source_removals d) (deletion_operations d) (deletion_effects d) (blob_deletion_tasks d) (reresolution_items d) (export_runs d) v (export_reprocessing_runs d) (export_reprocessing_items d) (account_sync_checkpoints d).

Definition set_export_reprocessing_runs (v : gmap Uuid reprocessing_run_row) (d : db) : db :=
  mk_db (captures d) (capture_resolutions d) (posts d) (post_revisions d) (post_relations d) (raw_objects d) (media d) (accounts d) (credentials d) (credential_audit d) (account_budgets d) (social_sources d) (social_source_revisions d) (social_analysis_links d) (tombstones d) (outbox_events d) (inbox_events d) (local_source_removals d) (deletion_operations d) (deletion_effects d) (blob_deletion_tasks d) (reresolution_items d) (export_runs d) (export_records d) v (export_reprocessing_items d) (account_sync_checkpoints d).

Definition set_export_reprocessing_items (v : gmap (Uuid * string) reprocessing_item_row) (d : db) : db :=
  mk_db (captures d) (capture_resolutions d) (posts d) (post_revisions d) (post_relations d) (raw_objects d) (media d) (accounts d) (credentials d) (credential_audit d) (account_budgets d) (social_sources d) (social_source_revisions d) (social_analysis_links d) (tombstones d) (outbox_events d) (inbox_events d) (local_source_removals d) (deletion_operations d) (deletion_effects d) (blob_deletion_tasks d) (reresolution_items d) (export_runs d) (export_records d) (export_reprocessing_runs d) v (account_sync_checkpoints d).

Definition set_account_sync_checkpoints (v : gmap Uuid (option string)) (d : db) : db :=
  mk_db (captures d) (capture_resolutions d) (posts d) (post_revisions d) (post_relations d) (raw_objects d) (media d) (accounts d) (credentials d) (credential_audit d) (account_budgets d) (social_sources d) (social_source_revisions d) (social_analysis_links d) (tombstones d) (outbox_events d) (inbox_events d) (local_source_removals d) (deletion_operations d) (deletion_effects d) (blob_deletion_tasks d) (reresolution_items d) (export_runs d) (export_records d) (export_reprocessing_runs d) (export_reprocessing_items d) v.

(** Evaluates the tables of updated databases. *)
Ltac db_cbn :=
  cbn [captures capture_resolutions posts post_revisions post_relations raw_objects
    media accounts credentials credential_audit account_budgets social_sources
    social_source_revisions social_analysis_links tombstones outbox_events inbox_events local_source_removals
    deletion_operations deletion_effects blob_deletion_tasks reresolution_items export_runs export_records
    export_reprocessing_runs export_reprocessing_items account_sync_checkpoints
    set_captures set_capture_resolutions set_posts set_post_revisions set_post_relations
    set_raw_objects set_media set_accounts set_credentials set_credential_audit
    set_account_budgets set_social_sources set_social_source_revisions set_social_analysis_links set_tombstones
    set_outbox_events set_inbox_events set_local_source_removals set_deletion_operations set_deletion_effects
    set_blob_deletion_tasks set_reresolution_items set_export_runs set_export_records set_export_reprocessing_runs
    set_export_reprocessing_items set_account_sync_checkpoints].

(** * Statements *)

(** Why PostgreSQL or the connection refuses a statement. *)
Inductive SqlError :=
| UniqueViolation (constraint : string)
| CheckViolation (constraint : string)
| ForeignKeyViolation (constraint : string)
| NumericOutOfRange
| ConnectionLost
| RowNotFound
| ColumnDecode (column : string)
| ColumnNotFound (column : string)
| Protocol (message : string)
| Configuration (message : string).

#[global] Instance SqlError_eq_dec : EqDecision SqlError.
Proof. solve_decision. Defined.

Definition acquisition_vocabulary : list string :=
  ["official_api"; "share_extension"; "browser_extension"; "telegram_capture";
   "public_resolution"; "data_export"; "legacy_import"].
Definition authority_vocabulary : list string :=
  ["explicit_user_capture"; "export_observation"; "authoritative_platform_state";
   "legacy_observation"].
Definition client_source_vocabulary : list string :=
  ["ios_share_extension"; "android_share_target"; "browser_extension"; "telegram"].
Definition capture_status_vocabulary : list string :=
  ["accepted"; "resolved"; "unavailable"; "failed"].
Definition availability_vocabulary : list string :=
  ["active"; "deleted"; "private_or_inaccessible"; "author_unavailable";
   "temporarily_unavailable"; "unknown"].
Definition outbox_event_vocabulary : list string :=
  ["platform.operation.reported.v1"; "social.source.captured.v1";
   "social.source.updated.v1"; "social.source.removed.v1"].
Definition outbox_aggregate_vocabulary : list string :=
  ["capture"; "operation"; "post"; "account"; "export_run"].

(** Rows satisfying a condition, in primary-key order. *)
Definition select {R} (t : gmap Uuid R) (p : Uuid -> R -> bool) : list (Uuid * R) :=
  sort_by (fun a b => (a.1 <=? b.1)%N) (List.filter (fun kv => p kv.1 kv.2) (map_to_list t)).

Definition count_where {R} (t : gmap Uuid R) (p : Uuid -> R -> bool) : Z :=
  Z.of_nat (length (select t p)).

Definition exists_where {R} (t : gmap Uuid R) (p : Uuid -> R -> bool) : bool :=
  bool_decide (select t p <> []).

(** Rows of a table whose key holds more than an identifier. *)
Definition count_keys {K R} `{Countable K} (t : gmap K R) (p : K -> R -> bool) : Z :=
  Z.of_nat (size (filter (fun kv => p kv.1 kv.2 = true) t)).

(** [update ... set ... where p]. *)
Definition update_where {K R} `{Countable K} (p : K -> R -> bool) (f : R -> R) (t : gmap K R) : gmap K R :=
  map_imap (fun k r => Some (if p k r then f r else r)) t.

(** [delete ... where p]. *)
Definition delete_where {K R} `{Countable K} (p : K -> R -> bool) (t : gmap K R) : gmap K R :=
  filter (fun kv => p kv.1 kv.2 = false) t.

(** The capture an owner stored under an idempotency key (a unique key). *)
Definition capture_by_key (d : db) (user_ref : Uuid) (key : string) : option (Uuid * capture_row) :=
  head (select (captures d)
    (fun _ c => bool_decide (c_user_ref c = user_ref) && bool_decide (c_idempotency_key c = key))).

(** The post of a provider identity (a unique key). *)
Definition post_by_provider_id (d : db) (provider_id : string) : option (Uuid * post_row) :=
  head (select (posts d) (fun _ p => bool_decide (p_provider_post_id p = Some provider_id))).

Definition check_captures (d : db) (id : Uuid) (c : capture_row) : option SqlError :=
  if negb (bool_decide (captures d !! id = None)) then Some (UniqueViolation "captures_pkey")
  else if negb (bool_decide (c_acquisition_method c ∈ acquisition_vocabulary)
    && bool_decide (c_saved_authority c ∈ authority_vocabulary)
    && bool_decide (c_client_source c ∈ client_source_vocabulary)
    && bool_decide (c_status c ∈ capture_status_vocabulary)
    && (0 <=? c_resolution_attempts c)%Z) then Some (CheckViolation "captures")
  else None.

Definition check_outbox (d : db) (id : Uuid) (o : outbox_row) : option SqlError :=
  if negb (bool_decide (outbox_events d !! id = None)) then Some (UniqueViolation "outbox_events_pkey")
  else if negb (bool_decide (o_event_type o ∈ outbox_event_vocabulary)
    && bool_decide (o_aggregate_type o ∈ outbox_aggregate_vocabulary))
  then Some (CheckViolation "outbox_events")
  else None.

(** [insert into outbox_events] of a fresh event: the columns the inserts leave out. *)
Definition new_outbox_row (event_type aggregate_type : string) (aggregate_id : Uuid)
  (payload : Payload) (correlation causation : option Uuid) (now : Time) : outbox_row :=
  mk_outbox_row event_type aggregate_type aggregate_id payload correlation causation now
    None 0 None None None None 0 None.

Definition insert_outbox (id : Uuid) (o : outbox_row) (d : db) : Result SqlError db :=
  match check_outbox d id o with
  | Some e => Err e
  | None => Ok (set_outbox_events (<[id := o]> (outbox_events d)) d)
  end.

Definition insert_resolution (id : Uuid) (r : resolution_row) (d : db) : Result SqlError db :=
  if negb (bool_decide (capture_resolutions d !! id = None))
  then Err (UniqueViolation "capture_resolutions_pkey")
  else if bool_decide (captures d !! r_capture_id r = None)
  then Err (ForeignKeyViolation "capture_resolutions_capture_id_fkey")
  else if default false ((fun raw => bool_decide (raw_objects d !! raw = None)) <$> r_raw_object_id r)
  then Err (ForeignKeyViolation "capture_resolutions_raw_object_id_fkey")
  else if negb (bool_decide (r_outcome r ∈ ["resolved"; "partial"; "unavailable"; "resolver_failed"]))
  then Err (CheckViolation "capture_resolutions_outcome_check")
  else Ok (set_capture_resolutions (<[id := r]> (capture_resolutions d)) d).

Definition insert_tombstone (id : Uuid) (t : tombstone_row) (d : db) : Result SqlError db :=
  if negb (bool_decide (tombstones d !! id = None)) then Err (UniqueViolation "tombstones_pkey")
  else if negb (bool_decide (t_availability t ∈ availability_vocabulary)
                && (bool_decide (is_Some (t_post_id t)) || bool_decide (is_Some (t_capture_id t))))
  then Err (CheckViolation "tombstones")
  else if negb (default true ((fun p => bool_decide (is_Some (posts d !! p))) <$> t_post_id t)
                && default true ((fun c => bool_decide (is_Some (captures d !! c))) <$> t_capture_id t))
  then Err (ForeignKeyViolation "tombstones")
  else Ok (set_tombstones (<[id := t]> (tombstones d)) d).

Definition insert_capture (id : Uuid) (c : capture_row) (d : db) : Result SqlError db :=
  match check_captures d id c with
  | Some e => Err e
  | None => Ok (set_captures (<[id := c]> (captures d)) d)
  end.

Definition raw_kind_vocabulary : list string :=
  ["oembed_response"; "api_response"; "export_archive"; "export_section";
   "unknown_export_record"; "user_upload"].

Definition insert_raw_object (id : Uuid) (r : raw_object_row) (d : db) : Result SqlError db :=
  if negb (bool_decide (raw_objects d !! id = None)) then Err (UniqueViolation "raw_objects_pkey")
  else if negb (bool_decide (raw_object_kind r ∈ raw_kind_vocabulary))
  then Err (CheckViolation "raw_objects_object_kind_check")
  else Ok (set_raw_objects (<[id := r]> (raw_objects d)) d).

Definition insert_post_revision (id : Uuid) (r : revision_row) (d : db) : Result SqlError db :=
  if negb (bool_decide (post_revisions d !! id = None)) then Err (UniqueViolation "post_revisions_pkey")
  else if bool_decide (posts d !! rev_post_id r = None)
  then Err (ForeignKeyViolation "post_revisions_post_id_fkey")
  else if bool_decide (raw_objects d !! rev_raw_object_id r = None)
  then Err (ForeignKeyViolation "post_revisions_raw_object_id_fkey")
  else Ok (set_post_revisions (<[id := r]> (post_revisions d)) d).

(** * Lemmas on selections *)

Lemma elem_of_select {R} (t : gmap Uuid R) p id r :
  (id, r) ∈ select t p <-> t !! id = Some r /\ p id r = true.
Proof.
  unfold select. rewrite elem_of_sort_by, list_elem_of_In, filter_In, <- list_elem_of_In.
  by rewrite elem_of_map_to_list.
Qed.

Lemma select_nil {R} (t : gmap Uuid R) p :
  select t p = [] <-> forall id r, t !! id = Some r -> p id r = false.
Proof.
  split.
  - intros E id r Hl. destruct (p id r) eqn:Hp; [|done].
    assert ((id, r) ∈ select t p) as Hin by (by apply elem_of_select).
    rewrite E in Hin. by apply not_elem_of_nil in Hin.
  - intros H. destruct (select t p) as [|[id r] l] eqn:E; [done|].
    assert ((id, r) ∈ select t p) as Hin by (rewrite E; left).
    apply elem_of_select in Hin as [Hl Hp]. by rewrite (H id r Hl) in Hp.
Qed.

Lemma head_select_Some {R} (t : gmap Uuid R) p id r :
  head (select t p) = Some (id, r) -> t !! id = Some r /\ p id r = true.
Proof.
  intros E. apply elem_of_select. destruct (select t p); [done|]. simplify_eq/=. left.
Qed.

Lemma head_select_None {R} (t : gmap Uuid R) p :
  head (select t p) = None <-> forall id r, t !! id = Some r -> p id r = false.
Proof. rewrite <- select_nil. by destruct (select t p). Qed.

Lemma filter_list_filter {A} (f : A -> bool) l : List.filter f l = filter (fun x => f x = true) l.
Proof.
  induction l as [|x l IH]; [done|]. rewrite filter_cons. simpl.
  destruct (f x); case_decide; by rewrite IH || done.
Qed.

(** The row just inserted under a unique key is the one the key selects. *)
Lemma head_select_insert {R} (t : gmap Uuid R) p id r :
  head (select t p) = None -> p id r = true -> head (select (<[id := r]> t) p) = Some (id, r).
Proof.
  rewrite head_select_None. intros Hn Hp. destruct (head _) as [[id' r']|] eqn:E.
  - apply head_select_Some in E as [Hl Hc].
    apply lookup_insert_Some in Hl as [[<- <-]|[_ Hl]]; [done|]. by rewrite (Hn _ _ Hl) in Hc.
  - rewrite head_select_None in E. specialize (E id r). rewrite lookup_insert_eq in E.
    by rewrite E in Hp.
Qed.

Lemma select_perm {R} (t : gmap Uuid R) p :
  select t p ≡ₚ List.filter (fun kv => p kv.1 kv.2) (map_to_list t).
Proof. apply sort_by_perm. Qed.

Lemma NoDup_select {R} (t : gmap Uuid R) p : NoDup (select t p).*1.
Proof.
  rewrite select_perm. pose proof (NoDup_fst_map_to_list t) as H. revert H.
  generalize (map_to_list t) as l. induction l as [|[k r] l IH]; simpl; [done|].
  intros [Hn Hl]%NoDup_cons. case_match; simpl; [|auto]. constructor; [|auto].
  intros ((k' & r') & -> & [Hin _]%list_elem_of_In%filter_In)%list_elem_of_fmap.
  apply Hn, list_elem_of_fmap. exists (k', r'). split; [done|by apply list_elem_of_In].
Qed.

(** Counting after the insert of a fresh row, or after an update that keeps the condition. *)
Lemma count_where_insert {R} (t : gmap Uuid R) p id r :
  t !! id = None ->
  count_where (<[id := r]> t) p = ((if p id r then 1 else 0) + count_where t p)%Z.
Proof.
  intros Hid. unfold count_where. rewrite !select_perm.
  assert (List.filter (fun kv => p kv.1 kv.2) (map_to_list (<[id := r]> t))
    ≡ₚ List.filter (fun kv => p kv.1 kv.2) ((id, r) :: map_to_list t)) as ->.
  { rewrite !filter_list_filter. by rewrite map_to_list_insert. }
  simpl. destruct (p id r); simpl; lia.
Qed.

Lemma count_where_zero {R} (t : gmap Uuid R) p :
  count_where t p = 0%Z <-> forall id r, t !! id = Some r -> p id r = false.
Proof.
  rewrite <- select_nil. unfold count_where. destruct (select t p); simpl; split; (done || lia).
Qed.

Lemma count_where_nonneg {R} (t : gmap Uuid R) p : (0 <= count_where t p)%Z.
Proof. unfold count_where. lia. Qed.

Lemma count_where_ext {R} (t : gmap Uuid R) p q :
  (forall id r, t !! id = Some r -> p id r = q id r) -> count_where t p = count_where t q.
Proof.
  intros H. unfold count_where. rewrite !select_perm. do 2 f_equal.
  assert (forall kv, kv ∈ map_to_list t -> p kv.1 kv.2 = q kv.1 kv.2) as Hl.
  { intros [id r] Hin%elem_of_map_to_list. by apply H. }
  clear H. induction (map_to_list t) as [|kv l IH]; simpl; [done|].
  rewrite (Hl kv) by left. rewrite IH; [done|]. intros. apply Hl. by right.
Qed.

(** A count depends only on the rows that satisfy the condition. *)
Lemma count_where_same {R} (t t' : gmap Uuid R) p :
  (forall id r, p id r = true -> t !! id = Some r <-> t' !! id = Some r) ->
  count_where t p = count_where t' p.
Proof.
  intros H. unfold count_where. rewrite !select_perm, !filter_list_filter. f_equal.
  apply Permutation_length, NoDup_Permutation; [apply NoDup_filter, NoDup_map_to_list..|].
  intros [id r]. rewrite !list_elem_of_filter, !elem_of_map_to_list. simpl.
  specialize (H id r). naive_solver.
Qed.

(** A count does not grow when every counted row was there before. *)
Lemma count_where_le {R} (t t' : gmap Uuid R) p :
  (forall id r, p id r = true -> t' !! id = Some r -> t !! id = Some r) ->
  (count_where t' p <= count_where t p)%Z.
Proof.
  intros H. unfold count_where. rewrite !select_perm, !filter_list_filter. apply Nat2Z.inj_le.
  apply submseteq_length, NoDup_submseteq; [apply NoDup_filter, NoDup_map_to_list|].
  intros [id r]. rewrite !list_elem_of_filter, !elem_of_map_to_list. simpl. intros [Hp Hr]. eauto.
Qed.

(** A count by a part of the rows depends only on that part. *)
Lemma count_where_fmap {R S} (f : R -> S) (t : gmap Uuid R) (p : Uuid -> S -> bool) :
  count_where t (fun id r => p id (f r)) = count_where (f <$> t) p.
Proof.
  induction t as [|id r t Hid IH] using map_ind; [by rewrite fmap_empty|].
  rewrite fmap_insert, !count_where_insert by (rewrite ?lookup_fmap, Hid; done). by rewrite IH.
Qed.

Lemma exists_where_false {R} (t : gmap Uuid R) p :
  exists_where t p = false <-> forall id r, t !! id = Some r -> p id r = false.
Proof. unfold exists_where. rewrite bool_decide_eq_false, <- select_nil. destruct (select t p); naive_solver. Qed.

Lemma exists_where_true {R} (t : gmap Uuid R) p :
  exists_where t p = true <-> exists id r, t !! id = Some r /\ p id r = true.
Proof.
  unfold exists_where. rewrite bool_decide_eq_true. split.
  - destruct (select t p) as [|[id r] l] eqn:E; [done|]. intros _. exists id, r.
    apply elem_of_select. rewrite E. left.
  - intros (id & r & Hin). apply elem_of_select in Hin. intros E. rewrite E in Hin.
    by apply not_elem_of_nil in Hin.
Qed.

Lemma lookup_update_where {K R} `{Countable K} p f (t : gmap K R) k :
  update_where p f t !! k = (fun r => if p k r then f r else r) <$> t !! k.
Proof. unfold update_where. rewrite map_lookup_imap. by destruct (t !! k). Qed.

Lemma lookup_delete_where {K R} `{Countable K} p (t : gmap K R) k r :
  delete_where p t !! k = Some r <-> t !! k = Some r /\ p k r = false.
Proof. unfold delete_where. by rewrite map_lookup_filter_Some. Qed.

Lemma capture_by_key_Some d u k id c :
  capture_by_key d u k = Some (id, c) ->
  captures d !! id = Some c /\ c_user_ref c = u /\ c_idempotency_key c = k.
Proof.
  intros [? Hp]%head_select_Some. rewrite andb_true_iff, !bool_decide_eq_true in Hp. tauto.
Qed.

Lemma capture_by_key_None d u k :
  capture_by_key d u k = None <->
  forall id c, captures d !! id = Some c -> ~ (c_user_ref c = u /\ c_idempotency_key c = k).
Proof.
  unfold capture_by_key. rewrite head_select_None. split; intros Hn id c Hc; specialize (Hn id c Hc).
  - rewrite andb_false_iff, !bool_decide_eq_false in Hn. tauto.
  - rewrite andb_false_iff, !bool_decide_eq_false.
    destruct (decide (c_user_ref c = u)), (decide (c_idempotency_key c = k)); tauto.
Qed.

Lemma capture_by_key_insert d id c :
  capture_by_key d (c_user_ref c) (c_idempotency_key c) = None ->
  capture_by_key (set_captures (<[id := c]> (captures d)) d) (c_user_ref c) (c_idempotency_key c)
  = Some (id, c).
Proof.
  intros Hn. apply head_select_insert; [done|]. by rewrite !bool_decide_eq_true_2.
Qed.

(** * Inversion of accepted inserts *)

Lemma insert_outbox_Ok id o d d' :
  insert_outbox id o d = Ok d' ->
  outbox_events d !! id = None /\ d' = set_outbox_events (<[id := o]> (outbox_events d)) d.
Proof.
  unfold insert_outbox, check_outbox. destruct (bool_decide (outbox_events d !! id = None)) eqn:E;
    simpl; [|done]. apply bool_decide_eq_true in E. destruct (negb _); [done|].
  intros; simplify_eq. done.
Qed.

Lemma insert_capture_Ok id c d d' :
  insert_capture id c d = Ok d' ->
  captures d !! id = None /\ d' = set_captures (<[id := c]> (captures d)) d.
Proof.
  unfold insert_capture, check_captures.
  destruct (bool_decide (captures d !! id = None)) eqn:E; simpl; [|done].
  apply bool_decide_eq_true in E. destruct (negb _); [done|]. by intros; simplify_eq.
Qed.

Lemma insert_tombstone_Ok id t d d' :
  insert_tombstone id t d = Ok d' ->
  tombstones d !! id = None /\ d' = set_tombstones (<[id := t]> (tombstones d)) d.
Proof.
  unfold insert_tombstone. destruct (bool_decide (tombstones d !! id = None)) eqn:E; simpl; [|done].
  apply bool_decide_eq_true in E. destruct (negb _); [done|]. destruct (negb _); [done|].
  by intros; simplify_eq.
Qed.

Lemma insert_resolution_Ok id r d d' :
  insert_resolution id r d = Ok d' ->
  capture_resolutions d !! id = None
  /\ d' = set_capture_resolutions (<[id := r]> (capture_resolutions d)) d.
Proof.
  unfold insert_resolution. destruct (bool_decide (_ !! id = None)) eqn:E; simpl; [|done].
  apply bool_decide_eq_true in E. destruct (bool_decide _); [done|]. destruct (default _ _); [done|].
  destruct (negb _); [done|]. by intros; simplify_eq.
Qed.

Lemma insert_raw_object_Ok id r d d' :
  insert_raw_object id r d = Ok d' ->
  raw_objects d !! id = None /\ d' = set_raw_objects (<[id := r]> (raw_objects d)) d.
Proof.
  unfold insert_raw_object. destruct (bool_decide (_ !! id = None)) eqn:E; simpl; [|done].
  apply bool_decide_eq_true in E. destruct (negb _); [done|]. by intros; simplify_eq.
Qed.

Lemma insert_post_revision_Ok id r d d' :
  insert_post_revision id r d = Ok d' ->
  post_revisions d !! id = None /\ is_Some (posts d !! rev_post_id r)
  /\ d' = set_post_revisions (<[id := r]> (post_revisions d)) d.
Proof.
  unfold insert_post_revision. destruct (bool_decide (_ !! id = None)) eqn:E; simpl; [|done].
  apply bool_decide_eq_true in E. destruct (bool_decide (posts _ !! _ = None)) eqn:Ep; [done|].
  apply bool_decide_eq_false in Ep. destruct (bool_decide _); [done|].
  intros; simplify_eq. split_and!; [done| |done]. by apply not_eq_None_Some.
Qed.

(** What an accepted statement did. *)
Ltac sql_ok :=
  repeat match goal with
  | H : insert_outbox _ _ _ = Ok _ |- _ => apply insert_outbox_Ok in H as [? ->]
  | H : insert_capture _ _ _ = Ok _ |- _ => apply insert_capture_Ok in H as [? ->]
  | H : insert_tombstone _ _ _ = Ok _ |- _ => apply insert_tombstone_Ok in H as [? ->]
  | H : insert_resolution _ _ _ = Ok _ |- _ => apply insert_resolution_Ok in H as [? ->]
  | H : insert_raw_object _ _ _ = Ok _ |- _ => apply insert_raw_object_Ok in H as [? ->]
  | H : insert_post_revision _ _ _ = Ok _ |- _ => apply insert_post_revision_Ok in H as (? & ? & ->)
  end.

End Schema.
