(* ===== verification/Store.v ===== *)
(** Execution of the service's database code: a state monad over the archive with
    the round trips to PostgreSQL as the points where it can fail.

    The environment ([Env]) answers every round trip: it may succeed, be lost
    before it took effect, or take effect while its answer is lost. It also
    supplies the wall clock and the identifiers [Uuid::now_v7] mints. Statements
    of a transaction take effect together when the commit does and not at all
    otherwise; [now()] is the time the transaction began. *)
From S2P Require Import Prelude Schema.

Module Store.
Import Schema.

Inductive Fault :=
| Delivered      (* the statement ran and its answer arrived *)
| LostRequest    (* nothing happened, the caller sees an error *)
| LostAnswer.    (* the statement ran, the caller sees an error *)

Inductive IoFault :=
| IoOk
| IoError                        (* the file operation did nothing and failed *)
| IoPartial (written : nat).     (* a write stored a prefix and failed *)

(** What the code runs against and this repository does not contain. *)
Class Env := {
  fault : nat -> Fault;          (* of the n-th round trip *)
  io : nat -> IoFault;           (* of the file operation made at the n-th step *)
  bus : nat -> Fault;            (* of the publication made at the n-th step *)
  clock : nat -> Time;           (* the server clock at the n-th round trip *)
  mint : nat -> Uuid;            (* the n-th [Uuid::now_v7()] *)
  show_uuid : Uuid -> string;    (* [Display] of a UUID *)
  new_v5 : string -> Uuid;       (* [Uuid::new_v5] in the service's namespace *)
  sha256 : string -> string;     (* the SHA-256 digest of a byte string *)
}.

Record World := mkWorld {
  w_db : db;
  w_tick : nat;                  (* round trips, file operations and publications made *)
  w_minted : nat;                (* identifiers minted *)
  w_txn : option Time;           (* start time of the open transaction *)
  w_files : gmap string string;  (* the service's raw-evidence directory *)
  w_bus : list (string * Uuid * Payload);  (* what the broker stored: subject, message id, body *)
}.

Definition with_db (d : db) (w : World) : World :=
  mkWorld d (w_tick w) (w_minted w) (w_txn w) (w_files w) (w_bus w).

(** A computation with errors of type [E]; the world it leaves stays when it fails. *)
Definition M (E A : Type) : Type := World -> Result E A * World.

Definition ret {E A} (a : A) : M E A := fun w => (Ok a, w).
Definition throw {E A} (e : E) : M E A := fun w => (Err e, w).

Definition bind {E A B} (m : M E A) (k : A -> M E B) : M E B :=
  fun w => match m w with
           | (Ok a, w') => k a w'
           | (Err e, w') => (Err e, w')
           end.

Definition mapErr {E F A} (f : E -> F) (m : M E A) : M F A :=
  fun w => match m w with
           | (Ok a, w') => (Ok a, w')
           | (Err e, w') => (Err (f e), w')
           end.

(** [Result] of a computation as a value: the caller matches on it. *)
Definition attempt {E F A} (m : M E A) : M F (Result E A) :=
  fun w => let '(r, w') := m w in (Ok r, w').

Definition lift {E A} (r : Result E A) : M E A := fun w => (r, w).

Declare Scope store_scope.
Delimit Scope store_scope with store.
Notation "'let*' x ':=' m 'in' k" := (bind m (fun x => k))
  (at level 10, x pattern, m at level 100, k at level 200) : store_scope.
Notation "m ';;;' k" := (bind m (fun _ => k)) (at level 100, k at level 200, right associativity)
  : store_scope.
Local Open Scope store_scope.

(** [for x in xs { f(x)?; }]. *)
Fixpoint forM_ {E A} (xs : list A) (f : A -> M E ()) : M E () :=
  match xs with
  | [] => ret ()
  | x :: xs' => f x ;;; forM_ xs' f
  end.

Section WithEnv.
Context {Henv : Env}.

Definition now_at (w : World) : Time :=
  match w_txn w with Some t => t | None => clock (w_tick w) end.

Definition tick (w : World) : World :=
  mkWorld (w_db w) (S (w_tick w)) (w_minted w) (w_txn w) (w_files w) (w_bus w).

(** One statement: [f] is given [now()] and the tables. *)
Definition query {A} (f : Time -> db -> Result SqlError (A * db)) : M SqlError A :=
  fun w =>
    let run := f (now_at w) (w_db w) in
    match fault (w_tick w), run with
    | LostRequest, _ => (Err ConnectionLost, tick w)
    | LostAnswer, Ok (_, d) => (Err ConnectionLost, tick (with_db d w))
    | LostAnswer, Err _ => (Err ConnectionLost, tick w)
    | Delivered, Ok (a, d) => (Ok a, tick (with_db d w))
    | Delivered, Err e => (Err e, tick w)
    end.

(** A statement that changes nothing. *)
Definition read {A} (f : Time -> db -> Result SqlError A) : M SqlError A :=
  query (fun now d => match f now d with Ok a => Ok (a, d) | Err e => Err e end).

Definition execute (f : Time -> db -> Result SqlError db) : M SqlError () :=
  query (fun now d => match f now d with Ok d' => Ok ((), d') | Err e => Err e end).

Definition now_v7 {E} : M E Uuid :=
  fun w => (Ok (mint (w_minted w)), mkWorld (w_db w) (w_tick w) (S (w_minted w)) (w_txn w) (w_files w) (w_bus w)).

(** How a transaction body ends: with [commit()], or by dropping the handle. *)
Inductive Finish (A : Type) := Commit (a : A) | Rollback (a : A).
Arguments Commit {A} a.
Arguments Rollback {A} a.

Definition end_txn (d : db) (w : World) : World :=
  mkWorld d (w_tick w) (w_minted w) None (w_files w) (w_bus w).

(** [begin() ... commit()]; an error in the body drops the handle, which rolls back. *)
Definition transaction {E A} (of_sql : SqlError -> E) (body : M E (Finish A)) : M E A :=
  fun w =>
    match fault (w_tick w) with
    | Delivered =>
        let w0 := mkWorld (w_db w) (S (w_tick w)) (w_minted w) (Some (clock (w_tick w))) (w_files w) (w_bus w) in
        match body w0 with
        | (Err e, w1) => (Err e, end_txn (w_db w) w1)
        | (Ok (Rollback a), w1) => (Ok a, end_txn (w_db w) w1)
        | (Ok (Commit a), w1) =>
            match fault (w_tick w1) with
            | Delivered => (Ok a, end_txn (w_db w1) (tick w1))
            | LostAnswer => (Err (of_sql ConnectionLost), end_txn (w_db w1) (tick w1))
            | LostRequest => (Err (of_sql ConnectionLost), end_txn (w_db w) (tick w1))
            end
        end
    | _ => (Err (of_sql ConnectionLost), tick w)
    end.

(** * Reasoning about computations *)

(** [I] on the tables survives [m], whether [m] succeeds, fails or loses an answer. *)
Definition preserves {E A} (I : db -> Prop) (m : M E A) : Prop :=
  forall w, I (w_db w) -> I (w_db (m w).2).

(** [m] may change the tables only when it returns [Ok a] with [Q a]. *)
Lemma preserves_ret {E A} I (a : A) : preserves I (ret (E := E) a).
Proof. by intros w. Qed.

Lemma preserves_throw {E A} I (e : E) : preserves (A := A) I (throw e).
Proof. by intros w. Qed.

Lemma preserves_lift {E A} I (r : Result E A) : preserves I (lift r).
Proof. by intros w. Qed.

Lemma preserves_mint {E} I : preserves I (now_v7 (E := E)).
Proof. by intros w. Qed.

Lemma preserves_bind {E A B} I (m : M E A) (k : A -> M E B) :
  preserves I m -> (forall a, preserves I (k a)) -> preserves I (bind m k).
Proof.
  intros Hm Hk w Hw. unfold bind. specialize (Hm w Hw).
  destruct (m w) as [[a|e] w']; simpl in *; [by apply Hk|done].
Qed.

Lemma preserves_mapErr {E F A} I (f : E -> F) (m : M E A) :
  preserves I m -> preserves I (mapErr f m).
Proof.
  intros Hm w Hw. unfold mapErr. specialize (Hm w Hw). by destruct (m w) as [[a|e] w'].
Qed.

Lemma preserves_attempt {E F A} I (m : M E A) :
  preserves I m -> preserves I (attempt (F := F) m).
Proof. intros Hm w Hw. unfold attempt. specialize (Hm w Hw). by destruct (m w). Qed.

Lemma preserves_forM {E A} I (xs : list A) (f : A -> M E ()) :
  (forall x, preserves I (f x)) -> preserves I (forM_ xs f).
Proof.
  intros Hf. induction xs as [|x xs IH]; simpl; [apply preserves_ret|].
  by apply preserves_bind.
Qed.

Lemma preserves_forM_elem {E A} I (xs : list A) (f : A -> M E ()) :
  (forall x, x ∈ xs -> preserves I (f x)) -> preserves I (forM_ xs f).
Proof.
  induction xs as [|x xs IH]; intros Hf; simpl; [apply preserves_ret|].
  apply preserves_bind; [apply Hf; left|]. intros _. apply IH. intros y Hy. apply Hf. by right.
Qed.

Lemma preserves_query {A} I (f : Time -> db -> Result SqlError (A * db)) :
  (forall t d a d', I d -> f t d = Ok (a, d') -> I d') -> preserves I (query f).
Proof.
  intros Hf w Hw. unfold query.
  destruct (f (now_at w) (w_db w)) as [[a d]|e] eqn:E; destruct (fault (w_tick w)); simpl; eauto.
Qed.

Lemma preserves_read {A} I (f : Time -> db -> Result SqlError A) : preserves I (read f).
Proof.
  apply preserves_query. intros t d a d' Hd. by destruct (f t d); intros; simplify_eq.
Qed.

Lemma preserves_execute I (f : Time -> db -> Result SqlError db) :
  (forall t d d', I d -> f t d = Ok d' -> I d') -> preserves I (execute f).
Proof.
  intros Hf. apply preserves_query. intros t d [] d' Hd. destruct (f t d) eqn:E; [|done].
  intros; simplify_eq. by eapply Hf.
Qed.

(** Of a transaction only its committed end state has to satisfy the invariant. *)
Lemma preserves_transaction {E A} I (of_sql : SqlError -> E) (body : M E (Finish A)) :
  (forall w a w', I (w_db w) -> body w = (Ok (Commit a), w') -> I (w_db w')) ->
  preserves I (transaction of_sql body).
Proof.
  intros Hb w Hw. unfold transaction. destruct (fault (w_tick w)); simpl; try done.
  destruct (body _) as [[[a|a]|e] w1] eqn:Ebody; simpl; try done.
  destruct (fault (w_tick w1)); simpl; try done; by eapply Hb in Ebody.
Qed.

Lemma preserves_transaction_body {E A} I (of_sql : SqlError -> E) (body : M E (Finish A)) :
  preserves I body -> preserves I (transaction of_sql body).
Proof.
  intros Hb. apply preserves_transaction. intros w a w' Hw Hrun. specialize (Hb w Hw).
  by rewrite Hrun in Hb.
Qed.

(** A transaction leaves the tables as they were or as its committed body left them. *)
Lemma transaction_atomic {E A} (of_sql : SqlError -> E) (body : M E (Finish A)) w :
  w_db (transaction of_sql body w).2 = w_db w
  \/ exists a w0 w1, w_db w0 = w_db w /\ w_minted w0 = w_minted w /\ w_txn w0 = Some (clock (w_tick w))
       /\ body w0 = (Ok (Commit a), w1) /\ w_db (transaction of_sql body w).2 = w_db w1.
Proof.
  unfold transaction. destruct (fault (w_tick w)); simpl; try by left.
  destruct (body _) as [[[a|a]|e] w1] eqn:Eb; simpl; try by left.
  destruct (fault (w_tick w1)); simpl; try by left.
  all: right; eexists a, _, w1; split_and!; try exact Eb; done.
Qed.

(** A successful transaction committed its body, or rolled it back by choice. *)
Lemma transaction_Ok {E A} (of_sql : SqlError -> E) (body : M E (Finish A)) w a w' :
  transaction of_sql body w = (Ok a, w') ->
  exists w0 w1, w_db w0 = w_db w /\ w_minted w0 = w_minted w /\ w_txn w0 = Some (clock (w_tick w))
    /\ ((body w0 = (Ok (Commit a), w1) /\ w_db w' = w_db w1)
        \/ (body w0 = (Ok (Rollback a), w1) /\ w_db w' = w_db w)).
Proof.
  unfold transaction. destruct (fault (w_tick w)); try done.
  destruct (body _) as [[[a'|a']|e] w1] eqn:Eb; [|intros; simplify_eq|done].
  - destruct (fault (w_tick w1)); intros; simplify_eq.
    eexists _, w1. split_and!; [..|left; split; [exact Eb|]]; done.
  - eexists _, w1. split_and!; [..|right; split; [exact Eb|]]; done.
Qed.

Lemma transaction_Err {E A} (of_sql : SqlError -> E) (body : M E (Finish A)) w e w' :
  transaction of_sql body w = (Err e, w') ->
  e = of_sql ConnectionLost
  \/ (w_db w' = w_db w /\ exists w0 w1, w_db w0 = w_db w /\ body w0 = (Err e, w1)).
Proof.
  unfold transaction. destruct (fault (w_tick w)); [|intros; simplify_eq; by left..].
  destruct (body _) as [[[a|a]|e'] w1] eqn:Eb; [|done|].
  - destruct (fault (w_tick w1)); intros; simplify_eq; by left.
  - intros; simplify_eq. right. split; [done|]. eexists _, w1. split; [|exact Eb]. done.
Qed.

(** Which errors a computation can return. *)
Definition raises {E A} (P : E -> Prop) (m : M E A) : Prop :=
  forall w e w', m w = (Err e, w') -> P e.

Lemma raises_ret {E A} (P : E -> Prop) (a : A) : raises P (ret a).
Proof. by intros w e w'. Qed.

Lemma raises_throw {E A} (P : E -> Prop) e : P e -> raises P (throw (A := A) e).
Proof. intros H w e' w' [= <- <-]. done. Qed.

Lemma raises_lift {E A} (P : E -> Prop) (r : Result E A) : (forall e, r = Err e -> P e) -> raises P (lift r).
Proof. intros H w e w' [= -> <-]. by apply H. Qed.

Lemma raises_now_v7 {E} (P : E -> Prop) : raises P now_v7.
Proof. by intros w e w'. Qed.

Lemma raises_bind {E A B} (P : E -> Prop) (m : M E A) (k : A -> M E B) :
  raises P m -> (forall a, raises P (k a)) -> raises P (bind m k).
Proof.
  intros Hm Hk w e w'. unfold bind. destruct (m w) as [[a|e'] w1] eqn:Em; [apply Hk|].
  intros [= <- <-]. by eapply Hm.
Qed.

Lemma raises_mapErr {E F A} (P : F -> Prop) (f : E -> F) (m : M E A) :
  (forall e, P (f e)) -> raises P (mapErr f m).
Proof. intros Hf w e w'. unfold mapErr. destruct (m w) as [[]]; intros; by simplify_eq. Qed.

Lemma raises_forM {E A} (P : E -> Prop) (xs : list A) (f : A -> M E ()) :
  (forall x, raises P (f x)) -> raises P (forM_ xs f).
Proof.
  intros Hf. induction xs as [|x xs IH]; simpl; [apply raises_ret|]. by apply raises_bind.
Qed.

Lemma run_snd {E A} (m : M E A) w a : (exists w', m w = (Ok a, w')) -> m w = (Ok a, (m w).2).
Proof. by intros [w' ->]. Qed.

(** A successful [bind] had two successful halves. *)
Lemma bind_Ok {E A B} (m : M E A) (k : A -> M E B) w b w' :
  bind m k w = (Ok b, w') <-> exists a w1, m w = (Ok a, w1) /\ k a w1 = (Ok b, w').
Proof.
  unfold bind. destruct (m w) as [[a|e] w1]; naive_solver.
Qed.

Lemma mapErr_Ok {E F A} (f : E -> F) (m : M E A) w a w' :
  mapErr f m w = (Ok a, w') <-> m w = (Ok a, w').
Proof. unfold mapErr. destruct (m w) as [[]]; naive_solver. Qed.

Lemma query_Ok {A} (f : Time -> db -> Result SqlError (A * db)) w a w' :
  query f w = (Ok a, w') ->
  exists d, f (now_at w) (w_db w) = Ok (a, d) /\ w' = tick (with_db d w).
Proof.
  unfold query. destruct (fault (w_tick w)); destruct (f _ _) as [[]|]; naive_solver.
Qed.

Lemma read_Ok {A} (f : Time -> db -> Result SqlError A) w a w' :
  read f w = (Ok a, w') -> f (now_at w) (w_db w) = Ok a /\ w' = tick w.
Proof.
  unfold read. intros (d & Hf & ->)%query_Ok.
  destruct (f _ _); simplify_eq. split; [done|]. by destruct w.
Qed.

Lemma execute_Ok (f : Time -> db -> Result SqlError db) w w' :
  execute f w = (Ok (), w') ->
  exists d, f (now_at w) (w_db w) = Ok d /\ w' = tick (with_db d w).
Proof.
  unfold execute. intros (d & Hf & ->)%query_Ok.
  destruct (f _ _); simplify_eq. by eexists.
Qed.

(** The tables of a world, as an equation that substitution leaves alone. *)
Definition tables (w : World) (d : db) : Prop := w_db w = d.

(** The same inversions with the rest of the world left abstract: only the tables matter. *)
Lemma query_db {A} (f : Time -> db -> Result SqlError (A * db)) w a w' :
  query f w = (Ok a, w') -> exists t d, f t (w_db w) = Ok (a, d) /\ tables w' d.
Proof. intros (d & H & ->)%query_Ok. unfold tables. eauto. Qed.

Lemma read_db {A} (f : Time -> db -> Result SqlError A) w a w' :
  read f w = (Ok a, w') -> exists t, f t (w_db w) = Ok a /\ tables w' (w_db w).
Proof. intros (H & ->)%read_Ok. unfold tables. eauto. Qed.

Lemma execute_db (f : Time -> db -> Result SqlError db) w u w' :
  execute f w = (Ok u, w') -> exists t d, f t (w_db w) = Ok d /\ tables w' d.
Proof. destruct u. intros (d & H & ->)%execute_Ok. unfold tables. eauto. Qed.

Lemma now_v7_db {E} w (a : Uuid) w' : now_v7 (E := E) w = (Ok a, w') -> tables w' (w_db w).
Proof. unfold now_v7. by intros; simplify_eq. Qed.

Lemma ret_db {E A} (x : A) w (a : A) w' : ret (E := E) x w = (Ok a, w') -> a = x /\ w' = w.
Proof. unfold ret. by intros; simplify_eq. Qed.

Lemma lift_db {E A} (r : Result E A) w (a : A) w' : lift r w = (Ok a, w') -> r = Ok a /\ tables w' (w_db w).
Proof. unfold lift. by intros; simplify_eq. Qed.

Lemma preserves_Ok {E A} (I : db -> Prop) (m : M E A) w r w' :
  preserves I m -> m w = (r, w') -> I (w_db w) -> I (w_db w').
Proof. intros Hp Hm Hw. specialize (Hp w Hw). by rewrite Hm in Hp. Qed.

(** A successful loop, with an invariant between the tables before and after. *)
Lemma forM_Ok {E A} (R : list A -> db -> db -> Prop) (f : A -> M E ()) xs w u w' :
  (forall d, R [] d d) ->
  (forall x rest d w1 u1 w2, f x w1 = (Ok u1, w2) -> R rest (w_db w2) d -> R (x :: rest) (w_db w1) d) ->
  forM_ xs f w = (Ok u, w') -> R xs (w_db w) (w_db w').
Proof.
  intros Hnil Hcons. revert w. induction xs as [|x xs IH]; intros w; simpl.
  - intros [_ ->]%ret_db. apply Hnil.
  - intros (u1 & w1 & H1 & H2)%bind_Ok. eauto.
Qed.

(** Statements do not reach the broker. *)
Lemma query_bus {A} (f : Time -> db -> Result SqlError (A * db)) w : w_bus (query f w).2 = w_bus w.
Proof. unfold query. destruct (f _ _) as [[]|]; by destruct (fault (w_tick w)). Qed.

Lemma execute_bus (f : Time -> db -> Result SqlError db) w : w_bus (execute f w).2 = w_bus w.
Proof. apply query_bus. Qed.

Lemma read_bus {A} (f : Time -> db -> Result SqlError A) w : w_bus (read f w).2 = w_bus w.
Proof. apply query_bus. Qed.

Lemma query_files {A} (f : Time -> db -> Result SqlError (A * db)) w : w_files (query f w).2 = w_files w.
Proof. unfold query. destruct (f _ _) as [[]|]; by destruct (fault (w_tick w)). Qed.

Lemma execute_files (f : Time -> db -> Result SqlError db) w : w_files (execute f w).2 = w_files w.
Proof. apply query_files. Qed.

Lemma read_same_db {A} (f : Time -> db -> Result SqlError A) w : w_db (read f w).2 = w_db w.
Proof. by apply (preserves_read (fun d => d = w_db w)). Qed.

(** One statement, answered or not, ran or did not. *)
Lemma query_cases {A} (f : Time -> db -> Result SqlError (A * db)) w :
  w_db (query f w).2 = w_db w
  \/ exists a d', f (now_at w) (w_db w) = Ok (a, d') /\ w_db (query f w).2 = d'.
Proof.
  unfold query. destruct (f _ _) as [[a d']|]; destruct (fault (w_tick w)); simpl; eauto.
Qed.

Lemma execute_cases (f : Time -> db -> Result SqlError db) w :
  w_db (execute f w).2 = w_db w
  \/ exists d', f (now_at w) (w_db w) = Ok d' /\ w_db (execute f w).2 = d'.
Proof.
  unfold execute. destruct (query_cases (fun now d =>
    match f now d with Ok d' => Ok ((), d') | Err e => Err e end) w) as [|(? & d' & H & ?)]; [by left|].
  right. exists d'. split; [|done]. destruct (f _ _); by simplify_eq.
Qed.

End WithEnv.

Arguments Commit {A} a.
Arguments Rollback {A} a.

#[export] Hint Resolve preserves_ret preserves_throw preserves_lift preserves_mint preserves_bind
  preserves_mapErr preserves_attempt preserves_forM preserves_read : rust.

(** Discharges [preserves] along the structure of a computation, leaving the statements. *)
Ltac preserve_steps :=
  repeat match goal with
  | |- preserves _ (ret _) => apply preserves_ret
  | |- preserves _ (throw _) => apply preserves_throw
  | |- preserves _ (lift _) => apply preserves_lift
  | |- preserves _ now_v7 => apply preserves_mint
  | |- preserves _ (read _) => apply preserves_read
  | |- preserves _ (mapErr _ _) => apply preserves_mapErr
  | |- preserves _ (attempt _) => apply preserves_attempt
  | |- preserves _ (forM_ _ _) => apply preserves_forM; intros ?
  | |- preserves _ (bind _ _) => apply preserves_bind; [|intros ?]
  | |- preserves _ (match ?x with _ => _ end) => destruct x eqn:?
  | |- preserves _ (let _ := _ in _) => cbv zeta
  end.

(** Discharges [raises] along the structure of a computation. *)
Ltac raise_steps :=
  repeat match goal with
  | |- raises _ (ret _) => apply raises_ret
  | |- raises _ (throw _) => apply raises_throw
  | |- raises _ now_v7 => apply raises_now_v7
  | |- raises _ (mapErr _ _) => apply raises_mapErr; intros ?
  | |- raises _ (forM_ _ _) => apply raises_forM; intros ?
  | |- raises _ (bind _ _) => apply raises_bind; [|intros ?]
  | |- raises _ (lift _) => apply raises_lift; intros ? ?
  | |- raises _ (match ?x with _ => _ end) => destruct x eqn:?
  end.

(** Symbolic execution of a successful run: splits it into its statements. *)
Ltac run_ok :=
  repeat match goal with
  | H : bind _ _ _ = (Ok _, _) |- _ => apply bind_Ok in H as (? & ? & ? & ?)
  | H : mapErr _ _ _ = (Ok _, _) |- _ => apply mapErr_Ok in H
  | H : read _ _ = (Ok _, _) |- _ => apply read_Ok in H as [? ->]
  | H : execute _ ?w = (Ok ?u, _) |- _ => destruct u; apply execute_Ok in H as (? & ? & ->)
  | H : query _ _ = (Ok _, _) |- _ => apply query_Ok in H as (? & ? & ->)
  | H : now_v7 _ = (Ok _, _) |- _ => unfold now_v7 in H; simplify_eq
  | H : ret _ _ = (Ok _, _) |- _ => unfold ret in H; simplify_eq
  | H : throw _ _ = (Ok _, _) |- _ => discriminate H
  | H : lift _ _ = (Ok _, _) |- _ => unfold lift in H; simplify_eq
  | H : Ok _ = Ok _ |- _ => injection H as H; try subst
  | H : Err _ = Ok _ |- _ => discriminate H
  end.

(** Replaces the tables of one world by what an equation says they are. *)
Ltac db_eq E :=
  match type of E with
  | tables ?w' _ =>
      unfold tables in E;
      repeat match goal with
      | H : context [w_db w'] |- _ => lazymatch H with E => fail | _ => rewrite E in H end
      | |- context [w_db w'] => rewrite E
      end; clear E
  end.

(** Symbolic execution of a successful run on the tables alone. *)
Ltac db_ok :=
  repeat match goal with
  | H : bind _ _ _ = (Ok _, _) |- _ => apply bind_Ok in H as (? & ? & ? & ?)
  | H : mapErr _ _ _ = (Ok _, _) |- _ => apply mapErr_Ok in H
  | H : read _ _ = (Ok _, _) |- _ => apply read_db in H as (? & H & ?)
  | H : execute _ _ = (Ok _, _) |- _ => apply execute_db in H as (? & ? & H & ?)
  | H : query _ _ = (Ok _, _) |- _ => apply query_db in H as (? & ? & H & ?)
  | H : now_v7 _ = (Ok _, _) |- _ => apply now_v7_db in H
  | H : ret _ _ = (Ok _, _) |- _ => let E := fresh in apply ret_db in H as [H E]; try subst; simplify_eq
  | H : throw _ _ = (Ok _, _) |- _ => discriminate H
  | H : lift _ _ = (Ok _, _) |- _ => apply lift_db in H as [H ?]
  | H : Ok _ = Ok _ |- _ => injection H as H; try subst
  | H : Err _ = Ok _ |- _ => discriminate H
  end;
  repeat match goal with E : tables _ _ |- _ => db_eq E end.

(** * Computations that send nothing *)

Definition silent {E A} (m : M E A) : Prop := forall w, w_bus (m w).2 = w_bus w.

Section SilentRules.
Context {Henv : Env}.

Lemma silent_ret {E A} (a : A) : silent (ret (E := E) a).
Proof. done. Qed.
Lemma silent_throw {E A} (e : E) : silent (throw (A := A) e).
Proof. done. Qed.
Lemma silent_lift {E A} (r : Result E A) : silent (lift r).
Proof. done. Qed.
Lemma silent_mint {E} : silent (now_v7 (E := E)).
Proof. done. Qed.
Lemma silent_query {A} (f : Time -> db -> Result SqlError (A * db)) : silent (query f).
Proof. intros w. apply query_bus. Qed.
Lemma silent_read {A} (f : Time -> db -> Result SqlError A) : silent (read f).
Proof. apply silent_query. Qed.
Lemma silent_execute (f : Time -> db -> Result SqlError db) : silent (execute f).
Proof. apply silent_query. Qed.

Lemma silent_bind {E A B} (m : M E A) (k : A -> M E B) :
  silent m -> (forall a, silent (k a)) -> silent (bind m k).
Proof.
  intros Hm Hk w. unfold bind. specialize (Hm w). destruct (m w) as [[a|e] w1]; [|done].
  simpl in Hm. by rewrite Hk.
Qed.

Lemma silent_mapErr {E F A} (f : E -> F) (m : M E A) : silent m -> silent (mapErr f m).
Proof. intros Hm w. unfold mapErr. specialize (Hm w). by destruct (m w) as [[]]. Qed.

Lemma silent_attempt {E F A} (m : M E A) : silent m -> silent (attempt (F := F) m).
Proof. intros Hm w. unfold attempt. specialize (Hm w). by destruct (m w). Qed.

Lemma silent_forM {E A} (xs : list A) (f : A -> M E ()) : (forall x, silent (f x)) -> silent (forM_ xs f).
Proof. intros Hf. induction xs; simpl; [apply silent_ret|by apply silent_bind]. Qed.

Lemma silent_transaction {E A} (of_sql : SqlError -> E) (body : M E (Finish A)) :
  silent body -> silent (transaction of_sql body).
Proof.
  intros Hb w. unfold transaction. destruct (fault (w_tick w)); [|done..].
  specialize (Hb (mkWorld (w_db w) (S (w_tick w)) (w_minted w) (Some (clock (w_tick w))) (w_files w) (w_bus w))).
  destruct (body _) as [[[a|a]|e] w1]; simpl in *; try done. by destruct (fault (w_tick w1)).
Qed.

End SilentRules.

(** Discharges [silent] along the structure of a computation. *)
Ltac silent_steps :=
  repeat match goal with
  | |- silent (ret _) => apply silent_ret
  | |- silent (throw _) => apply silent_throw
  | |- silent (lift _) => apply silent_lift
  | |- silent now_v7 => apply silent_mint
  | |- silent (read _) => apply silent_read
  | |- silent (execute _) => apply silent_execute
  | |- silent (query _) => apply silent_query
  | |- silent (mapErr _ _) => apply silent_mapErr
  | |- silent (attempt _) => apply silent_attempt
  | |- silent (forM_ _ _) => apply silent_forM; intros ?
  | |- silent (transaction _ _) => apply silent_transaction
  | |- silent (bind _ _) => apply silent_bind; [|intros ?]
  | |- silent (match ?x with _ => _ end) => destruct x eqn:?
  | |- silent (let _ := _ in _) => cbv zeta
  end.

(** * A concrete environment, for evaluating the definitions *)

Definition hex_digit (n : N) : ascii := ascii_of_N (if (n <? 10)%N then 48 + n else 87 + n)%N.

Fixpoint show_nat_fuel (fuel : nat) (n : N) : string :=
  match fuel with
  | O => EmptyString
  | S fuel => String (hex_digit (n mod 16)%N) (if (n <? 16)%N then EmptyString
                                                 else show_nat_fuel fuel (n / 16)%N)
  end.

(** A number for every byte string, so that names have distinct sample identifiers. *)
Fixpoint number_of_bytes (s : string) : N :=
  match s with
  | EmptyString => 1%N
  | String c rest => (N_of_ascii c + 256 * number_of_bytes rest)%N
  end.

(** Every round trip succeeds, one second apart; identifiers count up. *)
Definition sample_env : Env := {|
  fault := fun _ => Delivered;
  io := fun _ => IoOk;
  bus := fun _ => Delivered;
  clock := fun n => seconds (Z.of_nat n);
  mint := fun n => N.of_nat (1000 + n);
  show_uuid := show_nat_fuel 40;
  new_v5 := fun s => (900000 + number_of_bytes s)%N;
  sha256 := fun s => s;
|}.

(** Every database round trip succeeds. *)
Class Healthy (H : Env) : Prop := healthy : forall n, @fault H n = Delivered.

#[export] Instance sample_env_healthy : Healthy sample_env.
Proof. by intros n. Qed.

(** A SHA-256 digest has 32 bytes. *)
Class DigestWidth (H : Env) : Prop := digest_width : forall s, String.length (@sha256 H s) = 32.

(** Minted identifiers are distinct. *)
Class MintDistinct (H : Env) : Prop := mint_inj : forall n m, @mint H n = @mint H m -> n = m.

#[export] Instance sample_env_mint : MintDistinct sample_env.
Proof. intros n m. unfold mint, sample_env. lia. Qed.

Section Healthy.
Context {Henv : Env} {Hh : Healthy Henv}.

Lemma query_healthy {A} (f : Time -> db -> Result SqlError (A * db)) w :
  query f w = match f (now_at w) (w_db w) with
              | Ok (a, d) => (Ok a, tick (with_db d w))
              | Err e => (Err e, tick w)
              end.
Proof using Hh. unfold query. rewrite healthy. by destruct (f _ _) as [[]|]. Qed.

Lemma tick_with_db_same w : tick (with_db (w_db w) w) = tick w.
Proof. by destruct w. Qed.

Lemma read_healthy {A} (f : Time -> db -> Result SqlError A) w :
  read f w = (f (now_at w) (w_db w), tick w).
Proof using Hh.
  unfold read. rewrite query_healthy. destruct (f _ _); [|done]. by rewrite tick_with_db_same.
Qed.

Lemma execute_healthy (f : Time -> db -> Result SqlError db) w :
  execute f w = match f (now_at w) (w_db w) with
                | Ok d => (Ok (), tick (with_db d w))
                | Err e => (Err e, tick w)
                end.
Proof using Hh. unfold execute. rewrite query_healthy. by destruct (f _ _). Qed.

(** Successful statements, to build a successful run out of. *)
Lemma query_run {A} (f : Time -> db -> Result SqlError (A * db)) w a d :
  f (now_at w) (w_db w) = Ok (a, d) -> query f w = (Ok a, tick (with_db d w)).
Proof using Hh. intros H. by rewrite query_healthy, H. Qed.

Lemma read_run {A} (f : Time -> db -> Result SqlError A) w a :
  f (now_at w) (w_db w) = Ok a -> read f w = (Ok a, tick w).
Proof using Hh. intros H. by rewrite read_healthy, H. Qed.

Lemma execute_run (f : Time -> db -> Result SqlError db) w d :
  f (now_at w) (w_db w) = Ok d -> execute f w = (Ok (), tick (with_db d w)).
Proof using Hh. intros H. by rewrite execute_healthy, H. Qed.
(** The world a transaction body starts in. *)
Definition txn_start (w : World) : World :=
  mkWorld (w_db w) (S (w_tick w)) (w_minted w) (Some (clock (w_tick w))) (w_files w) (w_bus w).

Lemma transaction_healthy {E A} (of_sql : SqlError -> E) (body : M E (Finish A)) w :
  transaction of_sql body w =
  match body (txn_start w) with
  | (Err e, w1) => (Err e, end_txn (w_db w) w1)
  | (Ok (Rollback a), w1) => (Ok a, end_txn (w_db w) w1)
  | (Ok (Commit a), w1) => (Ok a, end_txn (w_db w1) (tick w1))
  end.
Proof using Hh.
  unfold transaction. rewrite healthy. fold (txn_start w).
  destruct (body (txn_start w)) as [[[a|a]|e] w1]; [by rewrite healthy|done|done].
Qed.

Lemma transaction_run {E A} (of_sql : SqlError -> E) (body : M E (Finish A)) w a w1 :
  body (txn_start w) = (Ok (Commit a), w1) ->
  transaction of_sql body w = (Ok a, end_txn (w_db w1) (tick w1)).
Proof using Hh. intros H. by rewrite transaction_healthy, H. Qed.

End Healthy.

(** Splits the goal that a run succeeds into its statements. *)
Ltac run_steps :=
  repeat match goal with
  | |- bind _ _ _ = (Ok _, _) => apply bind_Ok; eexists _, _; split
  | |- mapErr _ _ _ = (Ok _, _) => apply mapErr_Ok
  | |- read _ _ = (Ok _, _) => apply read_run
  | |- query _ _ = (Ok _, _) => apply query_run
  | |- execute _ _ = (Ok _, _) => apply execute_run
  | |- lift _ _ = (Ok _, _) => unfold lift; f_equal
  | |- ret _ _ = (Ok _, _) => reflexivity
  | |- now_v7 _ = (Ok _, _) => reflexivity
  end.

Definition sample_world (d : db) : World := mkWorld d 0 0 None ∅ [].

End Store.
