(* ===== verification/Database.v ===== *)
(** The database handle (src/crates/threads-archive/src/database.rs): connecting the pool, applying
    the schema once, and the readiness round trip.

    Several replicas of the service may start against one fresh database, so [apply_schema] is
    modelled twice from the same statements: as the function one process runs, with the fault of
    every round trip, and as an instance of the lock protocol of [Locks], in which the statements of
    any number of starting processes interleave with the traffic of processes already running.
    The connection pool itself is sqlx's and is a parameter. *)
From S2P Require Import Prelude Locks Schema Store.

Module Database.
Import Schema Store Locks.
Local Open Scope rust_scope.

Inductive PersistenceError :=
| Connect (e : SqlError)
| SchemaApply (e : SqlError)
| QueryFailed (e : SqlError).

#[global] Instance PersistenceError_eq_dec : EqDecision PersistenceError.
Proof. solve_decision. Defined.

(** * Connecting *)

Record PoolOptions := mk_pool_options { max_connections : Z; acquire_timeout : Z }.

Section Pool.
Context {Pool : Type}.

Record Database := mk_database { pool : Pool }.

(** [pg_connect] is what [PgPoolOptions::connect] answers. *)
Definition connect (pg_connect : PoolOptions -> string -> Result SqlError Pool)
    (url : string) (max_connections acquire_timeout : Z) : Result PersistenceError Database :=
  let? pool := map_err Connect (pg_connect (mk_pool_options max_connections acquire_timeout) url) in
  Ok (mk_database pool).

(** The answer to [select 1]. *)
Definition ping (f : Fault) : Result PersistenceError () :=
  match f with
  | Delivered => Ok ()
  | LostRequest | LostAnswer => Err (QueryFailed ConnectionLost)
  end.

End Pool.
Arguments Database : clear implicits.

(** * Applying the schema *)

Definition SCHEMA_LOCK : Z := 0x72617461736b7206.

(** What the server's catalogue holds under the name [threads_archive]. *)
Definition Catalogue : Type := option db.

(** [select to_regnamespace('threads_archive')::text]. *)
Definition to_regnamespace (c : Catalogue) : option string :=
  match c with Some _ => Some "threads_archive"%string | None => None end.

(** [SCHEMA], whose first statement is [create schema threads_archive]: it creates empty tables. *)
Definition execute_schema (c : Catalogue) : Result SqlError db :=
  match c with
  | None => Ok empty_db
  | Some _ => Err (Protocol "schema threads_archive already exists"%string)
  end.

(** Where a process is in [lock_and_apply]. *)
Inductive Boot :=
| Waiting                            (* for the advisory lock *)
| Locked
| Seen (present : option string)     (* the catalogue has answered *)
| Applied (created : option db)      (* [lock_and_apply] returned [Ok(())] *)
| Refused (e : SqlError).            (* the server refused a statement of the file *)

(** The statement that follows, against what the transaction sees of the catalogue. *)
Definition next_statement (c : Catalogue) (b : Boot) : option Boot :=
  match b with
  | Locked => Some (Seen (to_regnamespace c))
  | Seen (Some _) => Some (Applied None)
  | Seen None => Some (match execute_schema c with Ok d => Applied (Some d) | Err e => Refused e end)
  | Waiting | Applied _ | Refused _ => None
  end.

(** What [commit()] makes of the catalogue. *)
Definition commit_boot (c : Catalogue) (created : option db) : Catalogue :=
  match created with Some d => Some d | None => c end.

(** A round trip whose statement changes nothing outside its transaction. *)
Definition round_trip {A} (f : Fault) (r : Result SqlError A) : Result SqlError A :=
  match f with Delivered => r | LostRequest | LostAnswer => Err ConnectionLost end.

(** One process alone: [fault n] is what happens to the n-th round trip. *)
Definition lock_and_apply (fault : nat -> Fault) (c : Catalogue) : Result SqlError (option db) :=
  let? _ := round_trip (fault 1) (Ok ()) in
  let? present := round_trip (fault 2) (Ok (to_regnamespace c)) in
  match present with
  | None => let? d := round_trip (fault 3) (execute_schema c) in Ok (Some d)
  | Some _ => Ok None
  end.

Definition apply_schema (fault : nat -> Fault) (c : Catalogue) : Result PersistenceError () * Catalogue :=
  match fault 0 with
  | Delivered =>
      match map_err SchemaApply (lock_and_apply fault c) with
      | Err e => (Err e, c)
      | Ok created =>
          match fault 4 with
          | Delivered => (Ok (), commit_boot c created)
          | LostAnswer => (Err (SchemaApply ConnectionLost), commit_boot c created)
          | LostRequest => (Err (SchemaApply ConnectionLost), c)
          end
      end
  | LostRequest | LostAnswer => (Err (SchemaApply ConnectionLost), c)
  end.

(** What is committed, with the number of times the file was. *)
Record Server := mk_server { catalogue : Catalogue; applications : nat }.

(** A transaction of the running service: it works inside an existing schema. *)
Inductive traffic : Server -> Server -> Prop :=
| traffic_dml d d' n : traffic (mk_server (Some d) n) (mk_server (Some d') n).

Inductive boot_commit : Server -> Boot -> Server -> Prop :=
| boot_commit_applied c n created :
    boot_commit (mk_server c n) (Applied created)
      (mk_server (commit_boot c created) (match created with Some _ => S n | None => n end)).

Definition boot_protocol : LockProtocol Server Boot := {|
  pr_begin b := b = Waiting;
  pr_outside _ _ _ := False;
  pr_enter b b' := b = Waiting /\ b' = Locked;
  pr_inside s b b' := next_statement (catalogue s) b = Some b';
  pr_commit := boot_commit;
  pr_other := traffic;
|}.

(** * One process alone *)

(** One process applying the schema, whatever happens to its round trips: an existing archive
    is left exactly as it is; [Ok] means the schema is there; an error means nothing changed, or the
    commit took effect and its answer was lost; and with no fault a fresh database gets the empty
    archive. *)
Theorem apply_schema_outcome fault c r c' :
  apply_schema fault c = (r, c') ->
  (forall d, c = Some d -> c' = Some d) /\
  (r = Ok () -> is_Some c') /\
  (forall e, r = Err e -> c' = c \/ (fault 4 = LostAnswer /\ c = None /\ c' = Some empty_db)) /\
  ((forall n, fault n = Delivered) -> r = Ok () /\ c' = Some (default empty_db c)).
Proof.
  unfold apply_schema, lock_and_apply, round_trip. intros Hrun.
  destruct c as [d|]; repeat case_match; simplify_eq/=; repeat split; intros;
    simplify_eq/=; eauto; try congruence.
  all: try match goal with H : forall n, fault n = Delivered |- _ =>
    pose proof (H 0); pose proof (H 1); pose proof (H 2); pose proof (H 3); pose proof (H 4) end; congruence.
Qed.

(** * Any number of processes *)

(** The state of an interleaving that started from catalogue [c0]. *)
Definition applied_once (c0 : Catalogue) (s : Server) : Prop :=
  applications s = match c0, catalogue s with None, Some _ => 1 | _, _ => 0 end /\
  (is_Some c0 -> is_Some (catalogue s)).

(** What a process under the lock knows of the catalogue. *)
Definition boot_knows (s : Server) (b : Boot) : Prop :=
  match b with
  | Waiting | Refused _ => False
  | Locked => True
  | Seen present => present = to_regnamespace (catalogue s)
  | Applied None => is_Some (catalogue s)
  | Applied (Some d) => catalogue s = None /\ d = empty_db
  end.

#[global] Instance boot_laws c0 : LockLaws boot_protocol (applied_once c0) (fun b => b = Waiting) boot_knows.
Proof.
  split; cbn.
  - done.
  - done.
  - by intros s t t' _ -> [_ ->].
  - intros [[d|] n] b b' _ Hb Hnext; destruct b as [| |[]|[]|]; simplify_eq/=; eauto.
  - intros s b s' [Ha Hc] Hb Hcommit. destruct Hcommit as [c n [d|]]; cbn in *; [|done].
    destruct Hb as [-> ->]. destruct c0 as [d0|]; cbn in *; [by destruct Hc|].
    split; cbn; [congruence|done].
  - intros s s' [Ha Hc] Htraffic. destruct Htraffic as [d d' n]. split; [split; [done|eauto]|].
    intros [| |p|[]|]; cbn; [done|done|done| |eauto|done]. by intros [? _].
Qed.

(** A process that finds the lock free can finish: its statements are never refused. *)
Lemma boot_completes s ts i : ts !! i = Some (Outside Waiting) ->
  exists s', is_Some (catalogue s') /\
    rtc (step boot_protocol) (mk_config s None ts) (mk_config s' None (<[i := Ended]> ts)).
Proof.
  intros Hi. destruct s as [c n].
  assert (Hlt : i < length ts) by (by eapply lookup_lt_Some).
  exists (mk_server (Some (default empty_db c)) (match c with Some _ => n | None => S n end)).
  split; [eauto|]. eapply rtc_l; [by eapply (step_acquire boot_protocol)|].
  eapply rtc_l; [eapply (step_inside boot_protocol); [by apply list_lookup_insert_eq|done]|].
  rewrite list_insert_insert_eq.
  eapply rtc_l; [eapply (step_inside boot_protocol)
    with (t' := Applied (match c with Some _ => None | None => Some empty_db end));
    [by apply list_lookup_insert_eq|by destruct c]|].
  rewrite list_insert_insert_eq. apply rtc_once.
  replace (<[i := Ended]> ts) with (<[i := Ended]> (<[i := Inside
    (Applied (match c with Some _ => None | None => Some empty_db end))]> ts))
    by apply list_insert_insert_eq.
  replace (@None nat) with (released (Some i) i) by (unfold released; by rewrite bool_decide_eq_true_2).
  eapply (step_commit boot_protocol); [by apply list_lookup_insert_eq|].
  destruct c; constructor.
Qed.

(** [C7] Starting any number of processes at once, in any interleaving of their statements with each
    other and with running processes: the schema file is committed at most once, and not at all on a
    database that has the archive; no process ever finds its [create schema] refused; a process
    whose [lock_and_apply] returned commits into a database that has the schema, and changes nothing
    of an archive that is there; and a process that finds the lock free can always finish. *)
Theorem boot_schema_once c0 c :
  rtc (step boot_protocol) (mk_config (mk_server c0 0) None []) c ->
  applications (shared c) <= 1 /\
  (is_Some c0 -> applications (shared c) = 0 /\ is_Some (catalogue (shared c))) /\
  (forall i e, threads c !! i <> Some (Inside (Refused e))) /\
  (forall i created s', threads c !! i = Some (Inside (Applied created)) ->
     boot_commit (shared c) (Applied created) s' ->
     is_Some (catalogue s') /\ (is_Some (catalogue (shared c)) -> s' = shared c)) /\
  (forall i, threads c !! i = Some (Outside Waiting) -> holder c = None ->
     exists s', is_Some (catalogue s') /\
       rtc (step boot_protocol) c (mk_config s' None (<[i := Ended]> (threads c)))).
Proof.
  intros Hsteps.
  assert (Hinit : applied_once c0 (mk_server c0 0)) by (by destruct c0).
  destruct (steps_protected boot_protocol _ _ Hinit Hsteps) as [[Happ Hpresent] _ Hin].
  split_and!.
  - rewrite Happ. repeat case_match; lia.
  - intros Hc0. split; [|by apply Hpresent]. rewrite Happ. by destruct c0; [|destruct Hc0].
  - intros i e Hi. by destruct (Hin _ _ Hi).
  - intros i created s' Hi Hcommit. destruct (Hin _ _ Hi) as [_ Hb]. destruct c as [s h ts]; cbn in *.
    inversion Hcommit; subst. destruct created as [d|]; cbn in *; [|done].
    destruct Hb as [-> _]. split; [eauto|by intros []].
  - intros i Hi Hh. destruct c as [s h ts]; cbn in *. subst h. by apply boot_completes.
Qed.

(** * Witnesses *)

Definition all_delivered (n : nat) : Fault := Delivered.

Lemma apply_schema_outcome_witness :
  apply_schema all_delivered None = (Ok (), Some empty_db) /\ is_Some (Some empty_db : Catalogue).
Proof.
  split; [reflexivity|].
  refine (proj1 (proj2 (apply_schema_outcome all_delivered None (Ok ()) (Some empty_db) _)) _); reflexivity.
Defined.

(** Two processes that start together: the second waits and finds the schema. *)
Definition two_waiting : list (Thread Boot) := [Outside Waiting; Outside Waiting].

Lemma two_waiting_reached c0 :
  rtc (step boot_protocol) (mk_config (mk_server c0 0) None []) (mk_config (mk_server c0 0) None two_waiting).
Proof.
  eapply rtc_l; [by apply (step_begin boot_protocol)|]. cbn.
  eapply rtc_once. by apply (step_begin boot_protocol _ _ [Outside Waiting]).
Qed.

Lemma boot_schema_once_witness :
  applications (mk_server None 0) <= 1 /\
  exists s', is_Some (catalogue s') /\
    rtc (step boot_protocol) (mk_config (mk_server None 0) None two_waiting)
      (mk_config s' None [Outside Waiting; Ended]).
Proof.
  destruct (boot_schema_once None (mk_config (mk_server None 0) None two_waiting) (two_waiting_reached None))
    as (Hle & _ & _ & _ & Hfinish).
  split; [exact Hle|]. exact (Hfinish 1 eq_refl eq_refl).
Defined.

End Database.
