(* ===== verification/Knowledge.v ===== *)
(** Completion facts of Knowledge (src/crates/threads-archive/src/knowledge.rs): each event is
    recorded once and links only to an exact revision of a source the tenant owns.

    The decoded completion is an argument; its source identifier and its time are the results
    of parsing their texts. *)
From S2P Require Import Prelude Schema Store.

Module Knowledge.
Import Schema Store.
Local Open Scope string_scope.
Local Open Scope store_scope.

Definition CONSUMER : string := "threads-social-source-knowledge".

Inductive CompletionLinkOutcome := Linked | Duplicate | Rejected | LocallyRemoved.

(** [SocialSourceAnalysisCompleted], the fields [record] reads. *)
Record Completion := mk_completion {
  cm_owner : Uuid;
  cm_social_source_id : option Uuid;  (* [to_string().parse::<Uuid>()] *)
  cm_content_digest : string;
  cm_completed_at : option Time;      (* [parse_from_rfc3339] *)
}.

(** The revision of the owner's source with this digest. *)
Definition owned_revision (source : Uuid) (digest : string) (owner : Uuid) (d : db) : option Uuid :=
  fst <$> head (select (social_source_revisions d) (fun _ r =>
    bool_decide (ssr_social_source_id r = source) && bool_decide (ssr_content_digest r = digest)
    && match social_sources d !! source with
       | Some s => bool_decide (ss_user_ref s = owner)
       | None => false
       end)).

Definition set_outcome (event_id : Uuid) (outcome : string) (d : db) : db :=
  match inbox_events d !! (CONSUMER, event_id) with
  | Some _ => set_inbox_events (<[(CONSUMER, event_id) := outcome]> (inbox_events d)) d
  | None => d
  end.

Definition insert_link (event_id : Uuid) (link : analysis_link_row) (d : db) : Result SqlError db :=
  if bool_decide (is_Some (social_analysis_links d !! event_id))
  then Err (UniqueViolation "social_analysis_links_pkey")
  else if negb (bool_decide (is_Some (social_sources d !! al_social_source_id link)))
  then Err (ForeignKeyViolation "social_analysis_links_social_source_id_fkey")
  else if negb (exists_where (social_source_revisions d) (fun _ r =>
      bool_decide (ssr_social_source_id r = al_social_source_id link)
      && bool_decide (ssr_content_digest r = al_content_digest link)))
  then Err (ForeignKeyViolation "social_analysis_links_source_digest_fkey")
  else Ok (set_social_analysis_links (<[event_id := link]> (social_analysis_links d)) d).

Section WithEnv.
Context {Henv : Env}.

Definition reject_locally_removed (event_id owner source_id : Uuid) : M SqlError bool :=
  let* locally_removed := read (fun _ d =>
    Ok (bool_decide (is_Some (local_source_removals d !! (owner, source_id))))) in
  if locally_removed
  then execute (fun _ d => Ok (set_outcome event_id "locally_removed" d)) ;;; ret true
  else ret false.

Definition record_body (event_id : Uuid) (completion : Completion)
  : M SqlError (Finish CompletionLinkOutcome) :=
  let* accepted := query (fun _ d =>
    match inbox_events d !! (CONSUMER, event_id) with
    | Some _ => Ok (false, d)
    | None => Ok (true, set_inbox_events (<[(CONSUMER, event_id) := "processed"]> (inbox_events d)) d)
    end) in
  if negb accepted then ret (Commit Duplicate) else
  let owner := cm_owner completion in
  let* source := lift (ok_or (cm_social_source_id completion) (Protocol "invalid source identifier")) in
  let digest := cm_content_digest completion in
  let* removed := reject_locally_removed event_id owner source in
  if (removed : bool) then ret (Commit LocallyRemoved) else
  let* matches := read (fun _ d => Ok (owned_revision source digest owner d)) in
  match matches with
  | None => execute (fun _ d => Ok (set_outcome event_id "rejected" d)) ;;; ret (Commit Rejected)
  | Some _ =>
      lift (ok_or (cm_completed_at completion) (Protocol "invalid completion time")) ;;;
      execute (fun _ => insert_link event_id (mk_analysis_link_row owner source digest)) ;;;
      ret (Commit Linked)
  end.

(** [KnowledgeCompletionStore::record]. *)
Definition record (event_id : Uuid) (completion : Completion) : M SqlError CompletionLinkOutcome :=
  transaction (fun e => e) (record_body event_id completion).

(** * What a completion does *)

Definition owns_revision (source : Uuid) (digest : string) (owner : Uuid) (d : db) : Prop :=
  exists id r s, social_source_revisions d !! id = Some r /\ ssr_social_source_id r = source
    /\ ssr_content_digest r = digest /\ social_sources d !! source = Some s /\ ss_user_ref s = owner.

(** The inbox record of an event with its outcome. *)
Definition consumed (event_id : Uuid) (outcome : string) (d : db) : db :=
  set_inbox_events (<[(CONSUMER, event_id) := outcome]> (inbox_events d)) d.

(** The tables after an event that was recorded with an outcome. *)
Inductive recorded (event_id : Uuid) (c : Completion) (d : db) : CompletionLinkOutcome -> db -> Prop :=
| recorded_duplicate : is_Some (inbox_events d !! (CONSUMER, event_id)) ->
    recorded event_id c d Duplicate d
| recorded_removed source : inbox_events d !! (CONSUMER, event_id) = None ->
    cm_social_source_id c = Some source ->
    is_Some (local_source_removals d !! (cm_owner c, source)) ->
    recorded event_id c d LocallyRemoved (consumed event_id "locally_removed" d)
| recorded_rejected source : inbox_events d !! (CONSUMER, event_id) = None ->
    cm_social_source_id c = Some source -> local_source_removals d !! (cm_owner c, source) = None ->
    ~ owns_revision source (cm_content_digest c) (cm_owner c) d ->
    recorded event_id c d Rejected (consumed event_id "rejected" d)
| recorded_linked source : inbox_events d !! (CONSUMER, event_id) = None ->
    cm_social_source_id c = Some source -> local_source_removals d !! (cm_owner c, source) = None ->
    owns_revision source (cm_content_digest c) (cm_owner c) d ->
    social_analysis_links d !! event_id = None ->
    recorded event_id c d Linked
      (set_social_analysis_links
        (<[event_id := mk_analysis_link_row (cm_owner c) source (cm_content_digest c)]> (social_analysis_links d))
        (consumed event_id "processed" d)).

Lemma owned_revision_spec source digest owner d :
  is_Some (owned_revision source digest owner d) <-> owns_revision source digest owner d.
Proof.
  unfold owned_revision, owns_revision. rewrite fmap_is_Some. split.
  - intros [[id r] H]. apply head_select_Some in H as [Hr Hc].
    apply andb_true_iff in Hc as [[H1 H2]%andb_true_iff H3]. apply bool_decide_eq_true in H1, H2.
    destruct (social_sources d !! source) as [s|]; [|done]. apply bool_decide_eq_true in H3.
    exists id, r, s. done.
  - intros (id & r & s & Hr & H1 & H2 & Hs & H3). destruct (head _) as [p|] eqn:E; [done|exfalso].
    rewrite head_select_None in E. specialize (E _ _ Hr). rewrite Hs in E.
    rewrite !bool_decide_eq_true_2 in E by done. done.
Qed.

Lemma set_outcome_consumed event_id outcome d :
  set_outcome event_id outcome (consumed event_id "processed" d) = consumed event_id outcome d.
Proof.
  unfold set_outcome, consumed. simpl. rewrite lookup_insert_eq. unfold set_inbox_events. simpl.
  by rewrite insert_insert_eq.
Qed.

Lemma owns_revision_consumed source digest owner event_id outcome d :
  owns_revision source digest owner (consumed event_id outcome d) <-> owns_revision source digest owner d.
Proof. done. Qed.

Lemma completion_body_Ok event_id c w f w' : record_body event_id c w = (Ok f, w') ->
  exists out, f = Commit out /\ recorded event_id c (w_db w) out (w_db w').
Proof.
  unfold record_body. intros (accepted & w1 & (d1 & Hq & ->)%query_Ok & H)%bind_Ok.
  destruct (inbox_events (w_db w) !! (CONSUMER, event_id)) eqn:Ein; simplify_eq; simpl in H.
  { run_ok. simpl. eexists. split; [done|]. by apply recorded_duplicate. }
  apply bind_Ok in H as (source & w2 & Hsrc & H). unfold lift in Hsrc. injection Hsrc as Hsrc%ok_or_Ok <-.
  fold (consumed event_id "processed" (w_db w)) in H.
  apply bind_Ok in H as (removed & w3 & Hrem & H). unfold reject_locally_removed in Hrem.
  apply bind_Ok in Hrem as (b & w4 & (Hb & ->)%read_Ok & Hrem). injection Hb as Hb. simpl in Hb.
  case_bool_decide as Hl; subst b.
  { run_ok. simpl in *. run_ok. simpl. rewrite set_outcome_consumed. eexists. split; [done|].
    by eapply recorded_removed. }
  apply eq_None_not_Some in Hl. unfold ret in Hrem. injection Hrem as <- <-. cbv iota in H.
  apply bind_Ok in H as (matches & w5 & (Hm & ->)%read_Ok & H). injection Hm as Hm. simpl in Hm.
  pose proof (owned_revision_spec source (cm_content_digest c) (cm_owner c)
    (consumed event_id "processed" (w_db w))) as Hspec. rewrite owns_revision_consumed, Hm in Hspec.
  destruct matches as [rev|].
  - apply bind_Ok in H as (at_ & w6 & Hat & H). unfold lift in Hat. injection Hat as _ <-.
    apply bind_Ok in H as ([] & w7 & (d' & Hins & ->)%execute_Ok & H). unfold ret in H.
    injection H as <- <-. simpl in *. revert Hins. unfold insert_link. simpl.
    case_bool_decide as Hl'; [done|]. case_bool_decide; simpl; [|done].
    destruct (exists_where _ _); simpl; [|done]. intros [= <-].
    eexists. split; [done|]. eapply recorded_linked; [done|done|done|by apply Hspec|by apply eq_None_not_Some].
  - run_ok. simpl. rewrite set_outcome_consumed. eexists. split; [done|]. eapply recorded_rejected; [done|done|done|].
    intros Ho%Hspec. by destruct Ho.
Qed.

(** A completion fact takes effect exactly as one of four outcomes, or not at all, whatever
    round trips are lost: a known event changes nothing; one about a locally removed source or
    without a revision of this digest owned by this tenant leaves only its inbox record; and a link
    is stored only for an exact revision of a source the tenant owns and has not removed,
    together with its inbox record. The answer names the outcome. *)
Theorem completion_recorded_exactly event_id c w : let '(result, w') := record event_id c w in
  (w_db w' = w_db w \/ exists out, recorded event_id c (w_db w) out (w_db w'))
  /\ (forall out, result = Ok out -> recorded event_id c (w_db w) out (w_db w')).
Proof.
  unfold record. pose proof (transaction_atomic (fun e => e) (record_body event_id c) w) as Hat.
  destruct (transaction _ _ w) as [result w'] eqn:E. simpl in Hat. split.
  - destruct Hat as [|(out & w0 & w1 & Hd0 & _ & _ & Hb & ->)]; [by left|right].
    apply completion_body_Ok in Hb as (out' & _ & Hb). rewrite Hd0 in Hb. by exists out'.
  - intros out ->. apply transaction_Ok in E as (w0 & w1 & Hd0 & _ & _ & [[Hb ->]|[Hb Hd]]).
    + apply completion_body_Ok in Hb as (out' & [= <-] & Hb). by rewrite Hd0 in Hb.
    + by apply completion_body_Ok in Hb as (out' & ? & _).
Qed.

Lemma recorded_consumes event_id c d out d' : recorded event_id c d out d' ->
  is_Some (inbox_events d' !! (CONSUMER, event_id)).
Proof. destruct 1; simpl; rewrite ?lookup_insert_eq; done. Qed.

(** Redelivery of an answered event, with whatever body, is a duplicate that changes nothing. *)
Lemma redelivered_completion event_id c c' w out w1 w2 : record event_id c w = (Ok out, w1) ->
  w_db w2 = w_db w1 -> let '(result, w3) := record event_id c' w2 in
  w_db w3 = w_db w2 /\ (forall out', result = Ok out' -> out' = Duplicate).
Proof.
  intros H Hd. assert (is_Some (inbox_events (w_db w2) !! (CONSUMER, event_id))) as Hin.
  { apply transaction_Ok in H as (w0 & w3 & _ & _ & _ & [[Hb Hw]|[Hb _]]);
      apply completion_body_Ok in Hb as (out' & Ho & Hr); [|done]. rewrite Hd, Hw. by eapply recorded_consumes. }
  assert (forall out' d', recorded event_id c' (w_db w2) out' d' -> out' = Duplicate /\ d' = w_db w2) as Honly.
  { intros out' d' Hr. inversion Hr; subst; try done; rewrite H0 in Hin; by destruct Hin. }
  unfold record. pose proof (transaction_atomic (fun e => e) (record_body event_id c') w2) as Hat.
  destruct (transaction _ _ w2) as [result w3] eqn:E. simpl in Hat. split.
  - destruct Hat as [|(f & w0 & w4 & Hd0 & _ & _ & Hb & ->)]; [done|].
    apply completion_body_Ok in Hb as (out' & _ & Hr). rewrite Hd0 in Hr. by apply Honly in Hr as [_ ->].
  - intros out' ->. apply transaction_Ok in E as (w0 & w4 & Hd0 & _ & _ & [[Hb _]|[Hb _]]);
      apply completion_body_Ok in Hb as (out2 & Ho & Hr); [|done]. injection Ho as <-. rewrite Hd0 in Hr.
    by apply Honly in Hr as [-> _].
Qed.

(** Every link is the effect of one processed event of the owner of an exact revision. *)
Definition links_inv (d : db) : Prop := forall event_id link, social_analysis_links d !! event_id = Some link ->
  inbox_events d !! (CONSUMER, event_id) = Some "processed"
  /\ owns_revision (al_social_source_id link) (al_content_digest link) (al_user_ref link) d.

Lemma recorded_links_inv event_id c d out d' : links_inv d -> recorded event_id c d out d' -> links_inv d'.
Proof.
  intros Hi Hr ev link. destruct Hr as [H|source Hn Hs Hl|source Hn Hs Hl Ho|source Hn Hs Hl Ho Hk]; [by apply Hi|..].
  1,2: simpl; intros Hlink; destruct (Hi _ _ Hlink) as [Hp Hown]; split; [|done];
    rewrite lookup_insert_ne; [done|congruence].
  simpl. intros [[<- <-]|[Hne Hlink]]%lookup_insert_Some.
  - by rewrite lookup_insert_eq.
  - destruct (Hi _ _ Hlink) as [Hp Hown]. split; [|done]. rewrite lookup_insert_ne; [done|congruence].
Qed.

(** However often and in whatever order completion facts are delivered, with any round
    trips lost: every stored link has its processed inbox record and points at an exact
    revision of a source of the tenant it names, and no inbox record is forgotten. *)
Theorem completions_link_soundly deliveries w : links_inv (w_db w) ->
  let w' := fold_left (fun w delivery => (record delivery.1 delivery.2 w).2) deliveries w in
  links_inv (w_db w') /\ (forall key, is_Some (inbox_events (w_db w) !! key) -> is_Some (inbox_events (w_db w') !! key)).
Proof.
  revert w. induction deliveries as [|[event_id c] rest IH]; intros w Hi; [done|]. simpl.
  assert (links_inv (w_db (record event_id c w).2) /\ forall key, is_Some (inbox_events (w_db w) !! key) ->
    is_Some (inbox_events (w_db (record event_id c w).2) !! key)) as [Hi1 Hin1].
  { unfold record. destruct (transaction_atomic (fun e => e) (record_body event_id c) w)
      as [->|(f & w0 & w1 & Hd0 & _ & _ & Hb & ->)]; [done|].
    apply completion_body_Ok in Hb as (out & _ & Hr). rewrite Hd0 in Hr. split; [by eapply recorded_links_inv|].
    intros key Hk. destruct Hr; simpl; try done; apply lookup_insert_is_Some; destruct (decide ((CONSUMER, event_id) = key)); auto. }
  destruct (IH _ Hi1) as [Hi2 Hin2]. split; [done|]. auto.
Qed.

End WithEnv.

Definition sample_links : db :=
  set_social_source_revisions {[5%N := mk_source_revision_row 4%N "d1" 0%Z]}
    (set_social_sources {[4%N := mk_source_row 1%N 2%N None]} empty_db).

Lemma completions_link_soundly_witness :
  let w' := fold_left (fun w delivery => (@record sample_env delivery.1 delivery.2 w).2)
    [(10%N, mk_completion 1%N (Some 4%N) "d1" (Some 0%Z)); (10%N, mk_completion 1%N (Some 4%N) "d1" (Some 0%Z));
     (11%N, mk_completion 3%N (Some 4%N) "d1" (Some 0%Z))] (sample_world sample_links) in
  links_inv (w_db w') /\ social_analysis_links (w_db w') !! 10%N = Some (mk_analysis_link_row 1%N 4%N "d1")
  /\ social_analysis_links (w_db w') !! 11%N = None.
Proof.
  split; [|by split; vm_compute]. apply completions_link_soundly. intros ev link H. by vm_compute in H.
Defined.

End Knowledge.
