(* ===== verification/Completions.v ===== *)
(** Completion facts recorded by several processes at once while owners delete their sources
    (src/crates/threads-archive/src/knowledge.rs: [record], [reject_locally_removed]).

    [Knowledge] records one fact at a time. Here the statements of any number of recordings interleave
    with each other and with the transactions that publish and withdraw sources. A recording reads the
    removal guard and the revision before it writes its link, and another transaction may commit in
    between; what it relies on at its commit is what the insert of the link checks, its foreign keys,
    whose rows stay locked until the transaction ends. Two copies of one fact meet at the inbox key, in
    the protocol of [Arbiters].

    A recording between a deletion's commit and its own reads can answer differently from every serial
    order ([race_outcome]), so the theorem is about what is stored: a link always has its processed
    event and an exact revision its tenant owns. *)
From S2P Require Import Prelude Arbiters Schema Store Knowledge.

Module Completions.
Import Schema Knowledge Arbiters.
Local Open Scope string_scope.

Inductive Arbiter :=
| EventKey (event_id : Uuid)                                   (* inbox_events_pkey, for this consumer *)
| RevisionShare (event_id source : Uuid) (digest : string).    (* the rows a link refers to *)

(** Where a recording is. *)
Inductive Recording :=
| Opened (event_id : Uuid) (c : Completion)                    (* after [begin()] *)
| Repeated                                                     (* the event was recorded before *)
| Claimed (event_id : Uuid) (c : Completion)                   (* its inbox row is written *)
| Guarded (event_id : Uuid) (c : Completion)                   (* the source is locally removed *)
| Known (event_id : Uuid) (c : Completion) (source : Uuid)     (* it was not when it was read *)
| Unmatched (event_id : Uuid) (c : Completion)
| Matched (event_id : Uuid) (c : Completion) (source : Uuid)   (* the owner had the revision *)
| Settled (event_id : Uuid) (outcome : string)                 (* the inbox row has its outcome *)
| Linking (event_id : Uuid) (c : Completion) (source : Uuid).  (* the link is written *)

Definition event_of (t : Recording) : option Uuid :=
  match t with
  | Opened _ _ | Repeated => None
  | Claimed e _ | Guarded e _ | Known e _ _ | Unmatched e _ | Matched e _ _ | Settled e _ | Linking e _ _ => Some e
  end.

Definition holds (t : Recording) (k : Arbiter) : Prop :=
  match k with
  | EventKey e => event_of t = Some e
  | RevisionShare e source digest =>
      match t with
      | Linking e' c source' => e = e' /\ source = source' /\ digest = cm_content_digest c
      | _ => False
      end
  end.

Definition link_of (c : Completion) (source : Uuid) : analysis_link_row :=
  mk_analysis_link_row (cm_owner c) source (cm_content_digest c).

(** The statement that follows, with the keys it waits for; [None] when the call returns an error. The
    tables a recording reads are not those it writes before, so it sees what is committed. *)
Definition completion_statement (d : db) (t : Recording) : option (list Arbiter * Recording) :=
  match t with
  | Opened e c =>
      match inbox_events d !! (CONSUMER, e) with
      | Some _ => Some ([], Repeated)
      | None => Some ([EventKey e], Claimed e c)
      end
  | Claimed e c =>
      match cm_social_source_id c with
      | None => None
      | Some source =>
          Some ([], if bool_decide (is_Some (local_source_removals d !! (cm_owner c, source)))
                    then Guarded e c else Known e c source)
      end
  | Guarded e _ => Some ([], Settled e "locally_removed")
  | Known e c source =>
      Some ([], match owned_revision source (cm_content_digest c) (cm_owner c) d with
                | Some _ => Matched e c source
                | None => Unmatched e c
                end)
  | Unmatched e _ => Some ([], Settled e "rejected")
  | Matched e c source =>
      match cm_completed_at c, insert_link e (link_of c source) d with
      | Some _, Ok _ => Some ([RevisionShare e source (cm_content_digest c)], Linking e c source)
      | _, _ => None
      end
  | Repeated | Settled _ _ | Linking _ _ _ => None
  end.

Definition commit (d : db) (t : Recording) : option db :=
  match t with
  | Repeated => Some d
  | Settled e outcome => Some (consumed e outcome d)
  | Linking e c source =>
      Some (set_social_analysis_links (<[e := link_of c source]> (social_analysis_links d)) (consumed e "processed" d))
  | _ => None
  end.

(** The rows a link refers to (its two foreign keys). *)
Definition referenced (source : Uuid) (digest : string) (d : db) : Prop :=
  is_Some (social_sources d !! source)
  /\ exists id r, social_source_revisions d !! id = Some r /\ ssr_social_source_id r = source /\ ssr_content_digest r = digest.

Section Protocol.
(** The tenant a source identifier is derived from ([social_source_id_for] hashes owner and URL). *)
Context (owner_of : Uuid -> Uuid).

Definition owners_derived (d : db) : Prop :=
  forall source row, social_sources d !! source = Some row -> ss_user_ref row = owner_of source.

(** A transaction of another component: it records no completion and adds no link, derives sources from
    their owners, and removes rows only when no link, committed or not, refers to them. *)
Record bystander (H : Arbiter -> Prop) (d d' : db) : Prop := {
  by_inbox e : inbox_events d' !! (CONSUMER, e) = inbox_events d !! (CONSUMER, e);
  by_links e link : social_analysis_links d' !! e = Some link -> social_analysis_links d !! e = Some link;
  by_referenced e link : social_analysis_links d' !! e = Some link ->
    referenced (al_social_source_id link) (al_content_digest link) d';
  by_shared e source digest : H (RevisionShare e source digest) -> referenced source digest d -> referenced source digest d';
  by_owners : owners_derived d';
}.

Definition completion_protocol : KeyProtocol db Recording Arbiter := {|
  kp_begin t := match t with Opened _ _ => True | _ => False end;
  kp_statement d t ks t' := completion_statement d t = Some (ks, t');
  kp_holds := holds;
  kp_commit d t d' := commit d t = Some d';
  kp_fails d t := commit d t = None /\ completion_statement d t = None;
  kp_other := bystander;
|}.

(** * What a recording relies on *)

Definition unrecorded (e : Uuid) (d : db) : Prop := inbox_events d !! (CONSUMER, e) = None.

Definition knows (d : db) (t : Recording) : Prop :=
  match t with
  | Opened _ _ | Repeated => True
  | Claimed e _ | Guarded e _ | Known e _ _ | Unmatched e _ => unrecorded e d
  | Matched e c source => unrecorded e d /\ owner_of source = cm_owner c
  | Settled e outcome => unrecorded e d /\ outcome <> "processed"
  | Linking e c source => unrecorded e d /\ owner_of source = cm_owner c
      /\ referenced source (cm_content_digest c) d
  end.

(** What one commit stores: the outcome of an event, with a link when the revision is there. *)
Inductive stored (d : db) : db -> Prop :=
| stored_outcome e outcome : unrecorded e d -> outcome <> "processed" -> stored d (consumed e outcome d)
| stored_link e c source : unrecorded e d -> owns_revision source (cm_content_digest c) (cm_owner c) d ->
    stored d (set_social_analysis_links (<[e := link_of c source]> (social_analysis_links d)) (consumed e "processed" d)).

Record completions_inv (d : db) : Prop := {
  ci_links : links_inv d;
  ci_owners : owners_derived d;
}.

Lemma owns_referenced source digest owner d : owners_derived d ->
  owns_revision source digest owner d <-> referenced source digest d /\ owner_of source = owner.
Proof.
  intros Ho. split.
  - intros (id & r & s & Hr & Hrs & Hrd & Hs & Hu). unfold referenced. rewrite <- (Ho _ _ Hs). eauto 10.
  - intros ([[s Hs] (id & r & Hr & Hrs & Hrd)] & <-). exists id, r, s. split_and!; auto.
Qed.

(** The insert of the link checks what it refers to. *)
Lemma insert_link_referenced e link d d' : insert_link e link d = Ok d' ->
  referenced (al_social_source_id link) (al_content_digest link) d.
Proof.
  unfold insert_link. case_bool_decide; [done|]. case_bool_decide as Hs; [|done]. cbn.
  destruct (exists_where _ _) eqn:Hr; [|done]. intros _. split; [done|].
  apply exists_where_true in Hr as (id & r & Hr & [H1%bool_decide_eq_true H2%bool_decide_eq_true]%andb_true_iff). eauto.
Qed.

Lemma recording_statement_knows d t ks t' : completions_inv d -> knows d t -> completion_statement d t = Some (ks, t') -> knows d t'.
Proof.
  intros [_ Ho] Hk Hnext. destruct t as [e c| |e c|e c|e c s|e c|e c s| |]; cbn in Hk, Hnext; try done.
  - destruct (inbox_events d !! _) eqn:E; by simplify_eq.
  - destruct (cm_social_source_id c); [|done]. case_bool_decide; by simplify_eq.
  - by simplify_eq.
  - destruct (owned_revision s (cm_content_digest c) (cm_owner c) d) eqn:E; simplify_eq; [|done].
    assert (is_Some (owned_revision s (cm_content_digest c) (cm_owner c) d)) as Hown by eauto.
    apply owned_revision_spec, owns_referenced in Hown as [_ Hown]; done.
  - by simplify_eq.
  - destruct (cm_completed_at c); [|done]. destruct (insert_link e (link_of c s) d) eqn:E; simplify_eq.
    apply insert_link_referenced in E. by destruct Hk.
Qed.

Lemma recording_statement_waited d t ks t' k : completion_statement d t = Some (ks, t') -> holds t' k -> holds t k \/ k ∈ ks.
Proof.
  destruct t; cbn; try done; intros Hnext; repeat case_match; simplify_eq; destruct k; cbn; try done;
    intros Hh; try (destruct Hh as (-> & -> & ->)); simplify_eq; auto; right; set_solver.
Qed.

Lemma commit_stored d t d' : completions_inv d -> knows d t -> commit d t = Some d' -> d' = d \/ stored d d'.
Proof.
  intros [_ Ho] Hk Hc. destruct t as [| | | | | | |e outcome|e c source]; cbn in Hk, Hc; try done; simplify_eq; [by left|right..].
  - destruct Hk. by apply stored_outcome.
  - destruct Hk as (Hu & Hown & Href). apply stored_link; [done|]. by apply owns_referenced.
Qed.

Lemma stored_inv d d' : completions_inv d -> stored d d' -> completions_inv d'.
Proof.
  intros [Hl Ho] Hst. assert (forall e outcome, unrecorded e d -> links_inv (consumed e outcome d)) as Hconsumed.
  { intros e outcome Hu e' link Hlink. destruct (Hl _ _ Hlink) as [Hp Hown]. split; [|done].
    cbn. rewrite lookup_insert_ne; [done|]. unfold unrecorded in Hu. congruence. }
  destruct Hst as [e outcome Hu Hne|e c source Hu Hown]; split; [by apply Hconsumed|done| |done].
  intros e' link. cbn. intros [[<- <-]|[Hne Hlink]]%lookup_insert_Some; [by rewrite lookup_insert_eq|].
  by apply (Hconsumed e "processed").
Qed.

(** A commit under other keys takes nothing away. *)
Lemma commit_keeps d t d' u : commit d t = Some d' -> (forall k, holds t k -> ~ holds u k) -> knows d u -> knows d' u.
Proof.
  intros Hc Hdis. assert (forall e, event_of u = Some e -> unrecorded e d -> unrecorded e d') as Hun.
  { intros e Hu. unfold unrecorded. destruct t as [| | | | | | |e' outcome|e' c source]; cbn in Hc; try done;
      simplify_eq; [done|..]; cbn; intros Hn; (rewrite lookup_insert_ne; [done|]);
      intros [= ->]; apply (Hdis (EventKey e)); by cbn. }
  assert (forall source digest, referenced source digest d -> referenced source digest d') as Href.
  { intros source digest. destruct t; cbn in Hc; try done; simplify_eq; done. }
  destruct u as [| |e c|e c|e c s|e c|e c s|e outcome|e c s]; cbn; try done; try (apply Hun; by cbn).
  - intros [Hu Ho]. split; [by apply Hun|done].
  - intros [Hu Ho]. split; [by apply Hun|done].
  - intros (Hu & Ho & Hr). split_and!; [by apply Hun|done|by apply Href].
Qed.

Lemma bystander_keeps H d d' t : bystander H d d' -> (forall k, holds t k -> H k) -> knows d t -> knows d' t.
Proof.
  intros [Hi _ _ Hs _] Hsub. assert (forall e, unrecorded e d -> unrecorded e d') as Hun.
  { intros e Hu. unfold unrecorded. by rewrite Hi. }
  destruct t as [| |e c|e c|e c s|e c|e c s|e outcome|e c s]; cbn; try done; try apply Hun.
  - intros [Hu Ho]. auto.
  - intros [Hu Ho]. auto.
  - intros (Hu & Ho & Hr). split_and!; auto. eapply Hs; [|done]. apply Hsub. cbn. eauto.
Qed.

Lemma bystander_inv H d d' : bystander H d d' -> completions_inv d -> completions_inv d'.
Proof.
  intros [Hi Hl Hr _ Ho] [Hlinks Hown]. split; [|done]. intros e link Hlink.
  destruct (Hlinks _ _ (Hl _ _ Hlink)) as [Hp Hrev]. split; [by rewrite Hi|].
  apply owns_referenced; [done|]. split; [by eapply Hr|]. by eapply owns_referenced in Hrev as [_ ?].
Qed.

#[global] Instance completion_laws :
  KeyLaws completion_protocol completions_inv knows (fun _ d d' => d' = d \/ stored d d').
Proof.
  split; cbn.
  - intros d t Hb. by destruct t.
  - intros t k Hb Hh. destruct t, k; cbn in *; done.
  - intros d t ks t' Hinv Hk Hnext. by eapply recording_statement_knows.
  - intros d t ks t' k. apply recording_statement_waited.
  - intros d t d' Hinv Hk Hc. pose proof (commit_stored _ _ _ Hinv Hk Hc) as Hst. split; [|done].
    destruct Hst as [->|Hst]; [done|by eapply stored_inv].
  - intros d t d' u _ _ Hu Hc Hdis. by eapply commit_keeps.
  - intros H d d' Hinv Hby. split; [by eapply bystander_inv|]. intros t Hk Hsub. by eapply bystander_keeps.
Qed.

Lemma serial_stored d l d' : serial_run completion_protocol (Call := fun _ d d' => d' = d \/ stored d d') d l d' ->
  rtc (fun a b => stored a b \/ exists H, bystander H a b) d d'.
Proof.
  induction 1 as [|l d1 e d2 _ IH He]; [done|]. destruct e as [i t|i t|]; cbn in He.
  - by subst.
  - destruct He as [->|He]; [done|]. eapply rtc_r; [done|by left].
  - eapply rtc_r; [done|by right].
Qed.

(** [C8] Completion facts recorded by any number of processes, interleaved statement by statement with
    each other and with transactions that publish and withdraw sources: every stored link has its
    processed inbox record and points at an exact revision of a source of the tenant it names, every
    commit stores the outcome of one unrecorded event, and no event is being recorded twice at once. *)
Theorem concurrent_completions_sound d c :
  links_inv d -> owners_derived d -> rtc (step completion_protocol) (mk_sessions d []) c ->
  links_inv (committed c)
  /\ rtc (fun a b => stored a b \/ exists H, bystander H a b) d (committed c)
  /\ forall i j e, keeps completion_protocol (sessions c) i (EventKey e) ->
       keeps completion_protocol (sessions c) j (EventKey e) -> i = j.
Proof.
  intros Hl Ho [l Hrun]%steps_run.
  destruct (run_serial completion_protocol _ _ _ (Build_completions_inv _ Hl Ho) Hrun) as [[[Hl' _] _ Hap] Hser].
  split_and!; [done|by eapply serial_stored|]. intros i j e. apply Hap.
Qed.

End Protocol.

(** * A deletion between the reads of a recording *)

(** The source was there when the guard was read, and its owner's deletion commits before the revision
    is looked up. *)
Definition withdrawn : db :=
  set_local_source_removals {[(1%N, 4%N) := mk_local_removal_row 2%N 9%N]}
    (set_social_sources ∅ (set_social_source_revisions ∅ sample_links)).

Definition fact : Completion := mk_completion 1%N (Some 4%N) "d1" (Some 0%Z).

Definition sample_owner (source : Uuid) : Uuid := if bool_decide (source = 4%N) then 1%N else 0%N.

#[local] Abbreviation sample_protocol := (completion_protocol sample_owner).

Lemma withdrawal_bystander : bystander sample_owner (held sample_protocol [Some (Known 10%N fact 4%N)]) sample_links withdrawn.
Proof.
  split; try done.
  intros e source digest (j & t & Hj & Hh). destruct j as [|j]; [|by destruct j]. injection Hj as <-. done.
Qed.

Lemma race_run : rtc (step sample_protocol) (mk_sessions sample_links []) (mk_sessions (consumed 10%N "rejected" withdrawn) [None]).
Proof.
  assert (forall ts i, free sample_protocol ts i []) as Hnil by (by intros ts i j k []%not_elem_of_nil).
  eapply rtc_l; [by apply (step_begin sample_protocol _ [] (Opened 10%N fact))|]. cbn [app].
  eapply rtc_l; [eapply (step_statement sample_protocol _ _ 0 _ _ (Claimed 10%N fact));
    [done|by vm_compute|by intros [|j] k _ (u & Hj & _)]|]. cbn [insert list_insert].
  eapply rtc_l; [eapply (step_statement sample_protocol _ _ 0 _ [] (Known 10%N fact 4%N)); [done|by vm_compute|done]|].
  cbn [insert list_insert].
  eapply rtc_l; [eapply (step_other sample_protocol); exact withdrawal_bystander|].
  eapply rtc_l; [eapply (step_statement sample_protocol _ _ 0 _ [] (Unmatched 10%N fact)); [done|by vm_compute|done]|].
  cbn [insert list_insert].
  eapply rtc_l; [by eapply (step_statement sample_protocol _ _ 0 _ [] (Settled 10%N "rejected"))|]. cbn [insert list_insert].
  eapply rtc_l; [by eapply (step_commit sample_protocol _ _ 0 (Settled 10%N "rejected"))|]. done.
Qed.

(** The recorded outcome is one that no serial order of the two calls gives: before the deletion the
    fact is linked, after it the guard is found. No link is stored either way. *)
Lemma race_outcome :
  inbox_events (consumed 10%N "rejected" withdrawn) !! (CONSUMER, 10%N) = Some "rejected"
  /\ (@record Store.sample_env 10%N fact (Store.sample_world sample_links)).1 = Ok Linked
  /\ (@record Store.sample_env 10%N fact (Store.sample_world withdrawn)).1 = Ok LocallyRemoved.
Proof. by vm_compute. Qed.

Lemma concurrent_completions_sound_witness : links_inv (consumed 10%N "rejected" withdrawn).
Proof.
  refine (proj1 (concurrent_completions_sound sample_owner sample_links _ _ _ race_run)).
  - intros e link H. by vm_compute in H.
  - intros source row H. cbn in H. apply lookup_singleton_Some in H as [<- <-]. reflexivity.
Defined.

End Completions.
