(* ===== verification/ReResolution.v ===== *)
(** Finite public re-resolution (src/crates/threads-archive/src/re_resolution.rs): the selection
    of candidates, the budget every request is charged against before it starts, and the
    check of a selected capture.

    The resolver call is a function on a state of its own. *)
From S2P Require Import Prelude Schema Store.

Module ReResolution.
Import Schema Store.
Local Open Scope string_scope.
Local Open Scope Z_scope.
Local Open Scope store_scope.

Inductive PriorResolutionState :=
| Resolved | ResolverFailed | TemporarilyUnavailable | PrivateOrInaccessible | Deleted | Unsupported.

Record ReResolutionCandidate := mk_candidate {
  rc_capture_id : Uuid;
  rc_next_resolution_at : Time;
  rc_locally_removed : bool;
  rc_prior_state : PriorResolutionState;
}.

Inductive ReResolutionSkipReason :=
| NotDue | LocallyRemoved | PrivacyTerminal | UnsupportedSource | ItemBudget | RequestBudget | ByteBudget
| Deadline | Concurrency | ProviderBudget.

Record ReResolutionBudget := mk_budget {
  max_items : Z;
  items_admitted : Z;
  max_requests : Z;
  requests_reserved : Z;
  max_response_bytes : Z;
  response_bytes : Z;
  max_concurrency : Z;
  in_flight : Z;
  deadline_at : Time;
  endpoint_remaining : option Z;
}.

Inductive ReResolutionAttemptOutcome := Started | Skipped (reason : ReResolutionSkipReason).

Inductive RefreshClassification := Updated | Unchanged.

Record RefreshAccounting := mk_accounting {
  ra_classification : RefreshClassification;
  ra_evidence_appended : bool;
  ra_update_emitted : bool;
}.

Definition classify_refresh (previous_digest current_digest : string) : RefreshAccounting :=
  let unchanged := bool_decide (previous_digest = current_digest) in
  mk_accounting (if unchanged then Unchanged else Updated) true (negb unchanged).

(** The guards of [attempt_with_budget], in their order. *)
Definition refusal (budget : ReResolutionBudget) (expected_response_bytes : Z) (now : Time)
  : option ReResolutionSkipReason :=
  if (max_items budget =? 0) || (max_items budget <=? items_admitted budget) then Some ItemBudget
  else if (max_requests budget =? 0) || (max_requests budget <=? requests_reserved budget)
  then Some RequestBudget
  else if match checked_add u64_max (response_bytes budget) expected_response_bytes with
          | None => true
          | Some leased => max_response_bytes budget <? leased
          end then Some ByteBudget
  else if deadline_at budget <=? now then Some Deadline
  else if (max_concurrency budget =? 0) || (max_concurrency budget <=? in_flight budget)
  then Some Concurrency
  else if match endpoint_remaining budget with None => true | Some remaining => remaining =? 0 end
  then Some ProviderBudget
  else None.

(** The counters while the resolver runs. *)
Definition reserve (budget : ReResolutionBudget) (expected_response_bytes : Z) : ReResolutionBudget :=
  mk_budget (max_items budget) (saturating_add u32_max (items_admitted budget) 1)
    (max_requests budget) (saturating_add u32_max (requests_reserved budget) 1)
    (max_response_bytes budget)
    (saturating_add u64_max (response_bytes budget) expected_response_bytes)
    (max_concurrency budget) (saturating_add u32_max (in_flight budget) 1) (deadline_at budget)
    ((fun remaining => remaining - 1) <$> endpoint_remaining budget).

Definition release (budget : ReResolutionBudget) : ReResolutionBudget :=
  mk_budget (max_items budget) (items_admitted budget) (max_requests budget)
    (requests_reserved budget) (max_response_bytes budget) (response_bytes budget)
    (max_concurrency budget) (saturating_sub (in_flight budget) 1) (deadline_at budget)
    (endpoint_remaining budget).

Definition attempt_with_budget {S} (budget : ReResolutionBudget) (expected_response_bytes : Z)
  (now : Time) (resolver : S -> S) (s : S) : ReResolutionAttemptOutcome * ReResolutionBudget * S :=
  match refusal budget expected_response_bytes now with
  | Some reason => (Skipped reason, budget, s)
  | None => (Started, release (reserve budget expected_response_bytes), resolver s)
  end.

Record ReResolutionSelection := mk_selection {
  admitted : list Uuid;
  skipped : list (Uuid * ReResolutionSkipReason);
}.

Definition skip_reason (candidate : ReResolutionCandidate) (now : Time) : option ReResolutionSkipReason :=
  if rc_locally_removed candidate then Some LocallyRemoved
  else if now <? rc_next_resolution_at candidate then Some NotDue
  else match rc_prior_state candidate with
       | Resolved | ResolverFailed | TemporarilyUnavailable => None
       | PrivateOrInaccessible | Deleted => Some PrivacyTerminal
       | Unsupported => Some UnsupportedSource
       end.

Definition candidate_leb (a b : ReResolutionCandidate) : bool :=
  (rc_next_resolution_at a <? rc_next_resolution_at b)
  || ((rc_next_resolution_at a =? rc_next_resolution_at b) && (rc_capture_id a <=? rc_capture_id b)%N).

(** The loop of [select_candidates]. *)
Fixpoint sift (candidates : list ReResolutionCandidate) (now : Time) (acc : ReResolutionSelection)
  : ReResolutionSelection :=
  match candidates with
  | [] => acc
  | candidate :: rest =>
      sift rest now
        match skip_reason candidate now with
        | Some reason => mk_selection (admitted acc) (skipped acc ++ [(rc_capture_id candidate, reason)])%list
        | None => mk_selection (admitted acc ++ [rc_capture_id candidate])%list (skipped acc)
        end
  end.

Definition select_candidates (candidates : list ReResolutionCandidate) (now : Time)
  : ReResolutionSelection :=
  sift (sort_by candidate_leb candidates) now (mk_selection [] []).

Section WithEnv.
Context {Henv : Env}.

Definition live_and_due (capture_id : Uuid) (now : Time) (d : db) : bool :=
  match captures d !! capture_id with
  | Some c =>
      match c_next_resolution_at c with Some t => t <=? now | None => false end
      && bool_decide (c_status c ∈ ["resolved"; "unavailable"; "failed"])
  | None => false
  end.

Definition claim_capture_for_resolution {S} (capture_id : Uuid) (budget : ReResolutionBudget)
  (expected_response_bytes : Z) (now : Time) (resolver : S -> S) (s : S)
  : M SqlError (ReResolutionAttemptOutcome * ReResolutionBudget * S) :=
  let* live := read (fun _ d => Ok (live_and_due capture_id now d)) in
  if negb live then ret (Skipped LocallyRemoved, budget, s) else
  ret (attempt_with_budget budget expected_response_bytes now resolver s).

End WithEnv.

(** * A run stays within its budget *)

(** The calls of one run, each with its leased bytes and time. *)
Fixpoint run_attempts {S} (calls : list (Z * Time)) (budget : ReResolutionBudget) (resolver : S -> S) (s : S)
  : list ReResolutionAttemptOutcome * ReResolutionBudget * S :=
  match calls with
  | [] => ([], budget, s)
  | (bytes, now) :: rest =>
      let '(outcome, budget1, s1) := attempt_with_budget budget bytes now resolver s in
      let '(outcomes, budget2, s2) := run_attempts rest budget1 resolver s1 in
      (outcome :: outcomes, budget2, s2)
  end.

Definition is_started (o : ReResolutionAttemptOutcome) : bool :=
  match o with Started => true | Skipped _ => false end.

Definition started (outcomes : list ReResolutionAttemptOutcome) : nat :=
  length (List.filter is_started outcomes).

(** The counters fit their types. *)
Record widths (b : ReResolutionBudget) : Prop := {
  wd_items : 0 <= items_admitted b <= u32_max /\ 0 <= max_items b <= u32_max;
  wd_requests : 0 <= requests_reserved b <= u32_max /\ 0 <= max_requests b <= u32_max;
  wd_bytes : 0 <= response_bytes b <= u64_max /\ 0 <= max_response_bytes b <= u64_max;
  wd_flight : 0 <= in_flight b <= u32_max /\ 0 <= max_concurrency b <= u32_max;
  wd_endpoint : forall r, endpoint_remaining b = Some r -> 0 <= r;
}.

(** [k] requests with [bytes] expected bytes in all were charged between [b] and [b']. *)
Record charged (k bytes : Z) (b b' : ReResolutionBudget) : Prop := {
  ch_items : items_admitted b' = items_admitted b + k;
  ch_requests : requests_reserved b' = requests_reserved b + k;
  ch_endpoint : endpoint_remaining b' = (fun r => r - k) <$> endpoint_remaining b;
  ch_flight : in_flight b' = in_flight b;
  ch_bytes : response_bytes b' = response_bytes b + bytes
    /\ response_bytes b' <= Z.max (response_bytes b) (max_response_bytes b);
  ch_ceilings : max_items b' = max_items b /\ max_requests b' = max_requests b
    /\ max_response_bytes b' = max_response_bytes b /\ max_concurrency b' = max_concurrency b
    /\ deadline_at b' = deadline_at b;
  ch_within : 0 < k -> items_admitted b' <= max_items b /\ requests_reserved b' <= max_requests b
    /\ in_flight b < max_concurrency b /\ (exists r, endpoint_remaining b = Some r /\ k <= r);
}.

Lemma charged_zero b : charged 0 0 b b.
Proof.
  split; try lia.
  destruct (endpoint_remaining b); simpl; [f_equal; lia|done].
Qed.

Lemma charged_trans j x k y b1 b2 b3 : 0 <= j -> 0 <= k -> charged j x b1 b2 -> charged k y b2 b3 ->
  charged (j + k) (x + y) b1 b3.
Proof.
  intros Hj Hk [I1 R1 E1 F1 B1 C1 W1] [I2 R2 E2 F2 B2 C2 W2].
  destruct C1 as (C11 & C12 & C13 & C14 & C15), C2 as (C21 & C22 & C23 & C24 & C25).
  split; try lia.
  - rewrite E2, E1. destruct (endpoint_remaining b1); simpl; [f_equal; lia|done].
  - intros Hpos. destruct (decide (k = 0)) as [->|Hk0].
    { destruct W1 as (? & ? & ? & r & ? & ?); [lia|]. split_and!; try lia. exists r. split; [done|lia]. }
    destruct W2 as (? & ? & ? & r & Hr & ?); [lia|]. split_and!; try lia.
    rewrite E1 in Hr. destruct (endpoint_remaining b1) as [r1|]; simplify_eq/=. exists r1. split; [done|lia].
Qed.

(** One attempt charges one request, or refuses without a trace. *)
Lemma attempt_charged {S} b bytes now (resolver : S -> S) s outcome b' s' : widths b -> 0 <= bytes <= u64_max ->
  attempt_with_budget b bytes now resolver s = (outcome, b', s') ->
  widths b' /\ ((outcome = Started /\ s' = resolver s /\ charged 1 bytes b b' /\ now < deadline_at b)
                \/ (is_started outcome = false /\ s' = s /\ b' = b)).
Proof.
  intros Hw Hb. unfold attempt_with_budget. destruct (refusal b bytes now) as [reason|] eqn:Er;
    intros; simplify_eq.
  { split; [done|]. by right. }
  unfold refusal, checked_add in Er. destruct Hw as [? ? ? ? He].
  repeat match type of Er with (if ?c then _ else _) = None => destruct c eqn:?; [done|] end.
  destruct (endpoint_remaining b) as [r|] eqn:Hr; [|done].
  destruct (response_bytes b + bytes <=? u64_max) eqn:Hsum; [|done].
  specialize (He r eq_refl). unfold release, reserve, saturating_add, saturating_sub in *.
  split; [split; simpl; rewrite ?Hr; simpl; try lia; intros; simplify_eq; lia|].
  left. split_and!; [done|done| |lia].
  split; simpl; rewrite ?Hr; simpl; try done; try lia.
  intros _. split_and!; try lia. exists r. split; [done|lia].
Qed.

(** The bytes of the started attempts. *)
Definition leased (calls : list (Z * Time)) (outcomes : list ReResolutionAttemptOutcome) : Z :=
  foldr Z.add 0 (zip_with (fun call outcome => if is_started outcome then call.1 else 0) calls outcomes).

(** [C31] A run never exceeds its budget: whatever calls it makes, the resolver is called exactly
    once per started attempt, the number of started attempts is within the remaining items,
    requests and provider allowance, the counter of bytes grows by exactly the bytes of the started
    attempts and never passes its ceiling, no attempt starts without a known provider allowance,
    without a free slot or after the deadline, and no slot stays claimed. *)
Theorem run_within_budget {S} calls : forall budget (resolver : S -> S) s outcomes budget' s',
  widths budget -> Forall (fun call => 0 <= call.1 <= u64_max) calls ->
  run_attempts calls budget resolver s = (outcomes, budget', s') ->
  s' = Nat.iter (started outcomes) resolver s
  /\ charged (Z.of_nat (started outcomes)) (leased calls outcomes) budget budget'
  /\ Forall2 (fun call outcome => is_started outcome = true -> call.2 < deadline_at budget) calls outcomes.
Proof.
  induction calls as [|[bytes now] rest IH]; intros b resolver s outcomes b' s' Hw Hc; simpl.
  { intros; simplify_eq. split; [done|]. split; [apply charged_zero|constructor]. }
  destruct (attempt_with_budget b bytes now resolver s) as [[outcome b1] s1] eqn:Ea.
  destruct (run_attempts rest b1 resolver s1) as [[outcomes1 b2] s2] eqn:Erun. intros; simplify_eq.
  apply Forall_cons in Hc as [Hb Hrest]. simpl in Hb.
  destruct (attempt_charged _ _ _ _ _ _ _ _ Hw Hb Ea) as [Hw1 Hcase].
  destruct (IH _ _ _ _ _ _ Hw1 Hrest Erun) as (Hs & Hch & Hf). unfold started in *. simpl.
  destruct Hcase as [(-> & -> & Hch1 & Hnow)|(Hno & -> & ->)].
  - simpl. split; [rewrite Hs; symmetry; apply Nat.iter_succ_r|]. split.
    + unfold leased. simpl. rewrite Nat2Z.inj_succ, <- Z.add_1_l. eapply charged_trans; [lia|lia|done|done].
    + constructor; [done|]. destruct (ch_ceilings _ _ _ _ Hch1) as (_ & _ & _ & _ & Hdl). by rewrite Hdl in Hf.
  - rewrite Hno. split; [done|]. split; [unfold leased; simpl; by rewrite Hno|]. constructor; [by rewrite Hno|done].
Qed.

(** * Selection *)

(** Live, due and of a kind that may be retried automatically. *)
Definition retryable (candidate : ReResolutionCandidate) (now : Time) : Prop :=
  rc_locally_removed candidate = false /\ rc_next_resolution_at candidate <= now
  /\ (rc_prior_state candidate = Resolved \/ rc_prior_state candidate = ResolverFailed
      \/ rc_prior_state candidate = TemporarilyUnavailable).

Lemma skip_reason_None candidate now : skip_reason candidate now = None <-> retryable candidate now.
Proof.
  unfold skip_reason, retryable. destruct (rc_locally_removed candidate); [naive_solver|].
  destruct (Z.ltb_spec now (rc_next_resolution_at candidate)); [naive_solver lia|].
  destruct (rc_prior_state candidate); naive_solver.
Qed.

Lemma sift_spec now candidates : forall acc, exists picked,
  sublist picked candidates /\ Forall (fun c => retryable c now) picked
  /\ (forall c, c ∈ candidates -> retryable c now -> c ∈ picked)
  /\ admitted (sift candidates now acc) = (admitted acc ++ (rc_capture_id <$> picked))%list
  /\ admitted (sift candidates now acc) ++ (skipped (sift candidates now acc)).*1
     ≡ₚ (admitted acc ++ (skipped acc).*1) ++ (rc_capture_id <$> candidates)
  /\ (forall id reason, (id, reason) ∈ skipped (sift candidates now acc) -> (id, reason) ∈ skipped acc
       \/ exists c, c ∈ candidates /\ rc_capture_id c = id /\ skip_reason c now = Some reason).
Proof.
  induction candidates as [|c rest IH]; intros acc; simpl.
  { exists []. rewrite !app_nil_r. split_and!; [constructor|constructor| |done|done|]; intros; [done|by left]. }
  destruct (skip_reason c now) as [reason|] eqn:Er.
  - destruct (IH (mk_selection (admitted acc) (skipped acc ++ [(rc_capture_id c, reason)])))
      as (picked & Hsub & Hret & Hall & Had & Hperm & Hsk). exists picked. simpl in *.
    split_and!; [by constructor|done| |done| |].
    + intros c' [->|Hin]%elem_of_cons Hr; [|by apply Hall]. apply skip_reason_None in Hr. congruence.
    + rewrite Hperm. rewrite fmap_app. simpl. solve_Permutation.
    + intros id reason' Hin. destruct (Hsk _ _ Hin) as [[?|Hone]%elem_of_app|(c' & ? & ?)].
      * by left.
      * apply list_elem_of_singleton in Hone. simplify_eq. right. exists c. split; [by left|done].
      * right. exists c'. split; [by right|done].
  - destruct (IH (mk_selection (admitted acc ++ [rc_capture_id c]) (skipped acc)))
      as (picked & Hsub & Hret & Hall & Had & Hperm & Hsk). exists (c :: picked). simpl in *.
    split_and!; [by constructor|constructor; [by apply skip_reason_None|done]| | | |].
    + intros c' [->|Hin]%elem_of_cons Hr; [by left|right; by apply Hall].
    + rewrite Had, <- app_assoc. done.
    + rewrite Hperm. solve_Permutation.
    + intros id reason Hin. destruct (Hsk _ _ Hin) as [?|(c' & ? & ?)]; [by left|].
      right. exists c'. split; [by right|done].
Qed.

Lemma sublist_sorted {A} (R : A -> A -> Prop) l l' : sublist l l' -> StronglySorted R l' -> StronglySorted R l.
Proof.
  induction 1 as [|x l l' Hsub IH|x l l' Hsub IH]; [done| |]; rewrite ?StronglySorted_cons.
  - intros [Hall Hs]. split; [|by apply IH]. rewrite Forall_forall in *.
    intros y Hy. apply Hall. by eapply elem_of_sublist.
  - intros [_ Hs]. by apply IH.
Qed.

Lemma candidate_leb_total a b : candidate_leb a b = true \/ candidate_leb b a = true.
Proof. unfold candidate_leb. lia. Qed.

Lemma candidate_leb_trans a b c :
  candidate_leb a b = true -> candidate_leb b c = true -> candidate_leb a c = true.
Proof. unfold candidate_leb. lia. Qed.

(** Selection decides every candidate exactly once, without a request: it admits precisely
    the live candidates that are due and of a retryable kind, in the order of their due times
    (captures of one time in the order of their identifiers), and a skipped capture is one
    that must not be retried now. A locally removed, private or deleted source is therefore never
    retried automatically. *)
Theorem select_candidates_exact candidates now : let selection := select_candidates candidates now in
  admitted selection ++ (skipped selection).*1 ≡ₚ (rc_capture_id <$> candidates)
  /\ (exists picked, admitted selection = rc_capture_id <$> picked
       /\ (forall c, c ∈ picked <-> c ∈ candidates /\ retryable c now)
       /\ StronglySorted (fun a b => candidate_leb a b = true) picked)
  /\ (forall id reason, (id, reason) ∈ skipped selection ->
       exists c, c ∈ candidates /\ rc_capture_id c = id /\ ~ retryable c now).
Proof.
  destruct (sift_spec now (sort_by candidate_leb candidates) (mk_selection [] []))
    as (picked & Hsub & Hret & Hall & Had & Hperm & Hsk). simpl in *. unfold select_candidates.
  split; [by rewrite Hperm, sort_by_perm|]. split.
  - exists picked. split; [done|]. rewrite Forall_forall in Hret. split.
    + intros c. split; [|intros [Hc Hr]; apply Hall; [by apply elem_of_sort_by|done]].
      intros Hc. split; [|by apply Hret]. apply (elem_of_sort_by candidate_leb).
      by eapply elem_of_sublist.
    + eapply sublist_sorted; [exact Hsub|].
      apply sort_by_sorted; [apply candidate_leb_total|apply candidate_leb_trans].
  - intros id reason Hin. destruct (Hsk _ _ Hin) as [?%not_elem_of_nil|(c & Hc & Hid & Hr)]; [done|].
    apply elem_of_sort_by in Hc. exists c. split_and!; [done|done|].
    intros Hn%skip_reason_None. congruence.
Qed.

(** * The claim of a selected capture *)

Section Claim.
Context {Henv : Env} {Hh : Healthy Henv}.

(** The last check before a request: the resolver runs only for a stored capture that is
    due and already has an outcome, and only within the budget; otherwise the budget and the
    resolver's state are untouched. The check gives one reason for every capture it refuses:
    a stored capture that is merely not due is reported as locally removed. *)
Theorem claim_capture_outcome {S} capture_id budget bytes now (resolver : S -> S) s w :
  exists w', w_db w' = w_db w
  /\ claim_capture_for_resolution capture_id budget bytes now resolver s w
     = (Ok (if live_and_due capture_id now (w_db w) then attempt_with_budget budget bytes now resolver s
            else (Skipped LocallyRemoved, budget, s)), w')
  /\ forall c, captures (w_db w) !! capture_id = Some c ->
       live_and_due capture_id now (w_db w) = true <->
       (exists t, c_next_resolution_at c = Some t /\ t <= now)
       /\ (c_status c = "resolved" \/ c_status c = "unavailable" \/ c_status c = "failed").
Proof using Hh.
  exists (tick w). split; [done|]. unfold claim_capture_for_resolution, bind. rewrite read_healthy. split.
  - by destruct (live_and_due capture_id now (w_db w)).
  - intros c Hc. unfold live_and_due. rewrite Hc, andb_true_iff, bool_decide_eq_true.
    rewrite !elem_of_cons, elem_of_nil. destruct (c_next_resolution_at c) as [t|]; [|naive_solver].
    rewrite Z.leb_le. naive_solver.
Qed.

End Claim.

(** * Witnesses *)

Definition sample_budget : ReResolutionBudget := mk_budget 2 0 10 0 100 0 1 0 50 (Some 5).

Lemma run_within_budget_witness :
  let '(outcomes, budget', calls) := run_attempts [(40, 1); (40, 2); (10, 3)] sample_budget S 0%nat in
  outcomes = [Started; Started; Skipped ItemBudget] /\ calls = 2%nat /\ charged 2 80 sample_budget budget'.
Proof.
  destruct (run_attempts [(40, 1); (40, 2); (10, 3)] sample_budget S 0%nat) as [[outcomes b'] calls] eqn:E.
  destruct (run_within_budget [(40, 1); (40, 2); (10, 3)] sample_budget S 0%nat outcomes b' calls)
    as (H1 & H2 & _).
  - split; simpl; unfold u32_max, u64_max; try lia. intros; simplify_eq. lia.
  - repeat constructor; simpl; unfold u64_max; lia.
  - done.
  - vm_compute in E. simplify_eq. done.
Defined.

End ReResolution.
