(* ===== verification/Capability.v ===== *)
(** Provenance semantics (src/crates/threads-archive/src/capability.rs). *)
From S2P Require Import Prelude Schema.

Module Capability.
Local Open Scope string_scope.

Inductive AcquisitionMode :=
| ExplicitCapture | PublicResolution | OwnAccountSync | DataExport | LegacyImport.

Inductive SupportStatus := Supported | Planned | NotSupported.

Inductive SavedAuthority :=
| AuthoritativePlatformState | ExplicitUserCapture | ExportObservation | LegacyObservation.

#[global] Instance AcquisitionMode_eq_dec : EqDecision AcquisitionMode.
Proof. solve_decision. Defined.
#[global] Instance SupportStatus_eq_dec : EqDecision SupportStatus.
Proof. solve_decision. Defined.
#[global] Instance SavedAuthority_eq_dec : EqDecision SavedAuthority.
Proof. solve_decision. Defined.

Definition ALL_MODES : list AcquisitionMode :=
  [ExplicitCapture; PublicResolution; OwnAccountSync; DataExport; LegacyImport].

Definition authority_wire (a : SavedAuthority) : string :=
  match a with
  | AuthoritativePlatformState => "authoritative_platform_state"
  | ExplicitUserCapture => "explicit_user_capture"
  | ExportObservation => "export_observation"
  | LegacyObservation => "legacy_observation"
  end.

Record ModeCapability := {
  mode : AcquisitionMode;
  status : SupportStatus;
  authority_ceiling : SavedAuthority;
}.

(** [AcquisitionMode::capability]. *)
Definition capability (m : AcquisitionMode) : ModeCapability :=
  {| mode := m;
     status := match m with LegacyImport => Planned | _ => Supported end;
     authority_ceiling :=
       match m with
       | ExplicitCapture | PublicResolution => ExplicitUserCapture
       | OwnAccountSync => AuthoritativePlatformState
       | DataExport => ExportObservation
       | LegacyImport => LegacyObservation
       end |}.

(** [ModeCapability::wire_methods]. *)
Definition wire_methods (c : ModeCapability) : list string :=
  match mode c with
  | ExplicitCapture => ["share_extension"; "browser_extension"; "telegram_capture"]
  | PublicResolution => ["public_resolution"]
  | OwnAccountSync => ["official_api"]
  | DataExport => ["data_export"]
  | LegacyImport => ["legacy_import"]
  end.

(** [NATIVE_SAVED_LIST_SYNC]. *)
Definition NATIVE_SAVED_LIST_SYNC : SupportStatus * string :=
  (NotSupported, "no supported provider surface exposes the personal Saved list").

Inductive UpstreamAvailability :=
| Active | Deleted | PrivateOrInaccessible | AuthorUnavailable | TemporarilyUnavailable | Unknown.

Definition availability_wire (a : UpstreamAvailability) : string :=
  match a with
  | Active => "active"
  | Deleted => "deleted"
  | PrivateOrInaccessible => "private_or_inaccessible"
  | AuthorUnavailable => "author_unavailable"
  | TemporarilyUnavailable => "temporarily_unavailable"
  | Unknown => "unknown"
  end.

Inductive PreservationState :=
| ContentPreserved | MetadataOnly | UserArtifactOnly | NothingPreserved.

(** [retention_after_observation]. *)
Definition retention_after_observation (current : PreservationState) (observed : UpstreamAvailability)
  : PreservationState := current.

(** Authorities that claim more than a local save. *)
Definition claims_platform_state (a : SavedAuthority) : bool :=
  match a with AuthoritativePlatformState => true | _ => false end.

(** The matrix partitions the stored acquisition vocabulary: every value of
    the schema's CHECK belongs to exactly one mode, every wire method of a mode
    is such a value, every authority ceiling is in the authority CHECK, and only
    own-account synchronization may claim platform state. *)
Theorem matrix_partitions_vocabulary :
  (forall m w, w ∈ wire_methods (capability m) -> w ∈ Schema.acquisition_vocabulary)
  /\ (forall w, w ∈ Schema.acquisition_vocabulary ->
       exists m, w ∈ wire_methods (capability m)
         /\ forall m', w ∈ wire_methods (capability m') -> m' = m)
  /\ (forall m, authority_wire (authority_ceiling (capability m)) ∈ Schema.authority_vocabulary)
  /\ (forall m, claims_platform_state (authority_ceiling (capability m)) = true -> m = OwnAccountSync)
  /\ (forall a b, authority_wire a = authority_wire b -> a = b).
Proof.
  unfold Schema.acquisition_vocabulary, Schema.authority_vocabulary. split_and!.
  - intros [] w; simpl; set_solver.
  - intros w Hw. unfold wire_methods; simpl.
    assert (exists m, w ∈ wire_methods (capability m)) as [m Hm].
    { set_unfold in Hw. destruct_or! Hw; subst; [exists OwnAccountSync|exists ExplicitCapture
        |exists ExplicitCapture|exists ExplicitCapture|exists PublicResolution|exists DataExport
        |exists LegacyImport]; simpl; set_solver. }
    exists m. split; [done|]. intros m' Hm'.
    destruct m, m'; simpl in *; set_unfold; destruct_or!; subst; done.
  - intros []; simpl; set_solver.
  - intros []; done.
  - intros [] []; done.
Qed.

End Capability.
