(* ===== verification/Publishing.v ===== *)
(** Transactional publication of social-source facts
    (src/crates/threads-archive/src/publishing.rs).

    The grammars of the published contract crates are parameters ([Contracts]):
    each parser returns the message of its refusal. The digest material is the
    canonical JSON of its members and also a parameter. *)
From S2P Require Import Prelude Schema Store.

Module Publishing.
Import Schema Store.
Local Open Scope string_scope.
Local Open Scope store_scope.

Class Contracts := {
  parse_social_source_id : Uuid -> Result string ();
  parse_platform : string -> Result string ();
  parse_entity_local_id : string -> Result string ();
  parse_post_permalink : string -> Result string ();
  parse_tenant_ref : string -> Result string ();
  parse_wire_timestamp : Time -> Result string ();
  parse_post_text : string -> Result string ();
  parse_blob_owner : string -> Result string ();
  parse_media_type : string -> Result string ();
  parse_digest_hex : string -> Result string ();
  parse_relation_kind : string -> Result string ();
  digest_material : option string -> list (string * string) -> string -> string -> string -> string;
  (* [EventEnvelope::from_json], [set_payload] and [to_canonical_json] of one envelope *)
  check_envelope : Payload -> Result string ();
}.

Definition PLATFORM : string := "threads".
Definition PRODUCER : string := "ratatoskr-threads".

Definition CAPTURED_EVENT : string := "social.source.captured.v1".
Definition UPDATED_EVENT : string := "social.source.updated.v1".
Definition REMOVED_EVENT : string := "social.source.removed.v1".

Record SourceOrigin := {
  so_owner : Uuid;
  so_post_id : Uuid;
  so_captured_at : Time;
  so_capture_id : option Uuid;
  so_capture_acquisition : option string;
  so_operation_id : Uuid;
}.

Inductive PublishError :=
| NothingToPublish (id : Uuid)
| ContractViolation (capture_id : Uuid) (reason : string)
| PublishPersistence (e : SqlError).

Definition violation {A} (id : Uuid) (r : Result string A) : Result PublishError A :=
  map_err (ContractViolation id) r.

(** [hex]: two lowercase hexadecimal digits per byte. *)
Fixpoint hex (bytes : string) : string :=
  match bytes with
  | EmptyString => EmptyString
  | String b rest =>
      String (hex_digit (N_of_ascii b / 16)%N) (String (hex_digit (N_of_ascii b mod 16)%N) (hex rest))
  end.

Definition published_methods : list string :=
  ["official_api"; "data_export"; "share_extension"; "browser_extension"; "public_resolution"].

Definition acquisition_method (value : string) (id : Uuid) : Result PublishError string :=
  if bool_decide (value ∈ published_methods)
  then Ok value
  else Err (ContractViolation id ("unsupported explicit-capture acquisition " +:+ value)).

Definition saved_authority (value : string) (id : Uuid) : Result PublishError string :=
  if bool_decide (value ∈ ["authoritative_platform_state"; "explicit_user_capture";
                           "export_observation"; "legacy_observation"])
  then Ok value
  else Err (ContractViolation id ("unsupported saved authority " +:+ value)).

(** The published availability of an upstream status. *)
Definition availability (value : string) (id : Uuid) : Result PublishError string :=
  if bool_decide (value = "active") then Ok "available"
  else if bool_decide (value = "deleted") then Ok "deleted_upstream"
  else if bool_decide (value ∈ ["private_or_inaccessible"; "author_unavailable";
                                "temporarily_unavailable"; "unknown"])
  then Ok "unavailable"
  else Err (ContractViolation id ("unsupported upstream availability " +:+ value)).

Section WithEnv.
Context {Henv : Env} {Hcon : Contracts}.

Definition digest_from_bytes (bytes : string) (id : Uuid) : Result PublishError string :=
  (let? _ := violation id (parse_digest_hex (hex bytes)) in Ok (hex bytes))%rust.

Definition content_digest (text : option string) (relations : list (string * string))
  (status acquisition authority : string) (id : Uuid) : Result PublishError string :=
  digest_from_bytes (sha256 (digest_material text relations status acquisition authority)) id.

(** [timestamp]: rendered with whole seconds. *)
Definition timestamp (value : Time) (id : Uuid) : Result PublishError Time :=
  let truncated := seconds (value / 1000000)%Z in
  (let? _ := violation id (parse_wire_timestamp truncated) in Ok truncated)%rust.

Definition tenant (owner : Uuid) : string := "user:" +:+ show_uuid owner.

Definition load_capture_origin (capture_id : Uuid) : M PublishError SourceOrigin :=
  let* row := mapErr PublishPersistence (read (fun _ d =>
    Ok (match captures d !! capture_id with
        | Some c => match c_post_id c with
                    | Some p => if bool_decide (is_Some (posts d !! p)) then Some (c, p) else None
                    | None => None
                    end
        | None => None
        end))) in
  match row with
  | None => throw (NothingToPublish capture_id)
  | Some (c, p) => ret {| so_owner := c_user_ref c; so_post_id := p; so_captured_at := c_captured_at c;
      so_capture_id := Some capture_id; so_capture_acquisition := Some (c_acquisition_method c);
      so_operation_id := capture_id |}
  end.

(** [load_post]: the row and its provider identity, which is decoded as not null. *)
Definition load_post (post_id operation_id : Uuid) : M PublishError (post_row * string) :=
  let* row := mapErr PublishPersistence (read (fun _ d =>
    match posts d !! post_id with
    | None => Ok None
    | Some p => match p_provider_post_id p with
                | None => Err (ColumnDecode "provider_post_id")
                | Some provider_id => Ok (Some (p, provider_id))
                end
    end)) in
  lift (ok_or row (NothingToPublish operation_id)).

(** The raw object of the newest revision of a post. *)
Definition newest_raw (d : db) (post_id : Uuid) : option raw_object_row :=
  let newest_first (a b : Uuid * revision_row) :=
    (rev_observed_at b.2 <? rev_observed_at a.2)%Z
    || ((rev_observed_at b.2 =? rev_observed_at a.2)%Z && (b.1 <=? a.1)%N) in
  let revisions := List.filter (fun kv => bool_decide (is_Some (raw_objects d !! rev_raw_object_id kv.2)))
    (select (post_revisions d) (fun _ r => bool_decide (rev_post_id r = post_id))) in
  match sort_by newest_first revisions with
  | (_, r) :: _ => raw_objects d !! rev_raw_object_id r
  | [] => None
  end.

Definition load_raw (post_id operation_id : Uuid) : M PublishError raw_object_row :=
  let* row := mapErr PublishPersistence (read (fun _ d => Ok (newest_raw d post_id))) in
  lift (ok_or row (NothingToPublish operation_id)).

Definition relation_leb (a b : string * string) : bool := lex_leb [fst; snd] a b.

Fixpoint parse_relations (rows : list (string * string)) (id : Uuid)
  : Result PublishError (list (string * string)) :=
  match rows with
  | [] => Ok []
  | (kind, target) :: rest =>
      (let? _ := violation id (parse_relation_kind kind) in
       let? _ := violation id (parse_entity_local_id target) in
       let? rest' := parse_relations rest id in
       Ok ((kind, target) :: rest'))%rust
  end.

Definition load_relations (post_id operation_id : Uuid) : M PublishError (list (string * string)) :=
  let* rows := mapErr PublishPersistence (read (fun _ d =>
    Ok (sort_by relation_leb
      ((fun kv => (rel_relation_kind kv.2, rel_target_provider_post_id kv.2)) <$>
       select (post_relations d) (fun _ r => bool_decide (rel_referencing_post_id r = post_id)))))) in
  lift (parse_relations rows operation_id).

(** The source an owner holds of a post (a unique key). *)
Definition source_by_post (d : db) (owner post_id : Uuid) : option (Uuid * source_row) :=
  head (select (social_sources d)
    (fun _ s => bool_decide (ss_user_ref s = owner) && bool_decide (ss_post_id s = post_id))).

Definition derive_source_id (owner : Uuid) (canonical_url : string) : Uuid :=
  new_v5 (show_uuid owner +:+ String "000" canonical_url).

Definition ensure_source (owner post_id : Uuid) (capture_id : option Uuid) (canonical_url : string)
  : M PublishError Uuid :=
  let derived := derive_source_id owner canonical_url in
  mapErr PublishPersistence (query (fun _ d =>
    match source_by_post d owner post_id with
    | Some (id, _) => Ok (id, d)
    | None =>
        if bool_decide (is_Some (social_sources d !! derived))
        then Err (UniqueViolation "social_sources_pkey")
        else if bool_decide (posts d !! post_id = None)
        then Err (ForeignKeyViolation "social_sources_post_id_fkey")
        else if default false ((fun c => bool_decide (captures d !! c = None)) <$> capture_id)
        then Err (ForeignKeyViolation "social_sources_first_capture_id_fkey")
        else Ok (derived, set_social_sources
          (<[derived := mk_source_row owner post_id capture_id]> (social_sources d)) d)
    end)).

(** [social_source_id_for]. *)
Definition social_source_id_for (owner post_id : Uuid) : M SqlError (option Uuid) :=
  read (fun _ d => Ok (fst <$> source_by_post d owner post_id)).

(** The acquisition method and authority a snapshot states: the capture's own, or the post's. *)
Definition snapshot_provenance (origin : SourceOrigin) (post : post_row) : string * string :=
  match so_capture_acquisition origin with
  | Some capture_acquisition => (capture_acquisition, "explicit_user_capture")
  | None => (p_acquisition_method post, p_saved_authority post)
  end.

(** The fields of the snapshot, checked in the order [build_snapshot] evaluates them. *)
Definition assemble_snapshot (origin : SourceOrigin) (post : post_row) (provider_post_id : string)
  (source_id : Uuid) (raw : raw_object_row) (relations : list (string * string))
  : Result PublishError Snapshot :=
  let op := so_operation_id origin in
  let (acquisition, authority) := snapshot_provenance origin post in
  (let? raw_digest := digest_from_bytes (raw_content_hash raw) op in
   let? digest := content_digest (p_text_content post) relations (p_upstream_status post)
     acquisition authority op in
   let? _ := violation op (parse_social_source_id source_id) in
   let? _ := violation op (parse_platform PLATFORM) in
   let? _ := violation op (parse_entity_local_id provider_post_id) in
   let? _ := violation op (parse_post_permalink (p_permalink post)) in
   let? _ := violation op (parse_tenant_ref (tenant (so_owner origin))) in
   let? published := match p_published_at post with
                     | Some t => let? t' := timestamp t op in Ok (Some t')
                     | None => Ok None
                     end in
   let? captured := timestamp (so_captured_at origin) op in
   let? text := match p_text_content post with
                | Some t => if bool_decide (t = "") then Ok None
                            else let? _ := violation op (parse_post_text t) in Ok (Some t)
                | None => Ok None
                end in
   let? _ := violation op (parse_blob_owner PRODUCER) in
   let? _ := violation op (parse_media_type (raw_media_type raw)) in
   let? _ := (if (raw_byte_size raw <? 0)%Z
              then Err (ContractViolation op "out of range integral type conversion attempted")
              else Ok ()) in
   let? acquisition' := acquisition_method acquisition op in
   let? authority' := saved_authority authority op in
   let? availability' := availability (p_upstream_status post) op in
   Ok (mk_snapshot source_id provider_post_id (p_permalink post)
     (so_owner origin) published captured text relations digest raw_digest
     (raw_media_type raw) (raw_byte_size raw) acquisition' authority' availability'))%rust.

Definition build_snapshot (origin : SourceOrigin) : M PublishError Snapshot :=
  let op := so_operation_id origin in
  let* (post, provider_post_id) := load_post (so_post_id origin) op in
  let* source_id := ensure_source (so_owner origin) (so_post_id origin) (so_capture_id origin)
    (p_permalink post) in
  let* raw := load_raw (so_post_id origin) op in
  let* relations := load_relations (so_post_id origin) op in
  lift (assemble_snapshot origin post provider_post_id source_id raw relations).

(** The digest of the newest stored revision of a source. The query orders by [observed_at] alone;
    of revisions of the same instant PostgreSQL may return any, the model the first of the index. *)
Definition newest_digest (d : db) (source_id : Uuid) : option string :=
  let newest_first (a b : Uuid * source_revision_row) :=
    (ssr_observed_at b.2 <=? ssr_observed_at a.2)%Z in
  match sort_by newest_first
    (select (social_source_revisions d) (fun _ r => bool_decide (ssr_social_source_id r = source_id)))
  with
  | (_, r) :: _ => Some (ssr_content_digest r)
  | [] => None
  end.

(** [insert into social_source_revisions], unique on source and digest. *)
Definition insert_source_revision (id source_id : Uuid) (digest : string) (now : Time) (d : db)
  : Result SqlError db :=
  if bool_decide (is_Some (social_source_revisions d !! id))
  then Err (UniqueViolation "social_source_revisions_pkey")
  else if exists_where (social_source_revisions d) (fun _ r =>
    bool_decide (ssr_social_source_id r = source_id) && bool_decide (ssr_content_digest r = digest))
  then Err (UniqueViolation "social_source_revisions_source_digest_key")
  else if bool_decide (social_sources d !! source_id = None)
  then Err (ForeignKeyViolation "social_source_revisions_social_source_id_fkey")
  else Ok (set_social_source_revisions
    (<[id := mk_source_revision_row source_id digest now]> (social_source_revisions d)) d).

(** [envelope_value]: the envelope of a source fact. *)
Definition envelope_value (event_id : Uuid) (event_type : string) (body : Body) (source_id owner : Uuid)
  (origin : SourceOrigin) : Result PublishError Payload :=
  let prefix := match so_capture_id origin with Some _ => "capture:" | None => "post:" end in
  let payload := mk_payload event_id event_type ("social_source:" +:+ show_uuid source_id)
    (prefix +:+ show_uuid (so_operation_id origin)) (tenant owner) body in
  (let? _ := violation (so_operation_id origin) (check_envelope payload) in Ok payload)%rust.

Definition append_origin_fact (origin : SourceOrigin) : M PublishError () :=
  let op := so_operation_id origin in
  let* snapshot := build_snapshot origin in
  let source_id := sn_social_source_id snapshot in
  let digest := sn_content_digest snapshot in
  let* previous := mapErr PublishPersistence (read (fun _ d => Ok (newest_digest d source_id))) in
  if bool_decide (previous = Some digest) then ret () else
  let* event_id := now_v7 in
  let (event_type, body) :=
    match previous with
    | Some _ => (UPDATED_EVENT, UpdatedBody snapshot)
    | None => (CAPTURED_EVENT, CapturedBody snapshot)
    end in
  let* payload := lift (envelope_value event_id event_type body source_id (sn_owner snapshot) origin) in
  let* revision_id := now_v7 in
  mapErr PublishPersistence (execute (insert_source_revision revision_id source_id digest)) ;;;
  let aggregate_type := match so_capture_id origin with Some _ => "capture" | None => "post" end in
  mapErr PublishPersistence (execute (fun now d =>
    insert_outbox event_id (new_outbox_row event_type aggregate_type op payload (Some op) None now) d)).

(** [append_fact]. *)
Definition append_fact (capture_id : Uuid) : M PublishError () :=
  let* origin := load_capture_origin capture_id in append_origin_fact origin.

Definition post_updated_at (post_id : Uuid) : M PublishError Time :=
  let* row := mapErr PublishPersistence (read (fun _ d => Ok (p_updated_at <$> posts d !! post_id))) in
  lift (ok_or row (NothingToPublish post_id)).

Definition official_origin (owner post_id : Uuid) (captured_at : Time) : SourceOrigin :=
  {| so_owner := owner; so_post_id := post_id; so_captured_at := captured_at; so_capture_id := None;
     so_capture_acquisition := None; so_operation_id := post_id |}.

(** [append_official_fact]. *)
Definition append_official_fact (account_id post_id : Uuid) : M PublishError () :=
  let* owner := mapErr PublishPersistence (read (fun _ d => Ok (a_user_ref <$> accounts d !! account_id))) in
  let* owner := lift (ok_or owner (NothingToPublish post_id)) in
  let* captured_at := post_updated_at post_id in
  append_origin_fact (official_origin owner post_id captured_at).

(** [append_export_fact]. *)
Definition append_export_fact (owner post_id : Uuid) : M PublishError () :=
  let* captured_at := post_updated_at post_id in
  append_origin_fact (official_origin owner post_id captured_at).

(** [append_removal]. *)
Definition append_removal (owner source_id operation_id : Uuid) (aggregate_type : string)
  (aggregate_id : Uuid) : M PublishError () :=
  lift (violation operation_id (parse_social_source_id source_id)) ;;;
  lift (violation operation_id (parse_tenant_ref (tenant owner))) ;;;
  let* event_id := now_v7 in
  let payload := mk_payload event_id REMOVED_EVENT ("social_source:" +:+ show_uuid source_id)
    ("deletion:" +:+ show_uuid operation_id) (tenant owner) (RemovedBody source_id owner) in
  lift (violation operation_id (check_envelope payload)) ;;;
  mapErr PublishPersistence (execute (fun now d =>
    insert_outbox event_id (new_outbox_row REMOVED_EVENT aggregate_type aggregate_id payload
      (Some operation_id) None now) d)).

(** * Frame: what publication leaves alone *)

(** Publication may change sources, source revisions and the outbox only, and of
    these it only adds rows. *)
Record published_from (d0 d : db) : Prop := {
  pf_rest : d = set_social_sources (social_sources d)
      (set_social_source_revisions (social_source_revisions d)
        (set_outbox_events (outbox_events d) d0));
  pf_sources : social_sources d0 ⊆ social_sources d;
  pf_revisions : social_source_revisions d0 ⊆ social_source_revisions d;
  pf_outbox : outbox_events d0 ⊆ outbox_events d;
  pf_events : forall id o, outbox_events d !! id = Some o -> outbox_events d0 !! id = None ->
    (o_event_type o = CAPTURED_EVENT \/ o_event_type o = UPDATED_EVENT)
    /\ o_causation_id o = None /\ o_published_at o = None;
}.

Lemma published_from_refl d : published_from d d.
Proof. split; [by destruct d|done..|]. congruence. Qed.

Lemma insert_source_revision_Ok id src dg t d d' :
  insert_source_revision id src dg t d = Ok d' ->
  social_source_revisions d !! id = None
  /\ (forall id' r, social_source_revisions d !! id' = Some r -> ssr_social_source_id r = src ->
        ssr_content_digest r <> dg)
  /\ d' = set_social_source_revisions
       (<[id := mk_source_revision_row src dg t]> (social_source_revisions d)) d.
Proof.
  unfold insert_source_revision.
  destruct (bool_decide (is_Some _)) eqn:E; [done|]. apply bool_decide_eq_false in E.
  destruct (exists_where _ _) eqn:Ex; [done|]. destruct (bool_decide _); [done|].
  intros; simplify_eq. split_and!; [by apply eq_None_not_Some| |done].
  intros id' r Hr Hsrc Hdg. rewrite exists_where_false in Ex. specialize (Ex id' r Hr).
  simpl in Ex. by rewrite Hsrc, Hdg, !bool_decide_eq_true_2 in Ex.
Qed.

Lemma published_outbox d0 d id o d' :
  published_from d0 d -> insert_outbox id o d = Ok d' ->
  (o_event_type o = CAPTURED_EVENT \/ o_event_type o = UPDATED_EVENT) ->
  o_causation_id o = None -> o_published_at o = None -> published_from d0 d'.
Proof.
  intros [Hr Hs Hv Ho He] [Hn ->]%insert_outbox_Ok Hty Hcause Hnew. split; simpl; [|done|done| |].
  - rewrite Hr. done.
  - etrans; [exact Ho|]. by apply insert_subseteq.
  - intros id' o' [[_ <-]|[_ Hl]]%lookup_insert_Some; eauto.
Qed.

Lemma published_revision d0 d id src dg t d' :
  published_from d0 d -> insert_source_revision id src dg t d = Ok d' -> published_from d0 d'.
Proof.
  intros [Hr Hs Hv Ho He] (Hn & _ & ->)%insert_source_revision_Ok. split; simpl; [|done| |done|done].
  - rewrite Hr. done.
  - etrans; [exact Hv|]. by apply insert_subseteq.
Qed.

Lemma ensure_source_frame d0 owner post_id cap url :
  preserves (published_from d0) (ensure_source owner post_id cap url).
Proof.
  unfold ensure_source. apply preserves_mapErr, preserves_query. intros t d a d' [Hr Hs Hv Ho He].
  destruct (source_by_post d owner post_id) as [[]|]; [intros; by simplify_eq|].
  destruct (bool_decide (is_Some _)) eqn:E; [done|].
  apply bool_decide_eq_false, eq_None_not_Some in E.
  destruct (bool_decide _); [done|]. destruct (default _ _); [done|].
  intros; simplify_eq. split; simpl; [|etrans; [exact Hs|]|done|done|done].
  - rewrite Hr. done.
  - by apply insert_subseteq.
Qed.

Lemma append_origin_fact_frame d0 origin :
  preserves (published_from d0) (append_origin_fact origin).
Proof.
  unfold append_origin_fact, build_snapshot, load_post, load_raw, load_relations.
  preserve_steps; try apply ensure_source_frame.
  all: apply preserves_execute; intros; try (by eapply published_revision).
  all: eapply published_outbox; [done|done| |done|done]; simpl; destruct a0; simplify_eq; auto.
Qed.

Lemma append_fact_frame d0 capture_id : preserves (published_from d0) (append_fact capture_id).
Proof.
  unfold append_fact, load_capture_origin. preserve_steps; apply append_origin_fact_frame.
Qed.

(** * What one publication appends *)

Lemma build_snapshot_frame d0 origin : preserves (published_from d0) (build_snapshot origin).
Proof.
  unfold build_snapshot, load_post, load_raw, load_relations.
  preserve_steps; try apply ensure_source_frame.
Qed.

(** The event type and body of a fact, by whether the source was published before. *)
Definition fact_of (previous : option string) (sn : Snapshot) : string * Body :=
  match previous with
  | Some _ => (UPDATED_EVENT, UpdatedBody sn)
  | None => (CAPTURED_EVENT, CapturedBody sn)
  end.

Definition fact_row (origin : SourceOrigin) (event_type : string) (payload : Payload) (now : Time)
  : outbox_row :=
  new_outbox_row event_type (match so_capture_id origin with Some _ => "capture" | None => "post" end)
    (so_operation_id origin) payload (Some (so_operation_id origin)) None now.

(** The two ways a publication of snapshot [sn] can succeed from the tables [d]. *)
Inductive publishes (origin : SourceOrigin) (sn : Snapshot) (now : Time) (d : db) : db -> Prop :=
| publishes_nothing :
    newest_digest d (sn_social_source_id sn) = Some (sn_content_digest sn) ->
    publishes origin sn now d d
| publishes_fact previous rev event payload now' :
    previous = newest_digest d (sn_social_source_id sn) ->
    previous <> Some (sn_content_digest sn) ->
    pl_body payload = (fact_of previous sn).2 ->
    social_source_revisions d !! rev = None ->
    outbox_events d !! event = None ->
    (forall id r, social_source_revisions d !! id = Some r ->
       ssr_social_source_id r = sn_social_source_id sn -> ssr_content_digest r <> sn_content_digest sn) ->
    publishes origin sn now d (set_outbox_events
      (<[event := fact_row origin (fact_of previous sn).1 payload now']> (outbox_events d))
      (set_social_source_revisions
        (<[rev := mk_source_revision_row (sn_social_source_id sn) (sn_content_digest sn) now]>
           (social_source_revisions d)) d)).

Lemma append_origin_fact_Ok origin w w' :
  append_origin_fact origin w = (Ok (), w') ->
  exists sn w1 now, build_snapshot origin w = (Ok sn, w1)
    /\ publishes origin sn now (w_db w1) (w_db w')
    /\ (forall t, w_txn w1 = Some t -> now = t).
Proof.
  unfold append_origin_fact. intros (sn & w1 & Hsn & H)%bind_Ok.
  set (previous := newest_digest (w_db w1) (sn_social_source_id sn)).
  apply bind_Ok in H as (prev & w2 & Hprev & H). run_ok. change (newest_digest _ _) with previous in H.
  case_bool_decide.
  { run_ok. exists sn, w1, (default 0%Z (w_txn w1)). split; [done|]. split.
    - simpl. by constructor.
    - by intros t ->. }
  apply bind_Ok in H as (ev & w2 & Hev & H). run_ok.
  change (match previous with Some _ => _ | None => _ end) with (fact_of previous sn) in H.
  destruct (fact_of previous sn) as [ty body] eqn:Ef. run_ok.
  repeat match goal with
  | H : insert_outbox _ _ _ = Ok _ |- _ => apply insert_outbox_Ok in H as [? ->]
  | H : insert_source_revision _ _ _ _ _ = Ok _ |- _ =>
      apply insert_source_revision_Ok in H as (? & ? & ->)
  | H : envelope_value _ _ _ _ _ _ = Ok _ |- _ => unfold envelope_value in H; repeat result_step
  end.
  simpl in *. eexists sn, w1, _. split; [done|]. split.
  - replace ty with (fact_of previous sn).1 by (by rewrite Ef).
    eapply publishes_fact; try done. by rewrite Ef.
  - intros t Ht. unfold now_at. simpl. by rewrite Ht.
Qed.

Lemma assemble_snapshot_Ok origin post pid id raw rels sn :
  assemble_snapshot origin post pid id raw rels = Ok sn ->
  sn_social_source_id sn = id /\ sn_owner sn = so_owner origin
  /\ (sn_acquisition sn, sn_saved_authority sn) = snapshot_provenance origin post
  /\ sn_acquisition sn ∈ published_methods.
Proof.
  unfold assemble_snapshot, acquisition_method, saved_authority.
  destruct (snapshot_provenance origin post).
  intros H. repeat (result_step || case_bool_decide). done.
Qed.

Lemma build_snapshot_provenance origin w sn w1 method :
  build_snapshot origin w = (Ok sn, w1) -> so_capture_acquisition origin = Some method ->
  sn_owner sn = so_owner origin /\ sn_acquisition sn = method
  /\ sn_saved_authority sn = "explicit_user_capture" /\ sn_acquisition sn ∈ published_methods.
Proof.
  unfold build_snapshot, load_post, load_raw, load_relations. intros H Hm.
  apply bind_Ok in H as ([post pid] & w2 & Hpost & H). run_ok.
  match goal with A : assemble_snapshot _ _ _ _ _ _ = _ |- _ =>
    apply assemble_snapshot_Ok in A as (_ & Ho & Hp & Hmem) end.
  unfold snapshot_provenance in Hp. rewrite Hm in Hp. by simplify_eq.
Qed.

(** A capture whose acquisition method has no published value is never published. *)
Lemma append_fact_published_method capture_id w w' c :
  append_fact capture_id w = (Ok (), w') -> captures (w_db w) !! capture_id = Some c ->
  c_acquisition_method c ∈ published_methods.
Proof.
  unfold append_fact, load_capture_origin. intros (origin & w1 & Ho & H)%bind_Ok Hc. run_ok.
  rewrite Hc in *. destruct (c_post_id c) as [p|] eqn:Ep; [|done].
  destruct (bool_decide _); [|done]. run_ok.
  apply append_origin_fact_Ok in H as (sn & w1 & now & Hb & _ & _).
  by destruct (build_snapshot_provenance _ _ _ _ _ Hb eq_refl) as (_ & <- & _ & ?).
Qed.

(** [C15] Publishing a capture, whenever it succeeds, publishes the owner's own snapshot of the
    capture's post with the capture's acquisition method and never a wider authority than an
    explicit user capture. Either the newest stored digest already equals the snapshot's and
    nothing is appended, or exactly one revision with that digest and exactly one outbox event
    are appended together: a captured fact for a source without revisions, an updated fact
    otherwise. *)
Theorem append_fact_outcome capture_id w w' :
  append_fact capture_id w = (Ok (), w') ->
  exists c p origin sn w1 now,
    captures (w_db w) !! capture_id = Some c /\ c_post_id c = Some p
    /\ so_post_id origin = p /\ so_operation_id origin = capture_id
    /\ build_snapshot origin (tick w) = (Ok sn, w1)
    /\ sn_owner sn = c_user_ref c /\ sn_acquisition sn = c_acquisition_method c
    /\ sn_saved_authority sn = "explicit_user_capture"
    /\ publishes origin sn now (w_db w1) (w_db w').
Proof.
  unfold append_fact, load_capture_origin. intros (origin & w1 & Ho & H)%bind_Ok. run_ok.
  destruct (captures _ !! _) as [c|]; [|done]. destruct (c_post_id c) as [p|] eqn:Ep; [|done].
  destruct (bool_decide _); [|done]. run_ok.
  apply append_origin_fact_Ok in H as (sn & w1 & now & Hb & Hp & _).
  pose proof (build_snapshot_provenance _ _ _ _ _ Hb eq_refl) as (? & ? & ? & _).
  match type of Hb with build_snapshot ?o _ = _ => exists c, p, o, sn, w1, now end.
  by split_and!.
Qed.

(** * Publishing unchanged content again *)

Lemma newest_digest_insert d src dg t rev :
  (forall id r, social_source_revisions d !! id = Some r -> ssr_social_source_id r = src ->
     (ssr_observed_at r < t)%Z) ->
  social_source_revisions d !! rev = None ->
  newest_digest (set_social_source_revisions
    (<[rev := mk_source_revision_row src dg t]> (social_source_revisions d)) d) src = Some dg.
Proof.
  intros Hold Hrev. unfold newest_digest. simpl.
  set (t' := <[rev := _]> _). set (le := fun a b : Uuid * source_revision_row => _).
  assert (StronglySorted (fun x y => le x y = true)
    (sort_by le (select t' (fun _ r => bool_decide (ssr_social_source_id r = src))))) as Hsort.
  { apply sort_by_sorted; unfold le; intros; lia. }
  assert (forall id r, (id, r) ∈ sort_by le (select t' (fun _ r => bool_decide (ssr_social_source_id r = src)))
    <-> t' !! id = Some r /\ ssr_social_source_id r = src) as Hin.
  { intros id r. by rewrite elem_of_sort_by, elem_of_select, bool_decide_eq_true. }
  destruct (sort_by le _) as [|[id r] l].
  - assert ((rev, mk_source_revision_row src dg t) ∈ @nil (Uuid * source_revision_row)) as E.
    { apply Hin. unfold t'. by rewrite lookup_insert_eq. }
    by apply not_elem_of_nil in E.
  - assert (t' !! id = Some r /\ ssr_social_source_id r = src) as [Hr Hsrc] by (apply Hin; left).
    unfold t' in Hr. apply lookup_insert_Some in Hr as [[<- <-]|[Hne Hr]]; [done|]. exfalso.
    specialize (Hold id r Hr Hsrc). apply StronglySorted_inv in Hsort as [_ Hall].
    assert ((rev, mk_source_revision_row src dg t) ∈ (id, r) :: l) as E.
    { apply Hin. unfold t'. by rewrite lookup_insert_eq. }
    apply elem_of_cons in E as [E|E]; [simplify_eq|].
    rewrite Forall_forall in Hall. specialize (Hall _ E). unfold le in Hall. simpl in Hall. lia.
Qed.

Lemma source_by_post_insert d owner post_id id s :
  source_by_post d owner post_id = None -> ss_user_ref s = owner -> ss_post_id s = post_id ->
  source_by_post (set_social_sources (<[id := s]> (social_sources d)) d) owner post_id = Some (id, s).
Proof.
  intros Hn Hu Hp. apply head_select_insert; [done|]. by rewrite Hu, Hp, !bool_decide_eq_true_2.
Qed.

Lemma ensure_source_Ok owner post_id cap url w id w' :
  ensure_source owner post_id cap url w = (Ok id, w') ->
  (exists s, source_by_post (w_db w') owner post_id = Some (id, s))
  /\ w_db w' = set_social_sources (social_sources (w_db w')) (w_db w) /\ w_txn w' = w_txn w.
Proof.
  unfold ensure_source. intros [d [H ->]]%mapErr_Ok%query_Ok. simpl.
  destruct (source_by_post (w_db w) owner post_id) as [[id' s]|] eqn:E.
  { simplify_eq. split_and!; [by exists s| |done]. by destruct (w_db w). }
  destruct (bool_decide (is_Some _)); [done|]. destruct (bool_decide _); [done|].
  destruct (default _ _); [done|]. simplify_eq. split_and!; [|done|done].
  eexists. by apply source_by_post_insert.
Qed.

(** What a snapshot is read from. *)
Definition same_content (d1 d2 : db) : Prop :=
  posts d1 = posts d2 /\ raw_objects d1 = raw_objects d2
  /\ post_revisions d1 = post_revisions d2 /\ post_relations d1 = post_relations d2.

Lemma build_snapshot_Ok origin w sn w1 :
  build_snapshot origin w = (Ok sn, w1) ->
  (exists s, source_by_post (w_db w1) (so_owner origin) (so_post_id origin)
     = Some (sn_social_source_id sn, s))
  /\ w_db w1 = set_social_sources (social_sources (w_db w1)) (w_db w) /\ w_txn w1 = w_txn w.
Proof.
  unfold build_snapshot, load_post, load_raw, load_relations. intros H.
  apply bind_Ok in H as ([post pid] & w2 & Hpost & H). run_ok.
  match goal with
  | H : ensure_source _ _ _ _ _ = _, A : assemble_snapshot _ _ _ _ _ _ = _ |- _ =>
      apply ensure_source_Ok in H; apply assemble_snapshot_Ok in A as [A _]; rewrite A
  end.
  done.
Qed.

(** * What stands after a publication *)

(** The origin [load_capture_origin] reads. *)
Definition capture_origin (capture_id : Uuid) (c : capture_row) (post_id : Uuid) : SourceOrigin :=
  {| so_owner := c_user_ref c; so_post_id := post_id; so_captured_at := c_captured_at c;
     so_capture_id := Some capture_id; so_capture_acquisition := Some (c_acquisition_method c);
     so_operation_id := capture_id |}.

(** The snapshot states the stored post, to its owner, with the digest of what it states. *)
Record snapshot_shows (origin : SourceOrigin) (post : post_row) (sn : Snapshot) : Prop := {
  shows_owner : sn_owner sn = so_owner origin;
  shows_provider : p_provider_post_id post = Some (sn_external_post_id sn);
  shows_permalink : sn_permalink sn = p_permalink post;
  shows_text : sn_text sn = match p_text_content post with
                            | Some text => if bool_decide (text = "") then None else Some text
                            | None => None
                            end;
  shows_provenance : (sn_acquisition sn, sn_saved_authority sn) = snapshot_provenance origin post;
  shows_digest : content_digest (p_text_content post) (sn_relations sn) (p_upstream_status post)
    (sn_acquisition sn) (sn_saved_authority sn) (so_operation_id origin) = Ok (sn_content_digest sn);
}.

(** The owner's source of the post has a revision with the digest of the post. *)
Definition fact_stands (origin : SourceOrigin) (d : db) : Prop :=
  exists post sn s id r, posts d !! so_post_id origin = Some post /\ snapshot_shows origin post sn
    /\ social_sources d !! sn_social_source_id sn = Some s /\ ss_user_ref s = so_owner origin
    /\ ss_post_id s = so_post_id origin
    /\ social_source_revisions d !! id = Some r /\ ssr_social_source_id r = sn_social_source_id sn
    /\ ssr_content_digest r = sn_content_digest sn.

(** Every revision that was added was announced by a fact with a snapshot of that digest. *)
Definition announced (d d' : db) : Prop := forall id r, social_source_revisions d' !! id = Some r ->
  social_source_revisions d !! id = None ->
  exists event o sn, outbox_events d' !! event = Some o /\ outbox_events d !! event = None
    /\ (pl_body (o_payload o) = CapturedBody sn \/ pl_body (o_payload o) = UpdatedBody sn)
    /\ sn_social_source_id sn = ssr_social_source_id r /\ sn_content_digest sn = ssr_content_digest r.

Lemma announced_same d d' : social_source_revisions d' = social_source_revisions d -> announced d d'.
Proof. intros E id r. rewrite E. congruence. Qed.

Lemma announced_trans d1 d2 d3 : outbox_events d1 ⊆ outbox_events d2 -> outbox_events d2 ⊆ outbox_events d3 ->
  social_source_revisions d2 ⊆ social_source_revisions d3 -> announced d1 d2 -> announced d2 d3 -> announced d1 d3.
Proof.
  intros H12 H23 Hrev A1 A2 id r Hr Hn. destruct (social_source_revisions d2 !! id) as [r2|] eqn:E.
  - destruct (A1 _ _ E Hn) as (ev & o & sn & Ho & Hfresh & Hb & Hs & Hd).
    assert (r2 = r) as -> by (eapply lookup_weaken in E; [|exact Hrev]; congruence).
    exists ev, o, sn. split; [by eapply lookup_weaken|done].
  - destruct (A2 _ _ Hr E) as (ev & o & sn & Ho & Hfresh & H). exists ev, o, sn. split_and!; try done; try apply H.
    by eapply lookup_weaken_None.
Qed.

(** A fact stands as long as its post is not written again and no source or revision is lost. *)
Lemma fact_stands_kept origin d d' : posts d' !! so_post_id origin = posts d !! so_post_id origin ->
  social_sources d ⊆ social_sources d' -> social_source_revisions d ⊆ social_source_revisions d' ->
  fact_stands origin d -> fact_stands origin d'.
Proof.
  intros Hp Hs Hr (post & sn & s & id & r & H1 & H2 & H3 & H4 & H5 & H6 & H7).
  exists post, sn, s, id, r. rewrite Hp. split_and!; try done; try apply H7; by eapply lookup_weaken.
Qed.

Lemma newest_digest_Some d source_id digest : newest_digest d source_id = Some digest ->
  exists id r, social_source_revisions d !! id = Some r /\ ssr_social_source_id r = source_id
    /\ ssr_content_digest r = digest.
Proof.
  unfold newest_digest. destruct (sort_by _ _) as [|[id r] l] eqn:E; [done|]. intros [= <-].
  assert ((id, r) ∈ (id, r) :: l) as Hin by left. rewrite <- E in Hin.
  apply elem_of_sort_by, elem_of_select in Hin as [Hr Hs%bool_decide_eq_true]. eauto.
Qed.

Lemma source_by_post_Some d owner post_id id s : source_by_post d owner post_id = Some (id, s) ->
  social_sources d !! id = Some s /\ ss_user_ref s = owner /\ ss_post_id s = post_id.
Proof.
  intros [Hs [Ho%bool_decide_eq_true Hp%bool_decide_eq_true]%andb_true_iff]%head_select_Some. done.
Qed.

Lemma assemble_snapshot_shows origin post pid id raw rels sn : p_provider_post_id post = Some pid ->
  assemble_snapshot origin post pid id raw rels = Ok sn -> snapshot_shows origin post sn.
Proof.
  intros Hpid. unfold assemble_snapshot. destruct (snapshot_provenance origin post) as [acq auth] eqn:Ep. cbv beta iota zeta.
  intros H. repeat result_step. unfold acquisition_method, saved_authority in *.
  repeat case_bool_decide; simplify_eq. split; cbn; try done.
  destruct (p_text_content post) as [text|]; [|by simplify_eq].
  case_bool_decide; [by simplify_eq|]. repeat result_step. done.
Qed.

Lemma build_snapshot_shows origin w sn w1 : build_snapshot origin w = (Ok sn, w1) ->
  exists post, posts (w_db w) !! so_post_id origin = Some post /\ snapshot_shows origin post sn.
Proof.
  unfold build_snapshot, load_post. intros ([post pid] & w2 & Hpost & H)%bind_Ok. run_ok.
  destruct (posts (w_db w) !! so_post_id origin) as [row|] eqn:E; [|by simplify_eq].
  destruct (p_provider_post_id row) eqn:Ep; simplify_eq. exists row. split; [done|].
  unfold load_raw, load_relations in *. run_ok. cbn in *. simplify_eq. by eapply assemble_snapshot_shows.
Qed.

Lemma append_origin_fact_stands origin w w' : append_origin_fact origin w = (Ok (), w') ->
  fact_stands origin (w_db w') /\ announced (w_db w) (w_db w').
Proof.
  intros (sn & w1 & now & Hb & Hp & _)%append_origin_fact_Ok.
  destruct (build_snapshot_shows _ _ _ _ Hb) as (post & Hpost & Hshows).
  destruct (build_snapshot_Ok _ _ _ _ Hb) as ([s (Hs & Ho & Hsp)%source_by_post_Some] & Hd & _).
  destruct Hp as [Hnew|previous rev event payload now' _ _ Hbody Hrev Hev _].
  - apply newest_digest_Some in Hnew as (id & r & Hr & Hrs & Hrd). split.
    + exists post, sn, s, id, r. rewrite Hd in *. done.
    + apply announced_same. by rewrite Hd.
  - split.
    + exists post, sn, s, rev, (mk_source_revision_row (sn_social_source_id sn) (sn_content_digest sn) now).
      cbn. rewrite lookup_insert_eq. rewrite Hd in *. done.
    + intros id r. cbn. intros [[<- <-]|[_ Hr]]%lookup_insert_Some Hn; [|rewrite Hd in Hr; cbn in Hr; congruence].
      eexists event, _, sn. rewrite lookup_insert_eq. split; [done|]. rewrite Hd in Hev. split; [done|].
      split; [|done]. cbn. rewrite Hbody. destruct previous; cbn; auto.
Qed.

Lemma append_fact_stands capture_id w w' : append_fact capture_id w = (Ok (), w') ->
  exists c p, captures (w_db w) !! capture_id = Some c /\ c_post_id c = Some p
    /\ fact_stands (capture_origin capture_id c p) (w_db w') /\ announced (w_db w) (w_db w').
Proof.
  unfold append_fact, load_capture_origin. intros (origin & w1 & Ho & H)%bind_Ok. run_ok.
  destruct (captures _ !! _) as [c|] eqn:Ec; [|done]. destruct (c_post_id c) as [p|] eqn:Ep; [|done].
  destruct (bool_decide _); [|done]. run_ok. exists c, p. split; [done|]. split; [done|].
  by apply append_origin_fact_stands in H.
Qed.

Context {Hh : Healthy Henv}.

Lemma build_snapshot_again origin w sn w1 w2 s :
  build_snapshot origin w = (Ok sn, w1) -> same_content (w_db w) (w_db w2) ->
  source_by_post (w_db w2) (so_owner origin) (so_post_id origin) = Some (sn_social_source_id sn, s) ->
  exists w3, build_snapshot origin w2 = (Ok sn, w3) /\ w_db w3 = w_db w2.
Proof using Hh.
  intros Hb Hsame Hs. unfold build_snapshot, load_post, load_raw, load_relations in *.
  apply bind_Ok in Hb as ([post pid] & w3 & Hp & Hb). run_ok.
  match goal with
  | H : ensure_source _ _ _ _ _ = (_, ?w'), A : assemble_snapshot _ _ _ _ _ _ = _ |- _ =>
      apply ensure_source_Ok in H as (_ & Hw & _); pose proof (proj1 (assemble_snapshot_Ok _ _ _ _ _ _ _ A));
      subst; assert (same_content (w_db w') (w_db w2)) as (_ & Hraw & Hrev & Hrel)
        by (rewrite Hw; exact Hsame)
  end.
  destruct Hsame as (Hposts & _). unfold newest_raw in *. simpl in *.
  rewrite Hraw, Hrev, Hposts in *. rewrite Hrel in *.
  eexists. split; [run_steps|].
  1, 2: eassumption.
  - unfold ensure_source. cbv beta iota zeta. run_steps; simpl.
    + by rewrite Hs.
    + reflexivity.
    + eassumption.
    + done.
    + eassumption.
    + done.
  - by destruct w2.
Qed.

(** Publishing unchanged content is silent: after a successful publication inside a
    transaction that began after every stored revision, publishing the same origin again
    over the resulting tables succeeds and changes no table. *)
Theorem append_origin_fact_idempotent origin w w' w2 t :
  append_origin_fact origin w = (Ok (), w') -> w_txn w = Some t ->
  (forall id r, social_source_revisions (w_db w) !! id = Some r -> (ssr_observed_at r < t)%Z) ->
  w_db w2 = w_db w' ->
  exists w3, append_origin_fact origin w2 = (Ok (), w3) /\ w_db w3 = w_db w2.
Proof using Hh.
  intros (sn & w1 & now & Hb & Hp & Hnow)%append_origin_fact_Ok Ht Hold Hw2.
  destruct (build_snapshot_Ok _ _ _ _ Hb) as ([s Hs] & Hd & Htxn).
  rewrite Htxn in Hnow. specialize (Hnow t Ht). subst now.
  assert (newest_digest (w_db w') (sn_social_source_id sn) = Some (sn_content_digest sn)
    /\ same_content (w_db w) (w_db w')
    /\ social_sources (w_db w') = social_sources (w_db w1)) as (Hnew & Hsame & Hss).
  { destruct Hp as [|previous rev event payload now' -> Hne Hbody Hrev Hev Hdup]; rewrite Hd.
    - by rewrite Hd in *.
    - split; [|done]. unfold newest_digest. simpl.
      refine (newest_digest_insert (w_db w) _ _ t _ _ _); [eauto|by rewrite Hd in Hrev]. }
  destruct (build_snapshot_again origin w sn w1 w2 s Hb) as (w3 & Hb3 & Hd3).
  { by rewrite Hw2. }
  { rewrite Hw2. unfold source_by_post in *. by rewrite Hss. }
  exists (tick w3). split; [|by destruct w3].
  unfold append_origin_fact. run_steps; [exact Hb3|reflexivity|].
  by rewrite Hd3, Hw2, Hnew, bool_decide_eq_true_2.
Qed.

(** A source whose content returns to an earlier revision is never published again: when
    the digest of the snapshot is stored for the source but is not its newest, the insert of
    the revision violates the unique key on source and digest, and the publication fails. *)
Theorem append_origin_fact_returning_content origin w sn w1 rev r :
  build_snapshot origin w = (Ok sn, w1) ->
  social_source_revisions (w_db w1) !! rev = Some r ->
  ssr_social_source_id r = sn_social_source_id sn -> ssr_content_digest r = sn_content_digest sn ->
  newest_digest (w_db w1) (sn_social_source_id sn) <> Some (sn_content_digest sn) ->
  exists e, (append_origin_fact origin w).1 = Err e.
Proof.
  intros Hb Hr Hid Hdg Hnew.
  destruct (append_origin_fact origin w) as [[[]|e] w'] eqn:E; [|by exists e]. exfalso.
  apply append_origin_fact_Ok in E as (sn' & w1' & now & Hb' & Hp & _). rewrite Hb in Hb'. simplify_eq.
  destruct Hp as [E|? ? ? ? ? ? ? ? ? ? Hdup]; [by rewrite E in Hnew|by eapply Hdup].
Qed.

End WithEnv.

(** Contracts that accept everything, with an injective digest material. *)
Definition accept {A} (_ : A) : Result string () := Ok ().

Definition sample_contracts : Contracts := {|
  parse_social_source_id := accept; parse_platform := accept; parse_entity_local_id := accept;
  parse_post_permalink := accept; parse_tenant_ref := accept; parse_wire_timestamp := accept;
  parse_post_text := accept; parse_blob_owner := accept; parse_media_type := accept;
  parse_digest_hex := accept; parse_relation_kind := accept;
  digest_material := fun text rels status acquisition authority =>
    default "-" text +:+ "|" +:+ status +:+ "|" +:+ acquisition +:+ "|" +:+ authority;
  check_envelope := accept;
|}.

(** * Witnesses: one capture of one stored post *)

Definition sample_capture : capture_row :=
  mk_capture_row 7 (Some 20%N) "key" "https://www.threads.net/@a/post/B" "https://threads.net/@a/post/B"
    "share_extension" "explicit_user_capture" "ios_share_extension" "resolved" None 0%Z None None None
    0%Z None.

Definition sample_post (text : string) : post_row :=
  mk_post_row None (Some "B") "https://www.threads.net/@a/post/B" "post" (Some text) None
    "public_resolution" "explicit_user_capture" "active" 0%Z.

(** A capture (10) of a post (20) with one revision (30) and its raw object (40). *)
Definition sample_archive (text : string) : db :=
  set_captures {[10%N := sample_capture]}
  (set_posts {[20%N := sample_post text]}
  (set_post_revisions {[30%N := mk_revision_row 20 40 "parser" 0%Z]}
  (set_raw_objects {[40%N := mk_raw_object_row "response" "blob" "hash" 4 "application/json" 0%Z]}
  empty_db))).

Definition sample_origin : SourceOrigin :=
  {| so_owner := 7; so_post_id := 20; so_captured_at := 0%Z; so_capture_id := Some 10%N;
     so_capture_acquisition := Some "share_extension"; so_operation_id := 10 |}.

Definition in_txn (d : db) (t : Time) : World := mkWorld d 0 0 (Some t) ∅ [].

(** The archive after the text went from "one" to "two" and back to "one". *)
Definition returned_archive : db :=
  let d1 := w_db (@append_fact sample_env sample_contracts 10 (in_txn (sample_archive "one") 1)).2 in
  let d2 := w_db (@append_fact sample_env sample_contracts 10
    (mkWorld (set_posts {[20%N := sample_post "two"]} d1) 0 10 (Some 2%Z) ∅ [])).2 in
  set_posts {[20%N := sample_post "one"]} d2.

Lemma append_fact_outcome_witness :
  exists w', @append_fact sample_env sample_contracts 10 (in_txn (sample_archive "one") 1) = (Ok (), w')
    /\ exists c p, captures (sample_archive "one") !! 10%N = Some c /\ c_post_id c = Some p.
Proof.
  eexists. split; [vm_compute; reflexivity|].
  destruct (@append_fact_outcome sample_env sample_contracts 10 (in_txn (sample_archive "one") 1) _
    ltac:(vm_compute; reflexivity)) as (c & p & _ & _ & _ & _ & Hc & Hp & _).
  by exists c, p.
Defined.

Lemma append_origin_fact_idempotent_witness :
  exists w' w3, @append_origin_fact sample_env sample_contracts sample_origin
      (in_txn (sample_archive "one") 1) = (Ok (), w')
    /\ @append_origin_fact sample_env sample_contracts sample_origin w' = (Ok (), w3)
    /\ w_db w3 = w_db w'.
Proof.
  destruct (@append_origin_fact sample_env sample_contracts sample_origin
    (in_txn (sample_archive "one") 1)) as [r w'] eqn:E.
  assert (r = Ok ()) as -> by (vm_compute in E; congruence).
  destruct (@append_origin_fact_idempotent sample_env sample_contracts _ sample_origin _ _ w' 1%Z E
    eq_refl) as (w3 & H3 & Hd); [done|done|].
  by exists w', w3.
Defined.

Lemma append_origin_fact_returning_content_witness :
  exists e, (@append_origin_fact sample_env sample_contracts sample_origin
    (mkWorld returned_archive 0 20 (Some 3%Z) ∅ [])).1 = Err e.
Proof.
  destruct (@build_snapshot sample_env sample_contracts sample_origin
    (mkWorld returned_archive 0 20 (Some 3%Z) ∅ [])) as [r w1] eqn:E.
  vm_compute in E. simplify_eq.
  eapply (@append_origin_fact_returning_content sample_env sample_contracts sample_origin
    (mkWorld returned_archive 0 20 (Some 3%Z) ∅ []) _ _ 1001%N).
  - vm_compute. reflexivity.
  - vm_compute. reflexivity.
  - reflexivity.
  - reflexivity.
  - vm_compute. congruence.
Defined.

(** On that archive the refusal is the unique key of the source and the digest. *)
Example returning_content_violates_unique_key :
  (@append_origin_fact sample_env sample_contracts sample_origin
    (mkWorld returned_archive 0 20 (Some 3%Z) ∅ [])).1
  = Err (PublishPersistence (UniqueViolation "social_source_revisions_source_digest_key")).
Proof. vm_compute. reflexivity. Qed.

End Publishing.
