(* ===== verification/Capture.v ===== *)
(** Explicit capture intake (src/crates/threads-archive/src/capture.rs):
    validated requests, idempotent submission, stored records read back, and
    unavailability observations. *)
From S2P Require Import Prelude Permalink Schema Store Capability Publishing.

Module Capture.
Import Schema Store.
Local Open Scope string_scope.
Local Open Scope store_scope.

Definition MAX_IDEMPOTENCY_KEY_LEN : nat := 256.
Definition MAX_OBSERVATION_FIELD_LEN : nat := 128.

Inductive CaptureMethod := ShareExtension | BrowserExtension | TelegramCapture.

Inductive ClientSource := IosShareExtension | AndroidShareTarget | BrowserClient | Telegram.

Inductive CaptureStatus := Accepted | Resolved | Unavailable | Failed.

#[global] Instance CaptureMethod_eq_dec : EqDecision CaptureMethod.
Proof. solve_decision. Defined.
#[global] Instance ClientSource_eq_dec : EqDecision ClientSource.
Proof. solve_decision. Defined.
#[global] Instance CaptureStatus_eq_dec : EqDecision CaptureStatus.
Proof. solve_decision. Defined.

Definition method_wire (m : CaptureMethod) : string :=
  match m with
  | ShareExtension => "share_extension"
  | BrowserExtension => "browser_extension"
  | TelegramCapture => "telegram_capture"
  end.

Definition client_wire (c : ClientSource) : string :=
  match c with
  | IosShareExtension => "ios_share_extension"
  | AndroidShareTarget => "android_share_target"
  | BrowserClient => "browser_extension"
  | Telegram => "telegram"
  end.

Definition status_wire (s : CaptureStatus) : string :=
  match s with
  | Accepted => "accepted"
  | Resolved => "resolved"
  | Unavailable => "unavailable"
  | Failed => "failed"
  end.

Definition parse_capture_method (value : string) : option CaptureMethod :=
  if bool_decide (value = "share_extension") then Some ShareExtension
  else if bool_decide (value = "browser_extension") then Some BrowserExtension
  else if bool_decide (value = "telegram_capture") then Some TelegramCapture
  else None.

Definition parse_client_source (value : string) : option ClientSource :=
  if bool_decide (value = "ios_share_extension") then Some IosShareExtension
  else if bool_decide (value = "android_share_target") then Some AndroidShareTarget
  else if bool_decide (value = "browser_extension") then Some BrowserClient
  else if bool_decide (value = "telegram") then Some Telegram
  else None.

Definition parse_capture_status (value : string) : option CaptureStatus :=
  if bool_decide (value = "accepted") then Some Accepted
  else if bool_decide (value = "resolved") then Some Resolved
  else if bool_decide (value = "unavailable") then Some Unavailable
  else if bool_decide (value = "failed") then Some Failed
  else None.

Inductive CaptureError :=
| PairingMismatch (m : CaptureMethod) (c : ClientSource)
| EmptyIdempotencyKey
| IdempotencyKeyTooLong (len : nat)
| InvalidObservationField (field : string) (len : nat)
| InvalidUrl (e : Permalink.PermalinkError)
| CapturePersistence (e : SqlError)
| UnknownCapture (id : Uuid).

Definition paired (m : CaptureMethod) (c : ClientSource) : bool :=
  match m with
  | ShareExtension => bool_decide (c = IosShareExtension) || bool_decide (c = AndroidShareTarget)
  | BrowserExtension => bool_decide (c = BrowserClient)
  | TelegramCapture => bool_decide (c = Telegram)
  end.

Definition ensure_paired (m : CaptureMethod) (c : ClientSource) : Result CaptureError () :=
  if paired m c then Ok () else Err (PairingMismatch m c).

Definition ensure_key_bounded (key : string) : Result CaptureError () :=
  let len := String.length key in
  if (len =? 0)%nat then Err EmptyIdempotencyKey
  else if (MAX_IDEMPOTENCY_KEY_LEN <? len)%nat then Err (IdempotencyKeyTooLong len)
  else Ok ().

Definition ensure_observation_field_bounded (field value : string) : Result CaptureError () :=
  let len := String.length value in
  if (len =? 0)%nat || (MAX_OBSERVATION_FIELD_LEN <? len)%nat
  then Err (InvalidObservationField field len) else Ok ().

Record CaptureRequest := mk_request {
  rq_user_ref : Uuid;
  rq_idempotency_key : string;
  rq_url : Permalink.CanonicalizedUrl;
  rq_note : option string;
  rq_acquisition_method : CaptureMethod;
  rq_client_source : ClientSource;
}.

(** [CaptureRequest::try_new]. *)
Definition try_new (user_ref : Uuid) (idempotency_key raw_url : string) (note : option string)
  (m : CaptureMethod) (c : ClientSource) : Result CaptureError CaptureRequest :=
  (let? _ := ensure_paired m c in
   let? _ := ensure_key_bounded idempotency_key in
   let? url := map_err InvalidUrl (Permalink.try_from raw_url) in
   Ok (mk_request user_ref idempotency_key url note m c))%rust.

Record CaptureRecord := mk_record {
  cr_capture_id : Uuid;
  cr_user_ref : Uuid;
  cr_post_id : option Uuid;
  cr_idempotency_key : string;
  cr_canonical_url : Permalink.Permalink;
  cr_original_url : string;
  cr_acquisition_method : CaptureMethod;
  cr_saved_authority : Capability.SavedAuthority;
  cr_client_source : ClientSource;
  cr_status : CaptureStatus;
  cr_note : option string;
  cr_captured_at : Time;
}.

(** [CaptureRecord::accepted]. *)
Definition accepted (r : CaptureRequest) (capture_id : Uuid) (captured_at : Time) : CaptureRecord :=
  {| cr_capture_id := capture_id;
     cr_user_ref := rq_user_ref r;
     cr_post_id := None;
     cr_idempotency_key := rq_idempotency_key r;
     cr_canonical_url := Permalink.permalink (rq_url r);
     cr_original_url := Permalink.original (rq_url r);
     cr_acquisition_method := rq_acquisition_method r;
     cr_saved_authority := Capability.ExplicitUserCapture;
     cr_client_source := rq_client_source r;
     cr_status := Accepted;
     cr_note := rq_note r;
     cr_captured_at := captured_at |}.

Inductive UnavailabilityObservation :=
| ObsDeleted (reason_code : string)
| ObsPrivateOrInaccessible (reason_code : string)
| ObsResolverFailed (resolver_version : string).

(** The validating constructors of [UnavailabilityObservation]. *)
Definition obs_deleted (reason : string) : Result CaptureError UnavailabilityObservation :=
  (let? _ := ensure_observation_field_bounded "reason_code" reason in Ok (ObsDeleted reason))%rust.
Definition obs_private_or_inaccessible (reason : string) : Result CaptureError UnavailabilityObservation :=
  (let? _ := ensure_observation_field_bounded "reason_code" reason in
   Ok (ObsPrivateOrInaccessible reason))%rust.
Definition obs_resolver_failed (version : string) : Result CaptureError UnavailabilityObservation :=
  (let? _ := ensure_observation_field_bounded "resolver_version" version in
   Ok (ObsResolverFailed version))%rust.

Inductive SubmitOutcome := Created (r : CaptureRecord) | Replayed (r : CaptureRecord).

Definition vocabulary_error (column : string) : CaptureError :=
  CapturePersistence (ColumnDecode column).

Definition replayed_row_vanished : CaptureError :=
  CapturePersistence (Configuration
    "a replayed capture vanished between the idempotency conflict and its read").

(** [record_from_row]. *)
Definition record_from_row (id : Uuid) (row : capture_row) : Result CaptureError CaptureRecord :=
  if negb (bool_decide (c_saved_authority row
             = Capability.authority_wire Capability.ExplicitUserCapture))
  then Err (vocabulary_error "captures.saved_authority") else
  match parse_capture_method (c_acquisition_method row) with
  | None => Err (vocabulary_error "captures.acquisition_method")
  | Some m =>
      match parse_client_source (c_client_source row) with
      | None => Err (vocabulary_error "captures.client_source")
      | Some cs =>
          match parse_capture_status (c_status row) with
          | None => Err (vocabulary_error "captures.status")
          | Some st =>
              match Permalink.try_from (c_canonical_url row) with
              | Err _ => Err (vocabulary_error "captures.canonical_url")
              | Ok canonicalized =>
                  Ok {| cr_capture_id := id;
                        cr_user_ref := c_user_ref row;
                        cr_post_id := c_post_id row;
                        cr_idempotency_key := c_idempotency_key row;
                        cr_canonical_url := Permalink.permalink canonicalized;
                        cr_original_url := c_original_url row;
                        cr_acquisition_method := m;
                        cr_saved_authority := Capability.ExplicitUserCapture;
                        cr_client_source := cs;
                        cr_status := st;
                        cr_note := c_note row;
                        cr_captured_at := c_captured_at row |}
              end
          end
      end
  end.

(** The row [submit] inserts. *)
Definition row_of_request (r : CaptureRequest) (captured_at : Time) : capture_row :=
  mk_capture_row (rq_user_ref r) None (rq_idempotency_key r)
    (Permalink.as_str (Permalink.permalink (rq_url r))) (Permalink.original (rq_url r))
    (method_wire (rq_acquisition_method r)) (Capability.authority_wire Capability.ExplicitUserCapture)
    (client_wire (rq_client_source r)) (status_wire Accepted) (rq_note r) captured_at
    None None None 0 None.

Section WithEnv.
Context {Henv : Env} {Hcon : Publishing.Contracts}.

(** The [insert ... on conflict (user_ref, idempotency_key) do nothing returning] of [submit]. *)
Definition insert_submission (id : Uuid) (r : CaptureRequest) (now : Time) (d : db)
  : Result SqlError (option (Uuid * Time) * db) :=
  match capture_by_key d (rq_user_ref r) (rq_idempotency_key r) with
  | Some _ => Ok (None, d)
  | None =>
      match insert_capture id (row_of_request r now) d with
      | Ok d' => Ok (Some (id, now), d')
      | Err e => Err e
      end
  end.

(** [CaptureStore::submit]. *)
Definition submit (r : CaptureRequest) : M CaptureError SubmitOutcome :=
  let* id := now_v7 in
  let* inserted := mapErr CapturePersistence (query (insert_submission id r)) in
  match inserted with
  | Some (capture_id, captured_at) => ret (Created (accepted r capture_id captured_at))
  | None =>
      let* row := mapErr CapturePersistence (read (fun _ d =>
        Ok (capture_by_key d (rq_user_ref r) (rq_idempotency_key r)))) in
      match row with
      | None => throw replayed_row_vanished
      | Some (id', c) => let* rec := lift (record_from_row id' c) in ret (Replayed rec)
      end
  end.

Definition set_status (status : string) (c : capture_row) : capture_row :=
  mk_capture_row (c_user_ref c) (c_post_id c) (c_idempotency_key c) (c_canonical_url c)
    (c_original_url c) (c_acquisition_method c) (c_saved_authority c) (c_client_source c)
    status (c_note c) (c_captured_at c) (c_next_resolution_at c) (c_operation_id c) (c_command_id c)
    (c_resolution_attempts c) (c_operation_reported_at c).

Definition set_upstream_status (status : string) (now : Time) (p : post_row) : post_row :=
  mk_post_row (p_account_id p) (p_provider_post_id p) (p_permalink p) (p_post_kind p)
    (p_text_content p) (p_published_at p) (p_acquisition_method p) (p_saved_authority p)
    status now.

Definition publish_failure (e : Publishing.PublishError) : CaptureError :=
  CapturePersistence (Protocol "social-source publication").

(** The transaction of [mark_unavailable]. *)
Definition mark_unavailable_body (capture_id : Uuid) (availability reason_code : string)
  : M CaptureError (Finish ()) :=
    let* post_id := mapErr CapturePersistence (read (fun _ d =>
      match captures d !! capture_id with
      | Some c => Ok (c_post_id c)
      | None => Err RowNotFound
      end)) in
    mapErr CapturePersistence (execute (fun _ d =>
      Ok (set_captures (alter (set_status "unavailable") capture_id (captures d)) d))) ;;;
    match post_id with
    | Some p => mapErr CapturePersistence (execute (fun now d =>
        Ok (set_posts (alter (set_upstream_status availability now) p (posts d)) d)))
    | None => ret ()
    end ;;;
    let* tombstone_id := now_v7 in
    mapErr CapturePersistence (execute (fun now d =>
      insert_tombstone tombstone_id
        (mk_tombstone_row post_id (Some capture_id) availability (Some reason_code) now) d)) ;;;
    match post_id with
    | Some _ => mapErr publish_failure (Publishing.append_fact capture_id)
    | None => ret ()
    end ;;;
    let* resolution_id := now_v7 in
    mapErr CapturePersistence (execute (fun now d =>
      insert_resolution resolution_id
        (mk_resolution_row capture_id "unavailable" None None now) d)) ;;;
    ret (Commit ()).

(** [CaptureStore::mark_unavailable]. *)
Definition mark_unavailable (capture_id : Uuid) (availability reason_code : string)
  : M CaptureError () :=
  transaction CapturePersistence (mark_unavailable_body capture_id availability reason_code).

(** [CaptureStore::record_observation]. *)
Definition record_observation (capture_id : Uuid) (observation : UnavailabilityObservation)
  : M CaptureError () :=
  let* known := mapErr CapturePersistence (read (fun _ d =>
    Ok (bool_decide (is_Some (captures d !! capture_id))))) in
  if negb known then throw (UnknownCapture capture_id) else
  match observation with
  | ObsDeleted reason_code => mark_unavailable capture_id "deleted" reason_code
  | ObsPrivateOrInaccessible reason_code =>
      mark_unavailable capture_id "private_or_inaccessible" reason_code
  | ObsResolverFailed resolver_version =>
      let* resolution_id := now_v7 in
      mapErr CapturePersistence (execute (fun now d =>
        insert_resolution resolution_id
          (mk_resolution_row capture_id "resolver_failed" (Some resolver_version) None now) d))
  end.

(** * Submission *)

(** No two stored captures share an owner and an idempotency key. *)
Definition keys_unique (d : db) : Prop :=
  forall id1 id2 c1 c2, captures d !! id1 = Some c1 -> captures d !! id2 = Some c2 ->
    c_user_ref c1 = c_user_ref c2 -> c_idempotency_key c1 = c_idempotency_key c2 -> id1 = id2.

Lemma keys_unique_insert d id c :
  keys_unique d -> captures d !! id = None ->
  capture_by_key d (c_user_ref c) (c_idempotency_key c) = None ->
  keys_unique (set_captures (<[id := c]> (captures d)) d).
Proof.
  intros Hu Hid Hk id1 id2 c1 c2. simpl. rewrite capture_by_key_None in Hk.
  rewrite !lookup_insert_Some. intros [[-> ->]|[? H1]] [[-> ->]|[? H2]] Eu Ek; try done.
  - by destruct (Hk id2 c2 H2).
  - by destruct (Hk id1 c1 H1).
  - by eapply Hu.
Qed.

Lemma insert_submission_Ok id r t d a d' :
  insert_submission id r t d = Ok (a, d') ->
  (a = None /\ d' = d /\ is_Some (capture_by_key d (rq_user_ref r) (rq_idempotency_key r)))
  \/ (a = Some (id, t) /\ captures d !! id = None
      /\ capture_by_key d (rq_user_ref r) (rq_idempotency_key r) = None
      /\ d' = set_captures (<[id := row_of_request r t]> (captures d)) d).
Proof.
  unfold insert_submission. destruct (capture_by_key _ _ _) eqn:E; [naive_solver|].
  destruct (insert_capture _ _ _) eqn:Ei; [|done].
  apply insert_capture_Ok in Ei as [Hn ->]. intros; simplify_eq. by right.
Qed.

Lemma submit_frame r w :
  keys_unique (w_db w) ->
  let d := w_db (submit r w).2 in
  keys_unique d /\ captures (w_db w) ⊆ captures d /\ d = set_captures (captures d) (w_db w)
  /\ forall id c, captures d !! id = Some c -> captures (w_db w) !! id = None ->
       c = row_of_request r (c_captured_at c).
Proof.
  intros Hw. pose (I := fun d => keys_unique d /\ captures (w_db w) ⊆ captures d
    /\ d = set_captures (captures d) (w_db w)
    /\ forall id c, captures d !! id = Some c -> captures (w_db w) !! id = None ->
         c = row_of_request r (c_captured_at c)).
  assert (preserves I (submit r)) as Hp.
  { unfold submit. preserve_steps.
    apply preserves_query. intros t d ins d' (Hu & Hsub & Hd & Hnew) Hi.
    apply insert_submission_Ok in Hi as [(_ & -> & _)|(_ & Hid & Hk & ->)]; [done|].
    split_and!.
    - by apply keys_unique_insert.
    - simpl. etrans; [exact Hsub|]. by apply insert_subseteq.
    - by rewrite Hd.
    - simpl. intros id' c [[<- <-]|[_ Hc]]%lookup_insert_Some Hnone; [done|eauto]. }
  apply Hp. split_and!; [done|done|by destruct (w_db w)|]. naive_solver.
Qed.

(** Whatever round trips are lost, a submission keeps owner and idempotency key unique
    among the stored captures, changes no stored capture and no other table, and adds at most
    the one row of its request, which states an explicit user capture. *)
Theorem submit_invariant r w :
  keys_unique (w_db w) ->
  let d := w_db (submit r w).2 in
  keys_unique d /\ captures (w_db w) ⊆ captures d /\ d = set_captures (captures d) (w_db w)
  /\ forall id c, captures d !! id = Some c -> captures (w_db w) !! id = None ->
       c = row_of_request r (c_captured_at c).
Proof. apply submit_frame. Qed.

Lemma record_of_submission r raw_url note m c u key t id :
  try_new u key raw_url note m c = Ok r ->
  record_from_row id (row_of_request r t) = Ok (accepted r id t).
Proof.
  unfold try_new. intros H. repeat result_step.
  unfold record_from_row, row_of_request, accepted. simpl.
  destruct (Permalink.try_from raw_url) as [url|] eqn:Hu; simplify_eq/=.
  assert (parse_capture_method (method_wire m) = Some m) as -> by (by destruct m).
  assert (parse_client_source (client_wire c) = Some c) as -> by (by destruct c).
  by rewrite (Permalink.try_from_permalink _ _ Hu).
Qed.

(** * Unavailability *)

(** The committed effect of one unavailability observation on the tables. *)
Record marked_unavailable (id : Uuid) (availability reason : string) (d d' : db) : Prop := {
  mu_capture : exists c, captures d !! id = Some c
    /\ captures d' = alter (set_status "unavailable") id (captures d)
    /\ (exists now, posts d' = match c_post_id c with
                               | Some p => alter (set_upstream_status availability now) p (posts d)
                               | None => posts d
                               end)
    /\ (exists tid now, tombstones d !! tid = None /\ tombstones d'
          = <[tid := mk_tombstone_row (c_post_id c) (Some id) availability (Some reason) now]>
              (tombstones d))
    /\ (c_post_id c = None -> outbox_events d' = outbox_events d);
  mu_resolution : exists rid now, capture_resolutions d !! rid = None /\ capture_resolutions d'
    = <[rid := mk_resolution_row id "unavailable" None None now]> (capture_resolutions d);
  mu_raw : raw_objects d' = raw_objects d /\ post_revisions d' = post_revisions d
    /\ media d' = media d /\ post_relations d' = post_relations d;
  mu_outbox : outbox_events d ⊆ outbox_events d';
}.

Lemma post_status_step post availability w u w' :
  match post with
  | Some p => mapErr CapturePersistence (execute (fun now d =>
      Ok (set_posts (alter (set_upstream_status availability now) p (posts d)) d)))
  | None => ret ()
  end w = (Ok u, w') ->
  exists now, w_db w' = set_posts (match post with
    | Some p => alter (set_upstream_status availability now) p (posts (w_db w))
    | None => posts (w_db w)
    end) (w_db w).
Proof.
  destruct post as [p|]; intros H; run_ok; [by eexists|]. exists 0%Z. by destruct (w_db w').
Qed.

Lemma publication_step {A} (post : option A) id w u w' :
  match post with
  | Some _ => mapErr publish_failure (Publishing.append_fact id)
  | None => ret ()
  end w = (Ok u, w') ->
  Publishing.published_from (w_db w) (w_db w') /\ (post = None -> w_db w' = w_db w).
Proof.
  destruct post; intros H; run_ok; [|split; [apply Publishing.published_from_refl|done]].
  split; [|done]. pose proof (Publishing.append_fact_frame (w_db w) id w) as Hf.
  rewrite H in Hf. apply Hf, Publishing.published_from_refl.
Qed.

Lemma mark_unavailable_body_Ok id availability reason w0 u w1 :
  mark_unavailable_body id availability reason w0 = (Ok (Commit u), w1) ->
  marked_unavailable id availability reason (w_db w0) (w_db w1).
Proof.
  unfold mark_unavailable_body. intros Hb.
  apply bind_Ok in Hb as (post & w2 & Hpost & Hb).
  apply bind_Ok in Hb as (? & w3 & Hcap & Hb). apply bind_Ok in Hb as (? & w4 & Hup & Hb).
  apply bind_Ok in Hb as (tid & w5 & Htid & Hb). apply bind_Ok in Hb as (? & w6 & Htomb & Hb).
  apply bind_Ok in Hb as (? & w7 & Hpub & Hb). apply bind_Ok in Hb as (rid & w8 & Hrid & Hb).
  apply bind_Ok in Hb as (? & w9 & Hres & Hb). run_ok.
  destruct (captures (w_db w0) !! id) as [c|] eqn:Ec; [|done]. simplify_eq.
  sql_ok.
  apply post_status_step in Hup as [now Hup]. apply publication_step in Hpub as [Hpub Hnone].
  simpl in *. rewrite Hup in *. simpl in *. destruct Hpub as [Hrest _ _ Hout _].
  assert (c_post_id c = None -> outbox_events (w_db w7) = outbox_events (w_db w0)) as Hquiet
    by (intros E; by rewrite (Hnone E)).
  clear Hnone. rewrite Hrest in *. simpl in *. split; simpl; try done; [|eauto].
  exists c. split_and!; try done.
  - by exists now.
  - eauto.
Qed.

Lemma mark_unavailable_atomic id availability reason w :
  let d' := w_db (mark_unavailable id availability reason w).2 in
  d' = w_db w \/ marked_unavailable id availability reason (w_db w) d'.
Proof.
  cbv zeta. destruct (transaction_atomic CapturePersistence (mark_unavailable_body id availability reason) w)
    as [E|(u & w0 & w1 & Hd & _ & _ & Hb & E)]; unfold mark_unavailable; rewrite E; [by left|right].
  rewrite <- Hd. by eapply mark_unavailable_body_Ok.
Qed.

(** An observation that answers has been recorded. *)
Lemma record_observation_Ok id observation w w' :
  record_observation id observation w = (Ok (), w') ->
  match observation with
  | ObsDeleted reason => marked_unavailable id "deleted" reason (w_db w) (w_db w')
  | ObsPrivateOrInaccessible reason =>
      marked_unavailable id "private_or_inaccessible" reason (w_db w) (w_db w')
  | ObsResolverFailed version => exists rid now, capture_resolutions (w_db w) !! rid = None /\
      w_db w' = set_capture_resolutions
        (<[rid := mk_resolution_row id "resolver_failed" (Some version) None now]>
           (capture_resolutions (w_db w))) (w_db w)
  end.
Proof.
  unfold record_observation. intros (known & w1 & Hk & H)%bind_Ok. destruct known; [|by run_ok].
  apply mapErr_Ok, read_db in Hk as (t & _ & Hd). unfold tables in Hd. simpl in H. rewrite <- Hd.
  destruct observation; unfold mark_unavailable in H.
  1, 2: apply transaction_Ok in H as (w0 & w2 & Hw0 & _ & _ & [[Hb ->]|[Hb _]]);
    [rewrite <- Hw0; by eapply mark_unavailable_body_Ok|unfold mark_unavailable_body in Hb; run_ok].
  apply bind_Ok in H as (rid & w2 & Hrid & H). apply now_v7_db in Hrid. unfold tables in Hrid.
  apply mapErr_Ok, execute_db in H as (now & d & Hi & Hd'). unfold tables in Hd'. sql_ok.
  rewrite Hd', Hrid in *. eauto.
Qed.

(** An observation of a capture takes effect completely or not at all, whatever round
    trips are lost. A resolver failure only adds its resolution row: no tombstone, no status
    change, nothing published. Deletion or inaccessibility marks the capture unavailable and
    its post with that availability, adds one tombstone and one resolution row, and keeps all
    stored evidence (raw objects, revisions, media, relations) and every queued event. *)
Theorem record_observation_atomic id observation w :
  let d' := w_db (record_observation id observation w).2 in
  d' = w_db w \/
  match observation with
  | ObsDeleted reason => marked_unavailable id "deleted" reason (w_db w) d'
  | ObsPrivateOrInaccessible reason =>
      marked_unavailable id "private_or_inaccessible" reason (w_db w) d'
  | ObsResolverFailed version => exists rid now, capture_resolutions (w_db w) !! rid = None /\
      d' = set_capture_resolutions
        (<[rid := mk_resolution_row id "resolver_failed" (Some version) None now]>
           (capture_resolutions (w_db w))) (w_db w)
  end.
Proof.
  destruct observation; unfold record_observation, bind, mapErr, now_v7; cbv zeta;
    (match goal with |- context [read ?f ?w0] => destruct (read f w0) as [[known|e] w1] eqn:E;
       pose proof (preserves_read (fun d => d = w_db w0) f w0 eq_refl) as Hd; rewrite E in Hd;
       simpl in Hd end); simpl; try (by left);
    (destruct known; simpl; [|by left]); rewrite <- Hd; clear Hd E.
  1, 2: apply mark_unavailable_atomic.
  match goal with |- context [execute ?f ?w] =>
    pose proof (execute_cases f w) as He; destruct (execute f w) as [[]] end; simpl in *.
  all: destruct He as [->|(d' & Hi & ->)]; [by left|right]; sql_ok; eauto.
Qed.

Context {Hh : Healthy Henv}.

Lemma insert_request_accepted r id t d :
  captures d !! id = None ->
  insert_capture id (row_of_request r t) d
  = Ok (set_captures (<[id := row_of_request r t]> (captures d)) d).
Proof.
  intros Hid. unfold insert_capture, check_captures. rewrite bool_decide_eq_true_2 by done. simpl.
  by destruct (rq_acquisition_method r), (rq_client_source r).
Qed.

(** Submission is idempotent: when the database answers, a validated request with a new
    key is created with the record it states, and the same request submitted again over the
    resulting tables is replayed with the identical record and leaves every table as it was. *)
Theorem submit_idempotent r raw_url note m c u key w :
  try_new u key raw_url note m c = Ok r ->
  capture_by_key (w_db w) u key = None -> captures (w_db w) !! mint (w_minted w) = None ->
  exists now w', submit r w = (Ok (Created (accepted r (mint (w_minted w)) now)), w')
    /\ captures (w_db w') = <[mint (w_minted w) := row_of_request r now]> (captures (w_db w))
    /\ forall w2, w_db w2 = w_db w' ->
         exists w3, submit r w2 = (Ok (Replayed (accepted r (mint (w_minted w)) now)), w3)
                    /\ w_db w3 = w_db w2.
Proof using Hh.
  intros Hr Hk Hid.
  assert (u = rq_user_ref r /\ key = rq_idempotency_key r) as [-> ->].
  { unfold try_new in Hr. repeat result_step. done. }
  set (w0 := mkWorld (w_db w) (w_tick w) (S (w_minted w)) (w_txn w) (w_files w) (w_bus w)).
  exists (now_at w0). eexists. split.
  { unfold submit, insert_submission. run_steps; simpl.
    - rewrite Hk, insert_request_accepted by done. reflexivity.
    - reflexivity. }
  split; [done|]. intros w2 Hw2. simpl in Hw2.
  apply (capture_by_key_insert _ (mint (w_minted w)) (row_of_request r (now_at w0))) in Hk.
  simpl in Hk. change (now_at _) with (now_at w0) in Hw2. eexists. split.
  - unfold submit, insert_submission. run_steps.
    + simpl. rewrite Hw2. by rewrite Hk.
    + simpl. run_steps; simpl; [by rewrite Hk|].
      cbv beta iota. run_steps. by eapply record_of_submission.
  - by rewrite Hw2.
Qed.

End WithEnv.

(** * Witnesses *)

Definition sample_request : Result CaptureError CaptureRequest :=
  try_new 7 "key" Permalink.sample_raw (Some "note") ShareExtension IosShareExtension.

Lemma submit_invariant_witness :
  keys_unique empty_db /\
  exists r, sample_request = Ok r /\
    keys_unique (w_db (@submit sample_env r (sample_world empty_db)).2).
Proof.
  assert (keys_unique empty_db) as Hu by (by intros ? ? ? ?).
  split; [done|]. eexists. split; [vm_compute; reflexivity|].
  apply (@submit_invariant sample_env). exact Hu.
Defined.

Lemma submit_idempotent_witness :
  exists r rec w' w3, sample_request = Ok r
    /\ @submit sample_env r (sample_world empty_db) = (Ok (Created rec), w')
    /\ @submit sample_env r w' = (Ok (Replayed rec), w3).
Proof.
  destruct sample_request as [r|] eqn:E; [|vm_compute in E; discriminate].
  destruct (@submit_idempotent sample_env _ r _ _ _ _ _ _ (sample_world empty_db) E eq_refl eq_refl)
    as (now & w' & Hs & _ & Hr).
  destruct (Hr w' eq_refl) as (w3 & H3 & _).
  eexists r, _, w', w3. split; [done|]. split; [exact Hs|exact H3].
Defined.

End Capture.
