(* ===== verification/Reporting.v ===== *)
(** Operation reports queued in the outbox inside the caller's transaction
    (src/crates/threads-archive/src/capture_reporting.rs).

    The report constructors and the envelope of the contract crates are parameters
    ([ReportContracts]); [ReportLaws] states what the envelope keeps of its
    arguments. *)
From S2P Require Import Prelude Schema Store.

Module Reporting.
Import Schema Store.
Local Open Scope string_scope.
Local Open Scope store_scope.

Class ReportContracts := {
  (* [queued_report], [unavailable_report] and [preserved_report] *)
  construct_report : OperationReported -> Result string ();
  (* [EntityRef::parse] *)
  parse_entity_ref : string -> Result string ();
  (* [report_envelope] and its canonical JSON: owner, operation, aggregate, command, event, report *)
  report_envelope : Uuid -> Uuid -> string -> Uuid -> Uuid -> OperationReported
    -> Result string Payload;
}.

(** The envelope carries the report it was built for under the event id it was given. *)
Class ReportLaws (R : ReportContracts) : Prop :=
  report_envelope_body : forall owner op aggregate command event report p,
    report_envelope owner op aggregate command event report = Ok p ->
    pl_body p = ReportBody report /\ pl_event_id p = event.

(** The contract crates accept every report the service builds. *)
Class ReportsAccepted (R : ReportContracts) : Prop := {
  construct_accepted : forall r, construct_report r = Ok ();
  entity_ref_accepted : forall s, parse_entity_ref s = Ok ();
  envelope_accepted : forall owner op aggregate command event report,
    exists p, report_envelope owner op aggregate command event report = Ok p;
}.

Definition OPERATION_REPORT_EVENT : string := "platform.operation.reported.v1".

Inductive ReportAggregate := AggCapture (capture_id : Uuid) | AggOperation.

Record ReportTarget := mk_report_target {
  tg_owner : Uuid;
  tg_operation_id : Uuid;
  tg_command_id : Uuid;
  tg_aggregate : ReportAggregate;
}.

Inductive ReportError :=
| ReportContract (reason : string)
| ReportPersistence (e : SqlError).

Definition aggregate_of (target : ReportTarget) : string * Uuid :=
  match tg_aggregate target with
  | AggCapture capture_id => ("capture", capture_id)
  | AggOperation => ("operation", tg_operation_id target)
  end.

Section WithEnv.
Context {Henv : Env} {Hrep : ReportContracts}.

(** [append_report]. *)
Definition append_report (target : ReportTarget) (report : OperationReported) : M ReportError () :=
  let* event_id := now_v7 in
  let (aggregate_type, aggregate_id) := aggregate_of target in
  let aggregate := aggregate_type +:+ ":" +:+ show_uuid aggregate_id in
  lift (map_err ReportContract (parse_entity_ref aggregate)) ;;;
  let* payload := lift (map_err ReportContract (report_envelope (tg_owner target)
    (tg_operation_id target) aggregate (tg_command_id target) event_id report)) in
  mapErr ReportPersistence (execute (fun now d =>
    insert_outbox event_id (new_outbox_row OPERATION_REPORT_EVENT aggregate_type aggregate_id payload
      (Some (tg_operation_id target)) (Some (tg_command_id target)) now) d)).

(** The outbox row of a queued report. *)
Definition report_row (target : ReportTarget) (payload : Payload) (now : Time) : outbox_row :=
  new_outbox_row OPERATION_REPORT_EVENT (aggregate_of target).1 (aggregate_of target).2 payload
    (Some (tg_operation_id target)) (Some (tg_command_id target)) now.

(** The same statement by itself: what [append_report] sends for a minted event, a clock and the
    tables. *)
Definition file_report (event_id : Uuid) (target : ReportTarget) (report : OperationReported) (now : Time)
  (d : db) : Result ReportError db :=
  (let aggregate := (aggregate_of target).1 +:+ ":" +:+ show_uuid (aggregate_of target).2 in
   let? _ := map_err ReportContract (parse_entity_ref aggregate) in
   let? payload := map_err ReportContract (report_envelope (tg_owner target) (tg_operation_id target)
     aggregate (tg_command_id target) event_id report) in
   map_err ReportPersistence (insert_outbox event_id (report_row target payload now) d))%rust.

Lemma append_report_filed `{!Healthy Henv} target report w d :
  file_report (mint (w_minted w)) target report (now_at w) (w_db w) = Ok d ->
  exists w', append_report target report w = (Ok (), w') /\ w_db w' = d.
Proof.
  unfold file_report, append_report, report_row, map_err. destruct (aggregate_of target) as [ty id]. cbn.
  destruct (parse_entity_ref _) eqn:Ep; [|done]. cbn. destruct (report_envelope _ _ _ _ _ _) eqn:Ee; [|done].
  cbn. destruct (insert_outbox _ _ _) eqn:Ei; [|done]. intros [= ->]. eexists. split.
  - run_steps. exact Ei.
  - done.
Qed.

(** An accepted report is accepted by every outbox without its event. *)
Lemma file_report_Ok `{!ReportLaws Hrep} event target report now d d' :
  file_report event target report now d = Ok d' ->
  exists payload, outbox_events d !! event = None /\ pl_body payload = ReportBody report
    /\ d' = set_outbox_events (<[event := report_row target payload now]> (outbox_events d)) d
    /\ forall d0, outbox_events d0 !! event = None -> file_report event target report now d0
         = Ok (set_outbox_events (<[event := report_row target payload now]> (outbox_events d0)) d0).
Proof.
  unfold file_report, map_err. destruct (parse_entity_ref _); [|done]. cbn.
  destruct (report_envelope _ _ _ _ _ _) as [payload|] eqn:Ee; [|done]. cbn.
  apply report_envelope_body in Ee as [Hb _]. destruct (insert_outbox _ _ _) eqn:Ei; [|done]. intros [= ->].
  exists payload. pose proof (insert_outbox_Ok _ _ _ _ Ei) as [Hn ->]. split_and!; try done.
  intros d0 Hn0. revert Ei. unfold insert_outbox, check_outbox.
  rewrite (bool_decide_eq_true_2 _ Hn), (bool_decide_eq_true_2 _ Hn0). cbn. by destruct (negb _).
Qed.

Lemma file_report_total `{!ReportsAccepted Hrep} event target report now d :
  outbox_events d !! event = None -> exists d', file_report event target report now d = Ok d'.
Proof.
  intros Hev. unfold file_report, map_err. rewrite entity_ref_accepted. cbn [result_bind].
  destruct (envelope_accepted (tg_owner target) (tg_operation_id target)
    ((aggregate_of target).1 +:+ ":" +:+ show_uuid (aggregate_of target).2) (tg_command_id target) event report)
    as [p ->]. cbn [result_bind].
  unfold insert_outbox, check_outbox. rewrite (bool_decide_eq_true_2 _ Hev). cbn.
  unfold aggregate_of. destruct (tg_aggregate target); eexists; reflexivity.
Qed.

(** Only the contract crates refuse a report with a new identifier. *)
Lemma file_report_refused event target report now d e : outbox_events d !! event = None ->
  file_report event target report now d = Err e -> exists x, e = ReportContract x.
Proof.
  intros Hev. unfold file_report, map_err.
  destruct (parse_entity_ref _); cbn [result_bind]; [|by intros [= <-]; eexists].
  destruct (report_envelope _ _ _ _ _ _); cbn [result_bind]; [|by intros [= <-]; eexists].
  unfold insert_outbox, check_outbox. rewrite (bool_decide_eq_true_2 _ Hev). cbn.
  unfold aggregate_of. by destruct (tg_aggregate target).
Qed.

Lemma append_report_Ok `{!ReportLaws Hrep} target report w w' :
  append_report target report w = (Ok (), w') ->
  exists event payload now, outbox_events (w_db w) !! event = None
    /\ pl_body payload = ReportBody report
    /\ w_db w' = set_outbox_events (<[event := report_row target payload now]> (outbox_events (w_db w)))
         (w_db w)
    /\ w_txn w' = w_txn w.
Proof.
  unfold append_report, report_row. intros H.
  apply bind_Ok in H as (event & w1 & He & H). run_ok.
  destruct (aggregate_of target) as [ty id]. run_ok.
  destruct (report_envelope _ _ _ _ _ _) as [p|] eqn:Ep; simplify_eq/=. sql_ok. simpl in *.
  apply report_envelope_body in Ep as [Hb _]. eexists _, _, _. split_and!; try done.
Qed.

Lemma append_report_run `{!Healthy Henv} `{!ReportsAccepted Hrep} target report w :
  outbox_events (w_db w) !! mint (w_minted w) = None ->
  append_report target report w = (Ok (), (append_report target report w).2).
Proof.
  intros Hev. apply run_snd. unfold append_report. destruct (aggregate_of target) as [ty id] eqn:E.
  destruct (envelope_accepted (tg_owner target) (tg_operation_id target)
    (ty +:+ ":" +:+ show_uuid id) (tg_command_id target) (mint (w_minted w)) report) as [p Hp].
  eexists. run_steps.
  - by rewrite entity_ref_accepted.
  - by rewrite Hp.
  - unfold insert_outbox, check_outbox. simpl. rewrite (bool_decide_eq_true_2 _ Hev). simpl.
    assert (ty = "capture" \/ ty = "operation") as [-> | ->]
      by (unfold aggregate_of in E; destruct (tg_aggregate target); naive_solver); reflexivity.
Qed.

End WithEnv.

(** Contracts that accept every report and build the evident envelope. *)
Definition sample_report_contracts : ReportContracts := {|
  construct_report := fun _ => Ok ();
  parse_entity_ref := fun _ => Ok ();
  report_envelope := fun owner op aggregate command event report =>
    Ok (mk_payload event OPERATION_REPORT_EVENT aggregate "" "" (ReportBody report));
|}.

#[export] Instance sample_report_laws : ReportLaws sample_report_contracts.
Proof. intros ? ? ? ? ? ? ? ?. by simplify_eq/=. Qed.

#[export] Instance sample_reports_accepted : ReportsAccepted sample_report_contracts.
Proof. split; try done. intros. by eexists. Qed.

End Reporting.
