(* ===== verification/BrowserCapture.v ===== *)
(** Platform-routed browser-capture commands and their durable inbox
    (src/crates/threads-archive/src/browser_capture_command.rs and
    browser_capture_inbox.rs).

    The envelope and payload decoders of the contract crates and chrono's RFC 3339
    parser are parameters ([CommandCodec]). *)
From S2P Require Import Prelude Permalink Schema Store Reporting.

Module BrowserCapture.
Import Schema Store Reporting.
Local Open Scope string_scope.
Local Open Scope store_scope.

(** The decoded [SocialCaptureRequested] payload; closed vocabularies as their wire text. *)
Record SocialCaptureRequested := mk_requested {
  sc_provider : string;
  sc_acquisition : string;
  sc_saved_authority : string;
  sc_original_permalink : string;
  sc_captured_at : string;
  sc_digest_algorithm : string;
  sc_digest_hex : string;
  sc_operation_id : Uuid;
}.

Class CommandCodec := {
  CommandEnvelope : Type;
  env_command_id : CommandEnvelope -> Uuid;
  env_tenant_user : CommandEnvelope -> option Uuid;
  (* [payload_as::<SocialCaptureRequested>] *)
  payload_as : CommandEnvelope -> Result string SocialCaptureRequested;
  (* [CommandEnvelope::from_json] *)
  from_json : string -> Result string CommandEnvelope;
  (* [DateTime::parse_from_rfc3339], in nanoseconds since the epoch *)
  parse_from_rfc3339 : string -> option Z;
}.

Record BrowserCaptureCommand := mk_command {
  bc_command_id : Uuid;
  bc_user_ref : Uuid;
  bc_operation_id : Uuid;
  bc_idempotency_key : string;
  bc_original_permalink : string;
  bc_canonical_permalink : string;
  bc_captured_at : Time;
  bc_acquisition : string;
  bc_saved_authority : string;
}.

Record RejectedCommand := mk_rejected {
  rj_command_id : Uuid;
  rj_user_ref : Uuid;
  rj_operation_id : Uuid;
}.

Inductive BrowserCaptureCommandError :=
| Malformed (reason : string)
| WrongProvider
| InvalidAcquisition
| InvalidSavedAuthority
| MissingTenant
| InvalidPermalink
| InvalidCapturedAt
| UnsupportedIdempotencyDigest.

#[global] Instance BrowserCaptureCommandError_eq_dec : EqDecision BrowserCaptureCommandError.
Proof. solve_decision. Defined.

Definition is_attributable (e : BrowserCaptureCommandError) : bool :=
  match e with
  | InvalidAcquisition | InvalidSavedAuthority | InvalidPermalink | InvalidCapturedAt
  | UnsupportedIdempotencyDigest => true
  | Malformed _ | WrongProvider | MissingTenant => false
  end.

Inductive Intake :=
| IntakeAccepted (command : BrowserCaptureCommand)
| IntakeRejected (command : RejectedCommand) (reason : BrowserCaptureCommandError)
| IntakeInvalid (reason : BrowserCaptureCommandError).

(** [trunc_subsecs(6)] of an instant in nanoseconds, in the database's microseconds. *)
Definition trunc_to_micros (nanos : Z) : Time := (nanos / 1000)%Z.

Section Command.
Context {Hcodec : CommandCodec}.

Definition attribute (envelope : CommandEnvelope) : option RejectedCommand :=
  match payload_as envelope with
  | Err _ => None
  | Ok payload =>
      match env_tenant_user envelope with
      | None => None
      | Some user_ref =>
          Some (mk_rejected (env_command_id envelope) user_ref (sc_operation_id payload))
      end
  end.

(** [BrowserCaptureCommand::parse]. *)
Definition parse (envelope : CommandEnvelope)
  : Result BrowserCaptureCommandError BrowserCaptureCommand :=
  (let? payload := map_err Malformed (payload_as envelope) in
   if negb (bool_decide (sc_provider payload = "threads")) then Err WrongProvider else
   if negb (bool_decide (sc_acquisition payload = "browser_extension"))
   then Err InvalidAcquisition else
   if negb (bool_decide (sc_saved_authority payload = "explicit_user_capture"))
   then Err InvalidSavedAuthority else
   let? user_ref := ok_or (env_tenant_user envelope) MissingTenant in
   let? canonicalized := map_err (fun _ => InvalidPermalink)
     (Permalink.try_from (sc_original_permalink payload)) in
   let? nanos := ok_or (parse_from_rfc3339 (sc_captured_at payload)) InvalidCapturedAt in
   let? key := (if bool_decide (sc_digest_algorithm payload = "sha256")
                then Ok ("sha256:" +:+ sc_digest_hex payload)
                else Err UnsupportedIdempotencyDigest) in
   Ok (mk_command (env_command_id envelope) user_ref (sc_operation_id payload) key
     (sc_original_permalink payload) (Permalink.as_str (Permalink.permalink canonicalized))
     (trunc_to_micros nanos) (sc_acquisition payload) (sc_saved_authority payload)))%rust.

(** [BrowserCaptureCommand::intake]. *)
Definition intake (bytes : string) : Intake :=
  match from_json bytes with
  | Err e => IntakeInvalid (Malformed e)
  | Ok envelope =>
      match parse envelope with
      | Ok command => IntakeAccepted command
      | Err reason =>
          if is_attributable reason
          then match attribute envelope with
               | Some command => IntakeRejected command reason
               | None => IntakeInvalid reason
               end
          else IntakeInvalid reason
      end
  end.

End Command.

(** * The durable inbox *)

Definition CONSUMER_NAME : string := "threads_browser_capture".

Inductive BrowserCaptureDelivery := Accepted (capture_id : Uuid) | Rejected | Duplicate.

Inductive BrowserCaptureInboxError :=
| InboxPersistence (e : SqlError)
| InboxContract (reason : string).

Definition inbox_error (e : ReportError) : BrowserCaptureInboxError :=
  match e with
  | ReportContract reason => InboxContract reason
  | ReportPersistence e => InboxPersistence e
  end.

(** The row a command inserts: due for resolution at once. *)
Definition row_of_command (c : BrowserCaptureCommand) (now : Time) : capture_row :=
  mk_capture_row (bc_user_ref c) None (bc_idempotency_key c) (bc_canonical_permalink c)
    (bc_original_permalink c) "browser_extension" "explicit_user_capture" "browser_extension"
    "accepted" None (bc_captured_at c) (Some now) (Some (bc_operation_id c)) (Some (bc_command_id c))
    0 None.

Section Inbox.
Context {Henv : Env} {Hrep : ReportContracts}.

(** The [insert ... on conflict do nothing returning] of [claim_delivery]. *)
Definition claim_row (command_id : Uuid) (outcome : string) (now : Time) (d : db)
  : Result SqlError (bool * db) :=
  match inbox_events d !! (CONSUMER_NAME, command_id) with
  | Some _ => Ok (false, d)
  | None => Ok (true, set_inbox_events (<[(CONSUMER_NAME, command_id) := outcome]> (inbox_events d)) d)
  end.

(** [claim_delivery]. *)
Definition claim_delivery (command_id : Uuid) (outcome : string) : M BrowserCaptureInboxError bool :=
  mapErr InboxPersistence (query (claim_row command_id outcome)).

(** The upsert of [deliver]: an existing capture of the key is returned as it is. *)
Definition upsert_command (id : Uuid) (c : BrowserCaptureCommand) (now : Time) (d : db)
  : Result SqlError (Uuid * db) :=
  match capture_by_key d (bc_user_ref c) (bc_idempotency_key c) with
  | Some (existing, _) => Ok (existing, d)
  | None =>
      match insert_capture id (row_of_command c now) d with
      | Ok d' => Ok (id, d')
      | Err e => Err e
      end
  end.

Definition deliver_body (c : BrowserCaptureCommand)
  : M BrowserCaptureInboxError (Finish BrowserCaptureDelivery) :=
  let* claimed := claim_delivery (bc_command_id c) "processed" in
  if negb claimed then ret (Commit Duplicate) else
  let* new_id := now_v7 in
  let* capture_id := mapErr InboxPersistence (query (upsert_command new_id c)) in
  let target := mk_report_target (bc_user_ref c) (bc_operation_id c) (bc_command_id c)
    (AggCapture capture_id) in
  let queued := QueuedReport (bc_operation_id c) in
  lift (map_err InboxContract (construct_report queued)) ;;;
  mapErr inbox_error (append_report target queued) ;;;
  ret (Commit (Accepted capture_id)).

(** [BrowserCaptureInbox::deliver]. *)
Definition deliver (c : BrowserCaptureCommand) : M BrowserCaptureInboxError BrowserCaptureDelivery :=
  transaction InboxPersistence (deliver_body c).

Definition reject_body (c : RejectedCommand)
  : M BrowserCaptureInboxError (Finish BrowserCaptureDelivery) :=
  let* claimed := claim_delivery (rj_command_id c) "rejected" in
  if negb claimed then ret (Commit Duplicate) else
  let target := mk_report_target (rj_user_ref c) (rj_operation_id c) (rj_command_id c)
    AggOperation in
  let failed := UnavailableReport (rj_operation_id c) SU_Inaccessible in
  lift (map_err InboxContract (construct_report failed)) ;;;
  mapErr inbox_error (append_report target failed) ;;;
  ret (Commit Rejected).

(** [BrowserCaptureInbox::reject]. *)
Definition reject (c : RejectedCommand) : M BrowserCaptureInboxError BrowserCaptureDelivery :=
  transaction InboxPersistence (reject_body c).

(** * Exactly-once delivery *)

(** A queued report caused by the command, and the answer to a refused command. *)
Definition queued_by (id : Uuid) (_ : Uuid) (o : outbox_row) : bool :=
  bool_decide (o_causation_id o = Some id)
  && match pl_body (o_payload o) with ReportBody (QueuedReport _) => true | _ => false end.

Definition refused_by (id : Uuid) (_ : Uuid) (o : outbox_row) : bool :=
  bool_decide (o_causation_id o = Some id) && bool_decide (o_aggregate_type o = "operation").

(** An unrecorded command has no report; a processed one exactly one queued report and no
    refusal; a rejected one exactly one refusal and no queued report. *)
Definition delivery_inv (d : db) : Prop :=
  forall id,
    (count_where (outbox_events d) (queued_by id), count_where (outbox_events d) (refused_by id))
    = match inbox_events d !! (CONSUMER_NAME, id) with
      | None => (0, 0)%Z
      | Some outcome => if bool_decide (outcome = "rejected") then (0, 1)%Z else (1, 0)%Z
      end.

(** Claiming a command and queueing its one report. *)
Lemma delivery_inv_claimed d id outcome event o :
  delivery_inv d -> inbox_events d !! (CONSUMER_NAME, id) = None ->
  outbox_events d !! event = None -> o_causation_id o = Some id ->
  (queued_by id event o, refused_by id event o)
    = (negb (bool_decide (outcome = "rejected")), bool_decide (outcome = "rejected")) ->
  forall d', outbox_events d' = <[event := o]> (outbox_events d) ->
  inbox_events d' = <[(CONSUMER_NAME, id) := outcome]> (inbox_events d) -> delivery_inv d'.
Proof.
  intros Hinv Hnone Hev Hcause Hq d' Ho Hi id'. rewrite Ho, Hi, !count_where_insert by done.
  specialize (Hinv id'). destruct (decide (id' = id)) as [->|Hne].
  - rewrite lookup_insert_eq. rewrite Hnone in Hinv.
    injection Hinv as -> ->. injection Hq as -> ->. by destruct (bool_decide (outcome = "rejected")).
  - rewrite lookup_insert_ne by congruence. rewrite <- Hinv.
    unfold queued_by, refused_by. rewrite Hcause.
    by rewrite (bool_decide_eq_false_2 (Some id = Some id')) by congruence.
Qed.

Lemma claim_delivery_Ok id outcome w b w' :
  claim_delivery id outcome w = (Ok b, w') ->
  (b = false /\ w_db w' = w_db w /\ is_Some (inbox_events (w_db w) !! (CONSUMER_NAME, id)))
  \/ (b = true /\ inbox_events (w_db w) !! (CONSUMER_NAME, id) = None
      /\ w_db w' = set_inbox_events (<[(CONSUMER_NAME, id) := outcome]> (inbox_events (w_db w))) (w_db w)).
Proof.
  unfold claim_delivery, claim_row. intros (d & H & ->)%mapErr_Ok%query_Ok.
  destruct (inbox_events (w_db w) !! _) eqn:E; simplify_eq; [left|right]; eauto.
Qed.

Lemma upsert_command_Ok id c now d a d' :
  upsert_command id c now d = Ok (a, d') ->
  (exists row, capture_by_key d (bc_user_ref c) (bc_idempotency_key c) = Some (a, row) /\ d' = d)
  \/ (a = id /\ capture_by_key d (bc_user_ref c) (bc_idempotency_key c) = None
      /\ captures d !! id = None
      /\ d' = set_captures (<[id := row_of_command c now]> (captures d)) d).
Proof.
  unfold upsert_command. destruct (capture_by_key _ _ _) as [[e row]|] eqn:E; [naive_solver|].
  destruct (insert_capture _ _ _) eqn:Ei; [|done]. sql_ok. intros; simplify_eq. by right.
Qed.

Context `{!ReportLaws Hrep}.

(** The capture a command is stored as: the one its key already has, or a new row. *)
Inductive stored_as (c : BrowserCaptureCommand) (d : db) (new_id : Uuid)
  : Uuid -> gmap Uuid capture_row -> Prop :=
| stored_existing id row :
    capture_by_key d (bc_user_ref c) (bc_idempotency_key c) = Some (id, row) ->
    stored_as c d new_id id (captures d)
| stored_new now :
    capture_by_key d (bc_user_ref c) (bc_idempotency_key c) = None -> captures d !! new_id = None ->
    stored_as c d new_id new_id (<[new_id := row_of_command c now]> (captures d)).

(** The tables after the first delivery of a command. *)
Definition delivered (c : BrowserCaptureCommand) (capture_id event : Uuid) (payload : Payload)
  (now : Time) (caps : gmap Uuid capture_row) (d : db) : db :=
  set_outbox_events
    (<[event := report_row (mk_report_target (bc_user_ref c) (bc_operation_id c) (bc_command_id c)
         (AggCapture capture_id)) payload now]> (outbox_events d))
    (set_inbox_events (<[(CONSUMER_NAME, bc_command_id c) := "processed"]> (inbox_events d))
      (set_captures caps d)).

(** What a committed delivery did. *)
Lemma deliver_body_Ok c w out w' :
  deliver_body c w = (Ok (Commit out), w') ->
  (out = Duplicate /\ w_db w' = w_db w
     /\ is_Some (inbox_events (w_db w) !! (CONSUMER_NAME, bc_command_id c)))
  \/ exists capture_id event payload now caps,
       out = Accepted capture_id
       /\ inbox_events (w_db w) !! (CONSUMER_NAME, bc_command_id c) = None
       /\ stored_as c (w_db w) (mint (w_minted w)) capture_id caps
       /\ outbox_events (w_db w) !! event = None
       /\ pl_body payload = ReportBody (QueuedReport (bc_operation_id c))
       /\ w_db w' = delivered c capture_id event payload now caps (w_db w).
Proof using All.
  unfold deliver_body. intros (claimed & w1 & Hclaim & H)%bind_Ok.
  assert (w_minted w1 = w_minted w) as Hm.
  { unfold claim_delivery in Hclaim. run_ok. done. }
  apply claim_delivery_Ok in Hclaim as [(-> & Hd & Hin)|(-> & Hin & Hd)]; simpl in H.
  { left. run_ok. done. }
  right. apply bind_Ok in H as (id & w2 & Hid & H). apply bind_Ok in H as (cap & w3 & Hup & H).
  apply bind_Ok in H as (? & w4 & Hrep1 & H). apply bind_Ok in H as ([] & w5 & Happ & H). run_ok.
  apply append_report_Ok in Happ as (event & payload & now & Hev & Hbody & Hd5 & _).
  simpl in *. rewrite Hd in *. rewrite Hm in *.
  exists cap, event, payload, now, (captures (w_db w')). rewrite Hd5.
  match goal with U : upsert_command _ _ _ _ = _ |- _ =>
    apply upsert_command_Ok in U as [(row & Hk & ->)|(-> & Hk & Hid & ->)] end; split_and!; try done.
  - simpl. by eapply stored_existing.
  - simpl. by apply stored_new.
Qed.

Lemma reject_body_Ok c w out w' :
  reject_body c w = (Ok (Commit out), w') ->
  (out = Duplicate /\ w_db w' = w_db w
     /\ is_Some (inbox_events (w_db w) !! (CONSUMER_NAME, rj_command_id c)))
  \/ exists event payload now,
       out = Rejected
       /\ inbox_events (w_db w) !! (CONSUMER_NAME, rj_command_id c) = None
       /\ outbox_events (w_db w) !! event = None
       /\ pl_body payload = ReportBody (UnavailableReport (rj_operation_id c) SU_Inaccessible)
       /\ w_db w' = set_outbox_events
            (<[event := report_row (mk_report_target (rj_user_ref c) (rj_operation_id c)
                 (rj_command_id c) AggOperation) payload now]> (outbox_events (w_db w)))
            (set_inbox_events (<[(CONSUMER_NAME, rj_command_id c) := "rejected"]>
               (inbox_events (w_db w))) (w_db w)).
Proof using All.
  unfold reject_body. intros (claimed & w1 & Hclaim & H)%bind_Ok.
  apply claim_delivery_Ok in Hclaim as [(-> & Hd & Hin)|(-> & Hin & Hd)]; simpl in H.
  { left. run_ok. done. }
  right. apply bind_Ok in H as (? & w4 & Hrep1 & H). apply bind_Ok in H as ([] & w5 & Happ & H). run_ok.
  apply append_report_Ok in Happ as (event & payload & now & Hev & Hbody & Hd5 & _).
  simpl in *. rewrite Hd in *. exists event, payload, now. by split_and!.
Qed.

(** One broker delivery, whatever it answers. *)
Definition consume (delivery : BrowserCaptureCommand + RejectedCommand) (w : World) : World :=
  match delivery with
  | inl c => (deliver c w).2
  | inr c => (reject c w).2
  end.

Lemma consume_inv delivery w :
  delivery_inv (w_db w) ->
  delivery_inv (w_db (consume delivery w)) /\ inbox_events (w_db w) ⊆ inbox_events (w_db (consume delivery w)).
Proof using All.
  intros Hinv. destruct delivery as [c|c]; simpl; unfold deliver, reject.
  - destruct (transaction_atomic InboxPersistence (deliver_body c) w)
      as [->|(out & w0 & w1 & Hd & _ & _ & Hb & ->)]; [done|].
    apply deliver_body_Ok in Hb as [(_ & -> & _)|(cap & ev & pl & now & caps & _ & Hin & _ & Hev & Hbody & ->)];
      rewrite Hd in *; [done|]. split; [|simpl; by apply insert_subseteq].
    eapply (delivery_inv_claimed (w_db w) (bc_command_id c) "processed" ev);
      [done|done|done| | |reflexivity|reflexivity]; [done|].
    unfold queued_by, refused_by, report_row, new_outbox_row. simpl. by rewrite Hbody, bool_decide_eq_true_2.
  - destruct (transaction_atomic InboxPersistence (reject_body c) w)
      as [->|(out & w0 & w1 & Hd & _ & _ & Hb & ->)]; [done|].
    apply reject_body_Ok in Hb as [(_ & -> & _)|(ev & pl & now & _ & Hin & Hev & Hbody & ->)];
      rewrite Hd in *; [done|]. split; [|simpl; by apply insert_subseteq].
    eapply (delivery_inv_claimed (w_db w) (rj_command_id c) "rejected" ev);
      [done|done|done| | |reflexivity|reflexivity]; [done|].
    unfold queued_by, refused_by, report_row, new_outbox_row. simpl. by rewrite Hbody, bool_decide_eq_true_2.
Qed.

(** Exactly-once answers under at-least-once delivery: however often commands are
    delivered or refused, in any order and with any round trips lost (also between a commit and
    its answer), every recorded command has exactly one report (the queued report of a
    processed command, the terminal refusal of a rejected one), an unrecorded command has none,
    and no recorded command is forgotten. *)
Theorem deliveries_exactly_once deliveries w :
  delivery_inv (w_db w) ->
  let w' := fold_left (fun w delivery => consume delivery w) deliveries w in
  delivery_inv (w_db w') /\ inbox_events (w_db w) ⊆ inbox_events (w_db w').
Proof using All.
  revert w. induction deliveries as [|delivery ds IH]; intros w Hinv; simpl; [done|].
  destruct (consume_inv delivery w Hinv) as [Hinv' Hsub].
  destruct (IH _ Hinv') as [H1 H2]. split; [done|]. by etrans.
Qed.

Context `{!Healthy Henv} `{!MintDistinct Henv} `{!ReportsAccepted Hrep}.

Lemma insert_command_accepted c id t d :
  captures d !! id = None ->
  insert_capture id (row_of_command c t) d
  = Ok (set_captures (<[id := row_of_command c t]> (captures d)) d).
Proof.
  intros Hid. unfold insert_capture, check_captures. by rewrite bool_decide_eq_true_2.
Qed.

Lemma upsert_command_total id c now d :
  captures d !! id = None -> exists a caps, upsert_command id c now d = Ok (a, set_captures caps d).
Proof.
  intros Hid. unfold upsert_command. destruct (capture_by_key _ _ _) as [[e row]|].
  - exists e, (captures d). by destruct d.
  - rewrite insert_command_accepted by done. eauto.
Qed.

Lemma deliver_first c w :
  inbox_events (w_db w) !! (CONSUMER_NAME, bc_command_id c) = None ->
  captures (w_db w) !! mint (w_minted w) = None ->
  outbox_events (w_db w) !! mint (S (w_minted w)) = None ->
  exists capture_id event payload now caps w',
    deliver c w = (Ok (Accepted capture_id), w')
    /\ stored_as c (w_db w) (mint (w_minted w)) capture_id caps
    /\ outbox_events (w_db w) !! event = None
    /\ pl_body payload = ReportBody (QueuedReport (bc_operation_id c))
    /\ w_db w' = delivered c capture_id event payload now caps (w_db w).
Proof using All.
  intros Hin Hcap Hout.
  assert (exists out w1, deliver_body c (txn_start w) = (Ok (Commit out), w1)) as (out & w1 & Hb).
  { unfold deliver_body, claim_delivery, claim_row.
    destruct (upsert_command_total (mint (w_minted w)) c (clock (w_tick w))
      (set_inbox_events (<[(CONSUMER_NAME, bc_command_id c) := "processed"]> (inbox_events (w_db w)))
        (w_db w)) Hcap) as (a & caps & Hup).
    eexists _, _. run_steps; simpl.
    - by rewrite Hin.
    - simpl. run_steps.
      + simpl. unfold now_at. simpl. exact Hup.
      + by rewrite construct_accepted.
      + apply append_report_run. exact Hout. }
  rewrite (transaction_run _ _ _ _ _ Hb : deliver c w = _).
  apply deliver_body_Ok in Hb as [(_ & _ & E)|(cap & ev & pl & now & caps & -> & _ & Hst & Hev & Hbody & Hd)].
  { simpl in E. by rewrite Hin in E; destruct E. }
  exists cap, ev, pl, now, caps. eexists. split; [done|]. by split_and!.
Qed.

(** When the database answers, the first delivery of a command is accepted: its capture,
    inbox record and queued report are stored together, and a redelivery answers that it is a
    duplicate and changes no table. *)
Theorem deliver_then_duplicate c w :
  inbox_events (w_db w) !! (CONSUMER_NAME, bc_command_id c) = None ->
  captures (w_db w) !! mint (w_minted w) = None ->
  outbox_events (w_db w) !! mint (S (w_minted w)) = None ->
  exists capture_id event payload now caps w',
    deliver c w = (Ok (Accepted capture_id), w')
    /\ stored_as c (w_db w) (mint (w_minted w)) capture_id caps
    /\ pl_body payload = ReportBody (QueuedReport (bc_operation_id c))
    /\ w_db w' = delivered c capture_id event payload now caps (w_db w)
    /\ forall w2, w_db w2 = w_db w' -> exists w3, deliver c w2 = (Ok Duplicate, w3) /\ w_db w3 = w_db w2.
Proof using All.
  intros Hin Hcap Hout.
  destruct (deliver_first c w Hin Hcap Hout) as (cap & ev & pl & now & caps & w' & Hdel & Hst & Hev & Hbody & Hd).
  exists cap, ev, pl, now, caps, w'. split_and!; try done.
  intros w2 Hw2. eexists. split.
  - eapply transaction_run. unfold deliver_body, claim_delivery, claim_row. run_steps; simpl.
    + rewrite Hw2, Hd. unfold delivered. simpl. by rewrite lookup_insert_eq.
    + reflexivity.
  - simpl. by rewrite Hw2.
Qed.

(** A second command for a key that is already captured is accepted and reported queued,
    but the stored capture keeps the operation and command it has: no capture refers to the
    operation of the second command, so no resolution can report its end. *)
Theorem deliver_existing_key_keeps_operation c w id row :
  inbox_events (w_db w) !! (CONSUMER_NAME, bc_command_id c) = None ->
  captures (w_db w) !! mint (w_minted w) = None ->
  outbox_events (w_db w) !! mint (S (w_minted w)) = None ->
  capture_by_key (w_db w) (bc_user_ref c) (bc_idempotency_key c) = Some (id, row) ->
  (forall id' row', captures (w_db w) !! id' = Some row' -> c_operation_id row' <> Some (bc_operation_id c)) ->
  exists w', deliver c w = (Ok (Accepted id), w')
    /\ count_where (outbox_events (w_db w')) (queued_by (bc_command_id c))
       = (1 + count_where (outbox_events (w_db w)) (queued_by (bc_command_id c)))%Z
    /\ forall id' row', captures (w_db w') !! id' = Some row' ->
         c_operation_id row' <> Some (bc_operation_id c).
Proof using All.
  intros Hin Hcap Hout Hkey Hno.
  destruct (deliver_first c w Hin Hcap Hout) as (cap & ev & pl & now & caps & w' & Hdel & Hst & Hev & Hbody & Hd).
  destruct Hst as [id' row' Hk|now' Hk _]; [|by rewrite Hkey in Hk].
  rewrite Hkey in Hk. simplify_eq. exists w'. rewrite Hd. split_and!; [done| |done].
  unfold delivered. simpl. rewrite count_where_insert by done. f_equal.
  unfold queued_by, report_row, new_outbox_row. simpl. by rewrite Hbody, bool_decide_eq_true_2.
Qed.

End Inbox.

(** * Intake *)

Section Intake.
Context {Hcodec : CommandCodec}.

(** A decodable Threads command that names its owner. *)
Definition addressed (bytes : string) (command_id owner operation : Uuid) : Prop :=
  exists envelope payload, from_json bytes = Ok envelope /\ payload_as envelope = Ok payload
    /\ sc_provider payload = "threads" /\ env_tenant_user envelope = Some owner
    /\ env_command_id envelope = command_id /\ sc_operation_id payload = operation.

(** Every decodable Threads command with an owner is answered and nothing else is: intake
    accepts or rejects exactly the addressed commands, for the operation and owner they name,
    and an accepted command is an explicit browser capture of a Threads permalink in its
    canonical form. *)
Theorem intake_answers_addressed bytes command_id owner operation :
  addressed bytes command_id owner operation <->
  (exists c url, intake bytes = IntakeAccepted c /\ bc_command_id c = command_id
     /\ bc_user_ref c = owner /\ bc_operation_id c = operation
     /\ bc_acquisition c = "browser_extension" /\ bc_saved_authority c = "explicit_user_capture"
     /\ Permalink.try_from (bc_original_permalink c) = Ok url
     /\ bc_canonical_permalink c = Permalink.as_str (Permalink.permalink url))
  \/ (exists reason, intake bytes = IntakeRejected (mk_rejected command_id owner operation) reason).
Proof.
  unfold addressed, intake, parse, attribute. split.
  - intros (envelope & payload & Hj & Hp & Hprov & Ht & <- & <-). rewrite Hj, Hp. simpl.
    rewrite Hprov, Ht. simpl.
    destruct (bool_decide_reflect (sc_acquisition payload = "browser_extension")) as [Ha|]; simpl;
      [|right; eauto].
    destruct (bool_decide_reflect (sc_saved_authority payload = "explicit_user_capture")) as [Hs|]; simpl;
      [|right; eauto].
    destruct (Permalink.try_from (sc_original_permalink payload)) as [url|] eqn:Hu; simpl;
      [|right; eauto].
    destruct (parse_from_rfc3339 (sc_captured_at payload)) as [nanos|]; simpl;
      [|right; eauto].
    case_bool_decide; simpl; [|right; eauto].
    left. eexists _, url. by split_and!.
  - destruct (from_json bytes) as [envelope|]; [|naive_solver].
    destruct (payload_as envelope) as [payload|] eqn:Hp; simpl; [|naive_solver].
    destruct (bool_decide_reflect (sc_provider payload = "threads")) as [Hprov|]; simpl; [|naive_solver].
    destruct (env_tenant_user envelope) as [u|] eqn:Ht; simpl.
    + intros H. exists envelope, payload. rewrite Ht.
      assert (u = owner /\ env_command_id envelope = command_id /\ sc_operation_id payload = operation)
        as (-> & <- & <-); [|by split_and!].
      repeat case_bool_decide; simpl in H; try (destruct (Permalink.try_from _); simpl in H);
        try (destruct (parse_from_rfc3339 _); simpl in H); try case_bool_decide; naive_solver.
    + repeat case_bool_decide; simpl; naive_solver.
Qed.

End Intake.

(** * Witnesses *)

Definition sample_command (command operation : Uuid) : BrowserCaptureCommand :=
  mk_command command 7 operation "sha256:ab" "https://threads.net/@a/post/B"
    "https://www.threads.net/@a/post/B" 5 "browser_extension" "explicit_user_capture".

Lemma delivery_inv_empty : delivery_inv empty_db.
Proof. by intros id. Qed.

Lemma deliveries_exactly_once_witness :
  let w' := fold_left (fun w delivery => @consume sample_env sample_report_contracts delivery w)
    [inl (sample_command 1 50); inr (mk_rejected 2 7 51); inl (sample_command 1 50)]
    (sample_world empty_db) in
  count_where (outbox_events (w_db w')) (queued_by 1) = 1%Z
  /\ count_where (outbox_events (w_db w')) (refused_by 2) = 1%Z.
Proof.
  destruct (@deliveries_exactly_once sample_env sample_report_contracts _
    [inl (sample_command 1 50); inr (mk_rejected 2 7 51); inl (sample_command 1 50)]
    (sample_world empty_db) delivery_inv_empty) as [Hinv _].
  split; [etrans; [exact (f_equal fst (Hinv 1%N))|]|etrans; [exact (f_equal snd (Hinv 2%N))|]];
    vm_compute; reflexivity.
Defined.

Lemma deliver_then_duplicate_witness :
  exists id w' w3, @deliver sample_env sample_report_contracts (sample_command 1 50) (sample_world empty_db)
      = (Ok (Accepted id), w')
    /\ @deliver sample_env sample_report_contracts (sample_command 1 50) w' = (Ok Duplicate, w3).
Proof.
  destruct (@deliver_then_duplicate sample_env sample_report_contracts _ _ _ _ (sample_command 1 50)
    (sample_world empty_db) eq_refl eq_refl eq_refl) as (id & ev & pl & now & caps & w' & H & _ & _ & _ & Hdup).
  destruct (Hdup w' eq_refl) as (w3 & H3 & _). by exists id, w', w3.
Defined.

(** Command 2 asks for operation 51 of the post command 1 already captured. *)
Definition captured_world : World :=
  (@deliver sample_env sample_report_contracts (sample_command 1 50) (sample_world empty_db)).2.

Lemma deliver_existing_key_keeps_operation_witness :
  exists id w', @deliver sample_env sample_report_contracts (sample_command 2 51) captured_world
      = (Ok (Accepted id), w')
    /\ forall id' row', captures (w_db w') !! id' = Some row' -> c_operation_id row' <> Some 51%N.
Proof.
  destruct (capture_by_key (w_db captured_world) 7 "sha256:ab") as [[id row]|] eqn:E;
    [|vm_compute in E; discriminate].
  destruct (@deliver_existing_key_keeps_operation sample_env sample_report_contracts _ _ _ _
    (sample_command 2 51) captured_world id row) as (w' & H & _ & Hno);
    [vm_compute; reflexivity..|exact E| |by exists id, w'].
  intros id' row' Hl. assert (captures (w_db captured_world)
    = {[1000%N := row_of_command (sample_command 1 50) 0%Z]}) as Hc by (vm_compute; reflexivity).
  rewrite Hc in Hl. apply lookup_singleton_Some in Hl as [_ <-]. vm_compute. congruence.
Defined.

End BrowserCapture.
