(* ===== verification/RawObjects.v ===== *)
(** The content-addressed raw-evidence directory
    (src/crates/threads-archive/src/public_resolution/raw_object_store.rs and
    raw_object_delete.rs), with the refusals of public resolution it returns.

    Files are named by their path below the store's root. Each file operation is a
    step the environment may fail; a failed write may leave a prefix behind. *)
From S2P Require Import Prelude Schema Store RelationGraph Publishing.

Module RawObjects.
Import Schema Store.
Local Open Scope string_scope.
Local Open Scope store_scope.

(** [PublicResolutionError] of public_resolution.rs. *)
Inductive PublicResolutionError :=
| InvalidJson
| MissingField (name : string)
| WrongProvider
| PermalinkMismatch
| UnsupportedEndpoint
| Network
| ProviderStatus (status : Z)
| UnexpectedContentType
| ResponseTooLarge
| RelationSourceMismatch
| TooManyRelations
| RelationGraphInvalid (e : RelationGraph.RelationGraphError)
| RawStorage
| RawDigestMismatch
| ResolutionPersistence (e : SqlError).

Record StoredRaw := mk_stored_raw {
  sr_blob_ref : string;
  sr_content_hash : string;
  sr_byte_size : Z;
  sr_media_type : string;
}.

Definition size_exceeds_bigint : PublicResolutionError :=
  ResolutionPersistence (Configuration "raw response size exceeds bigint").

(** [raw_object_delete::hex]. *)
Definition raw_hex (bytes : string) : string := Publishing.hex bytes.

Definition object_path (digest : string) : string := "sha256/" +:+ digest.
Definition blob_ref_of (digest : string) : string := "threads-archive/raw/sha256/" +:+ digest.

Section WithEnv.
Context {Henv : Env}.

Abbreviation IO A := (M PublicResolutionError A).

Definition with_files (fs : gmap string string) (w : World) : World :=
  mkWorld (w_db w) (w_tick w) (w_minted w) (w_txn w) fs (w_bus w).

(** * File operations of the standard library *)

(** An operation that changes no file: [create_dir_all], [sync_all]. *)
Definition fs_step : IO () :=
  fun w => match io (w_tick w) with
           | IoOk => (Ok (), tick w)
           | _ => (Err RawStorage, tick w)
           end.

Definition fs_try_exists (path : string) : IO bool :=
  fun w => match io (w_tick w) with
           | IoOk => (Ok (bool_decide (is_Some (w_files w !! path))), tick w)
           | _ => (Err RawStorage, tick w)
           end.

Definition fs_read (path : string) : IO string :=
  fun w => match io (w_tick w), w_files w !! path with
           | IoOk, Some bytes => (Ok bytes, tick w)
           | _, _ => (Err RawStorage, tick w)
           end.

(** [OpenOptions::create_new]: [false] is [AlreadyExists]. *)
Definition fs_create_new (path : string) : IO bool :=
  fun w => match io (w_tick w) with
           | IoOk => if bool_decide (is_Some (w_files w !! path)) then (Ok false, tick w)
                     else (Ok true, tick (with_files (<[path := ""]> (w_files w)) w))
           | _ => (Err RawStorage, tick w)
           end.

(** [write_all] on a handle positioned at the end of the file. *)
Definition fs_write_all (path bytes : string) : IO () :=
  fun w =>
    let append data := with_files (alter (fun c => c +:+ data) path (w_files w)) w in
    match io (w_tick w) with
    | IoOk => (Ok (), tick (append bytes))
    | IoError => (Err RawStorage, tick w)
    | IoPartial n => (Err RawStorage, tick (append (String.substring 0 n bytes)))
    end.

Definition fs_remove_file (path : string) : IO () :=
  fun w => match io (w_tick w), w_files w !! path with
           | IoOk, Some _ => (Ok (), tick (with_files (base.delete path (w_files w)) w))
           | _, _ => (Err RawStorage, tick w)
           end.

(** [hard_link]: [false] is [AlreadyExists]. *)
Definition fs_hard_link (source target : string) : IO bool :=
  fun w => match io (w_tick w), w_files w !! source, w_files w !! target with
           | IoOk, Some bytes, None => (Ok true, tick (with_files (<[target := bytes]> (w_files w)) w))
           | IoOk, Some _, Some _ => (Ok false, tick w)
           | _, _, _ => (Err RawStorage, tick w)
           end.

(** * The store *)

Definition verify_raw_object (path expected_hash : string) : IO () :=
  let* existing := fs_read path in
  if bool_decide (sha256 existing = expected_hash) then ret () else throw RawDigestMismatch.

Definition create_once (path bytes content_hash : string) : IO () :=
  fs_step ;;;
  let* created := fs_create_new path in
  if created then fs_write_all path bytes ;;; fs_step
  else verify_raw_object path content_hash.

(** [RawObjectStore::store]. *)
Definition store (bytes : string) : IO StoredRaw :=
  let content_hash := sha256 bytes in
  let digest := raw_hex content_hash in
  let path := object_path digest in
  let byte_size := Z.of_nat (String.length bytes) in
  if (i64_max <? byte_size)%Z then throw size_exceeds_bigint else
  let* exists_ := fs_try_exists path in
  (if exists_ then verify_raw_object path content_hash else create_once path bytes content_hash) ;;;
  ret (mk_stored_raw (blob_ref_of digest) content_hash byte_size "application/json").

(** [RawObjectStore::read_verified]. *)
Definition read_verified (blob_ref content_hash : string) : IO string :=
  let digest := raw_hex content_hash in
  if negb (bool_decide (blob_ref = blob_ref_of digest)) then throw RawDigestMismatch else
  let* bytes := fs_read (object_path digest) in
  if bool_decide (sha256 bytes = content_hash) then ret bytes else throw RawDigestMismatch.

(** A reader: the results of its successive [read] calls; an empty one or the end is EOF. *)
Abbreviation Reader := (list (option string)).

(** A byte slice as a reader: every [read] fills the buffer of [copy_and_hash] or ends the slice. *)
Definition BUFFER : nat := 16 * 1024.

Fixpoint slice_reader_from (fuel : nat) (body : string) : Reader :=
  match fuel with
  | O => []
  | S fuel => if bool_decide (body = "") then [] else
      Some (String.substring 0 BUFFER body)
        :: slice_reader_from fuel (String.substring BUFFER (String.length body) body)
  end.
Definition slice_reader (body : string) : Reader := slice_reader_from (String.length body) body.

(** The loop of [copy_and_hash]; [acc] is what was hashed and written so far. *)
Fixpoint copy_loop (reader : Reader) (output : string) (max_bytes byte_size : Z) (acc : string)
  : IO (string * Z) :=
  match reader with
  | [] => ret (acc, byte_size)
  | None :: _ => throw RawStorage
  | Some chunk :: rest =>
      if bool_decide (chunk = "") then ret (acc, byte_size) else
      match checked_add u64_max byte_size (Z.of_nat (String.length chunk)) with
      | None => throw size_exceeds_bigint
      | Some total =>
          if (max_bytes <? total)%Z || (i64_max <? total)%Z
          then throw (ResolutionPersistence (Configuration "raw response exceeds configured limit"))
          else fs_write_all output chunk ;;; copy_loop rest output max_bytes total (acc +:+ chunk)
      end
  end.

(** [copy_and_hash]. *)
Definition copy_and_hash (reader : Reader) (output : string) (max_bytes : Z) : IO (string * Z) :=
  let* (bytes, byte_size) := copy_loop reader output max_bytes 0 "" in
  if (i64_max <? byte_size)%Z then throw size_exceeds_bigint else ret (sha256 bytes, byte_size).

Definition temporary_path : IO string :=
  let* id := now_v7 in ret ("tmp/" +:+ show_uuid id).

Definition create_temporary (path : string) : IO () :=
  fs_step ;;;
  let* created := fs_create_new path in
  if created then ret () else throw RawStorage.

Definition promote_temporary (temporary path content_hash : string) : IO () :=
  fs_step ;;;
  let* linked := fs_hard_link temporary path in
  if linked then fs_remove_file temporary
  else fs_remove_file temporary ;;; verify_raw_object path content_hash.

(** [RawObjectStore::store_stream]. *)
Definition store_stream (reader : Reader) (max_bytes : Z) (media_type : string) : IO StoredRaw :=
  let* temporary := temporary_path in
  create_temporary temporary ;;;
  let* copied := attempt (copy_and_hash reader temporary max_bytes) in
  match copied with
  | Err error => fs_remove_file temporary ;;; throw error
  | Ok (content_hash, byte_size) =>
      fs_step ;;;
      let digest := raw_hex content_hash in
      promote_temporary temporary (object_path digest) content_hash ;;;
      ret (mk_stored_raw (blob_ref_of digest) content_hash byte_size media_type)
  end.

(** [RawObjectStore::delete_if_matches]. *)
Definition delete_if_matches (blob_ref content_hash : string) : IO () :=
  let digest := raw_hex content_hash in
  if negb (bool_decide (blob_ref = blob_ref_of digest)) then throw RawDigestMismatch else
  let path := object_path digest in
  let* present := fs_try_exists path in
  if negb present then ret () else
  verify_raw_object path content_hash ;;;
  fs_remove_file path ;;;
  let* remains := fs_try_exists path in
  if remains then throw RawStorage else ret ().

(** * What the operations do to the directory *)

Definition keeps_objects (w w' : World) : Prop :=
  w_files w ⊆ w_files w' /\ w_db w' = w_db w.

Lemma verify_raw_object_frame path hash w r w' :
  verify_raw_object path hash w = (r, w') ->
  w_files w' = w_files w /\ w_db w' = w_db w
  /\ (r = Ok () -> exists c, w_files w !! path = Some c /\ sha256 c = hash).
Proof.
  unfold verify_raw_object, fs_read, bind. intros H.
  destruct (io (w_tick w)), (w_files w !! path) eqn:E; try (by simplify_eq/=).
  case_bool_decide; unfold ret, throw in H; simplify_eq/=; split_and!; naive_solver.
Qed.

Lemma create_once_frame path bytes hash w r w' :
  create_once path bytes hash w = (r, w') -> sha256 bytes = hash ->
  keeps_objects w w'
  /\ (r = Ok () -> exists c, w_files w' !! path = Some c /\ sha256 c = hash).
Proof.
  unfold create_once, fs_step, fs_create_new, fs_write_all, keeps_objects. intros H Hhash.
  unfold bind in H at 1. destruct (io (w_tick w)); try (by simplify_eq/=).
  unfold bind in H at 1. simpl in H. destruct (io _); try (by simplify_eq/=).
  destruct (bool_decide_reflect (is_Some (w_files w !! path))) as [Hs|Hn]; simpl in H.
  { apply verify_raw_object_frame in H as (-> & -> & H). split; [done|]. simpl in *. naive_solver. }
  apply eq_None_not_Some in Hn.
  assert (forall c, w_files w ⊆ alter (fun x => x +:+ c) path (<[path := ""]> (w_files w))) as Hsub.
  { intros c. rewrite alter_insert_eq. by apply insert_subseteq. }
  unfold bind in H. simpl in H. destruct (io _); simpl in H; [destruct (io _)|..];
    simplify_eq/=; split; try done; try (split; [by auto using insert_subseteq|done]).
  - intros _. rewrite alter_insert_eq, lookup_insert_eq. by eexists.
  - split; [by apply insert_subseteq|done].
Qed.

(** The sound part of [store]. *)
Lemma store_frame bytes w r w' :
  store bytes w = (r, w') ->
  keeps_objects w w' /\
  forall s, r = Ok s ->
    s = mk_stored_raw (blob_ref_of (raw_hex (sha256 bytes))) (sha256 bytes)
          (Z.of_nat (String.length bytes)) "application/json"
    /\ exists c, w_files w' !! object_path (raw_hex (sha256 bytes)) = Some c /\ sha256 c = sha256 bytes.
Proof.
  unfold store, fs_try_exists. destruct (i64_max <? _)%Z.
  { unfold throw. intros; by simplify_eq. }
  unfold bind. destruct (io (w_tick w)); try (intros; by simplify_eq).
  destruct (bool_decide _).
  - destruct (verify_raw_object _ _ _) as [[[]|e] w1] eqn:E;
      apply verify_raw_object_frame in E as (Hf & Hd & H); unfold keeps_objects, ret;
      intros; simplify_eq/=; rewrite Hf, Hd; naive_solver.
  - destruct (create_once _ _ _ _) as [[[]|e] w1] eqn:E;
      apply create_once_frame in E as ([Hf Hd] & H); try done; unfold keeps_objects, ret;
      intros; simplify_eq/=; naive_solver.
Qed.

(** Raw evidence is immutable and verified: storing a response never changes or removes an
    object that is already there, whatever file operations fail, and a successful store leaves at
    the digest path an object with exactly the digest and size it returns. *)
Theorem store_immutable bytes w :
  keeps_objects w (store bytes w).2 /\
  forall r, (store bytes w).1 = Ok r ->
    sr_content_hash r = sha256 bytes /\ sr_byte_size r = Z.of_nat (String.length bytes)
    /\ sr_blob_ref r = blob_ref_of (raw_hex (sha256 bytes))
    /\ exists c, w_files (store bytes w).2 !! object_path (raw_hex (sha256 bytes)) = Some c
         /\ sha256 c = sha256 bytes.
Proof.
  destruct (store bytes w) as [r w'] eqn:E. apply store_frame in E as [Hk Hr]. split; [done|].
  intros s Hs. simpl in *. apply Hr in Hs as [-> Hc]. done.
Qed.

Lemma delete_frame blob_ref hash w :
  let w' := (delete_if_matches blob_ref hash w).2 in
  let path := object_path (raw_hex hash) in
  (w_files w' = w_files w
   \/ (blob_ref = blob_ref_of (raw_hex hash)
       /\ (exists c, w_files w !! path = Some c /\ sha256 c = hash)
       /\ w_files w' = base.delete path (w_files w)))
  /\ w_db w' = w_db w
  /\ ((delete_if_matches blob_ref hash w).1 = Ok () -> w_files w' !! path = None).
Proof.
  unfold delete_if_matches, fs_try_exists, fs_remove_file. cbv zeta.
  destruct (bool_decide_reflect (blob_ref = blob_ref_of (raw_hex hash))) as [Hb|]; simpl;
    [|by split_and!; [left| |]].
  unfold bind. destruct (io (w_tick w)); try by split_and!; [left| |].
  case_bool_decide as Hex; simpl; [|by split_and!; [left| |intros _; apply eq_None_not_Some]].
  destruct (verify_raw_object _ _ _) as [[[]|e] w1] eqn:E;
    apply verify_raw_object_frame in E as (Hf & Hd & Hv); simpl in *; [|by split_and!; [left| |]].
  destruct (Hv eq_refl) as (c & Hc & Hhash). rewrite Hf, Hc.
  destruct (io (w_tick w1)); simpl; try (by split_and!; [left| |]).
  assert (base.delete (object_path (raw_hex hash)) (w_files w)
    !! object_path (raw_hex hash) = None) as Hgone by apply lookup_delete_eq.
  destruct (io _); simpl; [rewrite bool_decide_eq_false_2 by (rewrite Hgone; by intros []); simpl|..];
    (split_and!; [right; eauto|done|done]).
Qed.

(** Deletion removes exactly the object it was asked for: whatever file operations fail,
    the directory is unchanged or has lost only the object whose reference and current bytes
    match the digest, and success means that nothing is left at its path. *)
Theorem delete_exact blob_ref hash w :
  let w' := (delete_if_matches blob_ref hash w).2 in
  let path := object_path (raw_hex hash) in
  (w_files w' = w_files w
   \/ (blob_ref = blob_ref_of (raw_hex hash)
       /\ (exists c, w_files w !! path = Some c /\ sha256 c = hash)
       /\ w_files w' = base.delete path (w_files w)))
  /\ w_db w' = w_db w
  /\ ((delete_if_matches blob_ref hash w).1 = Ok () -> w_files w' !! path = None).
Proof. apply delete_frame. Qed.

(** * Streamed objects *)

(** Stored objects of any digest stay as they are. *)
Definition keeps_stored (fs fs' : gmap string string) : Prop :=
  forall digest c, fs !! object_path digest = Some c -> fs' !! object_path digest = Some c.

(** What a reader yields before its end of file. *)
Fixpoint reader_bytes (reader : Reader) : string :=
  match reader with
  | Some chunk :: rest => if bool_decide (chunk = "") then "" else chunk +:+ reader_bytes rest
  | _ => ""
  end.

Lemma copy_loop_frame output max_bytes reader : forall byte_size acc w r w',
  w_files w !! output = Some acc -> byte_size = Z.of_nat (String.length acc) -> (byte_size <= max_bytes)%Z ->
  copy_loop reader output max_bytes byte_size acc w = (r, w') ->
  w_db w' = w_db w /\ exists c, w_files w' = <[output := c]> (w_files w)
    /\ forall b n, r = Ok (b, n) -> c = b /\ b = acc +:+ reader_bytes reader
         /\ n = Z.of_nat (String.length b) /\ (n <= max_bytes)%Z.
Proof.
  induction reader as [|[chunk|] rest IH]; intros size acc w r w' Ho Hsize Hmax; simpl.
  - unfold ret. intros; simplify_eq. split; [done|]. exists acc. rewrite insert_id by done. split; [done|].
    intros b n [= <- <-]. by rewrite append_nil_r.
  - case_bool_decide as Hc.
    { unfold ret. intros; simplify_eq. split; [done|]. exists acc. rewrite insert_id by done.
      split; [done|]. intros b n [= <- <-]. by rewrite append_nil_r. }
    assert (exists c, w_files w = <[output := c]> (w_files w)) as Hkeep
      by (exists acc; by rewrite insert_id).
    destruct (checked_add _ _ _) as [total|] eqn:Ea;
      [|unfold throw; intros; simplify_eq; split; [done|]; destruct Hkeep as [c ?]; by exists c].
    apply checked_add_Some in Ea as [-> _].
    destruct (_ || _) eqn:Elim;
      [unfold throw; intros; simplify_eq; split; [done|]; destruct Hkeep as [c ?]; by exists c|].
    assert (forall data, alter (fun c => c +:+ data) output (w_files w) = <[output := acc +:+ data]> (w_files w)) as Halt.
    { intros data. apply map_eq. intros k. destruct (decide (k = output)) as [->|Hk].
      - by rewrite lookup_alter_eq, lookup_insert_eq, Ho.
      - by rewrite lookup_alter_ne, lookup_insert_ne. }
    unfold bind, fs_write_all. destruct (io (w_tick w)) as [| |k]; intros H; simplify_eq/=.
    + rewrite Halt in H. eapply IH in H; simpl; [|by rewrite lookup_insert_eq|rewrite length_append; lia|lia].
      destruct H as (Hd & c & Hf & Hr). simpl in *. split; [done|]. exists c. rewrite insert_insert_eq in Hf.
      split; [done|]. intros b n Hb. destruct (Hr b n Hb) as (-> & -> & ? & ?).
      split_and!; [done|by rewrite append_assoc|done|done].
    + split; [done|]. destruct Hkeep as [c ?]. by exists c.
    + split; [done|]. exists (acc +:+ String.substring 0 k chunk). by rewrite Halt.
  - unfold throw. intros; simplify_eq. split; [done|]. exists acc. by rewrite insert_id.
Qed.

Lemma substring_all b : forall m, (String.length b <= m)%nat -> String.substring 0 m b = b.
Proof.
  induction b as [|c b IH]; intros [|m] H; simpl in *; [done|done|lia|]. by rewrite IH by lia.
Qed.

Lemma substring_split n : forall body m, (String.length body <= m)%nat ->
  String.substring 0 n body +:+ String.substring n m body = body.
Proof.
  induction n as [|n IH]; intros body m Hm.
  - replace (String.substring 0 0 body) with "" by (by destruct body). by apply substring_all.
  - destruct body as [|c body]; [by destruct m|]. simpl in *. by rewrite IH by lia.
Qed.

Lemma substring_length_tail n body m : (0 < n)%nat -> body <> "" ->
  (String.length (String.substring n m body) < String.length body)%nat.
Proof.
  intros Hn Hb. destruct body as [|c body]; [done|]. destruct n as [|n]; [lia|]. simpl. clear Hn Hb.
  revert body m. induction n as [|n IH]; intros body m.
  - revert m. induction body as [|c' body IH']; intros [|m]; simpl; try lia. specialize (IH' m). lia.
  - destruct body as [|c' body]; simpl; [destruct m; simpl; lia|]. specialize (IH body m). lia.
Qed.

Lemma slice_reader_bytes body : reader_bytes (slice_reader body) = body.
Proof.
  unfold slice_reader. assert (forall fuel b, (String.length b <= fuel)%nat ->
    reader_bytes (slice_reader_from fuel b) = b) as H; [|by apply H].
  induction fuel as [|fuel IH]; intros b Hb; [by destruct b; simpl in *; [|lia]|].
  cbn [slice_reader_from]. case_bool_decide as Hne; [by subst|]. cbn [reader_bytes].
  assert (exists n, BUFFER = S n) as [n Hn] by (exists (Nat.pred BUFFER); by vm_compute).
  assert (String.substring 0 BUFFER b <> "") as Hc by (rewrite Hn; by destruct b).
  rewrite bool_decide_eq_false_2 by done. rewrite IH.
  - by apply substring_split.
  - pose proof (substring_length_tail BUFFER b (String.length b)) as Ht. specialize (Ht ltac:(lia) Hne). lia.
Qed.

(** A path outside the directory of objects. *)
Definition outside (tmp : string) : Prop := forall digest, object_path digest <> tmp.

Lemma outside_tmp id : outside ("tmp/" +:+ id).
Proof. by intros digest. Qed.

Lemma keeps_stored_tmp fs tmp c : outside tmp -> keeps_stored fs (<[tmp := c]> fs).
Proof. intros Ht digest c' H. by rewrite lookup_insert_ne. Qed.

Lemma keeps_stored_delete fs tmp : outside tmp -> keeps_stored fs (base.delete tmp fs).
Proof. intros Ht digest c' H. by rewrite lookup_delete_ne. Qed.

#[global] Instance keeps_stored_refl : Reflexive keeps_stored.
Proof. by intros fs d c. Qed.

Lemma keeps_stored_trans fs1 fs2 fs3 : keeps_stored fs1 fs2 -> keeps_stored fs2 fs3 -> keeps_stored fs1 fs3.
Proof. intros H1 H2 digest c H. by apply H2, H1. Qed.

Lemma fs_remove_frame path w r w' : fs_remove_file path w = (r, w') ->
  w_db w' = w_db w /\ (w_files w' = w_files w \/ w_files w' = base.delete path (w_files w)).
Proof.
  unfold fs_remove_file. destruct (io (w_tick w)), (w_files w !! path); intros; simplify_eq/=; auto.
Qed.

(** Promotion of a complete temporary object. *)
Lemma promote_frame tmp bytes digest hash w r w' : outside tmp ->
  w_files w !! tmp = Some bytes -> sha256 bytes = hash ->
  promote_temporary tmp (object_path digest) hash w = (r, w') ->
  w_db w' = w_db w /\ keeps_stored (w_files w) (w_files w')
  /\ (r = Ok () -> exists c, w_files w' !! object_path digest = Some c /\ sha256 c = hash).
Proof.
  intros Ht Hb Hh. unfold promote_temporary, fs_step. unfold bind at 1.
  destruct (io (w_tick w)); try (intros; simplify_eq/=; by split_and!).
  unfold bind at 1, fs_hard_link. simpl. rewrite Hb.
  destruct (io (S (w_tick w))); try (intros; simplify_eq/=; by split_and!).
  destruct (w_files w !! object_path digest) as [old|] eqn:Eold.
  - unfold bind. destruct (fs_remove_file _ _) as [[[]|e] w1] eqn:Er;
      apply fs_remove_frame in Er as [Hd1 Hf1]; simpl in *.
    + intros (Hf2 & Hd2 & Hv)%verify_raw_object_frame. rewrite Hf2, Hd2, Hd1.
      assert (keeps_stored (w_files w) (w_files w1)) as Hk.
      { destruct Hf1 as [-> | ->]; [by intros d c|by apply keeps_stored_delete]. }
      split_and!; [done|done|]. intros Hr. destruct (Hv Hr) as (c & Hc & Hs). by exists c.
    + intros; simplify_eq. split_and!; [done| |done].
      destruct Hf1 as [-> | ->]; [by intros d c|by apply keeps_stored_delete].
  - intros (Hd1 & Hf1)%fs_remove_frame. simpl in *.
    assert (keeps_stored (w_files w) (<[object_path digest := bytes]> (w_files w))) as Hk.
    { intros d c Hc. destruct (decide (object_path d = object_path digest)) as [E|]; [congruence|].
      by rewrite lookup_insert_ne. }
    split_and!; [done| |].
    + destruct Hf1 as [-> | ->]; [done|]. eapply keeps_stored_trans; [exact Hk|by apply keeps_stored_delete].
    + intros _. exists bytes. split; [|done]. destruct Hf1 as [-> | ->]; [apply lookup_insert_eq|].
      rewrite lookup_delete_ne by (by apply not_eq_sym). apply lookup_insert_eq.
Qed.

(** The sound part of [store_stream], whatever file operations fail. *)
Lemma store_stream_frame reader max_bytes media_type w r w' : (0 <= max_bytes)%Z ->
  store_stream reader max_bytes media_type w = (r, w') ->
  w_db w' = w_db w /\ keeps_stored (w_files w) (w_files w')
  /\ forall s, r = Ok s ->
       s = mk_stored_raw (blob_ref_of (raw_hex (sha256 (reader_bytes reader)))) (sha256 (reader_bytes reader))
             (Z.of_nat (String.length (reader_bytes reader))) media_type
       /\ (sr_byte_size s <= max_bytes)%Z
       /\ exists c, w_files w' !! object_path (raw_hex (sha256 (reader_bytes reader))) = Some c
            /\ sha256 c = sha256 (reader_bytes reader).
Proof.
  intros Hmax. unfold store_stream. unfold bind at 1, temporary_path, bind at 1, now_v7, ret at 1.
  cbv beta iota.
  generalize (outside_tmp (show_uuid (mint (w_minted w)))). generalize ("tmp/" +:+ show_uuid (mint (w_minted w))).
  intros tmp Ht.
  unfold bind at 1, create_temporary, fs_step, bind at 1. simpl.
  destruct (io (w_tick w)); try (intros; simplify_eq/=; by split_and!).
  unfold bind at 1, fs_create_new. simpl. destruct (io (S (w_tick w))); try (intros; simplify_eq/=; by split_and!).
  case_bool_decide as Hex; [unfold throw; intros; simplify_eq/=; by split_and!|]. simpl. clear Hex.
  unfold bind at 1, attempt. match goal with |- context [copy_and_hash ?a ?b ?c ?w1] =>
    destruct (copy_and_hash a b c w1) as [copied w2] eqn:Ec end. revert Ec. unfold copy_and_hash, bind. match goal with |- context [copy_loop ?a ?b ?c ?d ?e ?w1] =>
    destruct (copy_loop a b c d e w1) as [loop w3] eqn:El end.
  apply copy_loop_frame in El as (Hd3 & c & Hf3 & Hr3); [|apply lookup_insert_eq|done|done].
  simpl in Hd3, Hf3. rewrite insert_insert_eq in Hf3.
  assert (keeps_stored (w_files w) (w_files w3)) as Hk3 by (rewrite Hf3; by apply keeps_stored_tmp).
  assert (forall e, (fs_remove_file tmp ;;; throw (A := StoredRaw) e) w3 = (r, w') ->
    w_db w' = w_db w /\ keeps_stored (w_files w) (w_files w') /\ forall s, r <> Ok s) as Hfail.
  { intros e. unfold bind. destruct (fs_remove_file _ w3) as [[[]|e'] w4] eqn:Erem;
      apply fs_remove_frame in Erem as [Hd4 Hf4]; unfold throw; intros; simplify_eq;
      (split_and!; [congruence| |done]; destruct Hf4 as [-> | ->];
        [done|eapply keeps_stored_trans; [exact Hk3|by apply keeps_stored_delete]]). }
  destruct loop as [[b n]|e].
  2: { intros [= <- <-] H. apply Hfail in H as (? & ? & Hno). split_and!; [done..|]. intros s ->. by destruct (Hno s). }
  destruct (i64_max <? n)%Z.
  { unfold throw. intros [= <- <-] H. apply Hfail in H as (? & ? & Hno). split_and!; [done..|].
    intros s ->. by destruct (Hno s). }
  unfold ret. intros [= <- <-]. destruct (Hr3 b n eq_refl) as (-> & -> & -> & Hle). simpl in *.
  destruct (io (w_tick w3));
    try (intros; simplify_eq/=; split_and!; [congruence|done|done]).
  match goal with |- context [promote_temporary ?a ?b ?c ?w1] =>
    destruct (promote_temporary a b c w1) as [promoted w4] eqn:Ep end.
  apply (promote_frame _ (reader_bytes reader)) in Ep as (Hd4 & Hk4 & Hp); simpl in *;
    [|done|rewrite Hf3; apply lookup_insert_eq|done].
  assert (keeps_stored (w_files w) (w_files w4)) as Hk by (eapply keeps_stored_trans; eassumption).
  destruct promoted as [[]|e]; unfold ret; intros; simplify_eq; (split_and!; [congruence|done|]); [|done].
  intros s [= <-]. split; [done|]. split; [done|]. by apply Hp.
Qed.

(** The directory serves every file operation. *)
Definition io_healthy : Prop := forall n, io n = IoOk.

(** Storing and reading back: on a working directory that does not hold the response yet,
    a store succeeds and a verified read of what it returned yields the stored bytes. *)
Theorem store_read_roundtrip bytes w :
  io_healthy -> (Z.of_nat (String.length bytes) <= i64_max)%Z ->
  w_files w !! object_path (raw_hex (sha256 bytes)) = None ->
  exists r w' w'', store bytes w = (Ok r, w')
    /\ read_verified (sr_blob_ref r) (sr_content_hash r) w' = (Ok bytes, w'').
Proof.
  intros Hio Hlen Hnone. unfold store, create_once, fs_try_exists, fs_step, fs_create_new,
    fs_write_all, read_verified, fs_read, bind.
  rewrite (proj2 (Z.ltb_ge _ _) Hlen), Hio, bool_decide_eq_false_2 by (by rewrite Hnone; intros []).
  simpl. rewrite !Hio. simpl. rewrite bool_decide_eq_false_2 by (by rewrite Hnone; intros []).
  simpl. rewrite !Hio. simpl. do 3 eexists. split; [reflexivity|].
  cbn [sr_blob_ref sr_content_hash]. rewrite bool_decide_eq_true_2 by done. cbn [negb w_files w_tick tick with_files].
  rewrite Hio, alter_insert_eq, lookup_insert_eq. cbv beta iota. by rewrite bool_decide_eq_true_2.
Qed.

(** An interrupted store is never repaired: bytes are written in place at the digest path,
    so a write that stored only a prefix leaves an object whose digest does not match, and every
    later store of the same response fails, also when all file operations succeed. *)
Theorem interrupted_store_is_permanent bytes w n :
  w_files w !! object_path (raw_hex (sha256 bytes)) = None ->
  (Z.of_nat (String.length bytes) <= i64_max)%Z ->
  io (w_tick w) = IoOk -> io (S (w_tick w)) = IoOk -> io (S (S (w_tick w))) = IoOk ->
  io (S (S (S (w_tick w)))) = IoPartial n ->
  sha256 (String.substring 0 n bytes) <> sha256 bytes ->
  (store bytes w).1 = Err RawStorage /\
  forall w2, w_files (store bytes w).2 ⊆ w_files w2 ->
    exists e, (store bytes w2).1 = Err e.
Proof.
  intros Hnone Hlen H0 H1 H2 H3 Hne. set (path := object_path (raw_hex (sha256 bytes))) in *.
  assert (store bytes w = (Err RawStorage, tick (with_files
    (<[path := String.substring 0 n bytes]> (w_files w)) (tick (tick (tick w)))))) as ->.
  { unfold store, create_once, fs_try_exists, fs_step, fs_create_new, fs_write_all, bind.
    rewrite (proj2 (Z.ltb_ge _ _) Hlen), H0. fold path.
    rewrite bool_decide_eq_false_2 by (by rewrite Hnone; intros []). simpl. rewrite H1. simpl.
    rewrite H2, bool_decide_eq_false_2 by (by rewrite Hnone; intros []). simpl. rewrite H3.
    by rewrite alter_insert_eq. }
  split; [done|]. simpl. intros w2 Hsub.
  assert (w_files w2 !! path = Some (String.substring 0 n bytes)) as Hbad.
  { eapply lookup_weaken; [|exact Hsub]. apply lookup_insert_eq. }
  destruct (store bytes w2) as [[r|e] w'] eqn:E; [exfalso|by eexists].
  apply store_frame in E as [[Hk _] Hr]. destruct (Hr r eq_refl) as (_ & c & Hc & Hhash).
  eapply lookup_weaken in Hbad; [|exact Hk]. fold path in Hc. congruence.
Qed.

End WithEnv.

(** * Witnesses *)

Lemma store_read_roundtrip_witness :
  exists r w' w'', @store sample_env "{}" (sample_world empty_db) = (Ok r, w')
    /\ @read_verified sample_env (sr_blob_ref r) (sr_content_hash r) w' = (Ok "{}", w'').
Proof.
  apply (@store_read_roundtrip sample_env "{}" (sample_world empty_db)); [done| |reflexivity].
  vm_compute. discriminate.
Defined.

(** The fourth file operation stores one byte and fails. *)
Definition interrupted_env : Env := {|
  fault := fun _ => Delivered;
  io := fun n => if (n =? 3)%nat then IoPartial 1 else IoOk;
  bus := fun _ => Delivered; clock := @clock sample_env; mint := @mint sample_env; show_uuid := @show_uuid sample_env;
  new_v5 := @new_v5 sample_env; sha256 := @sha256 sample_env;
|}.

Lemma interrupted_store_is_permanent_witness :
  exists e, (@store interrupted_env "{}" (@store interrupted_env "{}" (sample_world empty_db)).2).1 = Err e.
Proof.
  apply (@interrupted_store_is_permanent interrupted_env "{}" (sample_world empty_db) 1);
    try reflexivity.
  - vm_compute. discriminate.
  - vm_compute. discriminate.
Defined.

End RawObjects.
