(* ===== verification/PublicResolution.v ===== *)
(** Public oEmbed resolution (src/crates/threads-archive/src/public_resolution.rs):
    fetching and parsing one observation, and recording it with its raw evidence,
    relations and published fact in one transaction.

    The HTTP client, the URL parser and the JSON parser are parameters ([Web]). *)
From S2P Require Import Prelude Permalink Relation RelationGraph Schema Store Publishing Capture RawObjects.

Module PublicResolution.
Import Schema Store RawObjects RelationGraph.
Local Open Scope string_scope.
Local Open Scope store_scope.

Definition PARSER_VERSION : string := "threads-oembed-v1".
Definition MAX_RELATIONS_PER_OBSERVATION : nat := 128.
Definition MAX_OEMBED_RESPONSE_BYTES : nat := 256 * 1024.

Record UrlParts := mk_url {
  url_scheme : string;
  url_host : option string;
  url_path : string;
  url_query : option string;
}.

(** What the provider answers to one request: a status, headers, and the chunks of the body,
    [None] being a failed read. *)
Record HttpResponse := mk_response {
  hr_status : Z;
  hr_content_type : option string;
  hr_content_length : option Z;
  hr_chunks : list (option string);
}.

Class Web := {
  url_parse : string -> option UrlParts;
  (* [serde_json::from_str], then [Value::get] and [as_str] of a member *)
  json_parse : string -> option (string -> option string);
  (* the [GET] of a permalink made at the n-th step; [None] is a transport failure *)
  http_get : nat -> string -> option HttpResponse;
}.

Record PublicPost := mk_public_post {
  pp_provider_post_id : string;
  pp_permalink : Permalink.Permalink;
  pp_embed_html : string;
  pp_parser_version : string;
  pp_relations : list RelationInput;
}.

Record PublicObservation := mk_public_observation {
  po_post : PublicPost;
  po_raw_response : string;
}.

Record StoredResolution := mk_stored_resolution {
  st_post_id : Uuid;
  st_raw_object_id : Uuid;
  st_revision_id : Uuid;
  st_observed_at : Time;
}.

Section Parsing.
Context {Hweb : Web}.

Definition string_field (value : string -> option string) (name : string)
  : Result PublicResolutionError string := ok_or (value name) (MissingField name).

(** [rsplit('/').next()]: the text after the last slash, or all of it. *)
Definition last_segment (s : string) : string :=
  match rsplit_once "/" s with
  | Some (_, tail) => tail
  | None => s
  end.

Definition parse_observation (requested : Permalink.Permalink) (payload : string)
  : Result PublicResolutionError PublicPost :=
  (let? value := ok_or (json_parse payload) InvalidJson in
   let? provider := string_field value "provider_name" in
   if negb (bool_decide (provider = "Threads")) then Err WrongProvider else
   let? url := string_field value "url" in
   let? canonical := map_err (fun _ => PermalinkMismatch) (Permalink.try_from url) in
   if negb (bool_decide (Permalink.as_str (Permalink.permalink canonical) = Permalink.as_str requested))
   then Err PermalinkMismatch else
   let? html := string_field value "html" in
   Ok (mk_public_post (last_segment (Permalink.as_str requested)) requested html PARSER_VERSION []))%rust.

Definition approved_endpoint (endpoint : UrlParts) : bool :=
  bool_decide (url_scheme endpoint = "https")
  && (bool_decide (url_host endpoint = Some "graph.threads.com")
      || bool_decide (url_host endpoint = Some "graph.threads.net"))
  && ends_with "/oembed" (url_path endpoint)
  && bool_decide (url_query endpoint = None).

Definition is_approved_endpoint (endpoint : string) : bool :=
  match url_parse endpoint with
  | Some url => approved_endpoint url
  | None => false
  end.

(** How the HTTP client is built; times in microseconds. *)
Record ClientOptions := mk_client_options {
  follow_redirects : bool;
  connect_timeout : Time;
  request_timeout : Time;
}.

Definition OEMBED_CONNECT_TIMEOUT : Time := seconds 3.
Definition OEMBED_REQUEST_TIMEOUT : Time := seconds 10.

Record ApprovedOembedClient := mk_client { oc_options : ClientOptions; oc_endpoint : UrlParts }.

(** [ApprovedOembedClient::new]; [build] says whether the HTTP library builds a client. *)
Definition new_client (build : ClientOptions -> bool) (endpoint : string)
  : Result PublicResolutionError ApprovedOembedClient :=
  match url_parse endpoint with
  | None => Err UnsupportedEndpoint
  | Some endpoint =>
      if negb (approved_endpoint endpoint) then Err UnsupportedEndpoint else
      let options := mk_client_options false OEMBED_CONNECT_TIMEOUT OEMBED_REQUEST_TIMEOUT in
      if build options then Ok (mk_client options endpoint) else Err Network
  end.

(** [ApprovedOembedClient::for_loopback_test]: the same client for a fake endpoint on the loopback
    interface. *)
Definition for_loopback_test (build : ClientOptions -> bool) (endpoint : string)
  : Result PublicResolutionError ApprovedOembedClient :=
  match url_parse endpoint with
  | None => Err UnsupportedEndpoint
  | Some endpoint =>
      if negb (bool_decide (url_scheme endpoint = "http")) || negb (bool_decide (url_host endpoint = Some "127.0.0.1"))
         || negb (ends_with "/oembed" (url_path endpoint))
      then Err UnsupportedEndpoint else
      let options := mk_client_options false OEMBED_CONNECT_TIMEOUT OEMBED_REQUEST_TIMEOUT in
      if build options then Ok (mk_client options endpoint) else Err Network
  end.

(** A client exists exactly for an approved endpoint the library accepts. *)
Lemma new_client_ok build endpoint : is_ok (new_client (fun _ => build) endpoint) = is_approved_endpoint endpoint && build.
Proof.
  unfold new_client, is_approved_endpoint. destruct (url_parse endpoint) as [u|]; [|done].
  by destruct (approved_endpoint u), build.
Qed.

(** Header values are visible ASCII with spaces and tabs. *)
Definition is_json (content_type : option string) : bool :=
  match content_type with
  | None => false
  | Some value =>
      let mime := trim (match split_once ";" value with Some (head, _) => head | None => value end) in
      eq_ignore_ascii_case mime "application/json" || ends_with "+json" mime
  end.

Fixpoint bounded_body_from (chunks : list (option string)) (bytes : string)
  : Result PublicResolutionError string :=
  match chunks with
  | [] => Ok bytes
  | None :: _ => Err Network
  | Some chunk :: rest =>
      if (MAX_OEMBED_RESPONSE_BYTES <? String.length bytes + String.length chunk)%nat
      then Err ResponseTooLarge
      else bounded_body_from rest (bytes +:+ chunk)
  end.

(** [bounded_body]. *)
Definition bounded_body (chunks : list (option string)) : Result PublicResolutionError string :=
  bounded_body_from chunks "".

(** The part of [resolve] after the response arrived. *)
Definition accept_response (permalink : Permalink.Permalink) (response : HttpResponse)
  : Result PublicResolutionError PublicObservation :=
  (if negb ((200 <=? hr_status response) && (hr_status response <? 300))%Z
   then Err (ProviderStatus (hr_status response)) else
   if negb (is_json (hr_content_type response)) then Err UnexpectedContentType else
   if default false ((fun l => Z.of_nat MAX_OEMBED_RESPONSE_BYTES <? l)%Z <$> hr_content_length response)
   then Err ResponseTooLarge else
   let? raw_response := bounded_body (hr_chunks response) in
   if negb (valid_utf8 raw_response) then Err InvalidJson else
   let? post := parse_observation permalink raw_response in
   Ok (mk_public_observation post raw_response))%rust.

End Parsing.

Definition validate_relation_sources (post : PublicPost) : Result PublicResolutionError () :=
  if (MAX_RELATIONS_PER_OBSERVATION <? length (pp_relations post))%nat then Err TooManyRelations
  else if existsb (fun r => negb (bool_decide
      (ri_referencing_provider_post_id r = pp_provider_post_id post))) (pp_relations post)
  then Err RelationSourceMismatch
  else Ok ().

(** The [Result] of [normalize_relations]; its fuel never runs out
    ([RelationGraph.normalize_relations_total]). *)
Definition normalized (known : gset string) (relations : list RelationInput)
  : Result PublicResolutionError (list GraphRelation) :=
  match normalize_relations known relations with
  | Some r => map_err RelationGraphInvalid r
  | None => Err (RelationGraphInvalid ReplyCycle)
  end.

(** * Statements of [record] and [record_relations] *)

Definition known_posts (d : db) : gset string :=
  list_to_set (omap (fun kv => p_provider_post_id kv.2) (map_to_list (posts d))).

(** The stored reply relations, by the provider identity of the referencing post. *)
Definition stored_replies (d : db) : list RelationInput :=
  omap (fun kv =>
    match posts d !! rel_referencing_post_id kv.2 with
    | Some source =>
        match p_provider_post_id source with
        | Some id => Some {| ri_referencing_provider_post_id := id;
                             ri_relation_kind := rel_relation_kind kv.2;
                             ri_target_provider_post_id := rel_target_provider_post_id kv.2;
                             ri_target_permalink := rel_target_permalink kv.2 |}
        | None => None
        end
    | None => None
    end) (select (post_relations d) (fun _ r => bool_decide (rel_relation_kind r = "reply"))).

Definition permalink_taken (d : db) (permalink : string) (except : option Uuid) : bool :=
  exists_where (posts d) (fun id p => bool_decide (p_permalink p = permalink)
                                      && negb (bool_decide (Some id = except))).

Definition observe_post (permalink html : string) (now : Time) (p : post_row) : post_row :=
  mk_post_row (p_account_id p) (p_provider_post_id p) permalink (p_post_kind p) (Some html)
    (p_published_at p) (p_acquisition_method p) (p_saved_authority p) (p_upstream_status p) now.

(** [insert into posts ... on conflict (provider_post_id) do update ... returning post_id]. *)
Definition upsert_post (new_id : Uuid) (post : PublicPost) (now : Time) (d : db)
  : Result SqlError (Uuid * db) :=
  let permalink := Permalink.as_str (pp_permalink post) in
  match post_by_provider_id d (pp_provider_post_id post) with
  | Some (id, p) =>
      if permalink_taken d permalink (Some id) then Err (UniqueViolation "posts_permalink_key")
      else Ok (id, set_posts (<[id := observe_post permalink (pp_embed_html post) now p]> (posts d)) d)
  | None =>
      if bool_decide (is_Some (posts d !! new_id)) then Err (UniqueViolation "posts_pkey")
      else if permalink_taken d permalink None then Err (UniqueViolation "posts_permalink_key")
      else Ok (new_id, set_posts (<[new_id := mk_post_row None (Some (pp_provider_post_id post))
        permalink "post" (Some (pp_embed_html post)) None "public_resolution" "explicit_user_capture"
        "active" now]> (posts d)) d)
  end.

(** The upsert of one relation row. *)
Definition upsert_relation (new_id post_id : Uuid) (target_post_id : option Uuid)
  (target_provider_post_id : string) (target_permalink : option string) (kind : string) (d : db)
  : Result SqlError db :=
  let same (_ : Uuid) (r : relation_row) :=
    bool_decide (rel_referencing_post_id r = post_id)
    && bool_decide (rel_target_provider_post_id r = target_provider_post_id)
    && bool_decide (rel_relation_kind r = kind) in
  match head (select (post_relations d) same) with
  | Some (id, r) => Ok (set_post_relations (<[id := mk_relation_row post_id target_post_id
      target_provider_post_id
      (match target_permalink with Some p => Some p | None => rel_target_permalink r end) kind]>
      (post_relations d)) d)
  | None =>
      if bool_decide (is_Some (post_relations d !! new_id)) then Err (UniqueViolation "post_relations_pkey")
      else if bool_decide (posts d !! post_id = None)
      then Err (ForeignKeyViolation "post_relations_referencing_post_id_fkey")
      else if negb (Relation.kind_regex kind) then Err (CheckViolation "post_relations_relation_kind_check")
      else Ok (set_post_relations (<[new_id := mk_relation_row post_id target_post_id
        target_provider_post_id target_permalink kind]> (post_relations d)) d)
  end.

Definition resolve_capture_row (post_id : Uuid) (c : capture_row) : capture_row :=
  mk_capture_row (c_user_ref c) (Some post_id) (c_idempotency_key c) (c_canonical_url c)
    (c_original_url c) (c_acquisition_method c) (c_saved_authority c) (c_client_source c)
    "resolved" (c_note c) (c_captured_at c) (c_next_resolution_at c) (c_operation_id c)
    (c_command_id c) (c_resolution_attempts c) (c_operation_reported_at c).

Section WithEnv.
Context {Henv : Env} {Hcon : Publishing.Contracts} {Hweb : Web}.

Abbreviation R A := (M PublicResolutionError A).

Definition record_relation (post_id : Uuid) (relation : GraphRelation) : R () :=
  let* target_post_id := mapErr ResolutionPersistence (read (fun _ d =>
    Ok (fst <$> post_by_provider_id d (gr_target_provider_post_id relation)))) in
  let target_permalink := match gr_target relation with
                          | GResolved => None
                          | GUnresolved permalink => permalink
                          end in
  let* id := now_v7 in
  mapErr ResolutionPersistence (execute (fun _ d =>
    upsert_relation id post_id target_post_id (gr_target_provider_post_id relation) target_permalink
      (Relation.kind_str (gr_relation_kind relation)) d)).

Definition record_relations (post_id : Uuid) (post : PublicPost) : R () :=
  mapErr ResolutionPersistence (read (fun _ _ => Ok ())) ;;;
  let* known := mapErr ResolutionPersistence (read (fun _ d => Ok (known_posts d))) in
  let* existing := mapErr ResolutionPersistence (read (fun _ d => Ok (stored_replies d))) in
  let all_replies := (existing ++ List.filter
    (fun r => bool_decide (ri_relation_kind r = "reply")) (pp_relations post))%list in
  lift (normalized known all_replies) ;;;
  let* relations := lift (normalized known (pp_relations post)) in
  forM_ relations (record_relation post_id).

(** The transaction of [record]. *)
Definition record_body (capture_id : Uuid) (post : PublicPost) (raw : StoredRaw)
  : R (Finish StoredResolution) :=
  let* raw_object_id := now_v7 in
  mapErr ResolutionPersistence (execute (fun now d =>
    insert_raw_object raw_object_id (mk_raw_object_row "oembed_response" (sr_blob_ref raw)
      (sr_content_hash raw) (sr_byte_size raw) (sr_media_type raw) now) d)) ;;;
  let* new_post_id := now_v7 in
  let* post_id := mapErr ResolutionPersistence (query (upsert_post new_post_id post)) in
  let* revision_id := now_v7 in
  let* observed_at := mapErr ResolutionPersistence (query (fun now d =>
    match insert_post_revision revision_id
            (mk_revision_row post_id raw_object_id (pp_parser_version post) now) d with
    | Ok d' => Ok (now, d')
    | Err e => Err e
    end)) in
  record_relations post_id post ;;;
  mapErr ResolutionPersistence (execute (fun _ d =>
    Ok (set_captures (alter (resolve_capture_row post_id) capture_id (captures d)) d))) ;;;
  let* resolution_id := now_v7 in
  mapErr ResolutionPersistence (execute (fun _ d =>
    insert_resolution resolution_id (mk_resolution_row capture_id "resolved"
      (Some (pp_parser_version post)) (Some raw_object_id) observed_at) d)) ;;;
  mapErr (fun _ => ResolutionPersistence (Protocol "social-source publication"))
    (Publishing.append_fact capture_id) ;;;
  ret (Commit (mk_stored_resolution post_id raw_object_id revision_id observed_at)).

(** [PublicResolutionStore::record]. *)
Definition record (capture_id : Uuid) (post : PublicPost) (raw_response : string)
  : R StoredResolution :=
  lift (validate_relation_sources post) ;;;
  let* raw := store raw_response in
  transaction ResolutionPersistence (record_body capture_id post raw).

(** [ApprovedOembedClient::resolve]. *)
Definition resolve (permalink : Permalink.Permalink) : R PublicObservation :=
  fun w => (match http_get (w_tick w) (Permalink.as_str permalink) with
            | None => Err Network
            | Some response => accept_response permalink response
            end, tick w).

(** [ApprovedOembedClient::resolve_and_record]. *)
Definition resolve_and_record (capture_id : Uuid) (permalink : Permalink.Permalink)
  : R StoredResolution :=
  let* observation := resolve permalink in
  record capture_id (po_post observation) (po_raw_response observation).

(** * What recording does to the tables *)

Definition only_relations (d0 d : db) : Prop := d = set_post_relations (post_relations d) d0.

Lemma only_relations_refl d : only_relations d d.
Proof. by destruct d. Qed.

Lemma upsert_relation_frame id p t tp perm kind d d' d0 :
  only_relations d0 d -> upsert_relation id p t tp perm kind d = Ok d' -> only_relations d0 d'.
Proof.
  unfold only_relations, upsert_relation. intros Hd. destruct (head _) as [[]|].
  - intros; simplify_eq. simpl. by rewrite Hd.
  - destruct (bool_decide _); [done|]. destruct (bool_decide _); [done|]. destruct (negb _); [done|].
    intros; simplify_eq. simpl. by rewrite Hd.
Qed.

(** The stored relation under a key, with the post its target was resolved to. *)
Definition related (post_id : Uuid) (target : option Uuid) (target_provider_post_id kind : string) (d : db) : Prop :=
  exists id row, post_relations d !! id = Some row /\ rel_referencing_post_id row = post_id
    /\ rel_target_post_id row = target /\ rel_target_provider_post_id row = target_provider_post_id
    /\ rel_relation_kind row = kind.

Definition relation_key (row : relation_row) : Uuid * string * string :=
  (rel_referencing_post_id row, rel_target_provider_post_id row, rel_relation_kind row).

(** What one upsert of a relation does. *)
Record relates (post_id : Uuid) (target : option Uuid) (target_provider_post_id kind : string) (d d' : db) : Prop := {
  rl_frame : only_relations d d';
  rl_related : related post_id target target_provider_post_id kind d';
  rl_kept p t tp k : related p t tp k d ->
    related p t tp k d' \/ (p, tp, k) = (post_id, target_provider_post_id, kind);
  rl_only id row : post_relations d' !! id = Some row ->
    post_relations d !! id = Some row \/ relation_key row = (post_id, target_provider_post_id, kind);
}.

Lemma upsert_relation_relates new_id post_id target tp permalink kind d d' :
  upsert_relation new_id post_id target tp permalink kind d = Ok d' -> relates post_id target tp kind d d'.
Proof.
  intros Hup. assert (exists id row, d' = set_post_relations (<[id := row]> (post_relations d)) d
    /\ relation_key row = (post_id, tp, kind) /\ rel_target_post_id row = target
    /\ forall old, post_relations d !! id = Some old -> relation_key old = (post_id, tp, kind))
    as (id & row & -> & Hkey & Ht & Hold).
  { unfold upsert_relation in Hup. destruct (head _) as [[id old]|] eqn:Eh.
    - apply head_select_Some in Eh as [Hl [[E1 E2]%andb_true_iff E3]%andb_true_iff].
      rewrite bool_decide_eq_true in E1, E2, E3. injection Hup as <-. eexists id, _. split; [done|].
      do 2 (split; [done|]). intros old' Hl'. rewrite Hl in Hl'. injection Hl' as <-. unfold relation_key. congruence.
    - case_bool_decide as En; [done|]. apply eq_None_not_Some in En. case_bool_decide; [done|].
      destruct (negb _); [done|]. injection Hup as <-. eexists new_id, _. split; [done|].
      do 2 (split; [done|]). congruence. }
  injection Hkey as K1 K2 K3. split.
  - unfold only_relations. cbn. done.
  - exists id, row. cbn. by rewrite lookup_insert_eq.
  - intros p t tp' k (id' & row' & Hr & H1 & H2 & H3 & H4). destruct (decide (id' = id)) as [->|Hne].
    + right. specialize (Hold _ Hr). unfold relation_key in Hold. congruence.
    + left. exists id', row'. cbn. by rewrite lookup_insert_ne.
  - cbn. intros id' row' [[<- <-]|[_ Hr]]%lookup_insert_Some; [right|by left]. unfold relation_key. congruence.
Qed.

(** A relation whose target is resolved as far as the posts are known. *)
Definition resolved_relation (post_id : Uuid) (target_provider_post_id kind : string) (d : db) : Prop :=
  related post_id (fst <$> post_by_provider_id d target_provider_post_id) target_provider_post_id kind d.

Lemma only_relations_posts d d' tp : only_relations d d' -> post_by_provider_id d' tp = post_by_provider_id d tp.
Proof. intros ->. done. Qed.

Lemma only_relations_trans d1 d2 d3 : only_relations d1 d2 -> only_relations d2 d3 -> only_relations d1 d3.
Proof. unfold only_relations. intros H12 ->. rewrite H12. by cbn. Qed.

Lemma relates_resolved post_id tp kind d d' :
  relates post_id (fst <$> post_by_provider_id d tp) tp kind d d' ->
  resolved_relation post_id tp kind d'
  /\ forall p tp' k, resolved_relation p tp' k d -> resolved_relation p tp' k d'.
Proof.
  intros [Hf Hr Hk _]. pose proof (fun tp => only_relations_posts d d' tp Hf) as Hposts.
  assert (resolved_relation post_id tp kind d') as Hown by (unfold resolved_relation; by rewrite Hposts).
  split; [done|]. intros p tp' k H. unfold resolved_relation in *. rewrite Hposts.
  destruct (Hk _ _ _ _ H) as [|[= -> -> ->]]; [done|]. by rewrite Hposts in Hown.
Qed.

(** The relations of one post, stored one after another. *)
Lemma record_each_relation post_id relations : forall w w',
  forM_ relations (record_relation post_id) w = (Ok (), w') ->
  only_relations (w_db w) (w_db w')
  /\ (forall g, g ∈ relations -> resolved_relation post_id (gr_target_provider_post_id g)
        (Relation.kind_str (gr_relation_kind g)) (w_db w'))
  /\ (forall p tp k, resolved_relation p tp k (w_db w) -> resolved_relation p tp k (w_db w'))
  /\ (forall id row, post_relations (w_db w') !! id = Some row -> post_relations (w_db w) !! id = Some row
        \/ exists g, g ∈ relations /\ relation_key row
             = (post_id, gr_target_provider_post_id g, Relation.kind_str (gr_relation_kind g))).
Proof.
  induction relations as [|g rest IH]; intros w w'; cbn [forM_].
  - intros [_ ->]%ret_db. split_and!; [apply only_relations_refl|by intros g ?%not_elem_of_nil|done|by left].
  - intros ([] & w1 & Hg & H)%bind_Ok. destruct (IH _ _ H) as (F2 & R2 & K2 & O2). clear H IH.
    unfold record_relation in Hg. db_ok.
    match goal with H : upsert_relation _ _ _ _ _ _ _ = Ok _ |- _ => apply upsert_relation_relates in H as Hg end.
    destruct (relates_resolved _ _ _ _ _ Hg) as [R1 K1]. destruct Hg as [F1 _ _ O1].
    split_and!; [by eapply only_relations_trans| |by auto|].
    + intros g' [->|Hin]%elem_of_cons; auto.
    + intros id row Hrow. destruct (O2 _ _ Hrow) as [Hrow1|(g' & Hin & Hkey)].
      * destruct (O1 _ _ Hrow1) as [|Hkey]; [by left|right]. exists g. split; [left|done].
      * right. exists g'. split; [by right|done].
Qed.

Lemma record_relations_frame d0 post_id post :
  preserves (only_relations d0) (record_relations post_id post).
Proof.
  unfold record_relations, record_relation. preserve_steps.
  apply preserves_execute. intros. by eapply upsert_relation_frame.
Qed.

Lemma normalized_Ok known rels edges :
  normalized known rels = Ok edges ->
  ~ (exists x, tc (reply_edge known rels) x x) /\ edges ≡ₚ graph_relation_of known <$> rels.
Proof.
  unfold normalized. destruct (normalize_relations known rels) as [[]|] eqn:E; [|done..].
  intros; simplify_eq/=. by apply normalize_relations_Ok.
Qed.

(** What the relations of an observation leave. *)
Lemma record_relations_Ok post_id post w w' : record_relations post_id post w = (Ok (), w') ->
  only_relations (w_db w) (w_db w')
  /\ (forall r, r ∈ pp_relations post ->
        resolved_relation post_id (ri_target_provider_post_id r) (ri_relation_kind r) (w_db w'))
  /\ (forall id row, post_relations (w_db w') !! id = Some row -> post_relations (w_db w) !! id = Some row
        \/ exists r, r ∈ pp_relations post
             /\ relation_key row = (post_id, ri_target_provider_post_id r, ri_relation_kind r)).
Proof.
  unfold record_relations. intros (? & w1 & E1 & H)%bind_Ok. apply bind_Ok in H as (known & w2 & E2 & H).
  apply bind_Ok in H as (existing & w3 & E3 & H). apply bind_Ok in H as (? & w4 & E4 & H).
  apply bind_Ok in H as (relations & w5 & [E5 Hd5]%lift_db & H). apply normalized_Ok in E5 as [_ Hperm].
  apply record_each_relation in H as (F & R & _ & O).
  db_ok. split_and!; [done|..].
  - intros r Hr. eapply (R (graph_relation_of _ r)). rewrite Hperm. apply list_elem_of_fmap. eauto.
  - intros id row Hrow. destruct (O _ _ Hrow) as [|(g & Hin & Hkey)]; [by left|right].
    rewrite Hperm in Hin. apply list_elem_of_fmap in Hin as (r & -> & Hr). eauto.
Qed.

(** The row an observation leaves for its post. *)
Inductive upserted (post : PublicPost) (d : db) (id : Uuid) : post_row -> Prop :=
| upserted_existing p now :
    post_by_provider_id d (pp_provider_post_id post) = Some (id, p) ->
    permalink_taken d (Permalink.as_str (pp_permalink post)) (Some id) = false ->
    upserted post d id (observe_post (Permalink.as_str (pp_permalink post)) (pp_embed_html post) now p)
| upserted_new now :
    post_by_provider_id d (pp_provider_post_id post) = None -> posts d !! id = None ->
    permalink_taken d (Permalink.as_str (pp_permalink post)) None = false ->
    upserted post d id (mk_post_row None (Some (pp_provider_post_id post))
      (Permalink.as_str (pp_permalink post)) "post" (Some (pp_embed_html post)) None
      "public_resolution" "explicit_user_capture" "active" now).

Lemma upserted_ext post d d' id row : posts d = posts d' -> upserted post d id row -> upserted post d' id row.
Proof.
  intros E [p now H1 H2|now H1 H2 H3]; unfold post_by_provider_id, permalink_taken in *; rewrite E in *.
  - by apply upserted_existing.
  - by apply upserted_new.
Qed.

Lemma upsert_post_Ok new_id post now d id d' :
  upsert_post new_id post now d = Ok (id, d') ->
  exists row, upserted post d id row /\ d' = set_posts (<[id := row]> (posts d)) d.
Proof.
  unfold upsert_post. destruct (post_by_provider_id _ _) as [[id' p]|] eqn:E.
  - destruct (permalink_taken _ _ _) eqn:Et; [done|]. intros; simplify_eq. eexists.
    split; [by eapply upserted_existing|done].
  - destruct (bool_decide _) eqn:Eb; [done|]. destruct (permalink_taken _ _ _) eqn:Et; [done|].
    intros; simplify_eq. apply bool_decide_eq_false, eq_None_not_Some in Eb. eexists.
    split; [by eapply upserted_new|done].
Qed.

(** The tables after one committed observation of [post] for [capture_id]. *)
Record recorded (capture_id : Uuid) (post : PublicPost) (raw : StoredRaw) (d d' : db)
  (res : StoredResolution) : Prop := {
  rd_post : exists row, upserted post d (st_post_id res) row
    /\ posts d' = <[st_post_id res := row]> (posts d);
  rd_raw : raw_objects d !! st_raw_object_id res = None /\ exists now, raw_objects d'
    = <[st_raw_object_id res := mk_raw_object_row "oembed_response" (sr_blob_ref raw)
         (sr_content_hash raw) (sr_byte_size raw) (sr_media_type raw) now]> (raw_objects d);
  rd_revision : post_revisions d !! st_revision_id res = None /\ post_revisions d'
    = <[st_revision_id res := mk_revision_row (st_post_id res) (st_raw_object_id res)
         (pp_parser_version post) (st_observed_at res)]> (post_revisions d);
  rd_capture : captures d' = alter (resolve_capture_row (st_post_id res)) capture_id (captures d);
  rd_resolution : exists rid, capture_resolutions d !! rid = None /\ capture_resolutions d'
    = <[rid := mk_resolution_row capture_id "resolved" (Some (pp_parser_version post))
         (Some (st_raw_object_id res)) (st_observed_at res)]> (capture_resolutions d);
  rd_relations r : r ∈ pp_relations post ->
    resolved_relation (st_post_id res) (ri_target_provider_post_id r) (ri_relation_kind r) d';
  rd_relations_only id row : post_relations d' !! id = Some row -> post_relations d !! id = Some row
    \/ exists r, r ∈ pp_relations post
         /\ relation_key row = (st_post_id res, ri_target_provider_post_id r, ri_relation_kind r);
  rd_fact : exists c, captures d !! capture_id = Some c
    /\ Publishing.fact_stands (Publishing.capture_origin capture_id c (st_post_id res)) d';
  rd_announced : Publishing.announced d d';
  rd_sources : social_sources d ⊆ social_sources d';
  rd_source_revisions : social_source_revisions d ⊆ social_source_revisions d';
  rd_outbox : outbox_events d ⊆ outbox_events d';
  rd_rest : d' = set_captures (captures d') (set_capture_resolutions (capture_resolutions d')
    (set_posts (posts d') (set_post_revisions (post_revisions d') (set_post_relations (post_relations d')
    (set_raw_objects (raw_objects d') (set_social_sources (social_sources d')
    (set_social_source_revisions (social_source_revisions d') (set_outbox_events (outbox_events d') d))))))));
}.

Lemma record_body_Ok capture_id post raw w res w' :
  record_body capture_id post raw w = (Ok (Commit res), w') ->
  recorded capture_id post raw (w_db w) (w_db w') res
  /\ (exists w1 w2, record_relations (st_post_id res) post w1 = (Ok (), w2)
       /\ posts (w_db w1) = posts (w_db w') /\ post_relations (w_db w1) = post_relations (w_db w)
       /\ post_relations (w_db w2) = post_relations (w_db w'))
  /\ forall c, captures (w_db w) !! capture_id = Some c ->
       c_acquisition_method c ∈ Publishing.published_methods.
Proof.
  unfold record_body. intros H.
  apply bind_Ok in H as (raw_id & w1 & E1 & H). apply bind_Ok in H as ([] & w2 & E2 & H).
  apply bind_Ok in H as (new_id & w3 & E3 & H). apply bind_Ok in H as (post_id & w4 & E4 & H).
  apply bind_Ok in H as (rev_id & w5 & E5 & H). apply bind_Ok in H as (obs & w6 & E6 & H).
  apply bind_Ok in H as ([] & w7 & E7 & H). apply bind_Ok in H as ([] & w8 & E8 & H).
  apply bind_Ok in H as (res_id & w9 & E9 & H). apply bind_Ok in H as ([] & w10 & E10 & H).
  apply bind_Ok in H as ([] & w11 & E11 & H). apply ret_db in H as [H ->]. simplify_eq.
  apply mapErr_Ok in E11. pose proof (preserves_Ok _ _ _ _ _
    (Publishing.append_fact_frame (w_db w10) capture_id) E11 (Publishing.published_from_refl _)) as Hpub.
  pose proof E7 as Hrel. apply (preserves_Ok (only_relations (w_db w6)) _ _ _ _
    (record_relations_frame _ _ _)) in Hrel; [|apply only_relations_refl].
  pose proof (Publishing.append_fact_published_method _ _ _
    (resolve_capture_row post_id (default Publishing.sample_capture (captures (w_db w) !! capture_id))) E11) as Hmethod.
  pose proof (record_relations_Ok _ _ _ _ E7) as (_ & Hrels & Honly).
  apply Publishing.append_fact_stands in E11 as (c & p & Hc & Hcp & Hstands & Hann).
  refine (conj _ (conj (ex_intro _ w6 (ex_intro _ w7 (conj E7 _))) _)); clear E7; db_ok.
  all: destruct (insert_post_revision _ _ _) as [|] eqn:Er; simplify_eq.
  all: apply upsert_post_Ok in E4 as (row & Hrow & ->); sql_ok.
  all: apply (upserted_ext _ _ (w_db w)) in Hrow; [|done].
  all: destruct Hpub as [Hrest Hsrc Hsrev Hout _]; unfold only_relations in Hrel; rewrite Hrel in *;
    try rewrite Hrest in Hstands; try rewrite Hrest; clear Hrest Hrel; simpl in *.
  - rewrite lookup_alter_eq in Hc. apply fmap_Some in Hc as (c0 & Hc & ->). injection Hcp as <-.
    split; simpl; eauto.
  - done.
  - intros c0 Hc0. rewrite lookup_alter_eq, Hc0 in Hmethod. by apply Hmethod.
Qed.

(** * The stored reply graph *)

(** A stored reply relation from provider post [a] to provider post [b]. *)
Definition stored_edge (d : db) (a b : string) : Prop :=
  exists id row src, post_relations d !! id = Some row /\ rel_relation_kind row = "reply"
    /\ posts d !! rel_referencing_post_id row = Some src /\ p_provider_post_id src = Some a
    /\ rel_target_provider_post_id row = b.

Lemma elem_of_stored_replies d a b :
  stored_edge d a b <-> exists r, r ∈ stored_replies d
    /\ ri_referencing_provider_post_id r = a /\ ri_target_provider_post_id r = b.
Proof.
  unfold stored_edge, stored_replies. setoid_rewrite list_elem_of_omap. split.
  - intros (id & row & src & Hrow & Hk & Hsrc & Ha & Hb). eexists. split.
    + exists (id, row). rewrite elem_of_select, bool_decide_eq_true. split; [done|].
      simpl. by rewrite Hsrc, Ha.
    + done.
  - intros (r & ([id row] & Hin & Hr) & Ha & Hb). simpl in Hr.
    rewrite elem_of_select, bool_decide_eq_true in Hin.
    destruct (posts d !! _) as [src|] eqn:Hs; [|done].
    destruct (p_provider_post_id src) eqn:Hp; simplify_eq/=. naive_solver.
Qed.

Lemma stored_replies_kind d r : r ∈ stored_replies d -> ri_relation_kind r = "reply".
Proof.
  unfold stored_replies. rewrite list_elem_of_omap. intros ([id row] & Hin & Hr). simpl in Hr.
  rewrite elem_of_select, bool_decide_eq_true in Hin. destruct (posts d !! _) as [src|]; [|done].
  destruct (p_provider_post_id src); simplify_eq/=. tauto.
Qed.

Lemma reply_edge_stored d known a b :
  reply_edge known (stored_replies d) a b <-> stored_edge d a b /\ b ∈ known.
Proof.
  rewrite elem_of_stored_replies. unfold reply_edge. split.
  - naive_solver.
  - intros [(r & Hr & Ha & Hb) Hk]. exists r. split_and!; try done. by eapply stored_replies_kind.
Qed.

(** Edges of [d] are edges of [d0] or new replies of the observed post. *)
Definition edges_from (d0 : db) (post : PublicPost) (d : db) : Prop :=
  posts d = posts d0 /\ forall a b, stored_edge d a b -> stored_edge d0 a b
    \/ exists r, r ∈ pp_relations post /\ ri_relation_kind r = "reply"
         /\ pp_provider_post_id post = a /\ ri_target_provider_post_id r = b.

(** The row an upsert of a relation leaves. *)
Lemma upsert_relation_row new_id post_id target tp permalink kind d d' :
  upsert_relation new_id post_id target tp permalink kind d = Ok d' ->
  exists id row, d' = set_post_relations (<[id := row]> (post_relations d)) d
    /\ rel_referencing_post_id row = post_id /\ rel_target_provider_post_id row = tp
    /\ rel_relation_kind row = kind.
Proof.
  unfold upsert_relation. destruct (head _) as [[id old]|]; [intros; simplify_eq; by do 2 eexists|].
  destruct (bool_decide _); [done|]. destruct (bool_decide _); [done|]. destruct (negb _); [done|].
  intros; simplify_eq. by do 2 eexists.
Qed.

Lemma record_relation_edges d0 post_id post src known relation :
  posts d0 !! post_id = Some src -> p_provider_post_id src = Some (pp_provider_post_id post) ->
  relation ∈ graph_relation_of known <$> pp_relations post ->
  preserves (edges_from d0 post) (record_relation post_id relation).
Proof.
  intros Hsrc Hpid (r & -> & Hr)%list_elem_of_fmap. unfold record_relation. preserve_steps.
  apply preserves_execute. intros t d d' [Hp He] Hup.
  apply upsert_relation_row in Hup as (id & row & -> & Hr1 & Hr2 & Hr3). cbn in Hr2, Hr3.
  split; [done|]. intros x y (id' & row' & src' & Hrow & Hk & Hs & Ha & Hb). simpl in *.
  apply lookup_insert_Some in Hrow as [[<- <-]|[_ Hrow]].
  - right. exists r. rewrite Hr1, Hp, Hsrc in Hs. simplify_eq/=. rewrite Hr3 in Hk. by rewrite Hr2.
  - apply He. by exists id', row', src'.
Qed.

Lemma validate_sources_Ok post r :
  validate_relation_sources post = Ok () -> r ∈ pp_relations post ->
  ri_referencing_provider_post_id r = pp_provider_post_id post.
Proof.
  unfold validate_relation_sources. destruct (_ <? _)%nat; [done|].
  destruct (existsb _ _) eqn:E; [done|]. intros _ Hr. apply list_elem_of_In in Hr.
  destruct (decide (ri_referencing_provider_post_id r = pp_provider_post_id post)) as [|Hn]; [done|].
  exfalso. rewrite <- not_true_iff_false in E. apply E. apply existsb_exists. exists r.
  split; [done|]. by rewrite bool_decide_eq_false_2.
Qed.

(** A committed observation passed the cycle check over the graph it leaves. *)
Lemma record_relations_acyclic post_id post w w' src :
  record_relations post_id post w = (Ok (), w') -> validate_relation_sources post = Ok () ->
  posts (w_db w) !! post_id = Some src -> p_provider_post_id src = Some (pp_provider_post_id post) ->
  ~ exists x, tc (reply_edge (known_posts (w_db w')) (stored_replies (w_db w'))) x x.
Proof.
  unfold record_relations. intros H Hval Hsrc Hpid.
  apply bind_Ok in H as (? & w1 & E1 & H). apply bind_Ok in H as (known & w2 & E2 & H).
  apply bind_Ok in H as (existing & w3 & E3 & H). apply bind_Ok in H as (? & w4 & E4 & H).
  apply bind_Ok in H as (relations & w5 & E5 & H).
  assert (w_db w5 = w_db w -> edges_from (w_db w) post (w_db w')) as Hedges.
  { intros Hw5. apply lift_db in E5 as [E5 _]. apply normalized_Ok in E5 as [_ Hperm].
    eapply (preserves_Ok (edges_from (w_db w) post)); [|exact H|].
    - apply preserves_forM_elem. intros relation Hin. rewrite Hperm in Hin.
      by eapply record_relation_edges.
    - rewrite Hw5. split; [done|]. by left. }
  clear H. db_ok. destruct (Hedges eq_refl) as [Hp He]. clear Hedges E5.
  apply normalized_Ok in E4 as [Hacyclic _]. intros [x Hx]. apply Hacyclic. exists x.
  eapply tc_weaken; [|exact Hx]. intros a b [Hab Hb]%reply_edge_stored.
  unfold known_posts in *. rewrite Hp in Hb. destruct (He _ _ Hab) as [Hs|(r & Hr & Hk & Ha & Hb')].
  - eapply reply_edge_mono; [done| |by apply reply_edge_stored]. set_solver.
  - exists r. split_and!; try done.
    + apply elem_of_app. right. rewrite list_elem_of_In, filter_In, <- list_elem_of_In.
      by rewrite bool_decide_eq_true.
    + rewrite <- Ha. eapply validate_sources_Ok; done.
Qed.

(** * Recording *)

(** Recording leaves the tables alone, or commits one body; the raw evidence comes first. *)
Lemma record_cases capture_id post raw_response w :
  w_db (record capture_id post raw_response w).2 = w_db w
  \/ exists raw res w0 w1, validate_relation_sources post = Ok ()
       /\ sr_content_hash raw = sha256 raw_response
       /\ w_db w0 = w_db w /\ record_body capture_id post raw w0 = (Ok (Commit res), w1)
       /\ w_db (record capture_id post raw_response w).2 = w_db w1.
Proof.
  unfold record, bind, lift. destruct (validate_relation_sources post) as [[]|]; [|by left].
  destruct (store raw_response w) as [[raw|e] ws] eqn:Es; apply store_frame in Es as [[_ Hd] Hr];
    [|by left].
  destruct (transaction_atomic ResolutionPersistence (record_body capture_id post raw) ws)
    as [->|(res & w0 & w1 & Hw0 & _ & _ & Hb & ->)]; [by left|].
  right. exists raw, res, w0, w1. split_and!; try done; [|by rewrite Hw0].
  by destruct (Hr raw eq_refl) as [-> _].
Qed.

Lemma upserted_provider post d id row :
  upserted post d id row -> p_provider_post_id row = Some (pp_provider_post_id post).
Proof.
  intros [p now Hk _|now _ _ _]; [|done]. simpl.
  apply head_select_Some in Hk as [_ Hk]. by apply bool_decide_eq_true in Hk.
Qed.

(** [C16] An observation is recorded completely or not at all, whatever round trips or file
    operations fail: the resolved capture, its post, one raw object with the digest of the
    response, one revision, one resolution row, every relation of the observation with its target
    resolved as far as posts are known, and the published fact commit together: the owner's source of
    the post has a revision with the digest of the stored post, and every new revision is announced
    by a new event. No other relation is added, no source, revision or event is lost, no stored post is
    lost, and none changes its provider identity, acquisition method, authority or owning account. *)
Theorem record_atomic capture_id post raw_response w :
  let d' := w_db (record capture_id post raw_response w).2 in
  (d' = w_db w \/ exists raw res, sr_content_hash raw = sha256 raw_response
                     /\ recorded capture_id post raw (w_db w) d' res)
  /\ forall id p, posts (w_db w) !! id = Some p -> exists p', posts d' !! id = Some p'
       /\ p_provider_post_id p' = p_provider_post_id p
       /\ p_acquisition_method p' = p_acquisition_method p
       /\ p_saved_authority p' = p_saved_authority p /\ p_account_id p' = p_account_id p.
Proof.
  cbv zeta. destruct (record_cases capture_id post raw_response w)
    as [->|(raw & res & w0 & w1 & _ & Hh & Hd & Hb & ->)].
  { split; [by left|]. intros id p Hp. by exists p. }
  apply record_body_Ok in Hb as [Hrec _]. rewrite Hd in Hrec. split; [right; by exists raw, res|].
  intros id p Hp. destruct (rd_post _ _ _ _ _ _ Hrec) as (row & Hrow & ->).
  destruct (decide (id = st_post_id res)) as [->|Hne].
  - rewrite lookup_insert_eq. destruct Hrow as [p0 now Hk _|now _ Hn _]; [|congruence].
    apply head_select_Some in Hk as [Hk _]. rewrite Hp in Hk. simplify_eq. by eexists.
  - rewrite lookup_insert_ne by done. by eexists.
Qed.

(** The stored reply graph stays free of cycles through recording: after every recorded
    observation no chain of stored replies between stored posts returns to its start. *)
Theorem record_keeps_replies_acyclic capture_id post raw_response w :
  w_db (record capture_id post raw_response w).2 <> w_db w ->
  let d' := w_db (record capture_id post raw_response w).2 in
  ~ exists x, tc (reply_edge (known_posts d') (stored_replies d')) x x.
Proof.
  intros Hne. cbv zeta. destruct (record_cases capture_id post raw_response w)
    as [?|(raw & res & w0 & w1 & Hval & _ & Hd & Hb & ->)]; [done|].
  apply record_body_Ok in Hb as (Hrec & (w2 & w3 & Hr & Hposts & Hrels & Hrels') & _).
  destruct (rd_post _ _ _ _ _ _ Hrec) as (row & Hrow & Hp).
  pose proof (preserves_Ok _ _ _ _ _ (record_relations_frame (w_db w2) (st_post_id res) post) Hr
    (only_relations_refl _)) as Hframe.
  eapply record_relations_acyclic in Hr; [|done| |by eapply upserted_provider].
  2:{ rewrite Hposts, Hp. apply lookup_insert_eq. }
  unfold known_posts, stored_replies in *. rewrite Hrels', Hframe in Hr. simpl in Hr.
  by rewrite Hposts in Hr.
Qed.

(** A result of recording is a committed body. *)
Lemma record_Ok capture_id post raw_response w res w' :
  record capture_id post raw_response w = (Ok res, w') ->
  exists raw w0 w1, w_db w0 = w_db w /\ record_body capture_id post raw w0 = (Ok (Commit res), w1).
Proof.
  unfold record. intros (? & w1 & Hval & H)%bind_Ok. apply bind_Ok in H as (raw & ws & Hs & H).
  unfold lift in Hval. simplify_eq. apply store_frame in Hs as [[_ Hd] _].
  apply transaction_Ok in H as (w0 & w2 & Hw0 & _ & _ & [[Hb _]|[Hb _]]).
  - exists raw, w0, w2. split; [congruence|done].
  - exfalso. unfold record_body in Hb. db_ok.
Qed.

(** Refusing every committed body refuses the observation and keeps the tables. *)
Lemma record_refused capture_id post raw_response w :
  (forall raw res w0 w1, w_db w0 = w_db w -> record_body capture_id post raw w0 <> (Ok (Commit res), w1)) ->
  (forall res, (record capture_id post raw_response w).1 <> Ok res)
  /\ w_db (record capture_id post raw_response w).2 = w_db w.
Proof.
  intros Hno. split.
  - intros res Hr. destruct (record _ _ _ w) as [r w'] eqn:E. simpl in Hr. subst r.
    apply record_Ok in E as (raw & w0 & w1 & Hd & Hb). by eapply Hno.
  - destruct (record_cases capture_id post raw_response w)
      as [?|(raw & res & w0 & w1 & _ & _ & Hd & Hb & _)]; [done|]. exfalso. by eapply Hno.
Qed.

(** One permalink, two identities: when a stored post holds the permalink of an observation
    under another provider identity, as posts of the official interface do, the observation is
    never recorded and the tables stay as they are. *)
Theorem permalink_collision_refuses capture_id post raw_response w id p :
  posts (w_db w) !! id = Some p -> p_permalink p = Permalink.as_str (pp_permalink post) ->
  p_provider_post_id p <> Some (pp_provider_post_id post) ->
  (forall res, (record capture_id post raw_response w).1 <> Ok res)
  /\ w_db (record capture_id post raw_response w).2 = w_db w.
Proof.
  intros Hp Hperm Hne. apply record_refused. intros raw res w0 w1 Hd Hb.
  apply record_body_Ok in Hb as [Hrec _]. rewrite Hd in Hrec.
  destruct (rd_post _ _ _ _ _ _ Hrec) as (row & Hrow & _).
  assert (forall except, except <> Some id ->
    permalink_taken (w_db w) (Permalink.as_str (pp_permalink post)) except = true) as Htaken.
  { intros except Hex. apply exists_where_true. exists id, p. split; [done|].
    rewrite Hperm, bool_decide_eq_true_2, bool_decide_eq_false_2 by done. done. }
  destruct Hrow as [p0 now Hk Ht|now Hk Hn Ht]; rewrite Htaken in Ht; try done.
  intros [= E]. apply head_select_Some in Hk as [Hk Hb]. apply bool_decide_eq_true in Hb. congruence.
Qed.

(** A Telegram capture can be submitted but its observation is never recorded: publication
    has no value for its acquisition method, so every recording is rolled back. *)
Theorem telegram_capture_never_recorded capture_id post raw_response w c :
  captures (w_db w) !! capture_id = Some c ->
  c_acquisition_method c = Capture.method_wire Capture.TelegramCapture ->
  (forall res, (record capture_id post raw_response w).1 <> Ok res)
  /\ w_db (record capture_id post raw_response w).2 = w_db w.
Proof.
  intros Hc Hm. apply record_refused. intros raw res w0 w1 Hd Hb.
  apply record_body_Ok in Hb as (_ & _ & Hmethod). rewrite Hd in Hmethod. specialize (Hmethod c Hc).
  rewrite Hm in Hmethod. apply (bool_decide_pack _) in Hmethod. vm_compute in Hmethod. done.
Qed.

Lemma record_relations_checked post_id post w u w' :
  record_relations post_id post w = (Ok u, w') ->
  ~ exists x, tc (reply_edge (known_posts (w_db w)) (stored_replies (w_db w))) x x.
Proof.
  unfold record_relations. intros H.
  apply bind_Ok in H as (? & w1 & E1 & H). apply bind_Ok in H as (known & w2 & E2 & H).
  apply bind_Ok in H as (existing & w3 & E3 & H). apply bind_Ok in H as (? & w4 & E4 & H).
  clear H. db_ok. apply normalized_Ok in E4 as [Hacyclic _]. intros [x Hx]. apply Hacyclic. exists x.
  eapply tc_weaken; [|exact Hx]. intros. eapply reply_edge_mono; [done| |done]. set_solver.
Qed.

(** A stored reply cycle blocks the archive: once the stored replies between stored posts
    contain a cycle, no observation of any capture is recorded any more. *)
Theorem stored_cycle_refuses_all capture_id post raw_response w x :
  tc (reply_edge (known_posts (w_db w)) (stored_replies (w_db w))) x x ->
  (forall res, (record capture_id post raw_response w).1 <> Ok res)
  /\ w_db (record capture_id post raw_response w).2 = w_db w.
Proof.
  intros Hx. apply record_refused. intros raw res w0 w1 Hd Hb.
  apply record_body_Ok in Hb as (Hrec & (w2 & w3 & Hr & Hposts & Hrels & _) & _).
  apply record_relations_checked in Hr. apply Hr. exists x. eapply tc_weaken; [|exact Hx].
  intros a b. rewrite !reply_edge_stored. rewrite Hd in *.
  destruct (rd_post _ _ _ _ _ _ Hrec) as (row & Hrow & Hp). rewrite Hp in Hposts.
  assert (forall i q, posts (w_db w) !! i = Some q -> exists q', posts (w_db w2) !! i = Some q'
    /\ p_provider_post_id q' = p_provider_post_id q) as Hkeep.
  { intros i q Hq. rewrite Hposts. destruct (decide (i = st_post_id res)) as [->|Hne].
    - rewrite lookup_insert_eq. destruct Hrow as [p0 now Hk _|now _ Hn _]; [|congruence].
      apply head_select_Some in Hk as [Hk _]. rewrite Hq in Hk. simplify_eq. by eexists.
    - rewrite lookup_insert_ne by done. by eexists. }
  intros [(i & r & src & Hi & Hk & Hs & Ha & Hb) Hknown]. split.
  - destruct (Hkeep _ _ Hs) as (src' & Hs' & Hsame). exists i, r, src'. rewrite Hrels, Hsame. done.
  - unfold known_posts in *. rewrite elem_of_list_to_set, list_elem_of_omap in *.
    destruct Hknown as ([i' q] & Hin & Hq). apply elem_of_map_to_list in Hin.
    destruct (Hkeep _ _ Hin) as (q' & Hq' & Hsame). exists (i', q').
    rewrite elem_of_map_to_list. simpl in *. by rewrite Hsame.
Qed.

End WithEnv.

(** * Acquisition *)

Section Acquisition.
Context {Hweb : Web}.

Lemma bounded_body_from_bound chunks bytes raw :
  bounded_body_from chunks bytes = Ok raw -> String.length bytes <= MAX_OEMBED_RESPONSE_BYTES ->
  String.length raw <= MAX_OEMBED_RESPONSE_BYTES
  /\ exists parts, chunks = Some <$> parts /\ raw = foldl String.append bytes parts.
Proof.
  revert bytes. induction chunks as [|[chunk|] rest IH]; intros bytes; cbn [bounded_body_from].
  - intros; simplify_eq. split; [done|]. by exists [].
  - destruct (Nat.ltb_spec MAX_OEMBED_RESPONSE_BYTES (String.length bytes + String.length chunk)); [done|].
    intros Hr _. apply IH in Hr as [Hl (parts & -> & ->)]; [|by rewrite length_append].
    split; [done|]. by exists (chunk :: parts).
  - done.
Qed.

(** An accepted observation is bounded evidence of the requested post: the response was a
    success with a JSON content type, its bytes are the whole body in order and never more than
    256 KiB, and the post has the requested permalink, the identity in it, and no relations. *)
Theorem accept_response_sound permalink response o :
  accept_response permalink response = Ok o ->
  (200 <= hr_status response < 300)%Z /\ is_json (hr_content_type response) = true
  /\ String.length (po_raw_response o) <= MAX_OEMBED_RESPONSE_BYTES
  /\ (exists parts, hr_chunks response = Some <$> parts
       /\ po_raw_response o = foldl String.append "" parts)
  /\ pp_permalink (po_post o) = permalink
  /\ pp_provider_post_id (po_post o) = last_segment (Permalink.as_str permalink)
  /\ pp_relations (po_post o) = [].
Proof.
  unfold accept_response. destruct (Z.leb_spec 200 (hr_status response));
    [destruct (Z.ltb_spec (hr_status response) 300)|]; simpl; try done.
  destruct (is_json _); [|done]. destruct (default _ _); [done|]. simpl.
  destruct (bounded_body _) as [raw|] eqn:Eb; [|done]. simpl. destruct (valid_utf8 raw); [|done]. simpl.
  destruct (parse_observation _ _) as [post|] eqn:Ep; [|done]. simpl. intros; simplify_eq.
  apply bounded_body_from_bound in Eb as [Hl Hparts]; [|simpl; lia].
  unfold parse_observation in Ep. repeat (result_step || case_bool_decide || simpl in *).
  split_and!; try done.
Qed.

End Acquisition.

(** * Witnesses *)

Definition sample_link : Permalink.Permalink :=
  Permalink.mkPermalink "https://www.threads.net/@a/post/B".

(** A web whose every response is the embed of [sample_link]. *)
Definition sample_web : Web := {|
  url_parse := fun _ => None;
  json_parse := fun _ => Some (fun name =>
    if bool_decide (name = "provider_name") then Some "Threads"
    else if bool_decide (name = "url") then Some (Permalink.as_str sample_link)
    else if bool_decide (name = "html") then Some "<p>text</p>" else None);
  http_get := fun _ _ => Some (mk_response 200 (Some "application/json; charset=utf-8") None [Some "{"; Some "}"]);
|}.

Definition sample_public_post : PublicPost :=
  mk_public_post "B" sample_link "<p>text</p>" PARSER_VERSION [].

(** One accepted capture (10) that has no post yet. *)
Definition accepted_archive : db :=
  set_captures {[10%N := mk_capture_row 7 None "key" (Permalink.as_str sample_link)
    (Permalink.as_str sample_link) "browser_extension" "explicit_user_capture" "browser_extension"
    "accepted" None 0%Z (Some 0%Z) (Some 50%N) (Some 1%N) 0 None]} empty_db.

(** The same post as the official interface stores it, under its numeric identity. *)
Definition official_archive : db :=
  set_posts {[20%N := mk_post_row None (Some "17890") (Permalink.as_str sample_link) "post" None None
    "official_api" "authoritative_platform_state" "active" 0%Z]} accepted_archive.

(** Two stored posts that reply to each other. *)
Definition cyclic_archive : db :=
  set_post_relations {[30%N := mk_relation_row 20 (Some 21%N) "Y" None "reply";
                       31%N := mk_relation_row 21 (Some 20%N) "X" None "reply"]}
  (set_posts {[20%N := mk_post_row None (Some "X") "x" "post" None None "data_export"
                 "export_observation" "active" 0%Z;
               21%N := mk_post_row None (Some "Y") "y" "post" None None "data_export"
                 "export_observation" "active" 0%Z]} accepted_archive).

Lemma record_keeps_replies_acyclic_witness :
  let w' := (@record sample_env Publishing.sample_contracts 10 sample_public_post "{}"
    (sample_world accepted_archive)).2 in
  c_status <$> captures (w_db w') !! 10%N = Some "resolved"
  /\ ~ exists x, tc (reply_edge (known_posts (w_db w')) (stored_replies (w_db w'))) x x.
Proof.
  split; [vm_compute; reflexivity|].
  apply (@record_keeps_replies_acyclic sample_env Publishing.sample_contracts).
  intros H. apply (f_equal (fun d => c_status <$> captures d !! 10%N)) in H.
  vm_compute in H. discriminate.
Defined.

Lemma permalink_collision_refuses_witness :
  w_db (@record sample_env Publishing.sample_contracts 10 sample_public_post "{}"
    (sample_world official_archive)).2 = official_archive.
Proof.
  eapply (@permalink_collision_refuses sample_env Publishing.sample_contracts 10 sample_public_post "{}"
    (sample_world official_archive) 20); [vm_compute; reflexivity|reflexivity|discriminate].
Defined.

Definition telegram_archive : db :=
  set_captures {[10%N := mk_capture_row 7 None "key" (Permalink.as_str sample_link)
    (Permalink.as_str sample_link) "telegram_capture" "explicit_user_capture" "telegram"
    "accepted" None 0%Z None None None 0 None]} empty_db.

Lemma telegram_capture_never_recorded_witness :
  w_db (@record sample_env Publishing.sample_contracts 10 sample_public_post "{}"
    (sample_world telegram_archive)).2 = telegram_archive.
Proof.
  eapply (@telegram_capture_never_recorded sample_env Publishing.sample_contracts 10 sample_public_post "{}"
    (sample_world telegram_archive)); [vm_compute; reflexivity|reflexivity].
Defined.

Lemma stored_cycle_refuses_all_witness :
  w_db (@record sample_env Publishing.sample_contracts 10 sample_public_post "{}"
    (sample_world cyclic_archive)).2 = cyclic_archive.
Proof.
  apply (@stored_cycle_refuses_all sample_env Publishing.sample_contracts 10 sample_public_post "{}"
    (sample_world cyclic_archive) "X").
  assert (forall a b, stored_edge cyclic_archive a b -> b ∈ known_posts cyclic_archive ->
    reply_edge (known_posts cyclic_archive) (stored_replies cyclic_archive) a b) as H
    by (intros; by apply reply_edge_stored).
  eapply tc_l; [apply H|apply tc_once, H].
  - exists 30%N. do 2 eexists. split_and!; vm_compute; reflexivity.
  - apply (bool_decide_unpack _). vm_compute. exact I.
  - exists 31%N. do 2 eexists. split_and!; vm_compute; reflexivity.
  - apply (bool_decide_unpack _). vm_compute. exact I.
Defined.

Lemma accept_response_sound_witness :
  exists o, @accept_response sample_web sample_link
      (mk_response 200 (Some "application/json") None [Some "{}"]) = Ok o
    /\ pp_permalink (po_post o) = sample_link.
Proof.
  eexists. split; [vm_compute; reflexivity|].
  eapply (@accept_response_sound sample_web sample_link
    (mk_response 200 (Some "application/json") None [Some "{}"])). vm_compute. reflexivity.
Defined.

End PublicResolution.
