(* ===== verification/Recorders.v ===== *)
(** Recordings of several resolver processes at once
    (src/crates/threads-archive/src/public_resolution.rs: [record], [record_relations]).

    [PublicResolution] models one recording as an atomic transaction. Here the statements of any
    number of recordings interleave: each transaction sees what is committed under its own writes
    (PostgreSQL's READ COMMITTED), upserts its post before it waits for [RELATION_LOCK], and
    reads, checks and writes the reply graph while it holds it. The state is the part of a recording
    the reply graph lives in, the tables [posts] and [post_relations]; the statements on other tables
    (raw object, revision, capture, resolution row and published fact) are those of
    [PublicResolution.record_body] and change neither.

    A recording may not wait for another one's uncommitted row here, as PostgreSQL would make it, so
    the interleavings include every real one. *)
From S2P Require Import Prelude Locks Permalink Schema Store Database Relation RelationGraph PublicResolution.

Module Recorders.
Import Schema RelationGraph PublicResolution Locks.
Local Open Scope string_scope.

#[global] Instance relation_row_eq_dec : EqDecision relation_row.
Proof. solve_decision. Defined.

(** The rows a transaction has written and not committed. *)
Record Writes := mk_writes {
  wr_posts : gmap Uuid post_row;
  wr_relations : gmap Uuid relation_row;
}.

Definition no_writes : Writes := mk_writes ∅ ∅.

(** What its next statement sees: its own rows over what is committed. *)
Definition visible (w : Writes) (d : db) : db :=
  set_post_relations (wr_relations w ∪ post_relations d) (set_posts (wr_posts w ∪ posts d) d).

(** The post row a statement wrote. *)
Definition write_post (id : Uuid) (v' : db) (w : Writes) : Writes :=
  mk_writes (match posts v' !! id with Some row => <[id := row]> (wr_posts w) | None => wr_posts w end)
    (wr_relations w).

(** The relation rows a statement wrote. *)
Definition write_relations (v v' : db) (w : Writes) : Writes :=
  mk_writes (wr_posts w)
    (filter (fun kv => post_relations v !! kv.1 <> Some kv.2) (post_relations v') ∪ wr_relations w).

Definition RELATION_LOCK : Z := 0x72617461736b7204.

(** Recordings and starting processes never wait for each other: PostgreSQL compares the keys. *)
Lemma locks_distinct : RELATION_LOCK <> Database.SCHEMA_LOCK.
Proof. done. Qed.

(** Where a recording is. *)
Inductive Recorder :=
| Opened (post : PublicPost)                             (* after [begin()] *)
| Posted (post : PublicPost) (id : Uuid) (w : Writes)    (* its post is upserted *)
| InLock (post : PublicPost) (id : Uuid) (w : Writes)
| Knows (post : PublicPost) (id : Uuid) (w : Writes) (known : gset string)
| Recording (post : PublicPost) (id : Uuid) (w : Writes) (todo : list GraphRelation)
| Targeted (post : PublicPost) (id : Uuid) (w : Writes) (relation : GraphRelation)
    (target_post_id : option Uuid) (todo : list GraphRelation).

(** The replies that are checked together: the stored ones and those of the observation. *)
Definition all_replies (v : db) (post : PublicPost) : list RelationInput :=
  (stored_replies v ++ List.filter (fun r => bool_decide (ri_relation_kind r = "reply")) (pp_relations post))%list.

(** The statement that follows, with its clock and the identifier it mints; [None] when it is
    refused or there is none. *)
Definition next_statement (now : Time) (new_id : Uuid) (d : db) (t : Recorder) : option Recorder :=
  match t with
  | Opened post =>
      match upsert_post new_id post now (visible no_writes d) with
      | Ok (id, v') => Some (Posted post id (write_post id v' no_writes))
      | Err _ => None
      end
  | Posted _ _ _ => None
  | InLock post id w => Some (Knows post id w (known_posts (visible w d)))
  | Knows post id w known =>
      match normalized known (all_replies (visible w d) post), normalized known (pp_relations post) with
      | Ok _, Ok relations => Some (Recording post id w relations)
      | _, _ => None
      end
  | Recording post id w (relation :: todo) =>
      Some (Targeted post id w relation
        (fst <$> post_by_provider_id (visible w d) (gr_target_provider_post_id relation)) todo)
  | Recording _ _ _ [] => None
  | Targeted post id w relation target_post_id todo =>
      let target_permalink := match gr_target relation with
                              | GResolved => None
                              | GUnresolved permalink => permalink
                              end in
      match upsert_relation new_id id target_post_id (gr_target_provider_post_id relation)
              target_permalink (Relation.kind_str (gr_relation_kind relation)) (visible w d) with
      | Ok v' => Some (Recording post id (write_relations (visible w d) v' w) todo)
      | Err _ => None
      end
  end.

(** [pg_advisory_xact_lock(RELATION_LOCK)] returns. *)
Inductive enter_lock : Recorder -> Recorder -> Prop :=
| enter_lock_posted post id w : enter_lock (Posted post id w) (InLock post id w).

Inductive commit_record : db -> Recorder -> db -> Prop :=
| commit_record_done d post id w : commit_record d (Recording post id w []) (visible w d).

(** A relation row names a stored post (post_relations_referencing_post_id_fkey). *)
Definition grounded (d : db) : Prop :=
  forall id row, post_relations d !! id = Some row -> is_Some (posts d !! rel_referencing_post_id row).

(** A transaction of another component that adds no reply: it may insert, update and delete
    posts and delete relations or point them elsewhere, but keeps provider identities. *)
Record bystander (d d' : db) : Prop := {
  by_grounded : grounded d';
  by_replies id row' : post_relations d' !! id = Some row' -> rel_relation_kind row' = "reply" ->
    exists row, post_relations d !! id = Some row /\ rel_relation_kind row = "reply"
      /\ rel_referencing_post_id row = rel_referencing_post_id row'
      /\ rel_target_provider_post_id row = rel_target_provider_post_id row';
  by_identity id p p' : posts d !! id = Some p -> posts d' !! id = Some p' ->
    p_provider_post_id p' = p_provider_post_id p;
}.

Definition recorder_protocol : LockProtocol db Recorder := {|
  pr_begin t := exists post, validate_relation_sources post = Ok () /\ t = Opened post;
  pr_outside d t t' := exists now new_id, next_statement now new_id d t = Some t';
  pr_enter := enter_lock;
  pr_inside d t t' := exists now new_id, next_statement now new_id d t = Some t';
  pr_commit := commit_record;
  pr_other := bystander;
|}.

(** * What a recording knows *)

Definition replies_acyclic (d : db) : Prop := ~ exists x, tc (stored_edge d) x x.

Definition new_reply (post : PublicPost) (a b : string) : Prop :=
  exists r, r ∈ pp_relations post /\ ri_relation_kind r = "reply"
    /\ pp_provider_post_id post = a /\ ri_target_provider_post_id r = b.

(** The rows written so far: the post, and relations that start at it. *)
Record own_writes (post : PublicPost) (id : Uuid) (w : Writes) : Prop := {
  ow_valid : validate_relation_sources post = Ok ();
  ow_post : exists row, wr_posts w = {[id := row]} /\ p_provider_post_id row = Some (pp_provider_post_id post);
  ow_relations i row : wr_relations w !! i = Some row -> rel_referencing_post_id row = id;
}.

(** Before the lock nothing is known of the committed graph. *)
Definition recorder_out (t : Recorder) : Prop :=
  match t with
  | Opened post => validate_relation_sources post = Ok ()
  | Posted post id w => own_writes post id w
  | _ => False
  end.

(** After the check: the graph the transaction sees lies in an acyclic one with all its replies. *)
Record checked (post : PublicPost) (id : Uuid) (w : Writes) (d : db) (todo : list GraphRelation) : Prop := {
  ch_writes : own_writes post id w;
  ch_bound : exists E : relation string, ~ (exists x, tc E x x)
    /\ (forall a b, stored_edge (visible w d) a b -> E a b) /\ (forall a b, new_reply post a b -> E a b);
  ch_todo relation : relation ∈ todo -> exists known r, r ∈ pp_relations post
    /\ relation = graph_relation_of known r;
}.

Definition recorder_in (d : db) (t : Recorder) : Prop :=
  match t with
  | Opened _ | Posted _ _ _ => False
  | InLock post id w => own_writes post id w
  | Knows post id w known => own_writes post id w /\ pp_provider_post_id post ∈ known
      /\ forall a b, stored_edge (visible w d) a b -> a ∈ known
  | Recording post id w todo => checked post id w d todo
  | Targeted post id w relation _ todo => checked post id w d (relation :: todo)
  end.

(** * Edges of what a transaction sees *)

Lemma stored_edge_known d a b : stored_edge d a b -> a ∈ known_posts d.
Proof.
  intros (id & row & src & _ & _ & Hsrc & Ha & _). unfold known_posts.
  apply elem_of_list_to_set, list_elem_of_omap. exists (rel_referencing_post_id row, src).
  by rewrite elem_of_map_to_list.
Qed.

(** A relation in a transaction's view is its own or committed. *)
Lemma visible_edge w d a b : stored_edge (visible w d) a b <->
  exists id row src, (wr_relations w ∪ post_relations d) !! id = Some row /\ rel_relation_kind row = "reply"
    /\ (wr_posts w ∪ posts d) !! rel_referencing_post_id row = Some src
    /\ p_provider_post_id src = Some a /\ rel_target_provider_post_id row = b.
Proof. done. Qed.

(** What others commit adds no edge to the view. *)
Lemma bystander_edges post id w d d' a b :
  own_writes post id w -> grounded d -> bystander d d' ->
  stored_edge (visible w d') a b -> stored_edge (visible w d) a b.
Proof.
  intros [_ (own & Hposts & Hown) Hrel] Hg [Hg' Hreplies Hident].
  rewrite !visible_edge, Hposts, <- !insert_union_singleton_l.
  intros (i & row & src & Hrow & Hk & Hsrc & Ha & Hb).
  apply lookup_union_Some_raw in Hrow as [Hrow|[Hnone Hrow]].
  - exists i, row, src. split_and!; [by apply lookup_union_Some_l|done|..|done|done].
    rewrite (Hrel _ _ Hrow), lookup_insert_eq in *. done.
  - destruct (Hreplies _ _ Hrow Hk) as (row0 & Hrow0 & Hk0 & Hr0 & Ht0). rewrite <- Hr0 in Hsrc.
    apply lookup_insert_Some in Hsrc as [[Hid <-]|[Hne Hsrc]].
    + exists i, row0, own. rewrite <- Hid, lookup_insert_eq. split_and!; try done; [|congruence].
      by rewrite lookup_union_r.
    + destruct (Hg _ _ Hrow0) as [src0 Hsrc0]. exists i, row0, src0.
      rewrite lookup_insert_ne by done. split_and!; try done; [by rewrite lookup_union_r| |congruence].
      by rewrite <- (Hident _ _ _ Hsrc0 Hsrc).
Qed.

(** A chain whose every source satisfies [Q] and that ends in one runs between such nodes. *)
Lemma tc_sources {A} (R : relation A) (Q : A -> Prop) x y :
  (forall a b, R a b -> Q a) -> tc R x y -> Q y -> tc (fun a b => R a b /\ Q b) x y.
Proof.
  intros HQ Hxy Hy. induction Hxy as [x y Hr|x y z Hr Hyz IH]; [by apply tc_once|].
  eapply tc_l; [split; [exact Hr|]|by apply IH].
  destruct Hyz; eauto.
Qed.

(** The check passes only when the stored replies and the new ones together have no cycle: every
    post on a cycle is the source of a reply, so it is known. *)
Lemma check_acyclic known v post r :
  validate_relation_sources post = Ok () -> normalized known (all_replies v post) = Ok r ->
  (forall a b, stored_edge v a b -> a ∈ known) -> pp_provider_post_id post ∈ known ->
  ~ exists x, tc (fun a b => stored_edge v a b \/ new_reply post a b) x x.
Proof.
  intros Hval [Hacyclic _]%normalized_Ok Hsrc Hpost [x Hx]. apply Hacyclic. exists x.
  assert (forall a b, stored_edge v a b \/ new_reply post a b -> a ∈ known) as HQ.
  { intros a b [?|(? & _ & _ & <- & _)]; eauto. }
  eapply tc_weaken; [|eapply (tc_sources _ (fun a => a ∈ known)); [exact HQ|exact Hx|]].
  - intros a b [[(q & Hq & Ha & Hb)%elem_of_stored_replies|(q & Hq & Hk & Ha & Hb)] Hknown];
      exists q; unfold all_replies; rewrite elem_of_app.
    + split_and!; try done; [by left|by eapply stored_replies_kind].
    + split_and!; try done; [right|rewrite <- Ha; by eapply validate_sources_Ok].
      by rewrite list_elem_of_In, filter_In, <- list_elem_of_In, bool_decide_eq_true.
  - inversion Hx; subst; eauto.
Qed.

(** * The statements *)

Lemma upsert_post_writes new_id post now d id v' :
  validate_relation_sources post = Ok () ->
  upsert_post new_id post now (visible no_writes d) = Ok (id, v') ->
  own_writes post id (write_post id v' no_writes).
Proof.
  intros Hval Hup. apply upsert_post_Ok in Hup as (row & Hrow & ->).
  apply upserted_provider in Hrow. unfold write_post. cbn. rewrite lookup_insert_eq.
  split; cbn; [done| |by intros i r []%lookup_empty_Some].
  exists row. by rewrite insert_empty.
Qed.

(** What a statement that writes row [i] adds to the transaction's rows. *)
Lemma changed_insert (m : gmap Uuid relation_row) i row j row' :
  filter (fun kv => m !! kv.1 <> Some kv.2) (<[i := row]> m) !! j = Some row' <->
  j = i /\ row' = row /\ m !! i <> Some row.
Proof.
  rewrite map_lookup_filter_Some, lookup_insert_Some. cbn. split; [|by intros (-> & -> & ?); eauto].
  intros [[[<- <-]|[Hne Hj]] Hm]; [done|congruence].
Qed.

Lemma changed_visible (m n : gmap Uuid relation_row) i row :
  (filter (fun kv => (m ∪ n) !! kv.1 <> Some kv.2) (<[i := row]> (m ∪ n)) ∪ m) ∪ n = <[i := row]> (m ∪ n).
Proof.
  rewrite <- map_union_assoc. apply map_eq. intros j.
  match goal with |- (?f ∪ _) !! j = _ => destruct (f !! j) as [row'|] eqn:E end.
  - erewrite lookup_union_Some_l by exact E. apply changed_insert in E as (-> & -> & _).
    by rewrite lookup_insert_eq.
  - rewrite lookup_union_r by exact E. destruct (decide (j = i)) as [->|Hne]; [|by rewrite lookup_insert_ne].
    rewrite lookup_insert_eq. destruct (decide ((m ∪ n) !! i = Some row)) as [|Hd]; [done|].
    rewrite (proj2 (changed_insert _ _ _ _ _) (conj eq_refl (conj eq_refl Hd))) in E. done.
Qed.

(** Upserting one of the observation's relations adds at most its edge. *)
Lemma upsert_relation_checked new_id target permalink post id w d relation todo v' :
  checked post id w d (relation :: todo) ->
  upsert_relation new_id id target (gr_target_provider_post_id relation) permalink
    (Relation.kind_str (gr_relation_kind relation)) (visible w d) = Ok v' ->
  checked post id (write_relations (visible w d) v' w) d todo.
Proof.
  intros [Hw (E & Hacyclic & Hstored & Hnew) Htodo] Hup.
  destruct (Htodo relation) as (known & r & Hr & ->); [by left|].
  apply upsert_relation_row in Hup as (i & row & -> & Hid & Ht & Hk). cbn in Ht, Hk.
  destruct Hw as [Hval (own & Hposts & Hown) Hrel].
  split; [split|exists E; split; [done|split; [|done]]|]; cbn; eauto.
  - intros j row' [(_ & -> & _)%changed_insert|[_ Hj]]%lookup_union_Some_raw; eauto.
  - intros a b. rewrite visible_edge. cbn. rewrite changed_visible.
    intros (j & row' & src & [[<- <-]|[Hne Hrow]]%lookup_insert_Some & Hreply & Hsrc & Ha & Hb).
    + apply Hnew. exists r. split_and!; [done|congruence| |congruence].
      rewrite Hid, Hposts, <- insert_union_singleton_l, lookup_insert_eq in Hsrc. simplify_eq. congruence.
    + apply Hstored. rewrite visible_edge. by exists j, row', src.
  - intros rel Hin. apply Htodo. by right.
Qed.

(** The whole statement sequence under the lock. *)
Lemma next_statement_in now new_id d t t' :
  recorder_in d t -> next_statement now new_id d t = Some t' -> recorder_in d t'.
Proof.
  destruct t as [|post id w|post id w|post id w known|post id w [|relation todo]|post id w relation target todo];
    cbn; intros Hin Hnext; try done.
  - simplify_eq/=. split_and!; [done| |by intros a b; apply stored_edge_known].
    destruct Hin as [_ (own & Hposts & Hown) _]. unfold known_posts.
    apply elem_of_list_to_set, list_elem_of_omap. exists (id, own).
    rewrite elem_of_map_to_list. cbn. by rewrite Hposts, <- insert_union_singleton_l, lookup_insert_eq.
  - destruct Hin as (Hw & Hpost & Hsrc).
    destruct (normalized known (all_replies _ post)) eqn:Hall; [|done].
    destruct (normalized known (pp_relations post)) as [relations|] eqn:Hrels; simplify_eq/=.
    split; [done| |].
    + eexists. split; [eapply check_acyclic; [apply Hw|done..]|split; auto].
    + apply normalized_Ok in Hrels as [_ Hperm]. intros relation Hr. rewrite Hperm in Hr.
      apply list_elem_of_fmap in Hr as (r & -> & Hr). eauto.
  - by simplify_eq/=.
  - destruct (upsert_relation _ _ _ _ _ _ _) as [v'|] eqn:Hup; simplify_eq/=.
    by eapply upsert_relation_checked.
Qed.

(** What survives the commits of transactions that add no reply. *)
Lemma bystander_in d d' t : grounded d -> bystander d d' -> recorder_in d t -> recorder_in d' t.
Proof.
  intros Hg Hby. destruct t as [| | |post id w known|post id w todo|post id w relation target todo]; cbn; [done..| | |].
  - intros (Hw & Hpost & Hsrc). split_and!; [done..|]. intros a b Hab.
    eapply Hsrc, (bystander_edges _ _ _ d d'); eauto.
  - intros [Hw (E & Hacyclic & Hstored & Hnew) Htodo]. split; [done| |done]. exists E.
    split_and!; [done| |done]. intros a b Hab. eapply Hstored, (bystander_edges _ _ _ d d'); eauto.
  - intros [Hw (E & Hacyclic & Hstored & Hnew) Htodo]. split; [done| |done]. exists E.
    split_and!; [done| |done]. intros a b Hab. eapply Hstored, (bystander_edges _ _ _ d d'); eauto.
Qed.

Lemma bystander_acyclic d d' : grounded d -> bystander d d' -> replies_acyclic d -> replies_acyclic d'.
Proof.
  intros Hg [Hg' Hreplies Hident] Hacyclic [x Hx]. apply Hacyclic. exists x. eapply tc_weaken; [|exact Hx].
  intros a b (i & row & src & Hrow & Hk & Hsrc & Ha & Hb).
  destruct (Hreplies _ _ Hrow Hk) as (row0 & Hrow0 & Hk0 & Hr0 & Ht0).
  destruct (Hg _ _ Hrow0) as [src0 Hsrc0]. exists i, row0, src0. split_and!; try done; [|congruence].
  rewrite <- Hr0 in Hsrc. by rewrite <- (Hident _ _ _ Hsrc0 Hsrc).
Qed.

#[global] Instance recorder_laws :
  LockLaws recorder_protocol (fun d => grounded d /\ replies_acyclic d) recorder_out recorder_in.
Proof.
  split; cbn.
  - by intros t (post & Hval & ->).
  - intros d t t' _ Hout (now & new_id & Hnext). destruct t as [post| | | | |]; cbn in *; try done.
    destruct (upsert_post _ _ _ _) as [[id v']|] eqn:Hup; simplify_eq/=. by eapply upsert_post_writes.
  - intros d t t' _ Hout Henter. by destruct Henter.
  - intros d t t' _ Hin (now & new_id & Hnext). by eapply next_statement_in.
  - intros d t d' [Hg _] Hin Hcommit. destruct Hcommit as [d post id w].
    destruct Hin as [[_ (own & Hposts & Hown) Hrel] (E & Hacyclic & Hstored & _) _]. split.
    + intros i row [Hrow|[_ Hrow]]%lookup_union_Some_raw; cbn; rewrite Hposts, <- insert_union_singleton_l.
      * rewrite (Hrel _ _ Hrow), lookup_insert_eq. eauto.
      * rewrite lookup_insert_is_Some'. right. eauto.
    + intros [x Hx]. apply Hacyclic. exists x. by eapply tc_weaken.
  - intros d d' [Hg Hacyclic] Hby. split; [split; [apply Hby|by eapply bystander_acyclic]|].
    intros t. by apply bystander_in.
Qed.

(** [C3] Recordings of any number of processes, interleaved statement by statement with each other
    and with transactions that add no reply, leave a committed reply graph without cycles: two
    observations that close a cycle together cannot both commit, although neither sees the other's
    rows while it checks. *)
Theorem concurrent_recordings_acyclic d c :
  grounded d -> replies_acyclic d -> rtc (step recorder_protocol) (mk_config d None []) c ->
  replies_acyclic (shared c)
  /\ ~ exists x, tc (reply_edge (known_posts (shared c)) (stored_replies (shared c))) x x.
Proof.
  intros Hg Hacyclic Hsteps.
  destruct (steps_protected recorder_protocol _ _ (conj Hg Hacyclic) Hsteps) as [[_ H] _ _].
  split; [done|]. intros [x Hx]. apply H. exists x. eapply tc_weaken; [|exact Hx].
  by intros a b [? _]%reply_edge_stored.
Qed.

(** A transaction that touches neither table is a bystander. *)
Lemma bystander_elsewhere d d' :
  grounded d -> posts d' = posts d -> post_relations d' = post_relations d -> bystander d d'.
Proof.
  intros Hg Hp Hr. split; [intros ? ?; rewrite Hp, Hr; apply Hg|rewrite Hr; eauto|].
  rewrite Hp. congruence.
Qed.

(** * Two observations that close a cycle together *)

Definition observation (provider target : string) : PublicPost :=
  mk_public_post provider (Permalink.mkPermalink ("https://www.threads.net/@u/post/" ++ provider)%string)
    "<p>text</p>" PARSER_VERSION [Build_RelationInput provider "reply" target None].

Definition advance (new_id : Uuid) (d : db) (t : Recorder) : Recorder := default t (next_statement 0 new_id d t).

Definition a_posted : Recorder := Eval vm_compute in advance 20 empty_db (Opened (observation "A" "B")).
Definition b_posted : Recorder := Eval vm_compute in advance 21 empty_db (Opened (observation "B" "A")).

Definition entered (t : Recorder) : Recorder :=
  match t with Posted post id w => InLock post id w | _ => t end.

Definition a_known : Recorder := Eval vm_compute in advance 0 empty_db (entered a_posted).
Definition a_checked : Recorder := Eval vm_compute in advance 0 empty_db a_known.
Definition a_targeted : Recorder := Eval vm_compute in advance 0 empty_db a_checked.
Definition a_recorded : Recorder := Eval vm_compute in advance 30 empty_db a_targeted.

Definition writes_of (t : Recorder) : Writes :=
  match t with
  | Opened _ => no_writes
  | Posted _ _ w | InLock _ _ w | Knows _ _ w _ | Recording _ _ w _ | Targeted _ _ w _ _ _ => w
  end.

(** What the first recording commits while the second waits for the lock. *)
Definition after_a : db := Eval vm_compute in visible (writes_of a_recorded) empty_db.

(** Both posts are upserted before either is committed; the second waits while the first commits. *)
Lemma interleaved_reached :
  rtc (step recorder_protocol) (mk_config empty_db None [])
    (mk_config after_a None [Ended; Outside b_posted]).
Proof.
  eapply rtc_l; [apply (step_begin recorder_protocol) with (t := Opened (observation "A" "B")); eexists; split; [|reflexivity]; reflexivity|].
  eapply rtc_l; [apply (step_begin recorder_protocol) with (t := Opened (observation "B" "A")); eexists; split; [|reflexivity]; reflexivity|].
  eapply rtc_l; [eapply (step_outside recorder_protocol) with (i := 0) (t' := a_posted);
    [reflexivity|exists 0%Z, 20%N; vm_compute; reflexivity]|].
  eapply rtc_l; [eapply (step_outside recorder_protocol) with (i := 1) (t' := b_posted);
    [reflexivity|exists 0%Z, 21%N; vm_compute; reflexivity]|].
  eapply rtc_l; [eapply (step_acquire recorder_protocol) with (i := 0) (t' := entered a_posted);
    [reflexivity|constructor]|].
  eapply rtc_l; [eapply (step_inside recorder_protocol) with (i := 0) (t' := a_known);
    [reflexivity|exists 0%Z, 0%N; vm_compute; reflexivity]|].
  eapply rtc_l; [eapply (step_inside recorder_protocol) with (i := 0) (t' := a_checked);
    [reflexivity|exists 0%Z, 0%N; vm_compute; reflexivity]|].
  eapply rtc_l; [eapply (step_inside recorder_protocol) with (i := 0) (t' := a_targeted);
    [reflexivity|exists 0%Z, 0%N; vm_compute; reflexivity]|].
  eapply rtc_l; [eapply (step_inside recorder_protocol) with (i := 0) (t' := a_recorded);
    [reflexivity|exists 0%Z, 30%N; vm_compute; reflexivity]|].
  apply rtc_once.
  refine (step_commit recorder_protocol empty_db (Some 0) [Inside a_recorded; Outside b_posted] 0 a_recorded
    after_a eq_refl _).
  assert (after_a = visible (writes_of a_recorded) empty_db) as -> by (vm_compute; reflexivity).
  apply (commit_record_done empty_db).
Qed.

(** The second observation passes up to the check and is refused by it: it sees the first one's reply. *)
Example second_refused :
  stored_replies after_a = [Build_RelationInput "A" "reply" "B" None]
  /\ next_statement 0 0 after_a (advance 0 after_a (entered b_posted)) = None
  /\ next_statement 0 0 empty_db (advance 0 empty_db (entered b_posted)) <> None.
Proof. split_and!; vm_compute; [reflexivity|reflexivity|discriminate]. Qed.

Lemma concurrent_recordings_acyclic_witness :
  stored_edge after_a "A" "B" /\ replies_acyclic after_a.
Proof.
  split.
  - eexists 30%N, _, _. split_and!; vm_compute; reflexivity.
  - apply (concurrent_recordings_acyclic empty_db (mk_config after_a None [Ended; Outside b_posted])).
    + intros id row H. discriminate H.
    + intros [x Hx]. destruct Hx as [? ? (? & ? & ? & H & _)|? ? ? (? & ? & ? & H & _) _]; discriminate H.
    + apply interleaved_reached.
Defined.

End Recorders.
