(* ===== verification/CaptureResolution.v ===== *)
(** The capture resolver (src/crates/threads-archive/src/capture_resolution.rs):
    claiming due captures, classifying provider failures, bounded retries, and one
    terminal operation report per operation. *)
From stdpp Require Import pretty.
From S2P Require Import Prelude Permalink Schema Store Publishing Capture Reporting RawObjects PublicResolution.

Module CaptureResolution.
Import Schema Store Reporting RawObjects.
Local Open Scope string_scope.
Local Open Scope store_scope.

Definition CLAIM_LEASE_SECONDS : Z := 120.
Definition FIRST_RETRY_SECONDS : Z := 30.
Definition LONGEST_RETRY_SECONDS : Z := 30 * 60.

Inductive Resolution := Deleted | Inaccessible | Transient.

#[global] Instance Resolution_eq_dec : EqDecision Resolution.
Proof. solve_decision. Defined.

Definition classify_status (status : Z) : Resolution :=
  if ((status =? 404) || (status =? 410))%Z then Deleted
  else if ((status =? 408) || (status =? 429) || negb ((400 <=? status) && (status <? 500)))%Z
  then Transient
  else Inaccessible.

Definition classify (error : PublicResolutionError) : Resolution :=
  match error with
  | ProviderStatus status => classify_status status
  | Network | ResponseTooLarge => Transient
  | InvalidJson | MissingField _ | WrongProvider | PermalinkMismatch | UnexpectedContentType
  | RelationSourceMismatch | TooManyRelations | RelationGraphInvalid _ => Inaccessible
  | UnsupportedEndpoint | RawStorage | RawDigestMismatch | ResolutionPersistence _ => Transient
  end.

Definition is_local_fault (error : PublicResolutionError) : bool :=
  match error with
  | UnsupportedEndpoint | RawStorage | RawDigestMismatch | ResolutionPersistence _ => true
  | _ => false
  end.

Definition reason_code (error : PublicResolutionError) : string :=
  match error with
  | ProviderStatus status => "provider_status_" +:+ pretty (Z.to_N status)
  | InvalidJson => "invalid_json"
  | MissingField _ => "missing_field"
  | WrongProvider => "wrong_provider"
  | PermalinkMismatch => "permalink_mismatch"
  | UnexpectedContentType => "unexpected_content_type"
  | _ => "unusable_response"
  end.

(** [retry_delay], in microseconds; [attempt] is a [u32]. *)
Definition retry_delay (attempt : Z) : Z :=
  let factor := saturating_pow i64_max 4 (saturating_sub attempt 1) in
  seconds (Z.min (saturating_mul i64_max FIRST_RETRY_SECONDS factor) LONGEST_RETRY_SECONDS).

Record ResolverPolicy := mk_policy {
  max_attempts : Z;      (* u32 *)
  batch_size : nat;      (* u32 *)
}.

Record RunSummary := mk_summary { rs_claimed : nat; rs_reported : nat }.

Inductive ResolverError :=
| ResolverPersistence (e : SqlError)
| ResolverCapture (e : Capture.CaptureError)
| ResolverLocal (e : PublicResolutionError)
| ResolverReport (reason : string).

Definition of_report_error (e : ReportError) : ResolverError :=
  match e with
  | ReportContract reason => ResolverReport reason
  | ReportPersistence e => ResolverPersistence e
  end.

Record Due := mk_due {
  du_capture_id : Uuid;
  du_user_ref : Uuid;
  du_operation_id : Uuid;
  du_command_id : Uuid;
  du_canonical_url : string;
  du_status : string;
  du_resolution_attempts : Z;  (* i32 *)
}.

Inductive Terminal := Preserved | TUnavailable (reason : SourceUnavailability).

Inductive Attempt := AttemptTerminal (terminal : Terminal) | AttemptRetry.

(** * Statements *)

(** The row of the claim query; [None] for a capture the query does not return. *)
Definition due_row (now : Time) (id : Uuid) (c : capture_row) : option (Time * Due) :=
  match c_operation_id c, c_command_id c, c_operation_reported_at c, c_next_resolution_at c with
  | Some op, Some cmd, None, Some at_ =>
      if (at_ <=? now)%Z
      then Some (at_, mk_due id (c_user_ref c) op cmd (c_canonical_url c) (c_status c)
                        (c_resolution_attempts c))
      else None
  | _, _, _, _ => None
  end.

Definition due_leb (a b : Time * Due) : bool :=
  (a.1 <? b.1)%Z || ((a.1 =? b.1)%Z && (du_capture_id a.2 <=? du_capture_id b.2)%N).

(** [order by next_resolution_at, capture_id limit $2]. *)
Definition due_captures (now : Time) (limit : nat) (d : db) : list Due :=
  take limit (sort_by due_leb (omap (fun kv => due_row now kv.1 kv.2) (map_to_list (captures d)))).*2.

Definition set_next_resolution (at_ : option Time) (c : capture_row) : capture_row :=
  mk_capture_row (c_user_ref c) (c_post_id c) (c_idempotency_key c) (c_canonical_url c)
    (c_original_url c) (c_acquisition_method c) (c_saved_authority c) (c_client_source c)
    (c_status c) (c_note c) (c_captured_at c) at_ (c_operation_id c) (c_command_id c)
    (c_resolution_attempts c) (c_operation_reported_at c).

Definition set_attempts (attempts : Z) (at_ : Time) (c : capture_row) : capture_row :=
  mk_capture_row (c_user_ref c) (c_post_id c) (c_idempotency_key c) (c_canonical_url c)
    (c_original_url c) (c_acquisition_method c) (c_saved_authority c) (c_client_source c)
    (c_status c) (c_note c) (c_captured_at c) (Some at_) (c_operation_id c) (c_command_id c)
    attempts (c_operation_reported_at c).

Definition set_reported (now : Time) (c : capture_row) : capture_row :=
  mk_capture_row (c_user_ref c) (c_post_id c) (c_idempotency_key c) (c_canonical_url c)
    (c_original_url c) (c_acquisition_method c) (c_saved_authority c) (c_client_source c)
    (c_status c) (c_note c) (c_captured_at c) None (c_operation_id c) (c_command_id c)
    (c_resolution_attempts c) (Some now).

(** [update captures set next_resolution_at = $2 where capture_id = any($1)]. *)
Definition lease (ids : list Uuid) (until : Time) (d : db) : db :=
  set_captures (update_where (fun id _ => bool_decide (id ∈ ids)) (set_next_resolution (Some until))
    (captures d)) d.

(** The newest tombstone of a capture. *)
Definition newest_tombstone (d : db) (capture_id : Uuid) : option string :=
  let newest_first (a b : Uuid * tombstone_row) :=
    (t_observed_at b.2 <? t_observed_at a.2)%Z
    || ((t_observed_at b.2 =? t_observed_at a.2)%Z && (b.1 <=? a.1)%N) in
  match sort_by newest_first
    (select (tombstones d) (fun _ t => bool_decide (t_capture_id t = Some capture_id))) with
  | (_, t) :: _ => Some (t_availability t)
  | [] => None
  end.

(** The guard of [report]: [update ... where operation_reported_at is null returning post_id]. *)
Definition guard_report (capture_id : Uuid) (now : Time) (d : db)
  : Result SqlError (option (option Uuid) * db) :=
  match captures d !! capture_id with
  | Some c =>
      match c_operation_reported_at c with
      | None => Ok (Some (c_post_id c), set_captures (<[capture_id := set_reported now c]> (captures d)) d)
      | Some _ => Ok (None, d)
      end
  | None => Ok (None, d)
  end.

Section WithEnv.
Context {Henv : Env} {Hcon : Publishing.Contracts} {Hrep : ReportContracts}
  {Hweb : PublicResolution.Web} (policy : ResolverPolicy).

Abbreviation R A := (M ResolverError A).

Definition claim_body (now : Time) : R (Finish (list Due)) :=
  let* due := mapErr ResolverPersistence (read (fun _ d => Ok (due_captures now (batch_size policy) d))) in
  (if bool_decide (due = []) then ret () else
   mapErr ResolverPersistence (execute (fun _ d =>
     Ok (lease (du_capture_id <$> due) (now + seconds CLAIM_LEASE_SECONDS)%Z d)))) ;;;
  ret (Commit due).

(** [CaptureResolver::claim]. *)
Definition claim (now : Time) : R (list Due) := transaction ResolverPersistence (claim_body now).

(** [CaptureResolver::recorded_terminal]. *)
Definition recorded_terminal (row : Due) : R (option Terminal) :=
  if bool_decide (du_status row = "resolved") then ret (Some Preserved)
  else if bool_decide (du_status row = "unavailable") || bool_decide (du_status row = "failed") then
    let* availability := mapErr ResolverPersistence (read (fun _ d =>
      Ok (newest_tombstone d (du_capture_id row)))) in
    ret (Some (TUnavailable (if bool_decide (availability = Some "deleted") then SU_Deleted
                             else SU_Inaccessible)))
  else if (0 <=? du_resolution_attempts row)%Z && (max_attempts policy <=? du_resolution_attempts row)%Z
  then ret (Some (TUnavailable SU_Transient))
  else ret None.

(** Recording an observation built by its validating constructor. *)
Definition observe (capture_id : Uuid)
  (observation : Result Capture.CaptureError Capture.UnavailabilityObservation) : R () :=
  let* o := lift (map_err ResolverCapture observation) in
  mapErr ResolverCapture (Capture.record_observation capture_id o).

(** [CaptureResolver::record_transient_failure]. *)
Definition record_transient_failure (row : Due) (now : Time) : R Attempt :=
  observe (du_capture_id row) (Capture.obs_resolver_failed PublicResolution.PARSER_VERSION) ;;;
  let attempts := saturating_add i32_max (du_resolution_attempts row) 1 in
  let attempt := if (attempts <? 0)%Z then u32_max else attempts in
  mapErr ResolverPersistence (execute (fun _ d =>
    Ok (set_captures (alter (set_attempts attempts (now + retry_delay attempt)%Z)
      (du_capture_id row) (captures d)) d))) ;;;
  if (max_attempts policy <=? attempt)%Z then ret (AttemptTerminal (TUnavailable SU_Transient))
  else ret AttemptRetry.

(** [CaptureResolver::attempt]. *)
Definition attempt_ (row : Due) (now : Time) : R Attempt :=
  match Permalink.try_from (du_canonical_url row) with
  | Err _ =>
      observe (du_capture_id row) (Capture.obs_private_or_inaccessible "invalid_permalink") ;;;
      ret (AttemptTerminal (TUnavailable SU_Inaccessible))
  | Ok canonical =>
      let* resolved := attempt (PublicResolution.resolve_and_record (du_capture_id row)
        (Permalink.permalink canonical)) in
      match resolved with
      | Ok _ => ret (AttemptTerminal Preserved)
      | Err error =>
          if is_local_fault error then throw (ResolverLocal error) else
          match classify error with
          | Deleted =>
              observe (du_capture_id row) (Capture.obs_deleted (reason_code error)) ;;;
              ret (AttemptTerminal (TUnavailable SU_Deleted))
          | Inaccessible =>
              observe (du_capture_id row) (Capture.obs_private_or_inaccessible (reason_code error)) ;;;
              ret (AttemptTerminal (TUnavailable SU_Inaccessible))
          | Transient => record_transient_failure row now
          end
      end
  end.

(** [CaptureResolver::stored_source]. *)
Definition stored_source (row : Due) (post_id : option Uuid) : R (option Uuid) :=
  match post_id with
  | None => ret None
  | Some post_id =>
      let* source := mapErr ResolverPersistence
        (Publishing.social_source_id_for (du_user_ref row) post_id) in
      match source with
      | None => ret None
      | Some source =>
          lift (map_err ResolverReport (Publishing.parse_social_source_id source)) ;;;
          ret (Some source)
      end
  end.

(** The report of a terminal outcome. *)
Definition terminal_report (row : Due) (terminal : Terminal) (post_id : option Uuid)
  : R OperationReported :=
  match terminal with
  | Preserved =>
      let* source := stored_source row post_id in
      ret (match source with
           | Some source => PreservedReport (du_operation_id row) source
           | None => UnavailableReport (du_operation_id row) SU_Inaccessible
           end)
  | TUnavailable reason => ret (UnavailableReport (du_operation_id row) reason)
  end.

Definition report_target (row : Due) : ReportTarget :=
  mk_report_target (du_user_ref row) (du_operation_id row) (du_command_id row)
    (AggCapture (du_capture_id row)).

Definition report_body (row : Due) (terminal : Terminal) : R (Finish bool) :=
  let* guarded := mapErr ResolverPersistence (query (guard_report (du_capture_id row))) in
  match guarded with
  | None => ret (Rollback false)
  | Some post_id =>
      let* report := terminal_report row terminal post_id in
      lift (map_err ResolverReport (construct_report report)) ;;;
      mapErr of_report_error (append_report (report_target row) report) ;;;
      ret (Commit true)
  end.

(** [CaptureResolver::report]. *)
Definition report (row : Due) (terminal : Terminal) : R bool :=
  transaction ResolverPersistence (report_body row terminal).

(** [CaptureResolver::process]. *)
Definition process (row : Due) (now : Time) : R bool :=
  let* recorded := recorded_terminal row in
  match recorded with
  | Some terminal => report row terminal
  | None =>
      let* attempted := attempt_ row now in
      match attempted with
      | AttemptTerminal terminal => report row terminal
      | AttemptRetry => ret false
      end
  end.

Fixpoint process_all (due : list Due) (now : Time) (reported : nat) : R nat :=
  match due with
  | [] => ret reported
  | row :: rest =>
      let* done := process row now in
      process_all rest now (if done then S reported else reported)
  end.

(** [CaptureResolver::run_due_once]. *)
Definition run_due_once (now : Time) : R RunSummary :=
  let* due := claim now in
  let* reported := process_all due now 0 in
  ret (mk_summary (length due) reported).

(** What the loop of [CaptureResolver::run] wakes up for. *)
Inductive Wake := StopWake | PassDue (now : Time).

(** [CaptureResolver::run]; [None] when it still waits after [wakes]. *)
Fixpoint run (wakes : list Wake) (w : World) : option (Result ResolverError ()) * World :=
  match wakes with
  | [] => (None, w)
  | StopWake :: _ => (Some (Ok ()), w)
  | PassDue now :: rest =>
      match run_due_once now w with
      | (Ok _, w') => run rest w'
      | (Err e, w') => (Some (Err e), w')
      end
  end.

(** * Exactly one terminal report *)

(** A terminal report filed under a capture. *)
Definition terminal_for (id : Uuid) (_ : Uuid) (o : outbox_row) : bool :=
  bool_decide (o_event_type o = OPERATION_REPORT_EVENT)
  && bool_decide (o_aggregate_type o = "capture") && bool_decide (o_aggregate_id o = id)
  && match pl_body (o_payload o) with
     | ReportBody (UnavailableReport _ _) | ReportBody (PreservedReport _ _) => true
     | _ => false
     end.

Definition is_reported (d : db) (id : Uuid) : bool :=
  match captures d !! id with
  | Some c => bool_decide (is_Some (c_operation_reported_at c))
  | None => false
  end.

(** A reported capture has exactly one terminal report, every other one none. *)
Definition reported_inv (d : db) : Prop :=
  forall id, count_where (outbox_events d) (terminal_for id) = (if is_reported d id then 1 else 0)%Z.

(** The owner, the key and the report guard of a capture. *)
Definition capture_key (c : capture_row) : Uuid * string * option Time :=
  (c_user_ref c, c_idempotency_key c, c_operation_reported_at c).

(** Between [d0] and [d] no report appeared or vanished, no capture changed its key or its report
    guard, and the outbox only gained unpublished facts. *)
Record quiet (d0 d : db) : Prop := {
  quiet_outbox : forall id event o, terminal_for id event o = true ->
    outbox_events d !! event = Some o <-> outbox_events d0 !! event = Some o;
  quiet_caused : forall event o, is_Some (o_causation_id o) ->
    outbox_events d !! event = Some o <-> outbox_events d0 !! event = Some o;
  quiet_grows : outbox_events d0 ⊆ outbox_events d;
  quiet_fresh : forall event o, outbox_events d !! event = Some o ->
    outbox_events d0 !! event = Some o \/ o_published_at o = None;
  quiet_inbox : inbox_events d = inbox_events d0;
  quiet_keys : forall id, capture_key <$> captures d !! id = capture_key <$> captures d0 !! id;
}.

Lemma quiet_refl d : quiet d d.
Proof. split; try done. auto. Qed.

Lemma quiet_trans d1 d2 d3 : quiet d1 d2 -> quiet d2 d3 -> quiet d1 d3.
Proof.
  intros [O1 C1 G1 F1 I1 K1] [O2 C2 G2 F2 I2 K2]. split.
  - intros id ev o Ht. rewrite (O2 id ev o Ht). by apply (O1 id).
  - intros ev o Hc. rewrite (C2 ev o Hc). by apply C1.
  - by etrans.
  - intros ev o Hl. destruct (F2 _ _ Hl) as [?%F1|]; auto.
  - congruence.
  - intros id. by rewrite K2.
Qed.

Lemma key_reported d d' id : capture_key <$> captures d !! id = capture_key <$> captures d' !! id ->
  is_reported d id = is_reported d' id.
Proof.
  unfold is_reported, capture_key. destruct (captures d !! id), (captures d' !! id); simpl; try done.
  by intros [= _ _ ->].
Qed.

Lemma quiet_inv d0 d : quiet d0 d -> reported_inv d0 -> reported_inv d.
Proof.
  intros Hq Hinv id. rewrite (key_reported d d0 id) by apply Hq. rewrite <- (Hinv id).
  apply count_where_same. intros ev o Ht. by apply (quiet_outbox _ _ Hq id).
Qed.

(** Tables other than captures, inbox and outbox do not matter. *)
Lemma quiet_other d0 d d' : quiet d0 d -> captures d' = captures d ->
  outbox_events d' = outbox_events d -> inbox_events d' = inbox_events d -> quiet d0 d'.
Proof. intros [O C G F I K] Ec Eo Ei. split; rewrite ?Eo, ?Ei, ?Ec; done. Qed.

(** An update of captures that keeps the key and the report guard. *)
Lemma quiet_update d0 d p f :
  quiet d0 d -> (forall c, capture_key (f c) = capture_key c) ->
  quiet d0 (set_captures (update_where p f (captures d)) d).
Proof.
  intros [O C G F I K] Hf. split; try done. intros id. rewrite <- K. simpl.
  rewrite lookup_update_where. destruct (captures d !! id) as [c|]; simpl; [|done].
  destruct (p id c); [by rewrite Hf|done].
Qed.

Lemma quiet_alter d0 d id f :
  quiet d0 d -> (forall c, capture_key (f c) = capture_key c) ->
  quiet d0 (set_captures (alter f id (captures d)) d).
Proof.
  intros [O C G F I K] Hf. split; try done. intros id'. rewrite <- K. simpl.
  destruct (decide (id = id')) as [->|Hne]; [|by rewrite lookup_alter_ne].
  rewrite lookup_alter_eq. destruct (captures d !! id') as [c|]; simpl; [by rewrite Hf|done].
Qed.

Lemma quiet_published d0 d d' : quiet d0 d -> Publishing.published_from d d' -> quiet d0 d'.
Proof.
  intros Hq [Hrest _ _ Hsub Hev]. eapply quiet_trans; [exact Hq|].
  assert (forall ev o, outbox_events d' !! ev = Some o -> outbox_events d !! ev = Some o
    \/ ((o_event_type o = Publishing.CAPTURED_EVENT \/ o_event_type o = Publishing.UPDATED_EVENT)
        /\ o_causation_id o = None /\ o_published_at o = None)) as Hcases.
  { intros ev o Hl. destruct (outbox_events d !! ev) as [o'|] eqn:E; [|right; by eapply Hev].
    left. eapply lookup_weaken in E; [|exact Hsub]. congruence. }
  split.
  - intros id ev o Ht. split; [|intros; by eapply lookup_weaken]. intros Hl.
    destruct (Hcases _ _ Hl) as [|[[Hty|Hty] _]]; [done|..]; exfalso;
      unfold terminal_for in Ht; rewrite Hty in Ht; done.
  - intros ev o Hc. split; [|intros; by eapply lookup_weaken]. intros Hl.
    destruct (Hcases _ _ Hl) as [|(_ & Hn & _)]; [done|]. rewrite Hn in Hc. by destruct Hc.
  - done.
  - intros ev o Hl. destruct (Hcases _ _ Hl) as [|(_ & _ & Hn)]; auto.
  - by rewrite Hrest.
  - intros id. by rewrite Hrest.
Qed.

Lemma append_fact_quiet d0 id : preserves (quiet d0) (Publishing.append_fact id).
Proof.
  intros w Hq. eapply quiet_published; [exact Hq|].
  apply (Publishing.append_fact_frame (w_db w) id w), Publishing.published_from_refl.
Qed.

(** Statements on other tables. *)
Ltac quiet_statement :=
  match goal with
  | |- preserves (quiet _) (Publishing.append_fact _) => apply append_fact_quiet
  | |- preserves (quiet _) (execute _) =>
      apply preserves_execute; intros ? ? ? ? ?; simplify_eq; sql_ok;
      first [by apply quiet_alter | by apply quiet_update | by eapply quiet_other]
  end.

Lemma record_observation_quiet d0 id o : preserves (quiet d0) (Capture.record_observation id o).
Proof.
  unfold Capture.record_observation, Capture.mark_unavailable, Capture.mark_unavailable_body.
  preserve_steps; try (apply preserves_transaction_body; preserve_steps); quiet_statement.
Qed.

Lemma observe_quiet d0 id o : preserves (quiet d0) (observe id o).
Proof. unfold observe. preserve_steps. apply record_observation_quiet. Qed.

Lemma record_relations_quiet d0 id post : preserves (quiet d0) (PublicResolution.record_relations id post).
Proof.
  intros w Hq. pose proof (PublicResolution.record_relations_frame (w_db w) id post w
    (PublicResolution.only_relations_refl _)) as ->. by eapply quiet_other.
Qed.

Lemma store_quiet d0 bytes : preserves (quiet d0) (store bytes).
Proof.
  intros w Hq. destruct (store bytes w) as [r w'] eqn:E. apply store_frame in E as [[_ Hd] _].
  simpl. by rewrite Hd.
Qed.

Lemma resolve_and_record_quiet d0 id link :
  preserves (quiet d0) (PublicResolution.resolve_and_record id link).
Proof.
  unfold PublicResolution.resolve_and_record, PublicResolution.record.
  apply preserves_bind; [by intros w Hq|intros obs]. preserve_steps; [apply store_quiet|].
  apply preserves_transaction_body. unfold PublicResolution.record_body. preserve_steps.
  all: try (apply record_relations_quiet). all: try quiet_statement.
  - apply preserves_query. intros t d pid d' Hq (row & _ & ->)%PublicResolution.upsert_post_Ok.
    by eapply quiet_other.
  - apply preserves_query. intros t d now d' Hq H. destruct (insert_post_revision _ _ _) eqn:E;
      simplify_eq. sql_ok. by eapply quiet_other.
Qed.

Lemma record_transient_failure_quiet d0 row now :
  preserves (quiet d0) (record_transient_failure row now).
Proof.
  unfold record_transient_failure. preserve_steps; try apply observe_quiet. quiet_statement.
Qed.

Lemma attempt_quiet d0 row now : preserves (quiet d0) (attempt_ row now).
Proof.
  unfold attempt_. preserve_steps; try apply observe_quiet;
    try apply resolve_and_record_quiet; try apply record_transient_failure_quiet.
Qed.

Lemma claim_quiet d0 now : preserves (quiet d0) (claim now).
Proof.
  apply preserves_transaction_body. unfold claim_body. preserve_steps. quiet_statement.
Qed.

Lemma quiet_keeps_inv {E A} (m : M E A) :
  (forall d0, preserves (quiet d0) m) -> preserves reported_inv m.
Proof. intros Hq w Hinv. eapply quiet_inv; [|exact Hinv]. apply Hq, quiet_refl. Qed.

Definition is_terminal (r : OperationReported) : Prop :=
  match r with UnavailableReport _ _ | PreservedReport _ _ => True | QueuedReport _ => False end.

Context `{!ReportLaws Hrep}.

Lemma terminal_report_Ok row terminal post_id w r w' :
  terminal_report row terminal post_id w = (Ok r, w') -> is_terminal r /\ w_db w' = w_db w.
Proof.
  unfold terminal_report, stored_source, Publishing.social_source_id_for. intros H.
  destruct terminal; [|by run_ok]. apply bind_Ok in H as (src & w1 & Hs & H).
  assert (w_db w1 = w_db w) as Hd.
  { destruct post_id as [p|]; [|by run_ok]. apply bind_Ok in Hs as (o & w2 & Ho & Hs).
    destruct o; db_ok; done. }
  destruct src; run_ok; done.
Qed.

(** What a committed report did. *)
Lemma report_body_Ok row terminal w b w' :
  report_body row terminal w = (Ok (Commit b), w') ->
  exists c r event payload now now',
    captures (w_db w) !! du_capture_id row = Some c /\ c_operation_reported_at c = None
    /\ outbox_events (w_db w) !! event = None /\ is_terminal r /\ pl_body payload = ReportBody r
    /\ b = true
    /\ w_db w' = set_outbox_events
         (<[event := report_row (report_target row) payload now']> (outbox_events (w_db w)))
         (set_captures (<[du_capture_id row := set_reported now c]> (captures (w_db w))) (w_db w)).
Proof using ReportLaws0.
  unfold report_body. intros (guarded & w1 & Hg & H)%bind_Ok.
  apply mapErr_Ok, query_db in Hg as (now & d & Hg & Hd). unfold guard_report in Hg.
  destruct (captures (w_db w) !! du_capture_id row) as [c|] eqn:Ec; [|by simplify_eq].
  destruct (c_operation_reported_at c) eqn:Er; simplify_eq.
  apply bind_Ok in H as (r & w2 & Hr & H). apply terminal_report_Ok in Hr as [Ht Hd2].
  apply bind_Ok in H as (? & w3 & Hc & H). apply bind_Ok in H as ([] & w4 & Ha & H).
  apply mapErr_Ok, append_report_Ok in Ha as (event & payload & now' & Hev & Hbody & Hd4 & _).
  unfold lift in Hc. run_ok. unfold tables in Hd. rewrite Hd2, Hd in *. simpl in *.
  exists c, r, event, payload, now, now'. by split_and!.
Qed.

Lemma report_inv row terminal : preserves reported_inv (report row terminal).
Proof using ReportLaws0.
  apply preserves_transaction. intros w b w' Hinv Hb.
  apply report_body_Ok in Hb as (c & r & ev & pl & now & now' & Hc & Hn & Hev & Ht & Hbody & _ & ->).
  intros id. simpl. rewrite count_where_insert by done. unfold is_reported. simpl.
  specialize (Hinv id). unfold is_reported in Hinv.
  unfold terminal_for at 1, report_row, new_outbox_row. simpl. rewrite Hbody.
  destruct (decide (id = du_capture_id row)) as [->|Hne].
  - rewrite lookup_insert_eq. simpl. rewrite Hc, Hn in Hinv. simpl in Hinv. rewrite Hinv.
    rewrite bool_decide_eq_true_2 by done. by destruct r.
  - rewrite lookup_insert_ne by done. rewrite bool_decide_eq_false_2 by done.
    rewrite andb_false_l. exact Hinv.
Qed.

Lemma process_inv row now : preserves reported_inv (process row now).
Proof using All.
  unfold process. apply preserves_bind.
  - unfold recorded_terminal. preserve_steps.
  - intros [terminal|]; [apply report_inv|]. apply preserves_bind.
    + apply quiet_keeps_inv. intros. apply attempt_quiet.
    + intros [terminal|]; [apply report_inv|apply preserves_ret].
Qed.

Lemma process_all_inv due now n : preserves reported_inv (process_all due now n).
Proof using All.
  revert n. induction due as [|row rest IH]; intros n; simpl; [apply preserves_ret|].
  apply preserves_bind; [apply process_inv|]. intros done. apply IH.
Qed.

Lemma run_due_once_inv now : preserves reported_inv (run_due_once now).
Proof using All.
  unfold run_due_once. apply preserves_bind; [apply quiet_keeps_inv; intros; apply claim_quiet|].
  intros due. apply preserves_bind; [apply process_all_inv|]. intros. apply preserves_ret.
Qed.

(** Exactly one terminal report per operation: however often resolver passes run, also when
    they are cut short by a lost round trip, a lost answer or a failed file operation, a capture
    that is marked as reported has exactly one terminal report in the outbox and every other
    capture has none. *)
Theorem passes_report_once passes w :
  reported_inv (w_db w) ->
  reported_inv (w_db (fold_left (fun w now => (run_due_once now w).2) passes w)).
Proof using All.
  revert w. induction passes as [|now passes IH]; intros w Hinv; simpl; [done|].
  apply IH. by apply run_due_once_inv.
Qed.

(** * Every branch of one attempt *)

Definition local_fault (e : PublicResolutionError) : Prop := is_local_fault e = true.
Definition not_status (e : PublicResolutionError) : Prop := forall s, e <> ProviderStatus s.

Lemma fs_raises_local {A} (m : M PublicResolutionError A) :
  (forall w e w', m w = (Err e, w') -> e = RawStorage \/ e = RawDigestMismatch) -> raises local_fault m.
Proof. intros H w e w' Hm. by destruct (H w e w' Hm) as [->| ->]. Qed.

Lemma verify_raises_local path hash : raises local_fault (verify_raw_object path hash).
Proof.
  apply fs_raises_local. unfold verify_raw_object, fs_read, bind. intros w e w' H.
  repeat case_match; unfold ret, throw in *; simplify_eq; auto.
Qed.

Lemma store_raises_local bytes : raises local_fault (store bytes).
Proof.
  unfold store, create_once. raise_steps; try done; try apply verify_raises_local.
  all: apply fs_raises_local; unfold fs_try_exists, fs_step, fs_create_new, fs_write_all; intros w e w' H;
    repeat case_match; simplify_eq; auto.
Qed.

Lemma normalized_not_status known rels e : PublicResolution.normalized known rels = Err e -> not_status e.
Proof.
  unfold PublicResolution.normalized, map_err. repeat case_match; intros; simplify_eq; done.
Qed.

Lemma record_body_raises id post raw : raises not_status (PublicResolution.record_body id post raw).
Proof.
  unfold PublicResolution.record_body, PublicResolution.record_relations, PublicResolution.record_relation.
  raise_steps; try done; by eapply normalized_not_status.
Qed.

(** A failed recording that is not this service's own fault changed nothing. *)
Lemma record_Err id post bytes w e w' :
  PublicResolution.record id post bytes w = (Err e, w') -> is_local_fault e = false ->
  w_db w' = w_db w /\ not_status e.
Proof.
  unfold PublicResolution.record, bind, lift. intros H Hl.
  destruct (PublicResolution.validate_relation_sources post) as [u|e'] eqn:Ev.
  2:{ simplify_eq. split; [done|]. unfold PublicResolution.validate_relation_sources in Ev.
      repeat case_match; by simplify_eq. }
  destruct (store bytes w) as [[raw|e'] ws] eqn:Es.
  2:{ simplify_eq. apply store_raises_local in Es. unfold local_fault in Es. congruence. }
  apply store_frame in Es as [[_ Hd] _].
  apply transaction_Err in H as [->|(Hd' & w0 & w1 & _ & Hb)]; [done|].
  split; [congruence|]. by eapply record_body_raises.
Qed.

Lemma string_field_Err value name e : PublicResolution.string_field value name = Err e -> not_status e.
Proof. unfold PublicResolution.string_field, ok_or. by destruct (value name); intros; simplify_eq. Qed.

Lemma parse_observation_not_status link payload e :
  PublicResolution.parse_observation link payload = Err e -> not_status e.
Proof.
  unfold PublicResolution.parse_observation.
  destruct (PublicResolution.json_parse payload) as [value|]; simpl; [|by intros [= <-]].
  destruct (PublicResolution.string_field value "provider_name") as [provider|e1] eqn:E1; simpl;
    [|intros [= <-]; by eapply string_field_Err].
  destruct (negb _); [by intros [= <-]|].
  destruct (PublicResolution.string_field value "url") as [url|e2] eqn:E2; simpl;
    [|intros [= <-]; by eapply string_field_Err].
  destruct (Permalink.try_from url) as [canonical|]; cbn [map_err result_bind]; [|by intros [= <-]].
  destruct (negb _); [by intros [= <-]|].
  destruct (PublicResolution.string_field value "html") as [html|e3] eqn:E3; simpl; [done|].
  intros [= <-]. by eapply string_field_Err.
Qed.

Lemma accept_response_status link response s :
  PublicResolution.accept_response link response = Err (ProviderStatus s) ->
  PublicResolution.hr_status response = s.
Proof.
  unfold PublicResolution.accept_response. destruct (negb _); [intros; by simplify_eq|].
  destruct (negb _); [done|]. destruct (default _ _); [done|].
  destruct (PublicResolution.bounded_body _) as [raw|e] eqn:Eb; simpl.
  - destruct (negb _); [done|].
    destruct (PublicResolution.parse_observation _ _) as [post|e] eqn:Ep; simpl; [done|].
    intros [= ->]. by apply parse_observation_not_status in Ep; destruct (Ep s).
  - intros [= ->]. exfalso. revert Eb. unfold PublicResolution.bounded_body. generalize "".
    induction (PublicResolution.hr_chunks response) as [|[c|] l IH]; intros acc; cbn [PublicResolution.bounded_body_from]; try done.
    destruct (_ <? _)%nat; [done|]. apply IH.
Qed.

Lemma resolve_and_record_Err id link w e w' :
  PublicResolution.resolve_and_record id link w = (Err e, w') -> is_local_fault e = false ->
  w_db w' = w_db w /\ forall s, e = ProviderStatus s -> exists response,
    PublicResolution.http_get (w_tick w) (Permalink.as_str link) = Some response
    /\ PublicResolution.hr_status response = s.
Proof.
  unfold PublicResolution.resolve_and_record, PublicResolution.resolve, bind. intros H Hl.
  destruct (PublicResolution.http_get _ _) as [response|] eqn:Eh.
  2:{ simplify_eq. done. }
  destruct (PublicResolution.accept_response link response) as [o|e'] eqn:Ea.
  - apply record_Err in H as [Hd Hn]; [|done]. split; [done|]. intros s ->. by destruct (Hn s).
  - simplify_eq. split; [done|]. intros s ->. exists response. split; [done|].
    by eapply accept_response_status.
Qed.

Lemma classify_deleted e :
  classify e = Deleted -> e = ProviderStatus 404 \/ e = ProviderStatus 410.
Proof.
  destruct e; simpl; try done. unfold classify_status.
  destruct (Z.eqb_spec status 404) as [->|]; [by left|].
  destruct (Z.eqb_spec status 410) as [->|]; [by right|]. simpl. by destruct (_ || _).
Qed.

Lemma observe_Ok id observation w w' :
  observe id observation w = (Ok (), w') ->
  exists o, observation = Ok o /\ exists w0, w_db w0 = w_db w /\ Capture.record_observation id o w0 = (Ok (), w').
Proof.
  unfold observe. intros (o & w1 & Ho & H)%bind_Ok. apply mapErr_Ok in H. unfold lift in Ho.
  destruct observation; simplify_eq/=. eauto.
Qed.

(** The tables after a transient failure: one resolution row and the next attempt's schedule. *)
Definition retried (row : Due) (now : Time) (d d' : db) : Prop :=
  exists rid t, capture_resolutions d !! rid = None /\
    d' = set_captures (alter (set_attempts (saturating_add i32_max (du_resolution_attempts row) 1)
           (now + retry_delay (saturating_add i32_max (du_resolution_attempts row) 1))%Z)
           (du_capture_id row) (captures d))
         (set_capture_resolutions (<[rid := mk_resolution_row (du_capture_id row) "resolver_failed"
           (Some PublicResolution.PARSER_VERSION) None t]> (capture_resolutions d)) d).

Lemma record_transient_failure_Ok row now w out w' :
  record_transient_failure row now w = (Ok out, w') -> (0 <= du_resolution_attempts row)%Z ->
  retried row now (w_db w) (w_db w')
  /\ out = (if (max_attempts policy <=? saturating_add i32_max (du_resolution_attempts row) 1)%Z
             then AttemptTerminal (TUnavailable SU_Transient) else AttemptRetry).
Proof.
  unfold record_transient_failure. intros ([] & w1 & Ho & H)%bind_Ok Hn.
  apply observe_Ok in Ho as (o & Hobs & w0 & Hd & Hr). unfold Capture.obs_resolver_failed in Hobs.
  simpl in Hobs. simplify_eq. apply Capture.record_observation_Ok in Hr as (rid & t & Hrid & Hd1).
  assert ((saturating_add i32_max (du_resolution_attempts row) 1 <? 0)%Z = false) as E.
  { apply Z.ltb_ge. unfold saturating_add. assert (0 <= i32_max)%Z by (vm_compute; discriminate). lia. }
  rewrite E in H. apply bind_Ok in H as (? & w2 & Hx & H). rewrite Hd in *.
  assert (retried row now (w_db w) (w_db w2)) as Hret.
  { db_ok. exists rid, t. by rewrite Hd1. }
  destruct (_ <=? _)%Z; run_ok; done.
Qed.

(** [C28] Every answered attempt ends in one of five ways, each with its own evidence: preserved,
    after the observation was recorded; deleted, only when the provider answered 404 or 410 to
    this request; inaccessible; given up, only when the failures reached the configured maximum;
    or scheduled again with one more counted failure. A transient failure writes no tombstone
    and leaves posts, status and outbox alone. *)
Theorem attempt_outcomes row now w out w' :
  attempt_ row now w = (Ok out, w') -> (0 <= du_resolution_attempts row)%Z ->
  let attempts := saturating_add i32_max (du_resolution_attempts row) 1 in
  match out with
  | AttemptTerminal Preserved => exists link res,
      PublicResolution.resolve_and_record (du_capture_id row) link w = (Ok res, w')
  | AttemptTerminal (TUnavailable SU_Deleted) => exists link response reason,
      PublicResolution.http_get (w_tick w) (Permalink.as_str link) = Some response
      /\ (PublicResolution.hr_status response = 404 \/ PublicResolution.hr_status response = 410)%Z
      /\ Capture.marked_unavailable (du_capture_id row) "deleted" reason (w_db w) (w_db w')
  | AttemptTerminal (TUnavailable SU_Inaccessible) => exists reason,
      Capture.marked_unavailable (du_capture_id row) "private_or_inaccessible" reason (w_db w) (w_db w')
  | AttemptTerminal (TUnavailable SU_Transient) =>
      (max_attempts policy <= attempts)%Z /\ retried row now (w_db w) (w_db w')
  | AttemptRetry => (attempts < max_attempts policy)%Z /\ retried row now (w_db w) (w_db w')
  end.
Proof.
  unfold attempt_. cbv zeta. intros H Hn. destruct (Permalink.try_from _) as [canonical|e].
  2:{ apply bind_Ok in H as ([] & w1 & Ho & H).
      apply observe_Ok in Ho as (o & Hobs & w0 & Hd & Hr). vm_compute in Hobs. simplify_eq.
      apply Capture.record_observation_Ok in Hr. rewrite Hd in Hr. run_ok. eexists. exact Hr. }
  apply bind_Ok in H as (r & w1 & Hr & H). unfold attempt in Hr.
  destruct (PublicResolution.resolve_and_record _ _ w) as [[res|e] w2] eqn:Er; simplify_eq.
  { run_ok. eexists _, _. exact Er. }
  destruct (is_local_fault e) eqn:El; [done|].
  apply resolve_and_record_Err in Er as [Hd Hstatus]; [|done].
  destruct (classify e) eqn:Ec.
  - apply bind_Ok in H as ([] & w2 & Ho & H). apply observe_Ok in Ho as (o & Hobs & w0 & Hd0 & Hr).
    unfold Capture.obs_deleted in Hobs. repeat result_step.
    apply Capture.record_observation_Ok in Hr. rewrite Hd0, Hd in Hr. run_ok.
    destruct (classify_deleted e Ec) as [->| ->]; edestruct Hstatus as (response & Hh & Hs);
      try reflexivity; eexists (Permalink.permalink canonical), response, _;
      (split; [exact Hh|]); (split; [by auto|exact Hr]).
  - apply bind_Ok in H as ([] & w2 & Ho & H). apply observe_Ok in Ho as (o & Hobs & w0 & Hd0 & Hr).
    unfold Capture.obs_private_or_inaccessible in Hobs. repeat result_step.
    apply Capture.record_observation_Ok in Hr. rewrite Hd0, Hd in Hr. run_ok. eexists. exact Hr.
  - apply record_transient_failure_Ok in H as [Hret ->]; [|done]. rewrite Hd in Hret.
    destruct (Z.leb_spec (max_attempts policy) (saturating_add i32_max (du_resolution_attempts row) 1)); done.
Qed.

End WithEnv.

(** * The retry schedule *)

Lemma retry_delay_closed n : retry_delay n = seconds (Z.min (30 * 4 ^ Z.max (n - 1) 0) 1800).
Proof.
  unfold retry_delay, saturating_pow, saturating_mul, saturating_sub, FIRST_RETRY_SECONDS,
    LONGEST_RETRY_SECONDS. f_equal.
  assert (0 < 4 ^ Z.max (n - 1) 0)%Z by (apply Z.pow_pos_nonneg; lia).
  assert (i64_max = 9223372036854775807)%Z as -> by reflexivity. lia.
Qed.

(** The retry schedule is bounded and grows: the wait after the [n]-th transient failure is
    thirty seconds times four to the power [n - 1], capped at thirty minutes; it never shrinks,
    never overflows, and reaches its cap with the fourth failure. *)
Theorem retry_delay_schedule n :
  retry_delay n = seconds (Z.min (30 * 4 ^ Z.max (n - 1) 0) 1800)
  /\ (seconds 30 <= retry_delay n <= seconds 1800)%Z
  /\ (retry_delay n <= retry_delay (n + 1))%Z
  /\ ((4 <= n)%Z -> retry_delay n = seconds 1800).
Proof.
  rewrite !retry_delay_closed. unfold seconds.
  assert (1 <= 4 ^ Z.max (n - 1) 0)%Z by (apply (Z.pow_le_mono_r 4 0); lia).
  assert (4 ^ Z.max (n - 1) 0 <= 4 ^ Z.max (n + 1 - 1) 0)%Z by (apply Z.pow_le_mono_r; lia).
  split_and!; [done|lia|lia|lia|]. intros Hn.
  assert (4 ^ 3 <= 4 ^ Z.max (n - 1) 0)%Z by (apply Z.pow_le_mono_r; lia). lia.
Qed.

(** * Witnesses *)

Definition sample_policy : ResolverPolicy := mk_policy 5 10.

Definition sample_pass (web : PublicResolution.Web) (now : Time) (w : World) : World :=
  (@run_due_once sample_env Publishing.sample_contracts sample_report_contracts web sample_policy now w).2.

Lemma reported_inv_accepted : reported_inv PublicResolution.accepted_archive.
Proof.
  intros id. unfold is_reported. destruct (captures _ !! id) as [c|] eqn:E; [|done].
  unfold PublicResolution.accepted_archive in E. simpl in E.
  apply lookup_singleton_Some in E as [_ <-]. done.
Qed.

Lemma passes_report_once_witness :
  count_where (outbox_events (w_db (fold_left (fun w now => sample_pass PublicResolution.sample_web now w)
    [1; 2; 3]%Z (sample_world PublicResolution.accepted_archive)))) (terminal_for 10) = 1%Z.
Proof.
  etrans; [apply (@passes_report_once sample_env Publishing.sample_contracts sample_report_contracts
    PublicResolution.sample_web sample_policy _ [1; 2; 3]%Z (sample_world PublicResolution.accepted_archive)
    reported_inv_accepted 10%N)|]. vm_compute. reflexivity.
Defined.

(** A provider that answers 404 to everything. *)
Definition gone_web : PublicResolution.Web := {|
  PublicResolution.url_parse := fun _ => None;
  PublicResolution.json_parse := fun _ => None;
  PublicResolution.http_get := fun _ _ => Some (PublicResolution.mk_response 404 None None []);
|}.

Definition sample_due : Due :=
  mk_due 10 7 50 1 (Permalink.as_str PublicResolution.sample_link) "accepted" 0.

Lemma attempt_outcomes_witness :
  exists w' reason, @attempt_ sample_env Publishing.sample_contracts gone_web sample_policy sample_due 5
      (sample_world PublicResolution.accepted_archive) = (Ok (AttemptTerminal (TUnavailable SU_Deleted)), w')
    /\ Capture.marked_unavailable 10 "deleted" reason PublicResolution.accepted_archive (w_db w').
Proof.
  destruct (@attempt_ sample_env Publishing.sample_contracts gone_web sample_policy sample_due 5
    (sample_world PublicResolution.accepted_archive)) as [r w'] eqn:E.
  assert (r = Ok (AttemptTerminal (TUnavailable SU_Deleted))) as -> by (vm_compute in E; congruence).
  destruct (@attempt_outcomes sample_env Publishing.sample_contracts gone_web sample_policy sample_due 5
    (sample_world PublicResolution.accepted_archive) _ w' E ltac:(done)) as (_ & _ & reason & _ & _ & Hm).
  by exists w', reason.
Defined.

(** Over an archive with a stored reply cycle, a healthy provider's post is reported inaccessible. *)
Example stored_cycle_reports_inaccessible :
  let d := w_db (sample_pass PublicResolution.sample_web 5 (sample_world PublicResolution.cyclic_archive)) in
  (c_status <$> captures d !! 10%N, (fun o => pl_body (o_payload o)) <$> (map_to_list (outbox_events d)).*2)
  = (Some "unavailable", [ReportBody (UnavailableReport 50 SU_Inaccessible)]).
Proof. vm_compute. reflexivity. Qed.

(** A permalink held under another identity stops the pass; the capture stays accepted. *)
Example permalink_collision_stops_the_pass :
  let r := @run_due_once sample_env Publishing.sample_contracts sample_report_contracts
    PublicResolution.sample_web sample_policy 5 (sample_world PublicResolution.official_archive) in
  (r.1, c_status <$> captures (w_db r.2) !! 10%N)
  = (Err (ResolverLocal (ResolutionPersistence (UniqueViolation "posts_permalink_key"))), Some "accepted").
Proof. vm_compute. reflexivity. Qed.

End CaptureResolution.
