(* ===== verification/Claims.v ===== *)
(** Resolver passes of several processes at once
    (src/crates/threads-archive/src/capture_resolution.rs: [claim] and what follows it).

    [CaptureResolution] runs one pass at a time. Here the statements of the claims of any number of
    passes interleave: [select ... for update skip locked] locks the rows it returns until the
    transaction ends, the lease is written and committed, and the pass then works through its rows
    while other passes select. A pass computes every schedule from the clock it read when it started.

    The relation has a switch: in a timely run no pass still writes a retry schedule after its lease
    of [CLAIM_LEASE_SECONDS] has ended. *)
From S2P Require Import Prelude Schema Store PublicResolution CaptureResolution.

Module Claims.
Import Schema Store CaptureResolution.
Local Open Scope Z_scope.

Inductive Pass :=
| Selecting (started : Time)                       (* [run_due_once(now)] was called *)
| Holding (started : Time) (due : list Due)        (* the rows are locked, the lease is not committed *)
| Working (started : Time) (claims : list Uuid)    (* the captures this pass still has to finish *)
| Over.                                            (* it returned or was lost *)

Record Resolvers := mk_resolvers {
  rv_clock : Time;
  rv_db : db;                 (* what is committed *)
  rv_passes : list Pass;
}.

Definition row_locks (p : Pass) : list Uuid :=
  match p with Holding _ due => du_capture_id <$> due | _ => [] end.

Definition locked (passes : list Pass) : list Uuid := mjoin (row_locks <$> passes).

(** The rows [skip locked] considers. *)
Definition unlocked (ids : list Uuid) (d : db) : db :=
  set_captures (filter (fun kv => kv.1 ∉ ids) (captures d)) d.

(** The claim query. *)
Definition select_due (now : Time) (limit : nat) (passes : list Pass) (d : db) : list Due :=
  due_captures now limit (unlocked (locked passes) d).

Definition lease_end (started : Time) : Time := started + seconds CLAIM_LEASE_SECONDS.

(** The update of the claim and its commit. *)
Definition commit_claim (started : Time) (due : list Due) (d : db) : db :=
  if bool_decide (due = []) then d else lease (du_capture_id <$> due) (lease_end started) d.

Definition without (id : Uuid) (claims : list Uuid) : list Uuid := filter (fun x => x <> id) claims.

Definition schedule (c : capture_row) : option Time * option Time :=
  (c_next_resolution_at c, c_operation_reported_at c).

(** A transaction that schedules nothing: it leaves locked rows alone, keeps the schedule of every
    capture it keeps, and gives a new capture an identifier no pass has seen. *)
Record unscheduled (passes : list Pass) (d d' : db) : Prop := {
  us_locked id : id ∈ locked passes -> captures d' !! id = captures d !! id;
  us_schedule id c' : captures d' !! id = Some c' ->
    (exists c, captures d !! id = Some c /\ schedule c' = schedule c) \/
    (captures d !! id = None /\ forall s claims, Working s claims ∈ passes -> id ∉ claims);
}.

Section Interleaving.
Context (limit : nat) (timely : bool).

Inductive step : Resolvers -> Resolvers -> Prop :=
| step_clock t t' d ps : t <= t' -> step (mk_resolvers t d ps) (mk_resolvers t' d ps)
| step_start t d ps : step (mk_resolvers t d ps) (mk_resolvers t d (ps ++ [Selecting t])%list)
| step_select t d ps i s : ps !! i = Some (Selecting s) ->
    step (mk_resolvers t d ps) (mk_resolvers t d (<[i := Holding s (select_due s limit ps d)]> ps))
| step_commit t d ps i s due : ps !! i = Some (Holding s due) ->
    step (mk_resolvers t d ps)
      (mk_resolvers t (commit_claim s due d) (<[i := Working s (du_capture_id <$> due)]> ps))
| step_lost t d ps i : step (mk_resolvers t d ps) (mk_resolvers t d (<[i := Over]> ps))
(** [record_transient_failure] schedules the next attempt of one of the pass's captures. *)
| step_retry t d ps i s claims id attempts attempt : ps !! i = Some (Working s claims) -> id ∈ claims ->
    id ∉ locked ps -> (timely = true -> t < lease_end s) ->
    step (mk_resolvers t d ps)
      (mk_resolvers t (set_captures (alter (set_attempts attempts (s + retry_delay attempt)) id (captures d)) d)
        (<[i := Working s (without id claims)]> ps))
(** [report] takes a capture out of the schedule; its guard needs no claim. *)
| step_report t d ps id now found d' : id ∉ locked ps -> guard_report id now d = Ok (found, d') ->
    step (mk_resolvers t d ps) (mk_resolvers t d' ps)
| step_finish t d ps i s claims id : ps !! i = Some (Working s claims) ->
    step (mk_resolvers t d ps) (mk_resolvers t d (<[i := Working s (without id claims)]> ps))
| step_other t d ps d' : unscheduled ps d d' -> step (mk_resolvers t d ps) (mk_resolvers t d' ps).

End Interleaving.

(** Pass [i], started at [s], has capture [x] to finish. *)
Definition working (ps : list Pass) (i : nat) (s : Time) (x : Uuid) : Prop :=
  exists claims, ps !! i = Some (Working s claims) /\ x ∈ claims.

(** Pass [i] has the row of [x] locked. *)
Definition holding (ps : list Pass) (i : nat) (s : Time) (x : Uuid) : Prop :=
  exists due, ps !! i = Some (Holding s due) /\ x ∈ du_capture_id <$> due.

Definition started (p : Pass) : option Time :=
  match p with Selecting s | Holding s _ | Working s _ => Some s | Over => None end.

(** Nobody finds [x] due before [t]. *)
Definition deferred (d : db) (x : Uuid) (t : Time) : Prop :=
  forall c, captures d !! x = Some c -> c_operation_reported_at c = None ->
    exists n, c_next_resolution_at c = Some n /\ t <= n.

Record claims_apart (r : Resolvers) : Prop := {
  ca_clock i p s : rv_passes r !! i = Some p -> started p = Some s -> s <= rv_clock r;
  ca_deferred i s x : working (rv_passes r) i s x -> deferred (rv_db r) x (lease_end s);
  ca_working i j s s' x : working (rv_passes r) i s x -> working (rv_passes r) j s' x -> i <> j ->
    lease_end s <= s' \/ lease_end s' <= s;
  ca_mixed i j s s' x : holding (rv_passes r) i s x -> working (rv_passes r) j s' x -> lease_end s' <= s;
  ca_holding i j s s' x : holding (rv_passes r) i s x -> holding (rv_passes r) j s' x -> i = j;
}.

(** * Passes and their rows *)

Lemma working_insert ps i p j s x : working (<[i := p]> ps) j s x ->
  (j = i /\ exists claims, p = Working s claims /\ x ∈ claims) \/ (j <> i /\ working ps j s x).
Proof.
  intros (claims & [(-> & -> & _)|[Hne Hj]]%list_lookup_insert_Some & Hx); [left; eauto|right].
  split; [done|by exists claims].
Qed.

Lemma holding_insert ps i p j s x : holding (<[i := p]> ps) j s x ->
  (j = i /\ exists due, p = Holding s due /\ x ∈ du_capture_id <$> due) \/ (j <> i /\ holding ps j s x).
Proof.
  intros (due & [(-> & -> & _)|[Hne Hj]]%list_lookup_insert_Some & Hx); [left; eauto|right].
  split; [done|by exists due].
Qed.

Lemma elem_of_locked ps x : x ∈ locked ps <-> exists i s, holding ps i s x.
Proof.
  unfold locked. rewrite list_elem_of_join. setoid_rewrite list_elem_of_fmap. split.
  - intros (ids & Hx & p & -> & [i Hi]%list_elem_of_lookup). destruct p as [|s due| |]; cbn in Hx;
      try by apply not_elem_of_nil in Hx. by exists i, s, due.
  - intros (i & s & due & Hi & Hx). exists (du_capture_id <$> due). split; [done|].
    exists (Holding s due). split; [done|by eapply list_elem_of_lookup_2].
Qed.

(** What the claim query returns: due rows nobody has locked. *)
Lemma select_due_row now limit ps d x : x ∈ (du_capture_id <$> select_due now limit ps d) ->
  (x ∉ locked ps) /\ exists c n, captures d !! x = Some c /\ c_operation_reported_at c = None
    /\ c_next_resolution_at c = Some n /\ n <= now.
Proof.
  unfold select_due, due_captures. intros (due & -> & Hdue)%list_elem_of_fmap.
  apply (subseteq_take limit) in Hdue. apply list_elem_of_fmap in Hdue as ([at_ due'] & -> & Hdue).
  rewrite elem_of_sort_by, list_elem_of_omap in Hdue. destruct Hdue as ([id c] & Hin & Hrow).
  apply elem_of_map_to_list in Hin. cbn in *. apply map_lookup_filter_Some in Hin as [Hc Hfree].
  unfold due_row in Hrow. repeat case_match; simplify_eq/=. split; [done|].
  eexists c, _. split_and!; [done..|]. lia.
Qed.

Lemma retry_delay_nonneg n : 0 <= retry_delay n.
Proof.
  rewrite retry_delay_closed. unfold seconds.
  assert (0 <= 4 ^ Z.max (n - 1) 0) by (apply Z.pow_nonneg; lia). lia.
Qed.

(** * Steps of the interleaving *)

(** The tables change and every claimed capture stays deferred. *)
Lemma apart_db t d d' ps : claims_apart (mk_resolvers t d ps) ->
  (forall i s x, working ps i s x -> deferred d x (lease_end s) -> deferred d' x (lease_end s)) ->
  claims_apart (mk_resolvers t d' ps).
Proof. intros [Hc Hd Hw Hm Hh] Hdb. split; cbn in *; eauto. Qed.

(** A pass drops claims or ends. *)
Lemma apart_drop t d ps i s claims p' : claims_apart (mk_resolvers t d ps) ->
  ps !! i = Some (Working s claims) \/ p' = Over ->
  p' = Over \/ (exists claims', p' = Working s claims' /\ claims' ⊆ claims) ->
  claims_apart (mk_resolvers t d (<[i := p']> ps)).
Proof.
  intros [Hc Hd Hw Hm Hh] Hi Hp'. cbn in *.
  assert (forall j s' x, working (<[i := p']> ps) j s' x -> working ps j s' x) as Hsub.
  { intros j s' x [(-> & cl & -> & Hx)|[_ ?]]%working_insert; [|done].
    destruct Hi as [Hi|?]; [|done]. destruct Hp' as [?|(cl' & [= -> ->] & Hcl)]; [done|].
    exists claims. auto. }
  assert (forall j s' x, holding (<[i := p']> ps) j s' x -> holding ps j s' x) as Hhold.
  { intros j s' x [(-> & cl & -> & Hx)|[_ ?]]%holding_insert; [|done].
    destruct Hp' as [?|(? & ? & _)]; done. }
  split; cbn; [|by eauto..].
  intros j p s' [(-> & <- & _)|[_ Hj]]%list_lookup_insert_Some Hs; [|by eauto].
  destruct Hp' as [->|(cl' & -> & _)]; [done|]. destruct Hi as [Hi|?]; [|done]. by eapply Hc.
Qed.

Lemma apart_start t d ps : claims_apart (mk_resolvers t d ps) ->
  claims_apart (mk_resolvers t d (ps ++ [Selecting t])%list).
Proof.
  intros [Hc Hd Hw Hm Hh]. cbn in *.
  assert (forall p i, (ps ++ [Selecting t])%list !! i = Some p -> p = Selecting t \/ ps !! i = Some p) as Hl.
  { intros p i [?|[_ [_ <-]%list_lookup_singleton_Some]]%lookup_app_Some; auto. }
  assert (forall i s x, working (ps ++ [Selecting t])%list i s x -> working ps i s x) as Hsub.
  { intros i s x (cl & [?|?]%Hl & Hx); [done|by exists cl]. }
  assert (forall i s x, holding (ps ++ [Selecting t])%list i s x -> holding ps i s x) as Hhold.
  { intros i s x (cl & [?|?]%Hl & Hx); [done|by exists cl]. }
  split; cbn; [|by eauto..]. intros i p s [->|Hi]%Hl Hs; [simplify_eq/=; lia|by eapply Hc].
Qed.

(** The claim query locks rows no other pass has locked and whose lease, if any, has ended. *)
Lemma apart_select t d ps i s limit : claims_apart (mk_resolvers t d ps) -> ps !! i = Some (Selecting s) ->
  claims_apart (mk_resolvers t d (<[i := Holding s (select_due s limit ps d)]> ps)).
Proof.
  intros [Hc Hd Hw Hm Hh] Hi. cbn in *.
  assert (forall j s' x, working (<[i := Holding s (select_due s limit ps d)]> ps) j s' x -> working ps j s' x)
    as Hsub by (intros j s' x [(_ & ? & ? & _)|[_ ?]]%working_insert; done).
  split; cbn; [|by eauto|by eauto|..].
  - intros j p s' [(-> & <- & _)|[_ Hj]]%list_lookup_insert_Some Hs; [|by eauto]. by eapply Hc.
  - intros j k s1 s2 x [(-> & due & [= -> <-] & Hx)|[_ Hx]]%holding_insert Hk%Hsub; [|by eauto].
    apply select_due_row in Hx as (_ & c & n & Hcx & Hr & Hn & Hle).
    destruct (Hd _ _ _ Hk _ Hcx Hr) as (n' & Hn' & ?). simplify_eq. lia.
  - intros j k s1 s2 x [(-> & due & [= -> <-] & Hx)|[Hj1 Hx]]%holding_insert
      [(-> & due' & [= -> <-] & Hy)|[Hk Hy]]%holding_insert; [done|..|by eauto].
    + apply select_due_row in Hx as [[] _]. apply elem_of_locked. eauto.
    + apply select_due_row in Hy as [[] _]. apply elem_of_locked. eauto.
Qed.

(** The lease is written to the locked rows. *)
Lemma commit_claim_row s due d x c : captures (commit_claim s due d) !! x = Some c ->
  exists c0, captures d !! x = Some c0 /\ c_operation_reported_at c = c_operation_reported_at c0
    /\ if bool_decide (x ∈ du_capture_id <$> due) then c_next_resolution_at c = Some (lease_end s)
       else c_next_resolution_at c = c_next_resolution_at c0.
Proof.
  unfold commit_claim. case_bool_decide as Hnil.
  - subst due. intros Hc. exists c. by rewrite bool_decide_eq_false_2 by apply not_elem_of_nil.
  - cbn. rewrite lookup_update_where, fmap_Some. intros (c0 & Hc & ->). exists c0.
    by case_bool_decide.
Qed.

Lemma apart_commit t d ps i s due : claims_apart (mk_resolvers t d ps) -> ps !! i = Some (Holding s due) ->
  claims_apart (mk_resolvers t (commit_claim s due d) (<[i := Working s (du_capture_id <$> due)]> ps)).
Proof.
  intros [Hc Hd Hw Hm Hh] Hi. cbn in *.
  assert (forall x, x ∈ du_capture_id <$> due -> holding ps i s x) as Hown by (intros x Hx; by exists due).
  assert (forall j s' x, holding (<[i := Working s (du_capture_id <$> due)]> ps) j s' x -> j <> i /\ holding ps j s' x)
    as Hhold by (intros j s' x [(_ & ? & ? & _)|?]%holding_insert; done).
  split; cbn.
  - intros j p s' [(-> & <- & _)|[_ Hj]]%list_lookup_insert_Some Hs; [|by eauto]. by eapply Hc.
  - intros j s' x Hx c (c0 & Hc0 & Hr & Hn)%commit_claim_row Hnone. rewrite Hr in Hnone.
    apply working_insert in Hx as [(-> & claims & [= -> <-] & Hx)|[Hne Hx]].
    { rewrite bool_decide_eq_true_2 in Hn by done. eauto with lia. }
    case_bool_decide as Hin; [|rewrite Hn; by eapply Hd].
    exists (lease_end s). split; [done|]. specialize (Hm _ _ _ _ _ (Hown _ Hin) Hx).
    unfold lease_end, seconds, CLAIM_LEASE_SECONDS in *. lia.
  - intros j k s1 s2 x [(-> & claims & [= -> <-] & Hx)|[Hj Hx]]%working_insert
      [(-> & claims' & [= -> <-] & Hy)|[Hk Hy]]%working_insert Hne; [done| | |by eauto].
    + right. by eapply Hm; [apply Hown|].
    + left. by eapply Hm; [apply Hown|].
  - intros j k s1 s2 x [Hne Hx]%Hhold [(-> & claims & [= -> <-] & Hy)|[_ Hy]]%working_insert; [|by eauto].
    destruct Hne. by eapply Hh; [|apply Hown].
  - intros j k s1 s2 x [_ Hx]%Hhold [_ Hy]%Hhold. by eauto.
Qed.

(** A retry is scheduled by a pass whose lease has not ended, so no later pass has the capture. *)
Lemma apart_retry t d ps i s claims id attempts attempt : claims_apart (mk_resolvers t d ps) ->
  ps !! i = Some (Working s claims) -> id ∈ claims -> t < lease_end s ->
  claims_apart (mk_resolvers t (set_captures (alter (set_attempts attempts (s + retry_delay attempt)) id (captures d)) d)
    (<[i := Working s (without id claims)]> ps)).
Proof.
  intros Hr Hi Hid Ht. eapply apart_db.
  { eapply apart_drop; [exact Hr|by left|right]. eexists. split; [done|]. unfold without.
    intros y [_ Hy]%list_elem_of_filter. done. }
  intros j s' x Hj Hdef c Hcx Hnone. cbn in Hcx.
  destruct (decide (x = id)) as [->|Hne]; [|rewrite lookup_alter_ne in Hcx by done; by eapply Hdef].
  rewrite lookup_alter_eq, fmap_Some in Hcx. destruct Hcx as (c0 & Hc0 & ->). cbn in *.
  eexists. split; [done|]. pose proof (retry_delay_nonneg attempt).
  apply working_insert in Hj as [(-> & cl & [= -> <-] & [[] _]%list_elem_of_filter)|[Hji Hj]]; [done|].
  destruct Hr as [Hc _ Hw _ _]. cbn in *.
  destruct (Hw i j s s' id) as [Hlt|Hlt]; [by exists claims|done|done| |lia].
  destruct Hj as (cl & Hj & _). specialize (Hc _ _ _ Hj eq_refl). lia.
Qed.

Lemma guard_report_deferred id now d found d' x t :
  guard_report id now d = Ok (found, d') -> deferred d x t -> deferred d' x t.
Proof.
  unfold guard_report. intros Hg Hdef c Hc Hnone.
  destruct (captures d !! id) as [c0|] eqn:E; [|simplify_eq; by eapply Hdef].
  destruct (c_operation_reported_at c0) eqn:Er; simplify_eq; [by eapply Hdef|].
  cbn in Hc. apply lookup_insert_Some in Hc as [[-> <-]|[_ Hc]]; [done|by eapply Hdef].
Qed.

Lemma unscheduled_deferred ps d d' i s x t :
  unscheduled ps d d' -> working ps i s x -> deferred d x t -> deferred d' x t.
Proof.
  intros [_ Hs] (claims & Hi & Hx) Hdef c Hc Hnone. destruct (Hs _ _ Hc) as [(c0 & Hc0 & [= Hn Hr])|[_ Hfree]].
  - rewrite Hn. eapply Hdef; [done|congruence].
  - destruct (Hfree s claims); [by eapply list_elem_of_lookup_2|done].
Qed.

Lemma step_apart limit r r' : step limit true r r' -> claims_apart r -> claims_apart r'.
Proof.
  intros Hstep Hr. destruct Hstep as [t t' d ps Hle|t d ps|t d ps i s Hi|t d ps i s due Hi|t d ps i
    |t d ps i s claims id attempts attempt Hi Hid Hfree Ht|t d ps id now found d' Hfree Hg
    |t d ps i s claims id Hi|t d ps d' Hun].
  - destruct Hr as [Hc Hd Hw Hm Hh]. split; cbn in *; eauto. intros i p s Hi Hs. specialize (Hc i p s Hi Hs). lia.
  - by apply apart_start.
  - by apply apart_select.
  - by apply apart_commit.
  - eapply (apart_drop _ _ _ _ 0 []); eauto.
  - apply apart_retry; auto.
  - eapply apart_db; [done|]. intros j s x _. by eapply guard_report_deferred.
  - eapply apart_drop; [done|by left|right]. eexists. split; [done|]. unfold without.
    intros y [_ Hy]%list_elem_of_filter. done.
  - eapply apart_db; [done|]. intros j s x Hj. by eapply unscheduled_deferred.
Qed.

(** [C6] Resolver passes of any number of processes, interleaved statement by statement: in a timely
    run two passes that have claimed one capture and not finished it started at least a lease apart,
    and while a pass has a row locked no other pass has it locked or holds a running claim on it. So
    no capture is worked on by two passes within a lease. Timely means that no pass writes a retry schedule
    once its lease is over; [late_retry_breaks_claim] shows a run that is not. *)
Theorem claims_exclusive limit t d r :
  rtc (step limit true) (mk_resolvers t d []) r ->
  (forall i j s s' x, working (rv_passes r) i s x -> working (rv_passes r) j s' x -> i <> j ->
     lease_end s <= s' \/ lease_end s' <= s) /\
  (forall i j s s' x, holding (rv_passes r) i s x -> holding (rv_passes r) j s' x -> i = j) /\
  (forall i j s s' x, holding (rv_passes r) i s x -> working (rv_passes r) j s' x -> lease_end s' <= s).
Proof.
  intros Hsteps. assert (claims_apart r) as [_ _ Hw Hm Hh]; [|by eauto].
  assert (claims_apart (mk_resolvers t d [])) as Hinit.
  { split; cbn; [done|..]; intros; repeat match goal with
      | H : working [] _ _ _ |- _ => by destruct H as (? & ? & ?)
      | H : holding [] _ _ _ |- _ => by destruct H as (? & ? & ?) end. }
  revert Hinit. induction Hsteps as [|? ? ? Hstep _ IH]; [done|]. intros. eauto using step_apart.
Qed.

(** * Concrete runs *)

(** One capture (10) due at time 0, and the claims of three passes over it. *)
Definition due_archive : db := PublicResolution.accepted_archive.
Definition later : Time := lease_end 0.
Definition claimed_at (s : Time) (d : db) : db := commit_claim s (select_due s 8 [] d) d.

(** A pass claims the capture: it starts, selects and commits its lease. *)
Lemma claim_run timely t d ps :
  locked ps = [] -> du_capture_id <$> select_due t 8 [] d = [10%N] ->
  rtc (step 8 timely) (mk_resolvers t d ps) (mk_resolvers t (claimed_at t d) (ps ++ [Working t [10%N]])%list).
Proof.
  intros Hfree Hdue.
  assert (forall p, (ps ++ [p])%list !! length ps = Some p) as Hlast.
  { intros p. by apply list_lookup_middle. }
  assert (forall p p', <[length ps := p']> (ps ++ [p])%list = (ps ++ [p'])%list) as Hset.
  { intros p p'. replace (length ps) with (length ps + 0)%nat by lia. by rewrite insert_app_r. }
  assert (select_due t 8 (ps ++ [Selecting t])%list d = select_due t 8 [] d) as Hsel.
  { unfold select_due. f_equal. unfold locked in *. rewrite fmap_app, join_app, Hfree. done. }
  eapply rtc_l; [apply step_start|].
  eapply rtc_l; [by eapply (step_select _ _ _ _ _ (length ps) t)|]. rewrite Hset, Hsel.
  eapply rtc_l; [by eapply (step_commit _ _ _ _ _ (length ps) t)|]. rewrite Hset, Hdue. done.
Qed.

Lemma claims_exclusive_witness :
  rtc (step 8 true) (mk_resolvers 0 due_archive [])
    (mk_resolvers later (claimed_at later (claimed_at 0 due_archive)) [Working 0 [10%N]; Working later [10%N]])
  /\ lease_end 0 <= later.
Proof.
  assert (rtc (step 8 true) (mk_resolvers 0 due_archive [])
    (mk_resolvers later (claimed_at later (claimed_at 0 due_archive)) [Working 0 [10%N]; Working later [10%N]])) as Hrun.
  { etrans; [apply (claim_run true 0 due_archive []); vm_compute; reflexivity|].
    eapply rtc_l; [apply (step_clock _ _ 0 later); vm_compute; discriminate|].
    apply (claim_run true later (claimed_at 0 due_archive) [Working 0 [10%N]]); vm_compute; reflexivity. }
  split; [exact Hrun|].
  destruct (claims_exclusive _ _ _ _ Hrun) as (Hw & _ & _).
  destruct (Hw 0%nat 1%nat 0 later 10%N) as [H|H]; [..|exact H|vm_compute in H; by destruct H].
  - exists [10%N]. split; [reflexivity|by left].
  - exists [10%N]. split; [reflexivity|by left].
  - discriminate.
Defined.

(** A pass that outlives its lease writes a retry schedule computed from its old start over the claim
    of the pass that took over, and a third pass takes the capture while the second works on it. *)
Theorem late_retry_breaks_claim :
  exists r, rtc (step 8 false) (mk_resolvers 0 due_archive []) r
    /\ working (rv_passes r) 1 later 10 /\ working (rv_passes r) 2 later 10.
Proof.
  set (d := set_captures (alter (set_attempts 1 (0 + retry_delay 1)) 10%N
    (captures (claimed_at later (claimed_at 0 due_archive)))) (claimed_at later (claimed_at 0 due_archive))).
  exists (mk_resolvers later (claimed_at later d) [Working 0 []; Working later [10%N]; Working later [10%N]]).
  split; [|split; exists [10%N]; (split; [reflexivity|by left])].
  etrans; [apply (claim_run false 0 due_archive []); vm_compute; reflexivity|].
  eapply rtc_l; [apply (step_clock _ _ 0 later); vm_compute; discriminate|].
  etrans;
    [apply (claim_run false later (claimed_at 0 due_archive) [Working 0 [10%N]]); vm_compute; reflexivity|].
  eapply rtc_l; [apply (step_retry _ _ later _ _ 0 0 [10%N] 10 1 1); [reflexivity|by left|by apply not_elem_of_nil|done]|].
  apply (claim_run false later d [Working 0 []; Working later [10%N]]); vm_compute; reflexivity.
Qed.

End Claims.
