(* ===== verification/MediaRetention.v ===== *)
(** Provider-media retention (src/crates/threads-archive/src/media_retention.rs): the policy that
    leases a fetch, the verification and archival of fetched bytes, the plan for an expiring
    reference, and the durable deletion task of an unreferenced object. *)
From S2P Require Import Prelude Schema Store RawObjects PublicResolution.

Module MediaRetention.
Import Schema Store RawObjects.
Local Open Scope string_scope.
Local Open Scope store_scope.

Inductive ApprovedMediaMime := ImageJpeg | ImagePng | VideoMp4.

(** [ApprovedMediaMime::as_str]. *)
Definition mime_str (m : ApprovedMediaMime) : string :=
  match m with ImageJpeg => "image/jpeg" | ImagePng => "image/png" | VideoMp4 => "video/mp4" end.

Record AcquiredMedia := mk_acquired {
  am_final_url : string;
  am_content_type : ApprovedMediaMime;
  am_declared_bytes : Z;
  am_expected_digest : string;
  am_body : string;
}.

Inductive MediaVerificationReason :=
| FinalUrlNotHttps | ContentLengthMismatch | ContentDigestMismatch | ResponseBudgetExceeded.

Record ArchivedMedia := mk_archived {
  ar_blob_ref : string;
  ar_content_hash : string;
  ar_byte_size : Z;
  ar_media_type : string;
}.

Inductive MediaArchiveOutcome :=
| NotArchived (reason : MediaVerificationReason)
| Archived (m : ArchivedMedia).

Inductive BlobCleanupPlan :=
| RetainShared (live_references : Z)
| ScheduleDelete (blob_ref content_hash : string).

Inductive BlobDeletionFailure := StorageUnavailable | DigestMismatch | StillReferenced.

(** [BlobDeletionFailure::as_str]. *)
Definition failure_str (f : BlobDeletionFailure) : string :=
  match f with
  | StorageUnavailable => "storage_unavailable"
  | DigestMismatch => "digest_mismatch"
  | StillReferenced => "still_referenced"
  end.

Inductive BlobDeletionTaskOutcome := Pending (f : BlobDeletionFailure) | Complete.

Inductive MetadataOnlyReason :=
| PolicyNotAuthorized | AcquisitionNotEligible | RightsUnknown | KindUnknown | MimeUnknown
| UrlLifetimeUnknown | ObjectSizeUnknown | ObjectBudgetExceeded | OwnerBudgetUnknown
| OwnerBudgetExceeded | ExplicitActionRequired.

Record MediaFetchLease := mk_lease { max_bytes : Z }.

Inductive MediaRetentionDecision :=
| MetadataOnly (reason : MetadataOnlyReason)
| Archive (lease : MediaFetchLease).

Record MediaPolicyInput := mk_input {
  archive_requested : bool;
  acquisition_eligible : bool;
  rights_confirmed : option bool;
  kind_eligible : option bool;
  mime_eligible : option bool;
  url_lifetime_sufficient : option bool;
  declared_bytes : option Z;
  max_object_bytes : Z;
  owner_remaining_bytes : option Z;
  explicit_action : bool;
}.

(** The guards of [observe_media] after the first, in their order. *)
Definition refused (input : MediaPolicyInput) : option MetadataOnlyReason :=
  if negb (acquisition_eligible input) then Some AcquisitionNotEligible
  else if negb (bool_decide (rights_confirmed input = Some true)) then Some RightsUnknown
  else if negb (bool_decide (kind_eligible input = Some true)) then Some KindUnknown
  else if negb (bool_decide (mime_eligible input = Some true)) then Some MimeUnknown
  else if negb (bool_decide (url_lifetime_sufficient input = Some true)) then Some UrlLifetimeUnknown
  else if bool_decide (declared_bytes input = None) then Some ObjectSizeUnknown
  else if bool_decide (declared_bytes input = Some 0%Z)
          || match declared_bytes input with
             | Some bytes => (max_object_bytes input <? bytes)%Z
             | None => false
             end then Some ObjectBudgetExceeded
  else if bool_decide (owner_remaining_bytes input = None) then Some OwnerBudgetUnknown
  else if match owner_remaining_bytes input, declared_bytes input with
          | Some remaining, Some bytes => (remaining <? bytes)%Z
          | _, _ => false
          end then Some OwnerBudgetExceeded
  else if negb (explicit_action input) then Some ExplicitActionRequired
  else None.

(** [observe_media]; [fetch] is a function on a state of its own. *)
Definition observe_media {S} (input : MediaPolicyInput) (fetch : MediaFetchLease -> S -> S) (s : S)
  : MediaRetentionDecision * S :=
  if negb (archive_requested input) then (MetadataOnly PolicyNotAuthorized, s) else
  match refused input with
  | Some reason => (MetadataOnly reason, s)
  | None =>
      match declared_bytes input with
      | None => (MetadataOnly ObjectSizeUnknown, s)
      | Some bytes => let lease := mk_lease bytes in (Archive lease, fetch lease s)
      end
  end.

(** Rows of the three tables that refer to an object. *)
Definition refers_raw (blob_ref hash : string) (r : raw_object_row) : bool :=
  bool_decide (raw_blob_ref r = blob_ref) && bool_decide (raw_content_hash r = hash).
Definition refers_media (blob_ref hash : string) (m : media_row) : bool :=
  bool_decide (m_blob_ref m = Some blob_ref) && bool_decide (m_content_hash m = Some hash).
Definition refers_run (blob_ref hash : string) (r : export_run_row) : bool :=
  bool_decide (er_archive_blob_ref r = blob_ref) && bool_decide (er_archive_hash r = hash).

Definition live_references (blob_ref hash : string) (except : option Uuid) (d : db) : Z :=
  count_where (raw_objects d) (fun _ r => refers_raw blob_ref hash r)
  + count_where (media d) (fun id m => refers_media blob_ref hash m && negb (bool_decide (except = Some id)))
  + count_where (export_runs d) (fun _ r => refers_run blob_ref hash r).

Definition advance_task (task_id : Uuid) (state : string) (failure : option string) (d : db)
  : Result SqlError db :=
  match blob_deletion_tasks d !! task_id with
  | Some t =>
      if negb (bool_decide (bt_state t = "pending")) then Ok d
      else if (i32_max <=? bt_attempt_count t)%Z then Err NumericOutOfRange
      else Ok (set_blob_deletion_tasks (<[task_id := mk_blob_task_row (bt_operation_id t) (bt_blob_ref t)
        (bt_content_hash t) state (bt_attempt_count t + 1) failure]> (blob_deletion_tasks d)) d)
  | None => Ok d
  end.

Section WithEnv.
Context {Henv : Env} {Hweb : PublicResolution.Web}.

Definition archive_acquired_media (lease : MediaFetchLease) (response : AcquiredMedia)
  : M PublicResolutionError MediaArchiveOutcome :=
  let* final_url := lift (ok_or (PublicResolution.url_parse (am_final_url response)) UnsupportedEndpoint) in
  if negb (bool_decide (PublicResolution.url_scheme final_url = "https"))
  then ret (NotArchived FinalUrlNotHttps) else
  let actual_bytes := Z.of_nat (String.length (am_body response)) in
  if (u64_max <? actual_bytes)%Z then throw ResponseTooLarge else
  if (max_bytes lease <? actual_bytes)%Z then ret (NotArchived ResponseBudgetExceeded) else
  if negb (actual_bytes =? am_declared_bytes response)%Z then ret (NotArchived ContentLengthMismatch) else
  if negb (bool_decide (sha256 (am_body response) = am_expected_digest response))
  then ret (NotArchived ContentDigestMismatch) else
  let* stored := store_stream (slice_reader (am_body response)) (max_bytes lease) (mime_str (am_content_type response)) in
  ret (Archived (mk_archived (sr_blob_ref stored) (sr_content_hash stored) (sr_byte_size stored)
    (sr_media_type stored))).

Definition plan_media_reference_expiry (media_id : Uuid) : M SqlError BlobCleanupPlan :=
  let* row := read (fun _ d =>
    match media d !! media_id with
    | None => Err RowNotFound
    | Some m =>
        match m_blob_ref m, m_content_hash m with
        | Some blob_ref, Some hash => Ok (blob_ref, hash)
        | _, _ => Err (ColumnDecode "blob_ref")
        end
    end) in
  let* live := read (fun _ d => Ok (live_references row.1 row.2 (Some media_id) d)) in
  if (0 <? live)%Z then ret (RetainShared live) else ret (ScheduleDelete row.1 row.2).

Definition record_blob_failure (task_id : Uuid) (failure : BlobDeletionFailure) : M SqlError () :=
  execute (fun _ => advance_task task_id "pending" (Some (failure_str failure))).

(** [BlobDeletionBackend for RawObjectStore]. *)
Definition backend_delete (blob_ref content_hash : string) : M BlobDeletionFailure () :=
  mapErr (fun error => match error with RawDigestMismatch => DigestMismatch | _ => StorageUnavailable end)
    (delete_if_matches blob_ref content_hash).

Definition process_blob_deletion_task (task_id : Uuid) : M SqlError BlobDeletionTaskOutcome :=
  let* task := read (fun _ d => ok_or (blob_deletion_tasks d !! task_id) RowNotFound) in
  if bool_decide (bt_state task = "complete") then ret Complete else
  let* live := read (fun _ d => Ok (live_references (bt_blob_ref task) (bt_content_hash task) None d)) in
  if (0 <? live)%Z then record_blob_failure task_id StillReferenced ;;; ret (Pending StillReferenced) else
  let* deleted := attempt (backend_delete (bt_blob_ref task) (bt_content_hash task)) in
  match deleted with
  | Err failure => record_blob_failure task_id failure ;;; ret (Pending failure)
  | Ok _ => execute (fun _ => advance_task task_id "complete" None) ;;; ret Complete
  end.

(** * The policy *)

(** Everything that must be affirmatively established before [n] bytes may be fetched. *)
Definition authorized (input : MediaPolicyInput) (n : Z) : Prop :=
  archive_requested input = true /\ acquisition_eligible input = true
  /\ rights_confirmed input = Some true /\ kind_eligible input = Some true
  /\ mime_eligible input = Some true /\ url_lifetime_sufficient input = Some true
  /\ declared_bytes input = Some n /\ n <> 0%Z /\ (n <= max_object_bytes input)%Z
  /\ (exists remaining, owner_remaining_bytes input = Some remaining /\ (n <= remaining)%Z)
  /\ explicit_action input = true.

(** The media policy fails closed: bytes are fetched, once and under a lease of exactly the
    declared size, precisely when the request, the lane, the rights, the kind, the MIME type,
    the lifetime of the URL, the object's and the owner's budgets and the explicit action are all
    established; anything unknown leaves the observation metadata-only and fetches nothing. *)
Theorem observe_media_fails_closed {S} input (fetch : MediaFetchLease -> S -> S) s :
  match observe_media input fetch s with
  | (Archive lease, s') => authorized input (max_bytes lease) /\ s' = fetch lease s
  | (MetadataOnly _, s') => (forall n, ~ authorized input n) /\ s' = s
  end.
Proof.
  unfold observe_media, refused, authorized. destruct input as [req acq rights kind mime life decl maxo rem act].
  simpl. destruct req; [|naive_solver]. simpl. destruct acq; [|naive_solver]. simpl.
  do 4 (case_bool_decide; [|naive_solver]; simpl). case_bool_decide as Hd; [naive_solver|].
  destruct decl as [bytes|]; [|done]. case_bool_decide; simpl; [naive_solver|].
  destruct (Z.ltb_spec maxo bytes); [naive_solver lia|]. case_bool_decide as Hr; [naive_solver|].
  destruct rem as [remaining|]; [|done]. destruct (Z.ltb_spec remaining bytes); [naive_solver lia|].
  destruct act; [|naive_solver]. simpl. split; [|done]. naive_solver congruence.
Qed.

(** Archived media is what was authorized: whatever file operations fail, the tables stay as
    they are and no stored object changes; a refused response leaves the directory untouched; and
    an archived one came over HTTPS, fits the lease, has the declared length and the expected
    digest, and is stored under exactly that digest with its length and type. *)
Theorem archive_acquired_media_sound lease response w : (0 <= max_bytes lease)%Z ->
  let '(result, w') := archive_acquired_media lease response w in
  w_db w' = w_db w /\ keeps_stored (w_files w) (w_files w')
  /\ match result with
     | Err _ => True
     | Ok (NotArchived _) => w' = w
     | Ok (Archived m) =>
         (exists url, PublicResolution.url_parse (am_final_url response) = Some url
            /\ PublicResolution.url_scheme url = "https")
         /\ sha256 (am_body response) = am_expected_digest response
         /\ Z.of_nat (String.length (am_body response)) = am_declared_bytes response
         /\ (am_declared_bytes response <= max_bytes lease)%Z
         /\ m = mk_archived (blob_ref_of (raw_hex (am_expected_digest response))) (am_expected_digest response)
                  (am_declared_bytes response) (mime_str (am_content_type response))
         /\ exists c, w_files w' !! object_path (raw_hex (am_expected_digest response)) = Some c
              /\ sha256 c = am_expected_digest response
     end.
Proof.
  intros Hmax. unfold archive_acquired_media. unfold bind at 1, lift.
  destruct (PublicResolution.url_parse _) as [url|] eqn:Eu; simpl; [|done].
  case_bool_decide as Hs; simpl; [|done]. destruct (u64_max <? _)%Z; [done|].
  destruct (Z.ltb_spec (max_bytes lease) (Z.of_nat (String.length (am_body response)))); [done|].
  destruct (Z.eqb_spec (Z.of_nat (String.length (am_body response))) (am_declared_bytes response)) as [Hl|]; [|done].
  simpl. case_bool_decide as Hd; simpl; [|done]. unfold bind, ret.
  destruct (store_stream _ _ _ w) as [r w'] eqn:Est.
  apply store_stream_frame in Est as (Hdb & Hk & Hok); [|done]. rewrite slice_reader_bytes in Hok.
  destruct r as [stored|e]; (split; [done|]; split; [done|]); [|done].
  destruct (Hok stored eq_refl) as (-> & _ & Hc). simpl. rewrite Hd in *. rewrite Hl.
  split_and!; [by eauto|done|done|lia|done|done].
Qed.

(** * Deletion tasks *)

(** No row of the archive refers to the object. *)
Definition unreferenced (blob_ref hash : string) (d : db) : Prop :=
  (forall id r, raw_objects d !! id = Some r -> refers_raw blob_ref hash r = false)
  /\ (forall id m, media d !! id = Some m -> refers_media blob_ref hash m = false)
  /\ (forall id r, export_runs d !! id = Some r -> refers_run blob_ref hash r = false).

Lemma live_references_zero blob_ref hash d : (live_references blob_ref hash None d <= 0)%Z ->
  unreferenced blob_ref hash d.
Proof.
  unfold live_references. set (p1 := fun _ r => _). set (p2 := fun id m => _). set (p3 := fun _ r => _).
  intros H. pose proof (count_where_nonneg (raw_objects d) p1). pose proof (count_where_nonneg (media d) p2).
  pose proof (count_where_nonneg (export_runs d) p3).
  assert (count_where (raw_objects d) p1 = 0%Z) as Hz1 by lia. rewrite count_where_zero in Hz1.
  assert (count_where (media d) p2 = 0%Z) as Hz2 by lia. rewrite count_where_zero in Hz2.
  assert (count_where (export_runs d) p3 = 0%Z) as Hz3 by lia. rewrite count_where_zero in Hz3.
  split_and!; intros id r Hr; [by eapply Hz1| |by eapply Hz3].
  specialize (Hz2 _ _ Hr). unfold p2 in Hz2. rewrite bool_decide_eq_false_2 in Hz2 by done.
  by rewrite andb_true_r in Hz2.
Qed.

Lemma unreferenced_live_references blob_ref hash d : unreferenced blob_ref hash d ->
  live_references blob_ref hash None d = 0%Z.
Proof.
  intros (H1 & H2 & H3). unfold live_references. rewrite !(proj2 (count_where_zero _ _)); [done|done| |done].
  intros id m Hm. by rewrite (H2 _ _ Hm).
Qed.

(** The tables with one more attempt counted on the task, which is then in [state]. *)
Definition advanced (task_id : Uuid) (t : blob_task_row) (state : string) (failure : option string) (d : db) : db :=
  set_blob_deletion_tasks (<[task_id := mk_blob_task_row (bt_operation_id t) (bt_blob_ref t)
    (bt_content_hash t) state (bt_attempt_count t + 1) failure]> (blob_deletion_tasks d)) d.

(** What an attempt at the task [t] may do to the tables: nothing; or count itself on the pending task
    with the reason it stays pending, which is a reference exactly when there is one; or complete it,
    when nothing refers to the object and nothing is at its path. *)
Inductive task_attempted (task_id : Uuid) (t : blob_task_row) (files : gmap string string) (d : db) : db -> Prop :=
| attempt_uncounted : task_attempted task_id t files d d
| attempt_pending failure : bt_state t = "pending" ->
    (failure = StillReferenced <-> ~ unreferenced (bt_blob_ref t) (bt_content_hash t) d) ->
    task_attempted task_id t files d (advanced task_id t "pending" (Some (failure_str failure)) d)
| attempt_complete : bt_state t = "pending" -> unreferenced (bt_blob_ref t) (bt_content_hash t) d ->
    files !! object_path (raw_hex (bt_content_hash t)) = None ->
    task_attempted task_id t files d (advanced task_id t "complete" None d).

Lemma read_unchanged {A} (f : Time -> db -> Result SqlError A) w r w' : read f w = (r, w') ->
  w_db w' = w_db w /\ w_files w' = w_files w.
Proof.
  intros E. pose proof (read_same_db f w) as H1.
  pose proof (query_files (fun now d => match f now d with Ok a => Ok (a, d) | Err e => Err e end) w) as H2.
  fold (read f w) in H2. by rewrite E in H1, H2.
Qed.

(** A counting statement followed by an answer. *)
Lemma count_then_frame task_id t state failure (outcome : BlobDeletionTaskOutcome) w r w' :
  blob_deletion_tasks (w_db w) !! task_id = Some t ->
  (execute (fun _ => advance_task task_id state failure) ;;; ret outcome) w = (r, w') ->
  (w_db w' = w_db w \/ bt_state t = "pending" /\ w_db w' = advanced task_id t state failure (w_db w))
  /\ w_files w' = w_files w
  /\ (forall o, r = Ok o -> o = outcome
        /\ (bt_state t = "pending" -> w_db w' = advanced task_id t state failure (w_db w))).
Proof.
  intros Ht. assert (forall d', advance_task task_id state failure (w_db w) = Ok d' ->
    (bt_state t <> "pending" /\ d' = w_db w) \/ (bt_state t = "pending" /\ d' = advanced task_id t state failure (w_db w)))
    as Hadv.
  { intros d'. unfold advance_task. rewrite Ht. case_bool_decide; simpl; [|by intros [= <-]; left].
    destruct (_ <=? _)%Z; [done|]. intros [= <-]. by right. }
  pose proof (execute_cases (fun _ => advance_task task_id state failure) w) as Hc.
  pose proof (execute_files (fun _ => advance_task task_id state failure) w) as Hf.
  unfold bind. destruct (execute _ w) as [[[]|e] w1] eqn:E; unfold ret; intros; simplify_eq/=.
  - apply execute_Ok in E as (d' & [[Hs ->]|[Hs ->]]%Hadv & ->); (split_and!; [by auto|done|]);
      by intros o [= <-].
  - split_and!; [|done|done]. destruct Hc as [|(d' & [[Hs ->]|[Hs ->]]%Hadv & Hd)]; auto.
Qed.

(** [C30] A deletion task is safe and exact, whatever round trips and file operations fail: the
    directory loses nothing, or exactly the object of a task that was not complete, when no row of
    the raw objects, the media or the export runs referred to it; the tables change at most by this
    attempt at this pending task, which stays pending with the reason of its failure, a live reference
    exactly when there is one, or becomes complete, when nothing refers to the object and nothing is left
    at its path. A task that answers complete was complete already, or nothing is at the object's path
    and it is recorded complete; one that answers pending is recorded with that reason. *)
Theorem blob_task_exact task_id w : let '(result, w') := process_blob_deletion_task task_id w in
  (w_files w' = w_files w
   \/ exists t c, blob_deletion_tasks (w_db w) !! task_id = Some t /\ bt_state t <> "complete"
       /\ unreferenced (bt_blob_ref t) (bt_content_hash t) (w_db w)
       /\ bt_blob_ref t = blob_ref_of (raw_hex (bt_content_hash t))
       /\ w_files w !! object_path (raw_hex (bt_content_hash t)) = Some c /\ sha256 c = bt_content_hash t
       /\ w_files w' = base.delete (object_path (raw_hex (bt_content_hash t))) (w_files w))
  /\ (w_db w' = w_db w \/ exists t, blob_deletion_tasks (w_db w) !! task_id = Some t
       /\ task_attempted task_id t (w_files w') (w_db w) (w_db w'))
  /\ match result with
     | Ok Complete => exists t, blob_deletion_tasks (w_db w) !! task_id = Some t
         /\ (bt_state t = "complete" \/ w_files w' !! object_path (raw_hex (bt_content_hash t)) = None)
         /\ (bt_state t = "pending" -> w_db w' = advanced task_id t "complete" None (w_db w))
     | Ok (Pending failure) => exists t, blob_deletion_tasks (w_db w) !! task_id = Some t /\ bt_state t <> "complete"
         /\ (bt_state t = "pending" -> w_db w' = advanced task_id t "pending" (Some (failure_str failure)) (w_db w))
     | Err _ => True
     end.
Proof.
  unfold process_blob_deletion_task. unfold bind at 1.
  destruct (read _ w) as [[t|e] w1] eqn:E1; pose proof (read_unchanged _ _ _ _ E1) as [Hd1 Hf1];
    [|split_and!; [by left|by left|done]].
  apply read_Ok in E1 as [Ht%ok_or_Ok _]. case_bool_decide as Hst.
  { split_and!; [by left|by left|]. exists t. split_and!; [done|by left|congruence]. }
  unfold bind at 1. destruct (read _ w1) as [[live|e] w2] eqn:E2;
    pose proof (read_unchanged _ _ _ _ E2) as [Hd2 Hf2]; [|split_and!; [left; congruence|left; congruence|done]].
  apply read_Ok in E2 as [Hlive _]. injection Hlive as Hlive. rewrite Hd1 in Hlive, Hd2. rewrite <- Hf1.
  destruct (Z.ltb_spec 0 live) as [Hpos|Hzero].
  { assert (~ unreferenced (bt_blob_ref t) (bt_content_hash t) (w_db w)) as Hun
      by (intros Hu%unreferenced_live_references; lia).
    destruct ((_ ;;; _) w2) as [r w'] eqn:E. apply (count_then_frame _ t) in E as (Hc & Hf & Ho); [|by rewrite Hd2].
    rewrite Hd2 in *. rewrite Hf, Hf2. split_and!; [by left|..].
    - destruct Hc as [->|[Hp ->]]; [by left|right]. exists t. split; [done|]. by apply attempt_pending.
    - destruct r as [o|]; [|done]. destruct (Ho o eq_refl) as [-> H]. by exists t. }
  assert (unreferenced (bt_blob_ref t) (bt_content_hash t) (w_db w)) as Hun
    by (apply live_references_zero; lia).
  unfold bind at 1, attempt, backend_delete, mapErr at 1.
  pose proof (delete_frame (bt_blob_ref t) (bt_content_hash t) w2) as (Hdel & Hdd & Hgone).
  destruct (delete_if_matches _ _ w2) as [deleted w3]. simpl in *. rewrite Hd2 in Hdd.
  assert (w_files w3 = w_files w1 \/ exists t' c, blob_deletion_tasks (w_db w) !! task_id = Some t'
    /\ bt_state t' <> "complete" /\ unreferenced (bt_blob_ref t') (bt_content_hash t') (w_db w)
    /\ bt_blob_ref t' = blob_ref_of (raw_hex (bt_content_hash t'))
    /\ w_files w1 !! object_path (raw_hex (bt_content_hash t')) = Some c /\ sha256 c = bt_content_hash t'
    /\ w_files w3 = base.delete (object_path (raw_hex (bt_content_hash t'))) (w_files w1)) as Hfiles.
  { destruct Hdel as [->|(Hb & (c & Hc & Hs) & ->)]; [by left|right]. exists t, c. rewrite <- Hf2. by split_and!. }
  destruct deleted as [[]|e]; destruct ((_ ;;; _) w3) as [r w'] eqn:E;
    apply (count_then_frame _ t) in E as (Hc & Hf & Ho); try (by rewrite Hdd); rewrite Hdd in *; rewrite Hf;
    (split_and!; [done|..]).
  - destruct Hc as [->|[Hp ->]]; [by left|right]. exists t. split; [done|]. apply attempt_complete; [done|done|by apply Hgone].
  - destruct r as [o|]; [|done]. destruct (Ho o eq_refl) as [-> H]. exists t. split_and!; [done|right; by apply Hgone|done].
  - destruct Hc as [->|[Hp ->]]; [by left|right]. exists t. split; [done|]. apply attempt_pending; [done|].
    split; [by destruct e|done].
  - destruct r as [o|]; [|done]. destruct (Ho o eq_refl) as [-> H]. by exists t.
Qed.

End WithEnv.

(** * A deletion between storing and recording *)

Section Race.
Context {Henv : Env} {Hh : Healthy Henv}.

(** Evidence can be lost to a concurrent deletion task. A recorder stores its response
    first and inserts the referring row in a later transaction; while the bytes are there from an
    earlier, now unreferenced observation and a deletion task for them is pending, the store
    succeeds by verifying the old object, the task then still counts no reference, deletes the
    object and completes, and what the recorder was given to refer to cannot be read any more. *)
Theorem deletion_between_store_and_record bytes w task_id t :
  io_healthy -> (Z.of_nat (String.length bytes) <= i64_max)%Z ->
  w_files w !! object_path (raw_hex (sha256 bytes)) = Some bytes ->
  blob_deletion_tasks (w_db w) !! task_id = Some t -> bt_state t = "pending" ->
  (bt_attempt_count t < i32_max)%Z ->
  bt_blob_ref t = blob_ref_of (raw_hex (sha256 bytes)) -> bt_content_hash t = sha256 bytes ->
  live_references (bt_blob_ref t) (bt_content_hash t) None (w_db w) = 0%Z ->
  exists r w1 w2, store bytes w = (Ok r, w1)
    /\ process_blob_deletion_task task_id w1 = (Ok Complete, w2)
    /\ forall w3, w_files w3 = w_files w2 ->
         (read_verified (sr_blob_ref r) (sr_content_hash r) w3).1 = Err RawStorage.
Proof using Hh.
  intros Hio Hlen Hf Ht Hst Hac Hb Hc Hlive. set (path := object_path (raw_hex (sha256 bytes))) in *.
  assert (forall w0, w_files w0 !! path = Some bytes ->
    verify_raw_object path (sha256 bytes) w0 = (Ok (), tick w0)) as Hver.
  { intros w0 Hw0. unfold verify_raw_object, fs_read, bind. rewrite Hio, Hw0. by rewrite bool_decide_eq_true_2. }
  assert (store bytes w = (Ok (mk_stored_raw (blob_ref_of (raw_hex (sha256 bytes))) (sha256 bytes)
    (Z.of_nat (String.length bytes)) "application/json"), tick (tick w))) as Hstore.
  { unfold store, fs_try_exists, bind. rewrite (proj2 (Z.ltb_ge _ _) Hlen), Hio. fold path.
    rewrite bool_decide_eq_true_2 by (by rewrite Hf). by rewrite Hver. }
  eexists _, _, _. split; [exact Hstore|]. split.
  - unfold process_blob_deletion_task, bind at 1. rewrite read_healthy. simpl. rewrite Ht. simpl.
    rewrite bool_decide_eq_false_2 by (by rewrite Hst). unfold bind at 1. rewrite read_healthy. simpl.
    rewrite Hlive. simpl. unfold bind at 1, attempt, backend_delete, mapErr.
    assert (delete_if_matches (bt_blob_ref t) (bt_content_hash t) (tick (tick (tick (tick w))))
      = (Ok (), tick (tick (with_files (base.delete path (w_files w))
          (tick (tick (tick (tick (tick (tick w)))))))))) as ->.
    { unfold delete_if_matches, fs_try_exists, fs_remove_file. rewrite Hb, Hc, bool_decide_eq_true_2 by done.
      cbn [negb]. unfold bind at 1. rewrite Hio. fold path. simpl.
      rewrite bool_decide_eq_true_2 by (by rewrite Hf). cbn [negb]. unfold bind at 1.
      rewrite Hver by done. unfold bind at 1. simpl. rewrite Hio, Hf. unfold bind at 1. rewrite Hio. simpl.
      rewrite bool_decide_eq_false_2; [done|]. rewrite lookup_delete_eq. by intros []. }
    cbv beta iota. unfold bind at 1. rewrite execute_healthy. unfold advance_task. simpl. rewrite Ht, Hst.
    simpl. replace (i32_max <=? bt_attempt_count t)%Z with false by lia. reflexivity.
  - intros w3 Hw3. assert (w_files w3 !! path = None) as Hnone.
    { rewrite Hw3. cbn [w_files tick with_files with_db]. apply lookup_delete_eq. }
    unfold read_verified, fs_read, bind. cbn [sr_blob_ref sr_content_hash].
    rewrite bool_decide_eq_true_2 by done. cbn [negb]. fold path. by rewrite Hnone, Hio.
Qed.

End Race.

(** * Witnesses *)

Definition sample_response : AcquiredMedia := mk_acquired "https://cdn/x" ImagePng 3 "abc" "abc".

Definition https_web : PublicResolution.Web := {|
  PublicResolution.url_parse := fun _ => Some (PublicResolution.mk_url "https" None "" None);
  PublicResolution.json_parse := fun _ => None;
  PublicResolution.http_get := fun _ _ => None;
|}.

Lemma archive_acquired_media_sound_witness :
  exists m w', @archive_acquired_media sample_env https_web (mk_lease 10) sample_response (sample_world empty_db)
    = (Ok (Archived m), w') /\ ar_content_hash m = "abc"
    /\ exists c, w_files w' !! object_path (raw_hex "abc") = Some c /\ @sha256 sample_env c = "abc".
Proof.
  pose proof (@archive_acquired_media_sound sample_env https_web (mk_lease 10) sample_response
    (sample_world empty_db)) as H. simpl max_bytes in H. specialize (H ltac:(lia)).
  destruct (archive_acquired_media _ _ _) as [[[reason|m]|e] w'] eqn:E; [by vm_compute in E| |by vm_compute in E].
  exists m, w'. destruct H as (_ & _ & _ & _ & _ & _ & -> & Hc). done.
Defined.

Definition leftover_world : World :=
  mkWorld (set_blob_deletion_tasks {[7%N := mk_blob_task_row None (blob_ref_of (raw_hex "{}")) "{}" "pending" 0 None]}
    empty_db) 0 0 None {[object_path (raw_hex "{}") := "{}"]} [].

Lemma deletion_between_store_and_record_witness :
  exists r w1 w2, @store sample_env "{}" leftover_world = (Ok r, w1)
    /\ @process_blob_deletion_task sample_env 7%N w1 = (Ok Complete, w2)
    /\ (@read_verified sample_env (sr_blob_ref r) (sr_content_hash r) w2).1 = Err RawStorage.
Proof.
  destruct (@deletion_between_store_and_record sample_env _ "{}" leftover_world 7%N
    (mk_blob_task_row None (blob_ref_of (raw_hex "{}")) "{}" "pending" 0 None))
    as (r & w1 & w2 & H1 & H2 & H3); try done.
  exists r, w1, w2. split; [done|]. split; [done|]. by apply H3.
Defined.

End MediaRetention.
