(* ===== verification/AccountSync.v ===== *)
(** Synchronization of official own-account content
    (src/crates/threads-archive/src/account_sync.rs): one bounded page per call, its raw
    response, posts, reply relations, facts and checkpoint in one transaction.

    The provider adapter is the class [OfficialOwnContentProvider]. *)
From S2P Require Import Prelude Permalink Relation RelationGraph Schema Store Publishing RawObjects PublicResolution.

Module AccountSync.
Import Schema Store RawObjects.
Local Open Scope string_scope.
Local Open Scope store_scope.

Definition PARSER_VERSION : string := "threads-official-own-content-v1".

(** [CapabilityAvailability] of oauth.rs. *)
Inductive CapabilityAvailability := Available | Unavailable (reason : string).

Inductive SyncOutcome := NoOp (reason : string) | Completed (next_watermark : option string).

Record OfficialOwnPost := mk_own_post {
  op_provider_post_id : string;
  op_permalink : Permalink.Permalink;
  op_text_content : option string;
  op_published_at : option Time;
  op_reply_to_provider_post_id : option string;
}.

Record OfficialOwnContentPage := mk_page {
  pg_raw_response : string;
  pg_posts : list OfficialOwnPost;
  pg_next_watermark : option string;
}.

Inductive OwnAccountSyncError :=
| SyncUnavailable
| SyncPersistence (e : SqlError)
| SyncRaw (e : PublicResolutionError).

Class OfficialOwnContentProvider := {
  (* the answer to the listing made at the n-th step *)
  list_own_content : nat -> Uuid -> option string -> Result OwnAccountSyncError OfficialOwnContentPage;
}.

(** The row an official observation leaves, new or updated. *)
Definition official_row (account_id : Uuid) (post : OfficialOwnPost) (now : Time) : post_row :=
  mk_post_row (Some account_id) (Some (op_provider_post_id post)) (Permalink.as_str (op_permalink post))
    (match op_reply_to_provider_post_id post with Some _ => "reply" | None => "post" end)
    (op_text_content post) (op_published_at post) "official_api" "authoritative_platform_state" "active" now.

(** [insert into posts ... on conflict (provider_post_id) do update ... returning post_id]. *)
Definition upsert_own_post (new_id account_id : Uuid) (post : OfficialOwnPost) (now : Time) (d : db)
  : Result SqlError (Uuid * db) :=
  let permalink := Permalink.as_str (op_permalink post) in
  if negb (bool_decide (is_Some (accounts d !! account_id)))
  then Err (ForeignKeyViolation "posts_account_id_fkey") else
  match post_by_provider_id d (op_provider_post_id post) with
  | Some (id, _) =>
      if PublicResolution.permalink_taken d permalink (Some id) then Err (UniqueViolation "posts_permalink_key")
      else Ok (id, set_posts (<[id := official_row account_id post now]> (posts d)) d)
  | None =>
      if bool_decide (is_Some (posts d !! new_id)) then Err (UniqueViolation "posts_pkey")
      else if PublicResolution.permalink_taken d permalink None then Err (UniqueViolation "posts_permalink_key")
      else Ok (new_id, set_posts (<[new_id := official_row account_id post now]> (posts d)) d)
  end.

Section WithEnv.
Context {Henv : Env} {Hcon : Publishing.Contracts} {Hprov : OfficialOwnContentProvider}.

Abbreviation S A := (M OwnAccountSyncError A).

Definition checkpoint (account_id : Uuid) : S (option string) :=
  mapErr SyncPersistence (read (fun _ d => Ok (mjoin (account_sync_checkpoints d !! account_id)))).

Definition record_raw (raw : StoredRaw) : S Uuid :=
  let* raw_object_id := now_v7 in
  mapErr SyncPersistence (execute (fun now d =>
    insert_raw_object raw_object_id (mk_raw_object_row "api_response" (sr_blob_ref raw)
      (sr_content_hash raw) (sr_byte_size raw) (sr_media_type raw) now) d)) ;;;
  ret raw_object_id.

(** The conflict action leaves [target_permalink] alone, as the public one does for a null. *)
Definition record_reply_relation (post_id : Uuid) (post : OfficialOwnPost) : S () :=
  match op_reply_to_provider_post_id post with
  | None => ret ()
  | Some parent =>
      let* parent_post_id := mapErr SyncPersistence (read (fun _ d =>
        Ok (fst <$> post_by_provider_id d parent))) in
      let* id := now_v7 in
      mapErr SyncPersistence (execute (fun _ d =>
        PublicResolution.upsert_relation id post_id parent_post_id parent None "reply" d))
  end.

Definition publish_error : OwnAccountSyncError := SyncPersistence (Protocol "social-source publication").

Definition append_source_facts (account_id post_id : Uuid) : S () :=
  let* capture_ids := mapErr SyncPersistence (read (fun _ d =>
    Ok ((select (captures d) (fun _ c => bool_decide (c_post_id c = Some post_id))).*1))) in
  match capture_ids with
  | [] => mapErr (fun _ => publish_error) (Publishing.append_official_fact account_id post_id)
  | _ => forM_ capture_ids (fun capture_id => mapErr (fun _ => publish_error) (Publishing.append_fact capture_id))
  end.

Definition record_post (account_id raw_object_id : Uuid) (post : OfficialOwnPost) : S () :=
  let* new_id := now_v7 in
  let* post_id := mapErr SyncPersistence (query (upsert_own_post new_id account_id post)) in
  let* revision_id := now_v7 in
  mapErr SyncPersistence (execute (fun now d =>
    insert_post_revision revision_id (mk_revision_row post_id raw_object_id PARSER_VERSION now) d)) ;;;
  record_reply_relation post_id post ;;;
  append_source_facts account_id post_id.

Definition save_checkpoint (account_id : Uuid) (watermark : option string) : S () :=
  mapErr SyncPersistence (execute (fun _ d =>
    if negb (bool_decide (is_Some (accounts d !! account_id)))
    then Err (ForeignKeyViolation "account_sync_checkpoints_account_id_fkey")
    else Ok (set_account_sync_checkpoints (<[account_id := watermark]> (account_sync_checkpoints d)) d))).

(** The transaction of [sync]. *)
Definition sync_body (account_id : Uuid) (page : OfficialOwnContentPage) (raw : StoredRaw)
  : S (Finish SyncOutcome) :=
  let* raw_object_id := record_raw raw in
  forM_ (pg_posts page) (record_post account_id raw_object_id) ;;;
  save_checkpoint account_id (pg_next_watermark page) ;;;
  ret (Commit (Completed (pg_next_watermark page))).

(** [OwnAccountSyncStore::sync]. *)
Definition sync (account_id : Uuid) (availability : CapabilityAvailability) : S SyncOutcome :=
  match availability with
  | Unavailable reason => ret (NoOp reason)
  | Available =>
      let* watermark := checkpoint account_id in
      let* page := (fun w => (list_own_content (w_tick w) account_id watermark, tick w)) in
      let* raw := mapErr SyncRaw (store (pg_raw_response page)) in
      transaction SyncPersistence (sync_body account_id page raw)
  end.

(** * What a page does to the tables *)

(** Stored posts stay, under the identity they have. *)
Definition posts_kept (d d' : db) : Prop := forall id p, posts d !! id = Some p ->
  exists p', posts d' !! id = Some p' /\ p_provider_post_id p' = p_provider_post_id p.

Lemma posts_kept_same d d' : posts d' = posts d -> posts_kept d d'.
Proof. intros E id p H. exists p. by rewrite E. Qed.

Lemma posts_kept_trans d1 d2 d3 : posts_kept d1 d2 -> posts_kept d2 d3 -> posts_kept d1 d3.
Proof.
  intros P1 P2 id p H. destruct (P1 _ _ H) as (p2 & H2 & E2). destruct (P2 _ _ H2) as (p3 & H3 & E3).
  exists p3. split; [done|congruence].
Qed.

(** The reply of a post: its row names the parent, resolved to a post of that identity, and resolved
    whenever the parent was stored in [d0], before the page. *)
Definition replied (post_id : Uuid) (parent : string) (d0 d : db) : Prop :=
  exists target, PublicResolution.related post_id target parent "reply" d
    /\ (forall id, target = Some id -> exists p, posts d !! id = Some p /\ p_provider_post_id p = Some parent)
    /\ (forall id p, posts d0 !! id = Some p -> p_provider_post_id p = Some parent -> is_Some target).

(** What recording posts with the identities [ids] leaves alone, and what it adds to. *)
Record page_frame (ids : list string) (d d' : db) : Prop := {
  pf_captures : captures d' = captures d;
  pf_tombstones : tombstones d' = tombstones d;
  pf_checkpoints : account_sync_checkpoints d' = account_sync_checkpoints d;
  pf_raw_objects : raw_objects d' = raw_objects d;
  pf_accounts : accounts d' = accounts d;
  pf_kept : posts_kept d d';
  pf_posts id p : posts d !! id = Some p ->
    posts d' !! id = Some p \/ exists i, i ∈ ids /\ p_provider_post_id p = Some i;
  pf_revisions : post_revisions d ⊆ post_revisions d';
  pf_replies d0 id parent : posts_kept d0 d -> replied id parent d0 d -> replied id parent d0 d';
  pf_sources : social_sources d ⊆ social_sources d';
  pf_source_revisions : social_source_revisions d ⊆ social_source_revisions d';
  pf_outbox : outbox_events d ⊆ outbox_events d';
  pf_announced : Publishing.announced d d';
}.

(** A post of the page as it stands: the row of the listing, a revision from the page's response, the
    reply, and the facts of everybody who captured it, or of the account's owner. *)
Definition listed (account_id raw_object_id : Uuid) (post : OfficialOwnPost) (d0 d : db) : Prop :=
  exists id now, posts d !! id = Some (official_row account_id post now)
    /\ (exists rid at_, post_revisions d !! rid = Some (mk_revision_row id raw_object_id PARSER_VERSION at_))
    /\ (forall parent, op_reply_to_provider_post_id post = Some parent -> replied id parent d0 d)
    /\ (forall cid c, captures d !! cid = Some c -> c_post_id c = Some id ->
          Publishing.fact_stands (Publishing.capture_origin cid c id) d)
    /\ ((forall cid c, captures d !! cid = Some c -> c_post_id c <> Some id) ->
          exists a at_, accounts d !! account_id = Some a
            /\ Publishing.fact_stands (Publishing.official_origin (a_user_ref a) id at_) d).

Lemma page_frame_refl ids d : page_frame ids d d.
Proof. split; try done; [by apply posts_kept_same|by left|by apply Publishing.announced_same]. Qed.

Lemma page_frame_trans ids1 ids2 d1 d2 d3 : page_frame ids1 d1 d2 -> page_frame ids2 d2 d3 ->
  page_frame (ids1 ++ ids2)%list d1 d3.
Proof.
  intros [C1 T1 K1 R1 A1 P1 I1 V1 L1 S1 W1 O1 N1] [C2 T2 K2 R2 A2 P2 I2 V2 L2 S2 W2 O2 N2].
  split; try congruence; try by etrans.
  - by eapply posts_kept_trans.
  - intros id p Hp. destruct (I1 _ _ Hp) as [Hp2|(i & Hi & He)]; [|right; exists i; rewrite elem_of_app; auto].
    destruct (I2 _ _ Hp2) as [|(i & Hi & He)]; [by left|right; exists i; rewrite elem_of_app; auto].
  - intros d0 id parent Hk Hr. apply L2; [by eapply posts_kept_trans|by apply L1].
  - by eapply Publishing.announced_trans.
Qed.

(** A post of the page stands as long as no other post of its identity is recorded. *)
Lemma listed_kept ids account_id raw_object_id post d0 d d' : page_frame ids d d' -> posts_kept d0 d ->
  op_provider_post_id post ∉ ids -> listed account_id raw_object_id post d0 d -> listed account_id raw_object_id post d0 d'.
Proof.
  intros [C _ _ _ A _ I V L Ss W _ _] Hk Hn (id & now & Hp & (rid & at_ & Hr) & Hl & Hc & Ho).
  assert (posts d' !! id = Some (official_row account_id post now)) as Hp'.
  { destruct (I _ _ Hp) as [|(i & Hi & He)]; [done|]. injection He as <-. done. }
  assert (forall origin, Publishing.so_post_id origin = id -> Publishing.fact_stands origin d ->
    Publishing.fact_stands origin d') as Hfact.
  { intros origin E. apply Publishing.fact_stands_kept; [|done|done]. by rewrite E, Hp. }
  exists id, now. rewrite C, A. split_and!; [done|exists rid, at_; by eapply lookup_weaken|by auto|..].
  - intros cid c H1 H2. apply Hfact; [done|auto].
  - intros H1. destruct (Ho H1) as (a & t & Ha & Hf). exists a, t. split; [done|]. by apply Hfact.
Qed.

(** ** The statements *)

Lemma upsert_own_post_Ok new_id account_id post now d id d' :
  upsert_own_post new_id account_id post now d = Ok (id, d') ->
  d' = set_posts (<[id := official_row account_id post now]> (posts d)) d
  /\ (forall p, posts d !! id = Some p -> p_provider_post_id p = Some (op_provider_post_id post)).
Proof.
  unfold upsert_own_post. case_bool_decide; simpl; [|done].
  destruct (post_by_provider_id d (op_provider_post_id post)) as [[id0 p0]|] eqn:Ep.
  - destruct (PublicResolution.permalink_taken _ _ _); [done|]. intros [= <- <-]. split; [done|].
    intros p Hp. apply head_select_Some in Ep as [Hl Hc]. rewrite Hl in Hp. injection Hp as <-.
    by apply bool_decide_eq_true in Hc.
  - case_bool_decide as Hn; [done|]. destruct (PublicResolution.permalink_taken _ _ _); [done|].
    intros [= <- <-]. split; [done|]. intros p Hp. exfalso. apply Hn. by rewrite Hp.
Qed.

Lemma upsert_frame account_id post now id d :
  (forall p, posts d !! id = Some p -> p_provider_post_id p = Some (op_provider_post_id post)) ->
  page_frame [op_provider_post_id post] d (set_posts (<[id := official_row account_id post now]> (posts d)) d).
Proof.
  intros Hid. assert (posts_kept d (set_posts (<[id := official_row account_id post now]> (posts d)) d)) as Hkept.
  { intros id' p Hp. cbn. destruct (decide (id' = id)) as [->|Hne].
    - rewrite lookup_insert_eq. eexists. split; [done|]. cbn. symmetry. by apply Hid.
    - rewrite lookup_insert_ne by done. eauto. }
  split; try done.
  - intros id' p Hp. cbn. destruct (decide (id' = id)) as [->|Hne]; [|by left; rewrite lookup_insert_ne].
    right. exists (op_provider_post_id post). rewrite list_elem_of_singleton. auto.
  - intros d0 id' parent _ (target & Hr & Ht & Hd). exists target. split; [done|]. split; [|done].
    intros tid Htid. destruct (Ht _ Htid) as (p & Hp & Hpp). destruct (Hkept _ _ Hp) as (p' & Hp' & E).
    exists p'. split; [done|congruence].
  - by apply Publishing.announced_same.
Qed.

Lemma revision_frame id row d : post_revisions d !! id = None ->
  page_frame [] d (set_post_revisions (<[id := row]> (post_revisions d)) d).
Proof.
  intros Hn. split; try done; [by apply posts_kept_same|by left|by apply insert_subseteq|by apply Publishing.announced_same].
Qed.

(** The post a relation is resolved to has the identity of its target. *)
Lemma resolved_reply post_id parent d0 d d' : posts_kept d0 d ->
  PublicResolution.relates post_id (fst <$> post_by_provider_id d parent) parent "reply" d d' -> replied post_id parent d0 d'.
Proof.
  intros Hk [Hf Hr _ _]. assert (posts d' = posts d) as Hp by (by rewrite Hf).
  eexists. split; [exact Hr|]. rewrite Hp. split.
  - intros id ([id' p] & Hs & ->)%fmap_Some. apply head_select_Some in Hs as [Hs Hb%bool_decide_eq_true]. eauto.
  - intros id p Hid Hpp. destruct (Hk _ _ Hid) as (p' & Hp' & E).
    destruct (post_by_provider_id d parent) as [[id' p2]|] eqn:Es; [by eexists|]. exfalso.
    apply (proj1 (head_select_None _ _)) with (id := id) (r := p') in Es; [|done].
    cbn in Es. by rewrite E, Hpp, bool_decide_eq_true_2 in Es.
Qed.

Lemma relates_frame post_id parent d d' :
  PublicResolution.relates post_id (fst <$> post_by_provider_id d parent) parent "reply" d d' -> page_frame [] d d'.
Proof.
  intros Hr. pose proof Hr as [Hf _ Hkept _]. unfold PublicResolution.only_relations in Hf.
  split; try (by rewrite Hf).
  - apply posts_kept_same. by rewrite Hf.
  - intros id p Hp. left. by rewrite Hf.
  - intros d0 id parent' Hk (target & Hrel & Ht & Hd).
    destruct (Hkept _ _ _ _ Hrel) as [Hrel'|[= -> ->]]; [|by eapply resolved_reply].
    exists target. split; [done|]. split; [|done]. intros tid Htid. destruct (Ht _ Htid) as (p & Hp & Hpp).
    exists p. by rewrite Hf.
  - apply Publishing.announced_same. by rewrite Hf.
Qed.

Lemma published_frame d d' : Publishing.published_from d d' -> Publishing.announced d d' -> page_frame [] d d'.
Proof.
  intros [Hf Hs Hr Ho _] Ha. split; try done; try (by rewrite Hf).
  - apply posts_kept_same. by rewrite Hf.
  - intros id p Hp. left. by rewrite Hf.
Qed.

Lemma record_reply_relation_Ok post_id post w w' : record_reply_relation post_id post w = (Ok (), w') ->
  page_frame [] (w_db w) (w_db w')
  /\ (forall d0 parent, posts_kept d0 (w_db w) -> op_reply_to_provider_post_id post = Some parent ->
        replied post_id parent d0 (w_db w')).
Proof.
  unfold record_reply_relation. destruct (op_reply_to_provider_post_id post) as [parent|].
  - intros H. db_ok. match goal with H : PublicResolution.upsert_relation _ _ _ _ _ _ _ = Ok _ |- _ =>
      apply PublicResolution.upsert_relation_relates in H as Hr end.
    split; [by eapply relates_frame|]. intros d0 parent' Hk [= <-]. by eapply resolved_reply.
  - intros [_ ->]%ret_db. split; [apply page_frame_refl|done].
Qed.

(** ** The facts of one post *)

Lemma append_official_fact_frame d0 account_id post_id :
  preserves (Publishing.published_from d0) (Publishing.append_official_fact account_id post_id).
Proof.
  unfold Publishing.append_official_fact, Publishing.post_updated_at.
  preserve_steps. apply Publishing.append_origin_fact_frame.
Qed.

Lemma append_official_fact_stands account_id post_id w w' :
  Publishing.append_official_fact account_id post_id w = (Ok (), w') ->
  Publishing.announced (w_db w) (w_db w')
  /\ exists a at_, accounts (w_db w) !! account_id = Some a
       /\ Publishing.fact_stands (Publishing.official_origin (a_user_ref a) post_id at_) (w_db w').
Proof.
  unfold Publishing.append_official_fact, Publishing.post_updated_at.
  intros (o & w1 & Ho & H)%bind_Ok. apply bind_Ok in H as (owner & w2 & Hw & H).
  apply bind_Ok in H as (at_ & w3 & Hat & [Hs Ha]%Publishing.append_origin_fact_stands). db_ok.
  apply ok_or_Ok, fmap_Some in Hw as (a & Hacc & ->). split; [done|]. exists a, at_. done.
Qed.

(** The facts of several captures, appended one after another. *)
Lemma append_capture_facts ids : forall w w',
  forM_ ids (fun capture_id => mapErr (fun _ => publish_error) (Publishing.append_fact capture_id)) w = (Ok (), w') ->
  page_frame [] (w_db w) (w_db w')
  /\ forall cid, cid ∈ ids -> exists c p, captures (w_db w) !! cid = Some c /\ c_post_id c = Some p
       /\ Publishing.fact_stands (Publishing.capture_origin cid c p) (w_db w').
Proof.
  induction ids as [|cid rest IH]; intros w w'; cbn [forM_].
  - intros [_ ->]%ret_db. split; [apply page_frame_refl|by intros cid ?%not_elem_of_nil].
  - intros ([] & w1 & Hf%mapErr_Ok & H)%bind_Ok. destruct (IH _ _ H) as [F2 Hrest].
    pose proof (preserves_Ok _ _ _ _ _ (Publishing.append_fact_frame (w_db w) cid) Hf (Publishing.published_from_refl _)) as Hpub.
    apply Publishing.append_fact_stands in Hf as (c & p & Hc & Hp & Hs & Ha).
    pose proof (published_frame _ _ Hpub Ha) as F1.
    split; [exact (page_frame_trans [] [] _ _ _ F1 F2)|].
    intros cid' [->|Hin]%elem_of_cons.
    + exists c, p. split_and!; [done|done|]. eapply Publishing.fact_stands_kept; [|apply F2..|exact Hs].
      destruct Hs as (post & _ & _ & _ & _ & Hpost & _). rewrite Hpost.
      by destruct (pf_posts _ _ _ F2 _ _ Hpost) as [|(i & []%elem_of_nil & _)].
    + destruct (Hrest _ Hin) as (c' & p' & Hc' & H'). rewrite (pf_captures _ _ _ F1) in Hc'. eauto.
Qed.

Lemma append_source_facts_Ok account_id post_id w w' : append_source_facts account_id post_id w = (Ok (), w') ->
  page_frame [] (w_db w) (w_db w')
  /\ (forall cid c, captures (w_db w) !! cid = Some c -> c_post_id c = Some post_id ->
        Publishing.fact_stands (Publishing.capture_origin cid c post_id) (w_db w'))
  /\ ((forall cid c, captures (w_db w) !! cid = Some c -> c_post_id c <> Some post_id) ->
        exists a at_, accounts (w_db w) !! account_id = Some a
          /\ Publishing.fact_stands (Publishing.official_origin (a_user_ref a) post_id at_) (w_db w')).
Proof.
  unfold append_source_facts. intros (ids & w1 & (t & [= <-] & Hd)%mapErr_Ok%read_db & H)%bind_Ok.
  unfold tables in Hd.
  set (rows := select (captures (w_db w)) (fun _ c => bool_decide (c_post_id c = Some post_id))) in *.
  assert (forall cid c, (cid, c) ∈ rows <-> captures (w_db w) !! cid = Some c /\ c_post_id c = Some post_id) as Hrows.
  { intros cid c. unfold rows. by rewrite elem_of_select, bool_decide_eq_true. }
  destruct rows as [|[cid0 c0] rest] eqn:Er; cbn [fmap list_fmap fst] in H.
  - apply mapErr_Ok in H. pose proof (preserves_Ok _ _ _ _ _ (append_official_fact_frame (w_db w1) account_id post_id) H
      (Publishing.published_from_refl _)) as Hpub.
    apply append_official_fact_stands in H as [Ha Hs]. rewrite Hd in *. split_and!; [by apply published_frame| |done].
    intros cid c Hc Hp. by destruct (not_elem_of_nil (cid, c) (proj2 (Hrows cid c) (conj Hc Hp))).
  - apply append_capture_facts in H as [F Hall]. rewrite Hd in *. split_and!; [done|..].
    + intros cid c Hc Hp. destruct (Hall cid) as (c' & p & Hc' & Hp' & Hs).
      { apply (list_elem_of_fmap_2 fst ((cid0, c0) :: rest) (cid, c)). by apply Hrows. }
      congruence.
    + intros Hno. exfalso. destruct (proj1 (Hrows cid0 c0) ltac:(left)) as [Hc Hp]. by eapply Hno.
Qed.

(** ** One post, and a page *)

Lemma record_post_Ok account_id raw_object_id post w w' :
  record_post account_id raw_object_id post w = (Ok (), w') ->
  page_frame [op_provider_post_id post] (w_db w) (w_db w')
  /\ forall d0, posts_kept d0 (w_db w) -> listed account_id raw_object_id post d0 (w_db w').
Proof.
  unfold record_post. intros (new_id & w1 & Hm1%now_v7_db & H)%bind_Ok.
  apply bind_Ok in H as (id & w2 & (now & d2 & Hup & Hd2)%mapErr_Ok%query_db & H).
  apply bind_Ok in H as (rid & w3 & Hm3%now_v7_db & H).
  apply bind_Ok in H as ([] & w4 & (at_ & d4 & (Hrid & _ & ->)%insert_post_revision_Ok & Hd4)%mapErr_Ok%execute_db & H).
  apply bind_Ok in H as ([] & w5 & [F5 Hrep]%record_reply_relation_Ok & H).
  apply append_source_facts_Ok in H as (F6 & Hcap & Hoff). unfold tables in *. rewrite Hm1 in Hup. rewrite Hm3, Hd2 in *.
  apply upsert_own_post_Ok in Hup as [-> Hid]. rewrite Hd4 in *.
  pose proof (upsert_frame account_id post now id (w_db w) Hid) as F2.
  pose proof (revision_frame rid (mk_revision_row id raw_object_id PARSER_VERSION at_) _ Hrid) as F4.
  pose proof (page_frame_trans _ _ _ _ _ F2 F4) as F24. cbn [app] in F24.
  pose proof (page_frame_trans _ _ _ _ _ F24 F5) as F25. cbn [app] in F25.
  split; [exact (page_frame_trans _ _ _ _ _ F25 F6)|]. intros d0 Hk.
  pose proof (posts_kept_trans _ _ _ Hk (pf_kept _ _ _ F24)) as Hk4.
  pose proof (posts_kept_trans _ _ _ Hk (pf_kept _ _ _ F25)) as Hk5.
  assert (forall d d', page_frame [] d d' -> posts d !! id = Some (official_row account_id post now) ->
    posts d' !! id = Some (official_row account_id post now)) as Hsame.
  { intros d d' F Hp. by destruct (pf_posts _ _ _ F _ _ Hp) as [|(i & []%elem_of_nil & _)]. }
  exists id, now. rewrite (pf_captures _ _ _ F6), (pf_accounts _ _ _ F6). split_and!; [| | |done|done].
  - apply (Hsame _ _ F6), (Hsame _ _ F5). cbn. by rewrite lookup_insert_eq.
  - exists rid, at_. eapply lookup_weaken; [|apply F6]. eapply lookup_weaken; [|apply F5]. cbn. by rewrite lookup_insert_eq.
  - intros parent Hpar. eapply pf_replies; [exact F6|done|]. by apply Hrep.
Qed.

Lemma record_posts_Ok account_id raw_object_id ps : forall w w',
  forM_ ps (record_post account_id raw_object_id) w = (Ok (), w') ->
  page_frame (op_provider_post_id <$> ps) (w_db w) (w_db w')
  /\ (NoDup (op_provider_post_id <$> ps) -> forall d0 post, posts_kept d0 (w_db w) -> post ∈ ps ->
        listed account_id raw_object_id post d0 (w_db w')).
Proof.
  induction ps as [|post rest IH]; intros w w'; cbn [forM_].
  - intros [_ ->]%ret_db. split; [apply page_frame_refl|by intros _ d0 post _ ?%not_elem_of_nil].
  - intros ([] & w1 & [F1 O1]%record_post_Ok & [F2 O2]%IH)%bind_Ok.
    split; [exact (page_frame_trans _ _ _ _ _ F1 F2)|].
    intros [Hn Hnd]%NoDup_cons d0 post' Hk [->|Hin]%elem_of_cons.
    + eapply listed_kept; [exact F2| |done|by apply O1]. by eapply posts_kept_trans; [|apply F1].
    + apply O2; [done| |done]. by eapply posts_kept_trans; [|apply F1].
Qed.

(** What one recorded page leaves. *)
Record synced (account_id : Uuid) (page : OfficialOwnContentPage) (d d' : db) : Prop := {
  sy_checkpoint : account_sync_checkpoints d'
    = <[account_id := pg_next_watermark page]> (account_sync_checkpoints d);
  sy_page : exists raw_id row, raw_objects d !! raw_id = None
    /\ raw_objects d' = <[raw_id := row]> (raw_objects d) /\ raw_content_hash row = sha256 (pg_raw_response page)
    /\ (NoDup (op_provider_post_id <$> pg_posts page) -> forall post, post ∈ pg_posts page ->
          listed account_id raw_id post d d');
  sy_kept : posts_kept d d';
  sy_other id p : posts d !! id = Some p ->
    posts d' !! id = Some p \/ exists i, i ∈ op_provider_post_id <$> pg_posts page /\ p_provider_post_id p = Some i;
  sy_added : post_revisions d ⊆ post_revisions d' /\ social_sources d ⊆ social_sources d'
    /\ social_source_revisions d ⊆ social_source_revisions d' /\ outbox_events d ⊆ outbox_events d';
  sy_announced : Publishing.announced d d';
  sy_beside : captures d' = captures d /\ tombstones d' = tombstones d /\ accounts d' = accounts d;
}.

Lemma sync_body_Ok account_id page raw w f w' : sr_content_hash raw = sha256 (pg_raw_response page) ->
  sync_body account_id page raw w = (Ok f, w') ->
  f = Commit (Completed (pg_next_watermark page)) /\ synced account_id page (w_db w) (w_db w').
Proof.
  intros Hhash. unfold sync_body, record_raw. intros (raw_id & w1 & Hraw & H)%bind_Ok.
  apply bind_Ok in Hraw as (id & w2 & Hm%now_v7_db & Hraw).
  apply bind_Ok in Hraw as ([] & w3 & (now & d3 & [Hfresh ->]%insert_raw_object_Ok & Hd3)%mapErr_Ok%execute_db & [-> ->]%ret_db).
  apply bind_Ok in H as ([] & w4 & [F O]%record_posts_Ok & H). unfold tables in *. rewrite Hm in *. rewrite Hd3 in *.
  apply bind_Ok in H as ([] & w5 & (t & d5 & Hck & Hd5)%mapErr_Ok%execute_db & [-> ->]%ret_db). split; [done|].
  destruct (negb _); [done|]. injection Hck as <-. unfold tables in Hd5. rewrite Hd5.
  destruct F as [C T K R A P I V L Ss W Out N]. cbn in *. split; cbn.
  - by rewrite K.
  - eexists id, _. split; [exact Hfresh|]. split; [by rewrite R|]. split; [done|].
    intros Hnd post Hin. apply (O Hnd (w_db w) post); [by apply posts_kept_same|done].
  - done.
  - done.
  - done.
  - exact N.
  - by rewrite C, T, A.
Qed.

(** [C29] A page of the official listing is archived completely or not at all, whatever round
    trips or file operations fail: the checkpoint moves to the page's watermark only together with the
    raw response under its digest and every post of the page (of distinct identities) with the listing's
    content as an official observation of the account, a revision citing the response, its reply relation
    with the parent resolved when it was stored, and the facts: every capture of the post, or the
    account's owner when nobody captured it, has a source revision with the digest of the post, and every
    new revision is announced by a new event. Only posts of the page's identities are overwritten, none
    changes its identity, nothing is lost, and captures, tombstones and accounts are left alone. An
    unavailable capability does nothing. *)
Theorem sync_all_or_nothing account_id availability w :
  let '(result, w') := sync account_id availability w in
  (w_db w' = w_db w
   \/ exists page, (exists n, list_own_content n account_id
                        (mjoin (account_sync_checkpoints (w_db w) !! account_id)) = Ok page)
        /\ synced account_id page (w_db w) (w_db w'))
  /\ match result with
     | Ok (Completed next) => exists page, pg_next_watermark page = next /\ synced account_id page (w_db w) (w_db w')
     | Ok (NoOp _) => w' = w
     | Err _ => True
     end.
Proof.
  unfold sync. destruct availability as [|reason]; [|by split; [left|]].
  unfold bind at 1. destruct (checkpoint account_id w) as [[watermark|e] w1] eqn:Ec;
    pose proof (read_same_db (fun _ d => Ok (mjoin (account_sync_checkpoints d !! account_id))) w) as Hd1;
    unfold checkpoint, mapErr in Ec; destruct (read _ w) as [[m|e'] w0] eqn:Er; simplify_eq; simpl in Hd1;
    [|by split; [left|]].
  apply read_Ok in Er as [[= <-] _].
  unfold bind at 1. destruct (list_own_content (w_tick w1) account_id _) as [page|e] eqn:El; [|by split; [left|]].
  unfold bind at 1, mapErr at 1. destruct (store (pg_raw_response page) (tick w1)) as [[raw|e] w2] eqn:Es;
    apply store_frame in Es as [[_ Hd2] Hs]; simpl in Hd2; [|split; [left; congruence|done]].
  destruct (Hs raw eq_refl) as [Hraw _]. rewrite <- Hd1, <- Hd2.
  assert (sr_content_hash raw = sha256 (pg_raw_response page)) as Hhash by (by rewrite Hraw).
  pose proof (transaction_atomic SyncPersistence (sync_body account_id page raw) w2) as Hat.
  destruct (transaction _ _ w2) as [result w3] eqn:Et. simpl in Hat. split.
  - destruct Hat as [|(f & w0 & w4 & Hd0 & _ & _ & Hb & ->)]; [by left|right].
    apply sync_body_Ok in Hb as [_ Hb]; [|done]. rewrite Hd0 in Hb. exists page. split; [|done].
    exists (w_tick w1). by rewrite Hd2, Hd1.
  - destruct result as [out|]; [|done].
    apply transaction_Ok in Et as (w0 & w4 & Hd0 & _ & _ & [[Hb Hw]|[Hb _]]);
      apply sync_body_Ok in Hb as [Hf Hb]; try done. injection Hf as ->. exists page. split; [done|].
    by rewrite Hw, <- Hd0.
Qed.

End WithEnv.

(** * Pages that block later public recordings *)

(** A provider whose listing is one fixed page. *)
Definition fixed_provider (page : OfficialOwnContentPage) : OfficialOwnContentProvider :=
  {| list_own_content := fun _ _ _ => Ok page |}.

(** Account 1 of owner 7, and the accepted capture of a public post. *)
Definition connected_archive : db := set_accounts {[1%N := mk_account_row 7%N "p1" "owner" "creator" "connected" "threads_basic"]} PublicResolution.accepted_archive.

Definition synced_world (page : OfficialOwnContentPage) : World :=
  (@sync sample_env Publishing.sample_contracts (fixed_provider page) 1%N Available
    (sample_world connected_archive)).2.

Definition public_attempt (w : World) : Result PublicResolutionError PublicResolution.StoredResolution :=
  (@PublicResolution.record sample_env Publishing.sample_contracts 10%N
    PublicResolution.sample_public_post "{}" w).1.

(** Two own posts that name each other as parents are stored without the check public recording
    makes, and from then on public recording is refused. *)
Definition mutual_page : OfficialOwnContentPage :=
  mk_page "[..]" [mk_own_post "X" (Permalink.mkPermalink "x") None None (Some "Y");
                  mk_own_post "Y" (Permalink.mkPermalink "y") None None (Some "X")] (Some "next").

Example mutual_page_blocks_public_recording :
  account_sync_checkpoints (w_db (synced_world mutual_page)) !! 1%N = Some (Some "next")
  /\ public_attempt (synced_world mutual_page) = Err (RelationGraphInvalid RelationGraph.ReplyCycle).
Proof. split; vm_compute; reflexivity. Qed.

(** The official listing stores a post under its numeric identity; a public recording of the same
    permalink then fails in the database. *)
Definition numeric_page : OfficialOwnContentPage :=
  mk_page "[..]" [mk_own_post "17890" PublicResolution.sample_link None None None] None.

Example numeric_page_blocks_public_recording :
  account_sync_checkpoints (w_db (synced_world numeric_page)) !! 1%N = Some None
  /\ public_attempt (synced_world numeric_page)
     = Err (ResolutionPersistence (UniqueViolation "posts_permalink_key")).
Proof. split; vm_compute; reflexivity. Qed.

End AccountSync.
