(* ===== verification/RemovalAck.v ===== *)
(** The state machine of a removal event in the outbox after its first publication
    (src/crates/threads-archive/src/removal_acknowledgement.rs): armed for a resend when
    it is published, resent on a doubling schedule, ended by Knowledge's answer.

    Delays are whole microseconds; the rounding of the floating-point seconds the
    statements pass is not modelled. *)
From S2P Require Import Prelude Schema Store.

Module RemovalAck.
Import Schema Store.
Local Open Scope string_scope.
Local Open Scope store_scope.

Definition REMOVAL_EVENT_TYPE : string := "social.source.removed.v1".

Record ResendPolicy := mk_resend_policy { rp_after : Z; rp_cap : Z }.

Definition default_policy : ResendPolicy := mk_resend_policy (seconds 600) (seconds 21600).

Inductive AckOutcome := AckApplied | AckRefused.

#[global] Instance AckOutcome_eq_dec : EqDecision AckOutcome.
Proof. solve_decision. Defined.

(** [AckOutcome::as_str]. *)
Definition outcome_str (o : AckOutcome) : string :=
  match o with AckApplied => "applied" | AckRefused => "refused" end.

Record DueResend := mk_due_resend { dr_event_id : Uuid; dr_payload : Payload }.

Definition is_removal (o : outbox_row) : bool := bool_decide (o_event_type o = REMOVAL_EVENT_TYPE).
Definition is_published (o : outbox_row) : bool := bool_decide (is_Some (o_published_at o)).
Definition is_acknowledged (o : outbox_row) : bool := bool_decide (is_Some (o_acknowledged_at o)).

(** A column that is null, or a time that has passed. *)
Definition passed (now : Time) (at_ : option Time) : bool :=
  match at_ with Some t => (t <=? now)%Z | None => false end.
Definition null_or_passed (now : Time) (at_ : option Time) : bool :=
  match at_ with Some t => (t <=? now)%Z | None => true end.

(** * Row updates *)

Definition published_row (policy : ResendPolicy) (now : Time) (o : outbox_row) : outbox_row :=
  mk_outbox_row (o_event_type o) (o_aggregate_type o) (o_aggregate_id o) (o_payload o)
    (o_correlation_id o) (o_causation_id o) (o_occurred_at o) (Some now) (o_attempt_count o)
    (o_next_attempt_at o) None (o_acknowledged_at o) (o_ack_outcome o) (o_resend_count o)
    (if is_removal o then Some (now + rp_after policy)%Z else None).

(** [least(after * power(2, least(resend_count, 30)), cap)]. *)
Definition resend_delay (policy : ResendPolicy) (count : Z) : Z :=
  Z.min (rp_after policy * 2 ^ Z.min count 30) (rp_cap policy).

Definition resent_row (policy : ResendPolicy) (now : Time) (o : outbox_row) : outbox_row :=
  mk_outbox_row (o_event_type o) (o_aggregate_type o) (o_aggregate_id o) (o_payload o)
    (o_correlation_id o) (o_causation_id o) (o_occurred_at o) (o_published_at o) 0
    (o_next_attempt_at o) None (o_acknowledged_at o) (o_ack_outcome o) (o_resend_count o + 1)
    (Some (now + resend_delay policy (o_resend_count o))%Z).

Definition acknowledged_row (outcome : AckOutcome) (now : Time) (o : outbox_row) : outbox_row :=
  mk_outbox_row (o_event_type o) (o_aggregate_type o) (o_aggregate_id o) (o_payload o)
    (o_correlation_id o) (o_causation_id o) (o_occurred_at o) (o_published_at o) (o_attempt_count o)
    (o_next_attempt_at o) (o_last_error o) (Some now) (Some (outcome_str outcome)) (o_resend_count o)
    (o_next_resend_at o).

(** [update outbox_events set f where event_id = $1 and p]. *)
Definition update_event (event_id : Uuid) (p : outbox_row -> bool) (f : outbox_row -> outbox_row) (d : db)
  : db :=
  match outbox_events d !! event_id with
  | Some o => if p o then set_outbox_events (<[event_id := f o]> (outbox_events d)) d else d
  | None => d
  end.

(** Due for another copy: a published, unacknowledged removal whose times have passed. *)
Definition resend_due (now : Time) (o : outbox_row) : bool :=
  is_removal o && is_published o && negb (is_acknowledged o)
  && passed now (o_next_resend_at o) && null_or_passed now (o_next_attempt_at o).

Definition resend_leb (a b : Uuid * outbox_row) : bool :=
  let at_ o := default 0%Z (o_next_resend_at o) in
  (at_ a.2 <? at_ b.2)%Z || ((at_ a.2 =? at_ b.2)%Z && (a.1 <=? b.1)%N).

Section WithEnv.
Context {Henv : Env}.

Definition mark_published (event_id : Uuid) (policy : ResendPolicy) : M SqlError () :=
  execute (fun now d =>
    Ok (update_event event_id (fun o => negb (is_published o)) (published_row policy now) d)).

Definition due_resends (limit : nat) : M SqlError (list DueResend) :=
  read (fun now d => Ok ((fun kv => mk_due_resend kv.1 (o_payload kv.2)) <$>
    take limit (sort_by resend_leb (select (outbox_events d) (fun _ o => resend_due now o))))).

(** [resend_count] is an [integer]: incrementing its maximum is out of range. *)
Definition record_resend (event_id : Uuid) (policy : ResendPolicy) : M SqlError () :=
  execute (fun now d =>
    let p o := is_removal o && is_published o && negb (is_acknowledged o) in
    match outbox_events d !! event_id with
    | Some o => if p o && (i32_max <=? o_resend_count o)%Z then Err NumericOutOfRange
                else Ok (update_event event_id p (resent_row policy now) d)
    | None => Ok d
    end).

(** [rows_affected() == 1]. *)
Definition acknowledge (event_id : Uuid) (tenant : string) (outcome : AckOutcome) : M SqlError bool :=
  query (fun now d =>
    let p o := is_removal o && bool_decide (pl_tenant_id (o_payload o) = tenant)
               && negb (is_acknowledged o) in
    Ok (match outbox_events d !! event_id with Some o => p o | None => false end,
        update_event event_id p (acknowledged_row outcome now) d)).

Record Unacknowledged := mk_unacknowledged { ua_count : Z; ua_oldest_age : Z }.

Definition unacknowledged_removals : M SqlError Unacknowledged :=
  read (fun now d =>
    let waiting := select (outbox_events d) (fun _ o => is_removal o && negb (is_acknowledged o)) in
    Ok (mk_unacknowledged (Z.of_nat (length waiting))
      (match (fun kv => o_occurred_at kv.2) <$> waiting with
       | [] => 0%Z
       | t :: ts => (now - foldl Z.min t ts)%Z
       end))).

End WithEnv.

(** * The delays *)

(** The resend delays under a policy with [0 <= after <= cap]: the wait after a
    resend that [n] resends preceded is [after] doubled [n] times until the cap is reached, never
    less than [after] and never more than the cap, and later waits are never shorter. *)
Theorem resend_delay_schedule policy : (0 <= rp_after policy <= rp_cap policy)%Z ->
  (forall n, (0 <= n <= 30)%Z -> (rp_after policy * 2 ^ n <= rp_cap policy)%Z ->
     resend_delay policy n = (rp_after policy * 2 ^ n)%Z)
  /\ (forall n, (0 <= n)%Z -> (rp_after policy <= resend_delay policy n <= rp_cap policy)%Z)
  /\ (forall n m, (0 <= n <= m)%Z -> (resend_delay policy n <= resend_delay policy m)%Z).
Proof.
  intros Hp. unfold resend_delay. split_and!.
  - intros n Hn Hle. rewrite (Z.min_l n 30) by lia. lia.
  - intros n Hn. split; [|lia].
    assert (1 <= 2 ^ Z.min n 30)%Z by (apply (Z.pow_le_mono_r 2 0); lia). nia.
  - intros n m Hnm. assert (2 ^ Z.min n 30 <= 2 ^ Z.min m 30)%Z by (apply Z.pow_le_mono_r; lia). nia.
Qed.

Lemma resend_delay_schedule_witness :
  resend_delay default_policy 3 = seconds 4800
  /\ (seconds 600 <= resend_delay default_policy 17 <= seconds 21600)%Z.
Proof.
  destruct (resend_delay_schedule default_policy) as (H1 & H2 & _); [by vm_compute|].
  split; [by rewrite H1; [| |vm_compute]|]. apply H2. lia.
Defined.

End RemovalAck.
