(* ===== verification/OutboxRelay.v ===== *)
(** The outbox pump (src/crates/threads-archive/src/outbox_relay.rs): publishes due rows
    oldest first, backs failed rows off, then publishes unacknowledged removals again.

    The broker ([Env.bus]) may store a message and acknowledge it, lose it, or store it
    and lose the acknowledgement. Metrics are not modelled. *)
From S2P Require Import Prelude Schema Store RemovalAck.

Module OutboxRelay.
Import Schema Store RemovalAck.
Local Open Scope string_scope.
Local Open Scope store_scope.

Definition OUTBOX_BATCH_SIZE : nat := 32.
Definition OPERATION_REPORT_SUBJECT : string := "evt.platform.operation.reported.v1".
Definition SOCIAL_CAPTURED_SUBJECT : string := "evt.social.source.captured.v1".
Definition SOCIAL_UPDATED_SUBJECT : string := "evt.social.source.updated.v1".
Definition SOCIAL_REMOVED_SUBJECT : string := "evt.social.source.removed.v1".

(** [NatsError], as far as the pump returns it. *)
Inductive NatsError :=
| Bus
| Unacknowledged
| UnexpectedOutboxEventType
| RelayPersistence (e : SqlError).

Record PublishFailure := mk_publish_failure { pf_class : string; pf_error : NatsError }.

Definition outbox_subject (event_type : string) : option string :=
  if bool_decide (event_type = "platform.operation.reported.v1") then Some OPERATION_REPORT_SUBJECT
  else if bool_decide (event_type = "social.source.captured.v1") then Some SOCIAL_CAPTURED_SUBJECT
  else if bool_decide (event_type = "social.source.updated.v1") then Some SOCIAL_UPDATED_SUBJECT
  else if bool_decide (event_type = REMOVAL_EVENT_TYPE) then Some SOCIAL_REMOVED_SUBJECT
  else None.

(** Unpublished and not backed off. *)
Definition publish_due (now : Time) (o : outbox_row) : bool :=
  negb (is_published o) && null_or_passed now (o_next_attempt_at o).

Definition occurred_leb (a b : Uuid * outbox_row) : bool :=
  (o_occurred_at a.2 <? o_occurred_at b.2)%Z
  || ((o_occurred_at a.2 =? o_occurred_at b.2)%Z && (a.1 <=? b.1)%N).

Definition due_rows (now : Time) (d : db) : list (Uuid * outbox_row) :=
  take OUTBOX_BATCH_SIZE (sort_by occurred_leb (select (outbox_events d) (fun _ o => publish_due now o))).

(** [least(power(2, attempt_count), 300)] seconds with the count before this failure;
    [power] overflows its [float8] from exponent 1024 on. *)
Definition failure_backoff (attempt_count : Z) : Z := seconds (Z.min (2 ^ attempt_count) 300).

Definition failed_row (class : string) (now : Time) (o : outbox_row) : outbox_row :=
  mk_outbox_row (o_event_type o) (o_aggregate_type o) (o_aggregate_id o) (o_payload o)
    (o_correlation_id o) (o_causation_id o) (o_occurred_at o) (o_published_at o)
    (o_attempt_count o + 1) (Some (now + failure_backoff (o_attempt_count o))%Z) (Some class)
    (o_acknowledged_at o) (o_ack_outcome o) (o_resend_count o) (o_next_resend_at o).

Section WithEnv.
Context {Henv : Env}.

Definition record_failure (event_id : Uuid) (class : string) : M SqlError () :=
  execute (fun now d =>
    match outbox_events d !! event_id with
    | Some o => if (1024 <=? o_attempt_count o)%Z then Err NumericOutOfRange
                else Ok (update_event event_id (fun _ => true) (failed_row class now) d)
    | None => Ok d
    end).

(** [EventTransport::publish] of the JetStream context: the broker stores the message and answers, or the
    request or the answer is lost. *)
Definition publish (subject : string) (event_id : Uuid) (payload : Payload) : M PublishFailure () :=
  fun w =>
    let stored := mkWorld (w_db w) (S (w_tick w)) (w_minted w) (w_txn w) (w_files w)
      (w_bus w ++ [(subject, event_id, payload)])%list in
    match bus (w_tick w) with
    | Delivered => (Ok (), stored)
    | LostRequest => (Err (mk_publish_failure "publish_failed" Bus), tick w)
    | LostAnswer => (Err (mk_publish_failure "ack_failed" Unacknowledged), stored)
    end.

(** [publish_row]; a stored JSON value always serializes. *)
Definition publish_row (subject : string) (event_id : Uuid) (payload : Payload) : M PublishFailure () :=
  publish subject event_id payload.

(** The loop over the due rows; the first failure is carried along. *)
Fixpoint publish_rows (rows : list (Uuid * outbox_row)) (policy : ResendPolicy)
  (first_failure : option NatsError) : M NatsError (option NatsError) :=
  match rows with
  | [] => ret first_failure
  | (event_id, o) :: rest =>
      let* subject := lift (ok_or (outbox_subject (o_event_type o)) UnexpectedOutboxEventType) in
      let* published := attempt (publish_row subject event_id (o_payload o)) in
      match published with
      | Ok _ =>
          mapErr RelayPersistence (mark_published event_id policy) ;;;
          publish_rows rest policy first_failure
      | Err failure =>
          mapErr RelayPersistence (record_failure event_id (pf_class failure)) ;;;
          publish_rows rest policy
            (match first_failure with Some e => Some e | None => Some (pf_error failure) end)
      end
  end.

Fixpoint resend_rows (due : list DueResend) (policy : ResendPolicy) : M NatsError (option NatsError) :=
  match due with
  | [] => ret None
  | row :: rest =>
      let* published := attempt (publish_row SOCIAL_REMOVED_SUBJECT (dr_event_id row) (dr_payload row)) in
      match published with
      | Ok _ =>
          mapErr RelayPersistence (record_resend (dr_event_id row) policy) ;;; resend_rows rest policy
      | Err failure =>
          mapErr RelayPersistence (record_failure (dr_event_id row) (pf_class failure)) ;;;
          ret (Some (pf_error failure))
      end
  end.

(** [resend_unacknowledged]. *)
Definition resend_unacknowledged (policy : ResendPolicy) : M NatsError (option NatsError) :=
  let* due := mapErr RelayPersistence (due_resends OUTBOX_BATCH_SIZE) in
  resend_rows due policy.

(** [flush_outbox]. *)
Definition flush_outbox (policy : ResendPolicy) : M NatsError () :=
  let* rows := mapErr RelayPersistence (read (fun now d => Ok (due_rows now d))) in
  let* first_failure := publish_rows rows policy None in
  let* first_failure := (match first_failure with
                         | None => resend_unacknowledged policy
                         | Some e => ret (Some e)
                         end) in
  mapErr RelayPersistence unacknowledged_removals ;;;
  match first_failure with
  | None => ret ()
  | Some e => throw e
  end.

(** * What the pump keeps *)

(** The part of a row the pump never changes. *)
Definition identity (o : outbox_row)
  : string * Payload * option Time * option string * (string * Uuid * option Uuid) :=
  (o_event_type o, o_payload o, o_acknowledged_at o, o_ack_outcome o,
   (o_aggregate_type o, o_aggregate_id o, o_causation_id o)).

(** A row says the same as before, and stays published once it is. *)
Definition row_le (o o' : outbox_row) : Prop :=
  identity o' = identity o /\ (is_published o = true -> is_published o' = true).

#[global] Instance row_le_preorder : PreOrder row_le.
Proof.
  split; [by intros o|]. intros o1 o2 o3 [H1 P1] [H2 P2]. split; [congruence|auto].
Qed.

(** No row appeared or vanished, and every row is the same event as before. *)
Definition outbox_le (d d' : db) : Prop :=
  forall id, option_Forall2 row_le (outbox_events d !! id) (outbox_events d' !! id).

#[global] Instance outbox_le_preorder : PreOrder outbox_le.
Proof.
  split; [intros d id; reflexivity|]. intros d1 d2 d3 H1 H2 id.
  etrans; [apply H1|apply H2].
Qed.

Lemma outbox_le_Some d d' id o : outbox_le d d' -> outbox_events d !! id = Some o ->
  exists o', outbox_events d' !! id = Some o' /\ row_le o o'.
Proof. intros H Ho. specialize (H id). rewrite Ho in H. inversion H; subst; eauto. Qed.

Lemma outbox_le_Some_inv d d' id o' : outbox_le d d' -> outbox_events d' !! id = Some o' ->
  exists o, outbox_events d !! id = Some o /\ row_le o o'.
Proof. intros H Ho. specialize (H id). rewrite Ho in H. inversion H; subst; eauto. Qed.

(** A message the pump may send: the stored bytes of an unpublished event or of an
    unacknowledged removal, under the subject of its type and its own identifier. *)
Definition sendable (d : db) (m : string * Uuid * Payload) : Prop :=
  exists o, outbox_events d !! m.1.2 = Some o
    /\ outbox_subject (o_event_type o) = Some m.1.1 /\ o_payload o = m.2
    /\ (is_published o = false \/ (is_removal o = true /\ is_acknowledged o = false)).

(** A published row is stored by the broker under its subject, and a published removal is armed
    for its next copy. *)
Record relay_inv (d : db) (stored : list (string * Uuid * Payload)) : Prop := {
  ri_stored : forall id o, outbox_events d !! id = Some o -> is_published o = true ->
    exists subject, outbox_subject (o_event_type o) = Some subject /\ (subject, id, o_payload o) ∈ stored;
  ri_armed : forall id o, outbox_events d !! id = Some o -> is_published o = true ->
    is_removal o = true -> is_Some (o_next_resend_at o);
}.

(** What the steps of a pass that began on the tables [d0] guarantee between two worlds. *)
Record relayed (d0 : db) (w w' : World) : Prop := {
  rl_rows : outbox_le (w_db w) (w_db w');
  rl_sent : exists sent, w_bus w' = (w_bus w ++ sent)%list /\ Forall (sendable d0) sent;
  rl_inv : relay_inv (w_db w) (w_bus w) -> relay_inv (w_db w') (w_bus w');
}.

Lemma identity_removal o o' : identity o' = identity o -> is_removal o' = is_removal o.
Proof. unfold identity, is_removal. intros [= -> _ _ _ _ _ _]. done. Qed.

Lemma identity_acknowledged o o' : identity o' = identity o -> is_acknowledged o' = is_acknowledged o.
Proof. unfold identity, is_acknowledged. intros [= _ _ -> _ _ _ _]. done. Qed.

Lemma sendable_before d d' m : outbox_le d d' -> sendable d' m -> sendable d m.
Proof.
  intros Hle (o' & Ho' & Hs & Hp & Hwhy).
  destruct (outbox_le_Some_inv _ _ _ _ Hle Ho') as (o & Ho & [Hid Hpub]).
  exists o. unfold identity in Hid. injection Hid as Ht Hpl Ha Hoc _ _ _.
  split_and!; [done|congruence|congruence|]. destruct Hwhy as [Hn|[Hr Hk]].
  - left. destruct (is_published o); [|done]. by rewrite Hpub in Hn.
  - right. unfold is_removal, is_acknowledged in *. by rewrite <- Ht, <- Ha.
Qed.

Lemma relayed_trans d0 w1 w2 w3 : relayed d0 w1 w2 -> relayed d0 w2 w3 -> relayed d0 w1 w3.
Proof.
  intros [S1 (t1 & B1 & F1) I1] [S2 (t2 & B2 & F2) I2]. split; [by etrans| |auto].
  exists (t1 ++ t2)%list. rewrite B2, B1, app_assoc. split; [done|]. by apply Forall_app.
Qed.

(** A pass that began later sends no more than one that began now. *)
Lemma relayed_before d0 d1 w w' : outbox_le d0 d1 -> relayed d1 w w' -> relayed d0 w w'.
Proof.
  intros Hle [S1 (t & B & F) I1]. split; [done| |done]. exists t. split; [done|].
  eapply Forall_impl; [exact F|]. intros m. by apply sendable_before.
Qed.

(** A world that differs in its clock only. *)
Lemma relayed_same d0 w w' : w_db w' = w_db w -> w_bus w' = w_bus w -> relayed d0 w w'.
Proof.
  intros Hd Hb. split; rewrite ?Hd, ?Hb; [reflexivity| |done]. exists []. by rewrite app_nil_r.
Qed.

Lemma relayed_bind {E A B} d0 (m : M E A) (k : A -> M E B) w :
  relayed d0 w (m w).2 -> (forall a w', m w = (Ok a, w') -> relayed d0 w w' -> relayed d0 w' (k a w').2) ->
  relayed d0 w (bind m k w).2.
Proof.
  intros Hm Hk. unfold bind. destruct (m w) as [[a|e] w1]; simpl in *; [|done].
  eapply relayed_trans; [exact Hm|by apply Hk].
Qed.

Lemma relayed_mapErr {E F A} d0 (f : E -> F) (m : M E A) w :
  relayed d0 w (m w).2 -> relayed d0 w (mapErr f m w).2.
Proof. unfold mapErr. by destruct (m w) as [[]]. Qed.

Lemma relayed_read {A} d0 (f : Time -> db -> Result SqlError A) w : relayed d0 w (read f w).2.
Proof. apply relayed_same; [apply read_same_db|apply read_bus]. Qed.

(** An update of one row that keeps its identity, and with it the invariant. *)
Lemma relayed_update d0 w w' id o o' :
  outbox_events (w_db w) !! id = Some o -> row_le o o' ->
  (is_published o' = true -> is_published o = true
     \/ exists subject, outbox_subject (o_event_type o) = Some subject
                        /\ (subject, id, o_payload o) ∈ w_bus w) ->
  (is_published o' = true -> is_removal o' = true ->
     (is_published o = true /\ o_next_resend_at o' = o_next_resend_at o) \/ is_Some (o_next_resend_at o')) ->
  w_db w' = set_outbox_events (<[id := o']> (outbox_events (w_db w))) (w_db w) ->
  w_bus w' = w_bus w -> relayed d0 w w'.
Proof.
  intros Ho Hle Hpub Harm Hd Hb. pose proof Hle as [Hid _].
  split; rewrite ?Hd, ?Hb; [|exists []; by rewrite app_nil_r|].
  - intros id'. simpl. destruct (decide (id' = id)) as [->|].
    + rewrite lookup_insert_eq, Ho. by constructor.
    + by rewrite lookup_insert_ne.
  - pose proof (identity_removal _ _ Hid) as Hrem. unfold identity in Hid. injection Hid as Ht Hpl _ _ _ _ _.
    intros [Hs Ha]. split; intros id' o1; simpl; intros [[<- <-]|[_ Hl]]%lookup_insert_Some; eauto.
    + intros Hp. rewrite Ht, Hpl. destruct (Hpub Hp) as [Hp'|]; [by eapply Hs|done].
    + intros Hp Hr. destruct (Harm Hp Hr) as [[Hp' ->]|]; [|done]. eapply Ha; [done|done|congruence].
Qed.

(** One statement on the tables: it did not run, or it ran; the broker is not involved. *)
Ltac relayed_statement Hd Hb :=
  match goal with |- context [execute ?f ?w] =>
    pose proof (execute_bus f w) as Hb;
    destruct (execute_cases f w) as [Hd|(d' & Hf & Hd)]; [by apply relayed_same|]
  end.

Lemma mark_published_relayed d0 id policy subject w o :
  outbox_events (w_db w) !! id = Some o -> outbox_subject (o_event_type o) = Some subject ->
  (subject, id, o_payload o) ∈ w_bus w -> relayed d0 w (mark_published id policy w).2.
Proof.
  intros Ho Hsub Hbus. unfold mark_published.
  relayed_statement Hd Hb.
  injection Hf as <-. unfold update_event in Hd. rewrite Ho in Hd.
  destruct (is_published o) eqn:Ep; simpl in Hd; [by apply relayed_same|].
  eapply relayed_update; [exact Ho| | | |exact Hd|exact Hb]; [done|by eauto|].
  intros _ Hr. right. unfold published_row. simpl. unfold is_removal in *. simpl in Hr. by rewrite Hr.
Qed.

Lemma record_failure_relayed d0 id class w : relayed d0 w (record_failure id class w).2.
Proof.
  unfold record_failure.
  relayed_statement Hd Hb.
  destruct (outbox_events (w_db w) !! id) as [o|] eqn:Ho; [|injection Hf as <-; by apply relayed_same].
  destruct (_ <=? _)%Z; [done|]. injection Hf as <-. unfold update_event in Hd. rewrite Ho in Hd.
  eapply relayed_update; [exact Ho| | | |exact Hd|exact Hb]; [done|by left|by left].
Qed.

Lemma record_resend_relayed d0 id policy w : relayed d0 w (record_resend id policy w).2.
Proof.
  unfold record_resend.
  relayed_statement Hd Hb.
  destruct (outbox_events (w_db w) !! id) as [o|] eqn:Ho; [|injection Hf as <-; by apply relayed_same].
  destruct (_ && _); [done|]. injection Hf as <-. unfold update_event in Hd. rewrite Ho in Hd.
  destruct (_ && _); [|by apply relayed_same].
  eapply relayed_update; [exact Ho| | | |exact Hd|exact Hb]; [done|by left|by right].
Qed.

Lemma publish_row_relayed d0 subject id payload w r w' :
  publish_row subject id payload w = (r, w') -> sendable d0 (subject, id, payload) ->
  relayed d0 w w' /\ w_db w' = w_db w /\ (r = Ok () -> (subject, id, payload) ∈ w_bus w').
Proof.
  unfold publish_row, publish. intros H Hsend.
  assert (forall sent, relay_inv (w_db w) (w_bus w) -> relay_inv (w_db w) (w_bus w ++ sent)) as Hmono.
  { intros sent [Hs Ha]. split; [|done]. intros id' o Ho Hp.
    destruct (Hs _ _ Ho Hp) as (s & ? & ?). exists s. split; [done|]. set_solver. }
  destruct (bus (w_tick w)); simplify_eq/=; (split; [|split; [done|]]); try done;
    try (by apply relayed_same); try set_solver.
  all: split; simpl; [done|eexists; split; [done|by constructor]|apply Hmono].
Qed.

Lemma publish_rows_relayed d0 rows policy : forall first_failure w,
  outbox_le d0 (w_db w) ->
  Forall (fun kv => outbox_events d0 !! kv.1 = Some kv.2 /\ is_published kv.2 = false) rows ->
  relayed d0 w (publish_rows rows policy first_failure w).2.
Proof.
  induction rows as [|[id o] rest IH]; intros ff w Hle Hrows; simpl; [by apply relayed_same|].
  apply Forall_cons in Hrows as [[Ho Hnew] Hrest]. simpl in Ho, Hnew.
  apply relayed_bind; [by apply relayed_same|]. intros subject w' Hlift _.
  unfold lift in Hlift. injection Hlift as Hsub <-. apply ok_or_Ok in Hsub.
  unfold bind at 1, attempt. destruct (publish_row subject id (o_payload o) w) as [r w1] eqn:Epub.
  assert (sendable d0 (subject, id, o_payload o)) as Hsend by (exists o; eauto).
  destruct (publish_row_relayed d0 _ _ _ _ _ _ Epub Hsend) as (H1 & Hd & Hstored).
  eapply relayed_trans; [exact H1|]. rewrite <- Hd in Hle.
  destruct (outbox_le_Some _ _ _ _ Hle Ho) as (o1 & Ho1 & [Hid _]).
  unfold identity in Hid. injection Hid as Ht Hpl _ _ _ _ _.
  destruct r as [[]|failure].
  - apply relayed_bind; [apply relayed_mapErr|].
    + apply (mark_published_relayed d0 id policy subject w1 o1); [done|by rewrite Ht|].
      rewrite Hpl. by apply Hstored.
    + intros [] w2 _ H2. apply IH; [|done]. etrans; [exact Hle|apply H2].
  - apply relayed_bind; [apply relayed_mapErr, record_failure_relayed|].
    intros [] w2 _ H2. apply IH; [|done]. etrans; [exact Hle|apply H2].
Qed.

Lemma resend_rows_relayed d0 due policy : forall w,
  Forall (fun r => sendable d0 (SOCIAL_REMOVED_SUBJECT, dr_event_id r, dr_payload r)) due ->
  relayed d0 w (resend_rows due policy w).2.
Proof.
  induction due as [|row rest IH]; intros w Hdue; simpl; [by apply relayed_same|].
  apply Forall_cons in Hdue as [Hsend Hrest]. unfold bind at 1, attempt.
  destruct (publish_row _ _ _ w) as [r w1] eqn:Epub.
  destruct (publish_row_relayed d0 _ _ _ _ _ _ Epub Hsend) as (H1 & Hd & _).
  eapply relayed_trans; [exact H1|]. destruct r as [[]|failure].
  - apply relayed_bind; [apply relayed_mapErr, record_resend_relayed|]. intros [] w2 _ _. by apply IH.
  - apply relayed_bind; [apply relayed_mapErr, record_failure_relayed|].
    intros [] w2 _ _. by apply relayed_same.
Qed.

Lemma elem_of_due_rows now d id o : (id, o) ∈ due_rows now d ->
  outbox_events d !! id = Some o /\ publish_due now o = true.
Proof.
  unfold due_rows. intros H%elem_of_take_in%elem_of_sort_by%elem_of_select. done.
Qed.

Lemma due_resends_sendable limit w due w' : due_resends limit w = (Ok due, w') ->
  Forall (fun r => sendable (w_db w) (SOCIAL_REMOVED_SUBJECT, dr_event_id r, dr_payload r)) due.
Proof.
  intros [Hf _]%read_Ok. injection Hf as <-. apply Forall_fmap, Forall_forall. intros [id o].
  intros [Ho Hdue]%elem_of_take_in%elem_of_sort_by%elem_of_select. exists o. simpl.
  unfold resend_due in Hdue. apply andb_true_iff in Hdue as [[[[Hr Hp]%andb_true_iff Ha]%andb_true_iff _]%andb_true_iff _].
  split_and!; [done| |done|right; split; [done|by destruct (is_acknowledged o)]].
  apply bool_decide_eq_true in Hr. by rewrite Hr.
Qed.

(** The end of a pass, after the loop over the fresh rows. *)
Lemma pass_end_relayed policy ff w :
  relayed (w_db w) w
    ((let* first_failure := (match ff with
                             | None => resend_unacknowledged policy
                             | Some e => ret (Some e)
                             end) in
      mapErr RelayPersistence unacknowledged_removals ;;;
      match first_failure with None => ret () | Some e => throw e end) w).2.
Proof.
  apply relayed_bind; [|intros ff' w3 _ _; apply relayed_bind;
    [apply relayed_mapErr, relayed_read|intros u w4 _ _; destruct ff'; by apply relayed_same]].
  destruct ff as [e|]; [by apply relayed_same|]. unfold resend_unacknowledged.
  apply relayed_bind; [apply relayed_mapErr, relayed_read|]. intros due w3 Hdue%mapErr_Ok _.
  apply resend_rows_relayed. by eapply due_resends_sendable.
Qed.

Lemma flush_outbox_relayed policy w : relayed (w_db w) w (flush_outbox policy w).2.
Proof.
  unfold flush_outbox. apply relayed_bind; [apply relayed_mapErr, relayed_read|].
  intros rows w1 [Hrows ->]%mapErr_Ok%read_Ok _. injection Hrows as <-.
  apply relayed_bind.
  { apply publish_rows_relayed; [reflexivity|]. apply Forall_forall. intros [id o] [Ho Hdue]%elem_of_due_rows.
    split; [done|]. simpl. unfold publish_due in Hdue. by destruct (is_published o). }
  intros ff w2 _ H2. apply (relayed_before _ (w_db w2)); [apply H2|apply pass_end_relayed].
Qed.

(** [C22] One pass of the pump, whatever the database and the broker do and however the pass ends:
    no outbox row appears, vanishes or changes its event type, body or acknowledgement, a published
    row stays published, everything newly on the broker is the stored body of a row that was
    unpublished or an unacknowledged removal, under the subject of its type and its own
    identifier; and if every published row was on the broker and every published removal armed for
    its next copy before the pass, so they are after it. *)
Theorem flush_outbox_safe policy w : let w' := (flush_outbox policy w).2 in
  outbox_le (w_db w) (w_db w')
  /\ (exists sent, w_bus w' = (w_bus w ++ sent)%list /\ Forall (sendable (w_db w)) sent)
  /\ (relay_inv (w_db w) (w_bus w) -> relay_inv (w_db w') (w_bus w')).
Proof. destruct (flush_outbox_relayed policy w) as [H1 H2 H3]. done. Qed.

End WithEnv.

(** * Progress of a pass over a healthy database *)

Section Progress.
Context {Henv : Env} {Hh : Healthy Henv}.

Definition delivered (d : db) (stored : list (string * Uuid * Payload)) (id : Uuid) (o : outbox_row) : Prop :=
  exists o' subject, outbox_events d !! id = Some o' /\ is_published o' = true
    /\ outbox_subject (o_event_type o) = Some subject /\ (subject, id, o_payload o) ∈ stored.

Definition backed_off (d : db) (id : Uuid) (o : outbox_row) : Prop :=
  exists class t, outbox_events d !! id = Some (failed_row class t o).

Definition publishable (d : db) (kv : Uuid * outbox_row) : Prop :=
  outbox_events d !! kv.1 = Some kv.2 /\ is_published kv.2 = false
  /\ is_Some (outbox_subject (o_event_type kv.2)) /\ (o_attempt_count kv.2 < 1024)%Z.

Lemma mark_published_run id policy o w : outbox_events (w_db w) !! id = Some o -> is_published o = false ->
  mark_published id policy w
  = (Ok (), tick (with_db (set_outbox_events
      (<[id := published_row policy (now_at w) o]> (outbox_events (w_db w))) (w_db w)) w)).
Proof using Hh.
  intros Ho Hn. unfold mark_published. apply execute_run. unfold update_event. by rewrite Ho, Hn.
Qed.

Lemma record_failure_run id class o w : outbox_events (w_db w) !! id = Some o ->
  (o_attempt_count o < 1024)%Z ->
  record_failure id class w
  = (Ok (), tick (with_db (set_outbox_events
      (<[id := failed_row class (now_at w) o]> (outbox_events (w_db w))) (w_db w)) w)).
Proof using Hh.
  intros Ho Hn. unfold record_failure. apply execute_run. unfold update_event. rewrite Ho.
  by replace (1024 <=? o_attempt_count o)%Z with false by lia.
Qed.

(** What the loop over [rows] leaves, given the failure it reports. *)
Record handled_rows (rows : list (Uuid * outbox_row)) (ff : option NatsError) (w w' : World) : Prop := {
  hr_others : forall id, id ∉ rows.*1 -> outbox_events (w_db w') !! id = outbox_events (w_db w) !! id;
  hr_bus : w_bus w ⊆ w_bus w';
  hr_rows : forall id o, (id, o) ∈ rows -> delivered (w_db w') (w_bus w') id o
    \/ (ff <> None /\ backed_off (w_db w') id o);
}.

Lemma handled_cons id o rest (ff : option NatsError) w o1 w1 w2 :
  outbox_events (w_db w) !! id = Some o -> id ∉ rest.*1 ->
  outbox_events (w_db w1) = <[id := o1]> (outbox_events (w_db w)) -> w_bus w ⊆ w_bus w1 ->
  handled_rows rest ff w1 w2 ->
  (delivered (w_db w1) (w_bus w1) id o \/ (ff <> None /\ backed_off (w_db w1) id o)) ->
  handled_rows ((id, o) :: rest) ff w w2.
Proof.
  intros Ho Hn He Hb [Hot Hbus Hr] Hhead. split.
  - intros id' Hid'. simpl in Hid'. rewrite Hot by set_solver. rewrite He, lookup_insert_ne; set_solver.
  - by etrans.
  - intros id' o' [[= -> ->]|Hin]%elem_of_cons; [|by apply Hr].
    unfold delivered, backed_off in *. rewrite (Hot id Hn).
    destruct Hhead as [(o2 & s & ? & ? & ? & ?)|]; [left|by right].
    exists o2, s. split_and!; [done..|]. set_solver.
Qed.

(** The tables and the broker after a publication attempt. *)
Lemma publish_row_cases subject id payload w r w1 : publish_row subject id payload w = (r, w1) ->
  w_db w1 = w_db w /\ w_bus w ⊆ w_bus w1 /\ (r = Ok () -> (subject, id, payload) ∈ w_bus w1).
Proof.
  unfold publish_row, publish. destruct (bus (w_tick w)); intros; simplify_eq/=; split_and!; set_solver.
Qed.

Lemma publishable_insert d d' id o1 rest : outbox_events d' = <[id := o1]> (outbox_events d) ->
  id ∉ rest.*1 -> Forall (publishable d) rest -> Forall (publishable d') rest.
Proof.
  intros He Hn. rewrite !Forall_forall. intros Hf [id' o'] Hin. destruct (Hf _ Hin) as (Hl & Hp).
  split; [|done]. simpl in *. rewrite He, lookup_insert_ne; [done|]. intros ->. apply Hn.
  apply list_elem_of_fmap. by exists (id', o').
Qed.

Lemma publish_rows_handled policy rows : forall ff w,
  NoDup rows.*1 -> Forall (publishable (w_db w)) rows ->
  exists ff' w', publish_rows rows policy ff w = (Ok ff', w') /\ handled_rows rows ff' w w'
    /\ (ff <> None -> ff' <> None).
Proof using Hh.
  induction rows as [|[id o] rest IH]; intros ff w Hnd Hrows.
  { exists ff, w. split; [done|]. split; [|done]. split; [done|done|]. by intros id o ?%not_elem_of_nil. }
  apply Forall_cons in Hrows as [(Ho & Hnew & (subject & Hsub) & Hac) Hrest]. simpl in *.
  apply NoDup_cons in Hnd as [Hn Hnd]. unfold bind at 1, lift. rewrite Hsub. simpl.
  unfold bind at 1, attempt. destruct (publish_row subject id (o_payload o) w) as [r w1] eqn:Epub.
  destruct (publish_row_cases _ _ _ _ _ _ Epub) as (Hd & Hb & Hst). rewrite <- Hd in Ho, Hrest.
  destruct r as [[]|failure]; unfold bind at 1, mapErr.
  - rewrite (mark_published_run _ _ _ _ Ho Hnew).
    destruct (IH ff (tick (with_db (set_outbox_events (<[id := published_row policy (now_at w1) o]>
      (outbox_events (w_db w1))) (w_db w1)) w1)) Hnd) as (ff' & w' & Hrun & Hhand & Hff).
    { eapply publishable_insert; done. }
    exists ff', w'. split; [done|]. split; [|done].
    eapply handled_cons; [by rewrite <- Hd|done| | |exact Hhand|]; simpl; [by rewrite Hd|exact Hb|].
    left. exists (published_row policy (now_at w1) o), subject. simpl. rewrite lookup_insert_eq. auto.
  - rewrite (record_failure_run _ (pf_class failure) _ _ Ho Hac).
    destruct (IH (match ff with Some e => Some e | None => Some (pf_error failure) end)
      (tick (with_db (set_outbox_events (<[id := failed_row (pf_class failure) (now_at w1) o]>
      (outbox_events (w_db w1))) (w_db w1)) w1)) Hnd) as (ff' & w' & Hrun & Hhand & Hff).
    { eapply publishable_insert; done. }
    exists ff', w'. split; [done|]. split; [|intros _; apply Hff; by destruct ff].
    eapply handled_cons; [by rewrite <- Hd|done| | |exact Hhand|]; simpl; [by rewrite Hd|exact Hb|].
    right. split; [apply Hff; by destruct ff|]. exists (pf_class failure), (now_at w1). simpl.
    by rewrite lookup_insert_eq.
Qed.

(** Rows the pump can record an attempt on. *)
Definition recordable (d : db) : Prop := forall id o, outbox_events d !! id = Some o ->
  is_Some (outbox_subject (o_event_type o)) /\ (o_attempt_count o < 1024)%Z.

Lemma due_rows_publishable now d : recordable d ->
  NoDup (due_rows now d).*1 /\ Forall (publishable d) (due_rows now d).
Proof.
  intros Hrec. split.
  - unfold due_rows. rewrite fmap_take.
    apply (sublist_NoDup _ (sort_by occurred_leb (select (outbox_events d) (fun _ o => publish_due now o))).*1);
      [|apply sublist_take]. rewrite sort_by_perm. apply NoDup_select.
  - apply Forall_forall. intros [id o] [Ho Hdue]%elem_of_due_rows. destruct (Hrec _ _ Ho) as [Hs Hc].
    split_and!; try done. simpl. unfold publish_due in Hdue. by destruct (is_published o).
Qed.

Lemma flush_outbox_eq policy w ff w1 :
  publish_rows (due_rows (now_at w) (w_db w)) policy None (tick w) = (Ok ff, w1) ->
  flush_outbox policy w
  = (let* first_failure := (match ff with
                            | None => resend_unacknowledged policy
                            | Some e => ret (Some e)
                            end) in
     mapErr RelayPersistence unacknowledged_removals ;;;
     match first_failure with None => ret () | Some e => throw e end) w1.
Proof using Hh.
  intros Hrun. unfold flush_outbox. unfold bind at 1, mapErr at 1. rewrite read_healthy.
  unfold bind at 1. by rewrite Hrun.
Qed.

(** [C23] Over a healthy database whose events all have a known subject and fewer than 1024 failed
    attempts, and whatever the broker does, a pass deals with every row of
    its batch (at most 32 due rows, the oldest): afterwards the row is published and its body stored
    by the broker under its subject, or its failed attempt is counted, named and backed off.
    A refused row therefore never keeps the pass from the rows behind it. Beyond 1024 attempts it may
    ([overflowing_backoff_starves]). *)
Theorem flush_outbox_reaches_every_due_row policy w id o : recordable (w_db w) ->
  (id, o) ∈ due_rows (now_at w) (w_db w) -> let w' := (flush_outbox policy w).2 in
  delivered (w_db w') (w_bus w') id o \/ backed_off (w_db w') id o.
Proof using Hh.
  intros Hrec Hin. cbv zeta.
  destruct (due_rows_publishable (now_at w) (w_db w) Hrec) as [Hnd Hpub].
  destruct (publish_rows_handled policy (due_rows (now_at w) (w_db w)) None (tick w) Hnd Hpub)
    as (ff & w1 & Hrun & Hhand & _).
  rewrite (flush_outbox_eq _ _ _ _ Hrun). destruct (hr_rows _ _ _ _ Hhand id o Hin) as [Hdel|[Hff Hback]].
  - left. destruct (pass_end_relayed policy ff w1) as [Hle (sent & Hb & _) _].
    destruct Hdel as (o1 & s & Ho1 & Hp & Hs & Hst).
    destruct (outbox_le_Some _ _ _ _ Hle Ho1) as (o2 & Ho2 & [_ Hp2]).
    exists o2, s. rewrite Hb. split_and!; auto. set_solver.
  - right. destruct ff as [e|]; [|done]. unfold bind, ret, mapErr, unacknowledged_removals. by rewrite read_healthy.
Qed.

(** A row whose publication is refused for the 1025th time cannot be backed off: the
    statement that counts the failure raises 2 to the number of earlier attempts in double
    precision, which overflows, so the pass ends there with a database error. The row stays the
    first due row and no row behind it is attempted, although the pump promises that a failing row
    cannot starve the rows behind it. *)
Theorem overflowing_backoff_starves policy w id o rest :
  due_rows (now_at w) (w_db w) = (id, o) :: rest -> is_Some (outbox_subject (o_event_type o)) ->
  (1024 <= o_attempt_count o)%Z -> bus (S (w_tick w)) = LostRequest ->
  exists w', flush_outbox policy w = (Err (RelayPersistence NumericOutOfRange), w')
    /\ w_db w' = w_db w /\ w_bus w' = w_bus w.
Proof using Hh.
  intros Hdue [subject Hsub] Hac Hbus.
  assert (outbox_events (w_db w) !! id = Some o) as Ho.
  { apply (elem_of_due_rows (now_at w)). rewrite Hdue. by left. }
  unfold flush_outbox. unfold bind at 1, mapErr at 1. rewrite read_healthy, Hdue.
  unfold bind at 1. simpl publish_rows. unfold bind at 1, lift. rewrite Hsub. simpl.
  unfold bind at 1, attempt, publish_row, publish. simpl. rewrite Hbus. unfold bind at 1, mapErr at 1.
  unfold record_failure. rewrite execute_healthy. simpl. rewrite Ho.
  replace (1024 <=? o_attempt_count o)%Z with true by lia. eexists. split; [done|]. done.
Qed.

End Progress.

(** * The delays *)

(** The backoff of a row whose publication failed: one second after the first failure,
    doubled by each further one up to 256 seconds, five minutes from the tenth failure on; the
    backed-off row is due again exactly when the delay has passed. *)
Theorem failure_backoff_schedule :
  (forall n, (0 <= n <= 8)%Z -> failure_backoff n = seconds (2 ^ n))
  /\ (forall n, (9 <= n)%Z -> failure_backoff n = seconds 300)
  /\ (forall class t now o, is_published o = false ->
        publish_due now (failed_row class t o) = true
        <-> (t + failure_backoff (o_attempt_count o) <= now)%Z).
Proof.
  assert (forall n, (9 <= n)%Z -> (512 <= 2 ^ n)%Z) as Hbig.
  { intros n Hn. replace 512%Z with (2 ^ 9)%Z by done. by apply Z.pow_le_mono_r. }
  split_and!.
  - intros n Hn. unfold failure_backoff. f_equal. apply Z.min_l.
    etrans; [apply (Z.pow_le_mono_r 2 n 8); lia|]. done.
  - intros n Hn. unfold failure_backoff. f_equal. apply Z.min_r. specialize (Hbig n Hn). lia.
  - intros class t now o Hn. unfold publish_due, is_published, null_or_passed in *. simpl. rewrite Hn.
    simpl. apply Z.leb_le.
Qed.

(** * Witnesses *)

Definition sample_event (event_type : string) (at_ attempts : Z) : outbox_row :=
  mk_outbox_row event_type "post" 1%N
    (mk_payload 1%N event_type "1" "" "tenant-1" (RemovedBody 1%N 2%N)) None None at_ None
    attempts None None None None 0 None.

Definition sample_outbox (attempts : Z) : World := sample_world (set_outbox_events
  {[1%N := sample_event REMOVAL_EVENT_TYPE 5 attempts;
    2%N := sample_event "social.source.updated.v1" 6 0]} empty_db).

(** The broker loses the first publication of the pass and stores the second. *)
Definition refusing_env : Env := {|
  fault := @fault sample_env; io := @io sample_env;
  bus := fun n => if (n =? 1)%nat then LostRequest else Delivered;
  clock := @clock sample_env; mint := @mint sample_env; show_uuid := @show_uuid sample_env;
  new_v5 := @new_v5 sample_env; sha256 := @sha256 sample_env;
|}.

#[global] Instance refusing_env_healthy : Healthy refusing_env.
Proof. by intros n. Qed.

Lemma flush_outbox_reaches_every_due_row_witness :
  let w' := (@flush_outbox refusing_env default_policy (sample_outbox 0)).2 in
  backed_off (w_db w') 1%N (sample_event REMOVAL_EVENT_TYPE 5 0)
  /\ delivered (w_db w') (w_bus w') 2%N (sample_event "social.source.updated.v1" 6 0).
Proof.
  assert (recordable (w_db (sample_outbox 0))) as Hrec.
  { intros id o Ho. simpl in Ho. apply lookup_insert_Some in Ho as [[_ <-]|[_ Ho]].
    - split; [by exists SOCIAL_REMOVED_SUBJECT|done].
    - apply lookup_singleton_Some in Ho as [_ <-]. split; [by exists SOCIAL_UPDATED_SUBJECT|done]. }
  split.
  - destruct (@flush_outbox_reaches_every_due_row refusing_env _ default_policy (sample_outbox 0) 1%N
      (sample_event REMOVAL_EVENT_TYPE 5 0) Hrec) as [(o' & _ & Ho' & Hp & _)|H]; [by left| |done].
    vm_compute in Ho'. injection Ho' as <-. by vm_compute in Hp.
  - destruct (@flush_outbox_reaches_every_due_row refusing_env _ default_policy (sample_outbox 0) 2%N
      (sample_event "social.source.updated.v1" 6 0) Hrec) as [H|(class & t & H)]; [by right; left|done|].
    by vm_compute in H.
Defined.

Lemma overflowing_backoff_starves_witness :
  exists w', @flush_outbox refusing_env default_policy (sample_outbox 1024)
    = (Err (RelayPersistence NumericOutOfRange), w')
    /\ w_db w' = w_db (sample_outbox 1024) /\ w_bus w' = [].
Proof.
  eapply (@overflowing_backoff_starves refusing_env _ default_policy (sample_outbox 1024));
    [by vm_compute|by exists SOCIAL_REMOVED_SUBJECT|done|done].
Defined.

End OutboxRelay.
