(* ===== verification/DeletionAcks.v ===== *)
(** Consumption of Knowledge's deletion acknowledgements
    (src/crates/threads-archive/src/deletion_acks.rs): decoding, the effect of one
    message, and how the broker message is settled.

    The envelope decoder of the contract crates is a parameter ([AckCodec]); the message stream is
    a list of the results its [next()] gives. Opening and verifying the durable is not modelled. *)
From S2P Require Import Prelude Schema Store RemovalAck OutboxRelay.

Module DeletionAcks.
Import Schema Store RemovalAck OutboxRelay.
Local Open Scope string_scope.
Local Open Scope store_scope.

Definition KNOWLEDGE : string := "ratatoskr-knowledge".
Definition NAK_DELAY : Z := seconds 2.

(** [KnowledgeDeletionAcknowledged]; [ak_outcome] is [None] for an outcome this version
    does not know. *)
Record KnowledgeDeletionAcknowledged := mk_acknowledgement {
  ak_family : string;
  ak_outcome : option AckOutcome;
  ak_acknowledged_event_id : Uuid;
  ak_owner : string;
}.

Record EventEnvelope := mk_event_envelope {
  ee_producer : string;
  ee_tenant_id : option string;
  ee_payload : option KnowledgeDeletionAcknowledged;
}.

Class AckCodec := {
  (* [EventEnvelope::from_json] with the typed payload, [None] when it does not decode *)
  envelope_from_json : string -> option EventEnvelope;
}.

Inductive Handled := Applied | Refused | Ignored.

Inductive Rejected := Unattributable | Database.

(** How the message is settled with the broker. *)
Inductive AckKind := Ack | Term | Nak (delay : Z).

Section WithEnv.
Context {Henv : Env} {Hcodec : AckCodec}.

Definition decode (payload : string) : option KnowledgeDeletionAcknowledged :=
  match envelope_from_json payload with
  | None => None
  | Some envelope =>
      if negb (bool_decide (ee_producer envelope = KNOWLEDGE)) then None else
      match ee_payload envelope with
      | None => None
      | Some acknowledgement =>
          if bool_decide (ee_tenant_id envelope = Some (ak_owner acknowledgement))
          then Some acknowledgement else None
      end
  end.

Definition apply (payload : string) : M Rejected Handled :=
  let* acknowledgement := lift (ok_or (decode payload) Unattributable) in
  if negb (bool_decide (ak_family acknowledgement = "social")) then ret Ignored else
  let* outcome := lift (ok_or (ak_outcome acknowledgement) Unattributable) in
  let* changed := mapErr (fun _ => Database) (acknowledge (ak_acknowledged_event_id acknowledgement)
    (ak_owner acknowledgement) outcome) in
  ret (match changed, outcome with
       | false, _ => Ignored
       | true, AckApplied => Applied
       | true, AckRefused => Refused
       end).

(** How [consume_deletion_acks] settles one delivered message. *)
Definition settle (payload : string) (w : World) : AckKind * World :=
  match apply payload w with
  | (Ok _, w') => (Ack, w')
  | (Err Unattributable, w') => (Term, w')
  | (Err Database, w') => (Nak NAK_DELAY, w')
  end.

Record AcksSummary := mk_summary {
  as_applied : Z; as_refused : Z; as_ignored : Z; as_terminated : Z; as_retried : Z;
}.

Definition default_summary : AcksSummary := mk_summary 0 0 0 0 0.

Inductive AcksError := AcksBus | AcksStopped.

(** What the loop's [select!] sees next: the shutdown request, the end of the stream, a message, an
    error that ends the session, or a recoverable error, during whose pause a shutdown may come. *)
Inductive Next :=
| StopRequested
| StreamEnded
| Message (payload : string)
| FatalError
| RecoverableError (stop_in_pause : bool).

Definition count_message (r : Result Rejected Handled) (s : AcksSummary) : AcksSummary :=
  let '(mk_summary a f i t n) := s in
  match r with
  | Ok Applied => mk_summary (a + 1) f i t n
  | Ok Refused => mk_summary a (f + 1) i t n
  | Ok Ignored => mk_summary a f (i + 1) t n
  | Err Unattributable => mk_summary a f i (t + 1) n
  | Err Database => mk_summary a f i t (n + 1)
  end.

(** The loop; [None] when it still waits after [events]. *)
Fixpoint consume_deletion_acks (events : list Next) (summary : AcksSummary) (w : World)
  : option (Result AcksError AcksSummary) * list AckKind * World :=
  match events with
  | [] => (None, [], w)
  | StopRequested :: _ => (Some (Ok summary), [], w)
  | StreamEnded :: _ => (Some (Err AcksStopped), [], w)
  | FatalError :: _ => (Some (Err AcksBus), [], w)
  | RecoverableError true :: _ => (Some (Ok summary), [], w)
  | RecoverableError false :: rest => consume_deletion_acks rest summary w
  | Message payload :: rest =>
      let summary' := count_message (apply payload w).1 summary in
      let '(kind, w1) := settle payload w in
      let '(result, kinds, w2) := consume_deletion_acks rest summary' w1 in
      (result, kind :: kinds, w2)
  end.

(** A durable as the broker describes it. *)
Inductive AckPolicy := AckNone | AckAll | AckExplicit.

#[global] Instance AckPolicy_eq_dec : EqDecision AckPolicy.
Proof. solve_decision. Defined.

Record ConsumerConfig := mk_consumer_config {
  cc_durable_name : option string;
  cc_filter_subject : string;
  cc_ack_policy : AckPolicy;
  cc_ack_wait : Z;
  cc_deliver_subject : option string;
}.

Definition DURABLE : string := "ratatoskr_threads_deletion_acks".
Definition FILTER_SUBJECT : string := "evt.knowledge.deletion.acknowledged.v1".
Definition ACK_WAIT : Z := seconds 30.

(** [acks_consumer], given the broker's answer to the lookup. *)
Definition acks_consumer (lookup : option ConsumerConfig) : Result AcksError ConsumerConfig :=
  match lookup with
  | None => Err AcksBus
  | Some config =>
      if negb (bool_decide (cc_durable_name config = Some DURABLE))
         || negb (bool_decide (cc_filter_subject config = FILTER_SUBJECT))
         || negb (bool_decide (cc_ack_policy config = AckExplicit))
         || negb (cc_ack_wait config =? ACK_WAIT)%Z
         || bool_decide (is_Some (cc_deliver_subject config))
      then Err AcksBus
      else Ok config
  end.

(** A session: the durable is opened and verified, then the loop runs. *)
Definition run_deletion_acks (lookup : option ConsumerConfig) (messages_ok : bool) (events : list Next)
    (w : World) : option (Result AcksError AcksSummary) * list AckKind * World :=
  match acks_consumer lookup with
  | Err e => (Some (Err e), [], w)
  | Ok _ => if messages_ok then consume_deletion_acks events default_summary w
            else (Some (Err AcksBus), [], w)
  end.

(** * What a message does *)

(** The removal a message acknowledges in the tables [d]. *)
Definition answers (d : db) (payload : string) (id : Uuid) (o : outbox_row) (outcome : AckOutcome) : Prop :=
  exists ack, decode payload = Some ack /\ ak_family ack = "social" /\ ak_outcome ack = Some outcome
    /\ ak_acknowledged_event_id ack = id /\ outbox_events d !! id = Some o /\ is_removal o = true
    /\ is_acknowledged o = false /\ pl_tenant_id (o_payload o) = ak_owner ack.

Definition acknowledges (tenant : string) (o : outbox_row) : bool :=
  is_removal o && bool_decide (pl_tenant_id (o_payload o) = tenant) && negb (is_acknowledged o).

Lemma acknowledges_true tenant o : acknowledges tenant o = true <->
  is_removal o = true /\ is_acknowledged o = false /\ pl_tenant_id (o_payload o) = tenant.
Proof.
  unfold acknowledges. rewrite !andb_true_iff, bool_decide_eq_true, negb_true_iff. tauto.
Qed.

Lemma acknowledge_cases id tenant outcome w :
  w_db (acknowledge id tenant outcome w).2 = w_db w
  \/ exists o, outbox_events (w_db w) !! id = Some o /\ acknowledges tenant o = true
       /\ w_db (acknowledge id tenant outcome w).2
          = set_outbox_events (<[id := acknowledged_row outcome (now_at w) o]> (outbox_events (w_db w))) (w_db w).
Proof.
  unfold acknowledge.
  match goal with |- context [query ?f w] => destruct (query_cases f w) as [Hd|(a & d' & Hf & Hd)] end;
    [by left|]. injection Hf as _ <-. unfold update_event in Hd.
  destruct (outbox_events (w_db w) !! id) as [o|]; [|by left].
  fold (acknowledges tenant o) in Hd. destruct (acknowledges tenant o) eqn:E; [|by left].
  right. exists o. done.
Qed.

Lemma acknowledge_bus id tenant outcome w : w_bus (acknowledge id tenant outcome w).2 = w_bus w.
Proof. apply query_bus. Qed.

(** The message is attributable and its family and outcome are known, or it needs no outcome. *)
Definition attributable (payload : string) : bool :=
  match decode payload with
  | None => false
  | Some ack => negb (bool_decide (ak_family ack = "social")) || bool_decide (is_Some (ak_outcome ack))
  end.

Lemma apply_cases payload w r w' : apply payload w = (r, w') ->
  w_bus w' = w_bus w
  /\ (w_db w' = w_db w
      \/ exists id o outcome t, answers (w_db w) payload id o outcome
           /\ w_db w' = set_outbox_events (<[id := acknowledged_row outcome t o]> (outbox_events (w_db w))) (w_db w))
  /\ (r = Err Unattributable <-> attributable payload = false)
  /\ (attributable payload = false -> w' = w).
Proof.
  unfold apply, attributable. unfold bind at 1, lift. destruct (decode payload) as [ack|] eqn:Edec; simpl.
  2: { intros [= <- <-]. split_and!; [done|by left|done|done]. }
  case_bool_decide as Hfam; simpl.
  2: { intros [= <- <-]. split_and!; [done|by left|split; discriminate|done]. }
  unfold bind at 1. destruct (ak_outcome ack) as [outcome|] eqn:Eout; simpl.
  2: { intros [= <- <-]. split_and!; [done|by left|done|done]. }
  unfold bind, mapErr, ret.
  pose proof (acknowledge_bus (ak_acknowledged_event_id ack) (ak_owner ack) outcome w) as Hb.
  pose proof (acknowledge_cases (ak_acknowledged_event_id ack) (ak_owner ack) outcome w) as Hc.
  destruct (acknowledge _ _ _ w) as [[changed|e] w1]; simpl in *; intros [= <- <-];
    (split_and!; [done| |by destruct changed, outcome || done|done]).
  all: destruct Hc as [->|(o & Ho & (Hr & Ha & Ht)%acknowledges_true & Hd)]; [by left|right].
  all: exists (ak_acknowledged_event_id ack), o, outcome, (now_at w); split; [|done].
  all: exists ack; split_and!; done.
Qed.

Lemma settle_cases payload w : let '(kind, w') := settle payload w in
  w_bus w' = w_bus w
  /\ (w_db w' = w_db w
      \/ exists id o outcome t, answers (w_db w) payload id o outcome
           /\ w_db w' = set_outbox_events (<[id := acknowledged_row outcome t o]> (outbox_events (w_db w))) (w_db w))
  /\ (kind = Term <-> attributable payload = false)
  /\ (attributable payload = false -> w' = w).
Proof.
  unfold settle. destruct (apply payload w) as [r w'] eqn:E.
  destruct (apply_cases _ _ _ _ E) as (Hb & Hd & Ht & Hw).
  destruct r as [h|[|]]; (split_and!; [done|done| |done]);
    (split; [discriminate||intros _; by apply Ht|intros ?%Ht; done]).
Qed.

(** What one message of Knowledge's acknowledgement stream does, whatever the database
    does: nothing, or it acknowledges exactly the one removal it answers (an unacknowledged
    removal fact of this service, stored for the tenant the message names) with the outcome it
    carries. It is terminated exactly when it is not attributable to Knowledge or names no known
    outcome, and then the tables are untouched; the broker receives nothing. *)
Theorem settle_exact payload w : let '(kind, w') := settle payload w in
  w_bus w' = w_bus w
  /\ (w_db w' = w_db w
      \/ exists id o outcome t, answers (w_db w) payload id o outcome
           /\ w_db w' = set_outbox_events (<[id := acknowledged_row outcome t o]> (outbox_events (w_db w))) (w_db w))
  /\ (kind = Term <-> attributable payload = false)
  /\ (attributable payload = false -> w' = w).
Proof. apply settle_cases. Qed.

(** An acknowledged message answers nothing any more. *)
Lemma acked_answers_nothing payload w w1 id o outcome : settle payload w = (Ack, w1) ->
  answers (w_db w1) payload id o outcome -> False.
Proof.
  unfold settle. destruct (apply payload w) as [[h|[]] w'] eqn:E; intros [= <-].
  intros (ack & Hdec & Hfam & Hout & <- & Ho & Hans). revert E. unfold apply.
  unfold bind at 1, lift. rewrite Hdec. simpl. rewrite bool_decide_eq_true_2 by done. simpl.
  unfold bind at 1. rewrite Hout. simpl. intros (changed & w2 & (d & Hf & ->)%mapErr_Ok%query_Ok & [= _ <-])%bind_Ok.
  injection Hf as _ <-. simpl in Ho. unfold update_event in Ho.
  destruct Hans as (Hr & Ha & Ht).
  destruct (outbox_events (w_db w) !! ak_acknowledged_event_id ack) as [o0|] eqn:Ho0; [|congruence].
  fold (acknowledges (ak_owner ack) o0) in Ho. destruct (acknowledges (ak_owner ack) o0) eqn:Eack.
  - simpl in Ho. rewrite lookup_insert_eq in Ho. injection Ho as <-. by vm_compute in Ha.
  - rewrite Ho0 in Ho. injection Ho as ->.
    rewrite (proj2 (acknowledges_true (ak_owner ack) o)) in Eack; done.
Qed.

(** A message that was acknowledged or terminated may be delivered again, because the
    settlement itself can be lost: the second delivery changes nothing. *)
Theorem redelivered_answer_ignored payload w kind w1 w2 : settle payload w = (kind, w1) ->
  kind = Ack \/ kind = Term -> w_db w2 = w_db w1 -> w_db (settle payload w2).2 = w_db w1.
Proof.
  intros Hs Hk Hw2. pose proof (settle_cases payload w2) as H2. pose proof (settle_cases payload w) as H1.
  rewrite Hs in H1. destruct (settle payload w2) as [kind2 w3]. simpl.
  destruct H1 as (_ & _ & Hterm & _). destruct H2 as (_ & Hd & _ & Hsame). rewrite <- Hw2.
  destruct Hk as [-> | ->]; [|by rewrite Hsame by (by apply Hterm)].
  destruct Hd as [|(id & o & outcome & t & Hans & _)]; [done|exfalso].
  rewrite Hw2 in Hans. by eapply acked_answers_nothing.
Qed.

Definition summary_total (s : AcksSummary) : Z :=
  as_applied s + as_refused s + as_ignored s + as_terminated s + as_retried s.

Definition count_kind (p : AckKind -> bool) (kinds : list AckKind) : Z := Z.of_nat (length (List.filter p kinds)).
Definition is_term (k : AckKind) : bool := match k with Term => true | _ => false end.
Definition is_nak (k : AckKind) : bool := match k with Nak _ => true | _ => false end.

(** One message is counted once, under the way it is settled. *)
Lemma count_message_settle payload w s : let '(kind, w1) := settle payload w in
  let s' := count_message (apply payload w).1 s in
  summary_total s' = (summary_total s + 1)%Z
  /\ as_terminated s' = (as_terminated s + if is_term kind then 1 else 0)%Z
  /\ as_retried s' = (as_retried s + if is_nak kind then 1 else 0)%Z.
Proof.
  unfold settle. destruct (apply payload w) as [[[]|[]] w1]; destruct s as [a f i t n];
    unfold summary_total; simpl; lia.
Qed.

(** The summary a session of the consumer returns accounts for every message it settled:
    each is counted exactly once, the terminated ones and the ones left for redelivery under
    their own totals. *)
Theorem acks_summary_accounts events : forall summary w s kinds w',
  consume_deletion_acks events summary w = (Some (Ok s), kinds, w') ->
  summary_total s = (summary_total summary + Z.of_nat (length kinds))%Z
  /\ as_terminated s = (as_terminated summary + count_kind is_term kinds)%Z
  /\ as_retried s = (as_retried summary + count_kind is_nak kinds)%Z.
Proof.
  assert (forall p k ks, count_kind p (k :: ks) = ((if p k then 1 else 0) + count_kind p ks)%Z) as Hcons.
  { intros p k ks. unfold count_kind. simpl. destruct (p k); simpl; lia. }
  assert (forall p, count_kind p [] = 0%Z) as Hnil by done.
  induction events as [|[| |payload| |[|]] rest IH]; intros summary w s kinds w'; simpl; try done;
    try (intros; simplify_eq; rewrite !Hnil; simpl; lia); [|by apply IH].
  pose proof (count_message_settle payload w summary) as Hm. destruct (settle payload w) as [kind w1].
  destruct (consume_deletion_acks rest _ w1) as [[result kinds'] w2] eqn:E. intros; simplify_eq.
  apply IH in E as (E1 & E2 & E3). destruct Hm as (H1 & H2 & H3). rewrite !Hcons. simpl length.
  rewrite E1, E2, E3, H1, H2, H3. split_and!; lia.
Qed.

(** * The life of a removal *)

(** What the other writers of the outbox do: they add unpublished rows and may delete facts, but
    never a removal. *)
Record other_writer (w w' : World) : Prop := {
  ow_removals : forall id o, outbox_events (w_db w) !! id = Some o -> is_removal o = true ->
    outbox_events (w_db w') !! id = Some o;
  ow_new : forall id o, outbox_events (w_db w') !! id = Some o ->
    outbox_events (w_db w) !! id = Some o \/ is_published o = false;
  ow_bus : w_bus w' = w_bus w;
}.

(** Passes of the pump, messages of Knowledge and other writers, in any order and with any faults;
    the index is the list of messages handled. *)
Inductive history : list string -> World -> World -> Prop :=
| history_start w : history [] w w
| history_pump msgs w w1 policy : history msgs w w1 -> history msgs w (flush_outbox policy w1).2
| history_answer msgs w w1 payload : history msgs w w1 -> history (payload :: msgs) w (settle payload w1).2
| history_other msgs w w1 w2 : history msgs w w1 -> other_writer w1 w2 -> history msgs w w2.

(** What holds of one removal at the end of a history that began with the row [o]. *)
Definition removal_kept (msgs : list string) (id : Uuid) (o : outbox_row) (w : World) : Prop :=
  exists o', outbox_events (w_db w) !! id = Some o' /\ o_payload o' = o_payload o /\ is_removal o' = true
    /\ (is_acknowledged o' = false
        \/ exists payload ack, payload ∈ msgs /\ decode payload = Some ack
             /\ ak_acknowledged_event_id ack = id /\ ak_owner ack = pl_tenant_id (o_payload o)).

Lemma settle_relay_inv payload w : relay_inv (w_db w) (w_bus w) ->
  relay_inv (w_db (settle payload w).2) (w_bus (settle payload w).2).
Proof.
  pose proof (settle_cases payload w) as H. destruct (settle payload w) as [kind w'].
  destruct H as (Hb & Hd & _). simpl. rewrite Hb.
  destruct Hd as [->|(id & o & outcome & t & (ack & _ & _ & _ & <- & Ho & _) & ->)]; [done|].
  intros [Hs Ha]. split; simpl; intros id' o' [[<- <-]|[_ Hl]]%lookup_insert_Some; simpl.
  - intros Hp. by eapply Hs.
  - by eapply Hs.
  - intros Hp Hr. by eapply Ha.
  - by eapply Ha.
Qed.

Lemma other_relay_inv w w' : other_writer w w' ->
  relay_inv (w_db w) (w_bus w) -> relay_inv (w_db w') (w_bus w').
Proof.
  intros [_ Hn Hb] [Hs Ha]. rewrite Hb.
  split; intros id o Ho Hp; (destruct (Hn _ _ Ho) as [Hl|Hu]; [|by rewrite Hu in Hp]); [by apply Hs|by eapply Ha].
Qed.

Lemma settle_removal_kept msgs id o w payload : removal_kept msgs id o w ->
  removal_kept (payload :: msgs) id o (settle payload w).2.
Proof.
  intros (o1 & Ho1 & Hpl & Hr & Hk). pose proof (settle_cases payload w) as H.
  destruct (settle payload w) as [kind w']. destruct H as (_ & Hd & _). simpl.
  assert (is_acknowledged o1 = false \/ exists payload0 ack, payload0 ∈ payload :: msgs
    /\ decode payload0 = Some ack /\ ak_acknowledged_event_id ack = id
    /\ ak_owner ack = pl_tenant_id (o_payload o)) as Hk'.
  { destruct Hk as [|(q & ack & Hin & Hq)]; [by left|right]. exists q, ack. split; [by right|done]. }
  destruct Hd as [Hd|(id' & o' & outcome & t & Hans & Hd)]; unfold removal_kept; rewrite Hd.
  - exists o1. done.
  - simpl. destruct Hans as (ack & Hdec & _ & _ & Hid & Ho' & _ & _ & Ht).
    destruct (decide (id' = id)) as [->|Hne].
    + rewrite lookup_insert_eq. rewrite Ho1 in Ho'. injection Ho' as <-.
      eexists. split; [done|]. split; [done|]. split; [done|]. right. exists payload, ack.
      split_and!; [by left|done|done|congruence].
    + rewrite lookup_insert_ne by done. exists o1. done.
Qed.

Lemma pump_removal_kept msgs id o w policy : removal_kept msgs id o w ->
  removal_kept msgs id o (flush_outbox policy w).2.
Proof.
  intros (o1 & Ho1 & Hpl & Hr & Hk). destruct (flush_outbox_relayed policy w) as [Hle _ _].
  destruct (outbox_le_Some _ _ _ _ Hle Ho1) as (o2 & Ho2 & [Hid _]). exists o2.
  rewrite (identity_removal _ _ Hid), (identity_acknowledged _ _ Hid).
  unfold identity in Hid. injection Hid as _ Hp _ _ _ _ _. rewrite Hp. done.
Qed.

Lemma history_keeps msgs w w' id o : history msgs w w' ->
  relay_inv (w_db w) (w_bus w) -> outbox_events (w_db w) !! id = Some o -> is_removal o = true ->
  is_acknowledged o = false -> relay_inv (w_db w') (w_bus w') /\ removal_kept msgs id o w'.
Proof.
  intros Hh Hi Ho Hr Ha. induction Hh as [w|msgs w w1 policy _ IH|msgs w w1 payload _ IH|msgs w w1 w2 _ IH Hw].
  - split; [done|]. exists o. auto.
  - destruct (IH Hi Ho) as [Hi1 Hk]. split; [by apply flush_outbox_relayed|by apply pump_removal_kept].
  - destruct (IH Hi Ho) as [Hi1 Hk]. split; [by apply settle_relay_inv|by apply settle_removal_kept].
  - destruct (IH Hi Ho) as [Hi1 (o1 & Ho1 & Hpl & Hr1 & Hk)]. split; [by eapply other_relay_inv|].
    exists o1. split; [by apply (ow_removals _ _ Hw)|done].
Qed.

(** Unless it was answered, a kept removal is due from some time on. *)
Lemma removal_kept_due msgs id o w : relay_inv (w_db w) (w_bus w) -> removal_kept msgs id o w ->
  exists o', outbox_events (w_db w) !! id = Some o' /\ o_payload o' = o_payload o
    /\ ((exists t, forall now, (t <= now)%Z -> publish_due now o' = true \/ resend_due now o' = true)
        \/ exists payload ack, payload ∈ msgs /\ decode payload = Some ack
             /\ ak_acknowledged_event_id ack = id /\ ak_owner ack = pl_tenant_id (o_payload o)).
Proof.
  intros [_ Harm] (o' & Ho' & Hpl & Hr' & Hk).
  exists o'. split; [done|]. split; [done|]. destruct Hk as [Hk|]; [left|by right].
  destruct (is_published o') eqn:Ep.
  - destruct (Harm _ _ Ho' Ep Hr') as [t Ht]. exists (Z.max t (default t (o_next_attempt_at o'))).
    intros now Hnow. right. unfold resend_due, passed, null_or_passed. rewrite Hr', Ep, Hk, Ht. simpl.
    destruct (o_next_attempt_at o') as [u|]; simpl in *; apply andb_true_iff; split; try done; apply Z.leb_le; lia.
  - exists (default 0%Z (o_next_attempt_at o')). intros now Hnow. left.
    unfold publish_due, null_or_passed. rewrite Ep. simpl.
    destruct (o_next_attempt_at o'); [by apply Z.leb_le|done].
Qed.

(** [C11] No removal is forgotten. Start from an outbox in which published rows are on the broker
    and published removals armed, and let passes of the pump, messages of Knowledge and other
    writers follow in any order, with any faults of the database and the broker. An
    unacknowledged removal is still in the outbox with the body it had, and unless one of the
    messages was an answer to exactly this removal by its own tenant, there is a time from which it
    is due: for its first publication, or for another copy. *)
Theorem removal_sent_until_answered msgs w w' id o : history msgs w w' ->
  relay_inv (w_db w) (w_bus w) -> outbox_events (w_db w) !! id = Some o -> is_removal o = true ->
  is_acknowledged o = false ->
  exists o', outbox_events (w_db w') !! id = Some o' /\ o_payload o' = o_payload o
    /\ ((exists t, forall now, (t <= now)%Z -> publish_due now o' = true \/ resend_due now o' = true)
        \/ exists payload ack, payload ∈ msgs /\ decode payload = Some ack
             /\ ak_acknowledged_event_id ack = id /\ ak_owner ack = pl_tenant_id (o_payload o)).
Proof.
  intros Hh Hi Ho Hr Ha. destruct (history_keeps _ _ _ _ _ Hh Hi Ho Hr Ha) as [Hi' Hk]. by eapply removal_kept_due.
Qed.

End WithEnv.

(** * Witnesses *)

(** The codec that reads every message as the answer "applied" to removal 1 of tenant 1. *)
Definition sample_codec : AckCodec := {|
  envelope_from_json := fun s =>
    if bool_decide (s = "answer") then Some (mk_event_envelope KNOWLEDGE (Some "tenant-1")
      (Some (mk_acknowledgement "social" (Some AckApplied) 1%N "tenant-1"))) else None;
|}.

Lemma redelivered_answer_ignored_witness :
  let w1 := (@settle sample_env sample_codec "answer" (sample_outbox 0)).2 in
  w_db w1 <> w_db (sample_outbox 0) /\ w_db (@settle sample_env sample_codec "answer" w1).2 = w_db w1.
Proof.
  split; [by vm_compute|].
  apply (@redelivered_answer_ignored sample_env sample_codec "answer" (sample_outbox 0) Ack); [|by left|done].
  by vm_compute.
Defined.

Lemma acks_summary_accounts_witness :
  exists s kinds w', @consume_deletion_acks sample_env sample_codec
      [Message "answer"; RecoverableError false; Message "answer"; Message "noise"; StopRequested]
      default_summary (sample_outbox 0) = (Some (Ok s), kinds, w')
    /\ s = mk_summary 1 0 1 1 0 /\ summary_total s = 3%Z.
Proof.
  eexists _, _, _. split; [vm_compute; reflexivity|]. split; [done|].
  edestruct (@acks_summary_accounts sample_env sample_codec [Message "answer"; RecoverableError false;
    Message "answer"; Message "noise"; StopRequested] default_summary (sample_outbox 0)) as [H _];
    [vm_compute; reflexivity|exact H].
Defined.

Lemma removal_sent_until_answered_witness :
  let w' := (@flush_outbox refusing_env default_policy
    (@settle refusing_env sample_codec "noise" (sample_outbox 0)).2).2 in
  exists o', outbox_events (w_db w') !! 1%N = Some o' /\ is_published o' = false
    /\ exists t, forall now, (t <= now)%Z -> publish_due now o' = true \/ resend_due now o' = true.
Proof.
  destruct (@removal_sent_until_answered refusing_env sample_codec ["noise"] (sample_outbox 0)
    (@flush_outbox refusing_env default_policy (@settle refusing_env sample_codec "noise" (sample_outbox 0)).2).2
    1%N (sample_event REMOVAL_EVENT_TYPE 5 0)) as (o' & Ho' & _ & H).
  - apply history_pump, history_answer, history_start.
  - split; intros id o Ho Hp; simpl in Ho; exfalso;
      (apply lookup_insert_Some in Ho as [[_ <-]|[_ [_ <-]%lookup_singleton_Some]]; done).
  - done.
  - done.
  - done.
  - exists o'. split; [done|]. split; [vm_compute in Ho'; by injection Ho' as <-|].
    destruct H as [H|(payload & ack & Hin & Hdec & _)]; [done|exfalso].
    apply list_elem_of_singleton in Hin as ->. done.
Defined.

End DeletionAcks.
