(* ===== verification/Inventory.v ===== *)
(** The closed inventory of owner deletion
    (src/crates/threads-archive/src/privacy_deletion/inventory.rs): every owned data class, how a
    deletion of either kind treats it, and the keys under which its audit stores it. *)
From S2P Require Import Prelude Relation.

Module Inventory.
Local Open Scope string_scope.

Inductive OwnedDataClass :=
| AccountBudgets | AccountSyncCheckpoints | Accounts | BlobDeletionTasks | Captures
| CaptureResolutions | Credentials | CredentialAudit | DeletionEffects | DeletionOperations
| ExportRecords | ExportReprocessingItems | ExportReprocessingRuns | ExportRuns | InboxEvents
| LocalSourceRemovals | Media | OutboxEvents | PostRelations | PostRevisions
| Posts | RawObjects | ReresolutionItems | ReresolutionRuns | SocialAnalysisLinks
| SocialSourceRevisions | SocialSources | Tombstones | RawObjectBlob | MediaBlob
| ExportArchiveBlob.

#[global] Instance OwnedDataClass_eq_dec : EqDecision OwnedDataClass.
Proof. solve_decision. Defined.

Inductive DeletionAction := Delete | Detach | RetainAudit | RetainShared | NotApplicable.

#[global] Instance DeletionAction_eq_dec : EqDecision DeletionAction.
Proof. solve_decision. Defined.

Record DataClassDisposition := disposition { dd_class : OwnedDataClass; dd_action : DeletionAction }.

Definition OWNED_DATA_CLASSES : list OwnedDataClass :=
  [
    AccountBudgets; AccountSyncCheckpoints; Accounts; BlobDeletionTasks; Captures;
    CaptureResolutions; Credentials; CredentialAudit; DeletionEffects; DeletionOperations;
    ExportRecords; ExportReprocessingItems; ExportReprocessingRuns; ExportRuns; InboxEvents;
    LocalSourceRemovals; Media; OutboxEvents; PostRelations; PostRevisions;
    Posts; RawObjects; ReresolutionItems; ReresolutionRuns; SocialAnalysisLinks;
    SocialSourceRevisions; SocialSources; Tombstones; RawObjectBlob; MediaBlob;
    ExportArchiveBlob].

Definition CAPTURE_DELETION_CLASSIFICATIONS : list DataClassDisposition :=
  [
    disposition AccountBudgets NotApplicable; disposition AccountSyncCheckpoints NotApplicable;
    disposition Accounts NotApplicable; disposition BlobDeletionTasks RetainAudit;
    disposition Captures Delete; disposition CaptureResolutions Delete;
    disposition Credentials NotApplicable; disposition CredentialAudit NotApplicable;
    disposition DeletionEffects RetainAudit; disposition DeletionOperations RetainAudit;
    disposition ExportRecords NotApplicable; disposition ExportReprocessingItems NotApplicable;
    disposition ExportReprocessingRuns NotApplicable; disposition ExportRuns NotApplicable;
    disposition InboxEvents RetainAudit; disposition LocalSourceRemovals RetainAudit;
    disposition Media Detach; disposition OutboxEvents RetainAudit;
    disposition PostRelations Detach; disposition PostRevisions Detach;
    disposition Posts Detach; disposition RawObjects Detach;
    disposition ReresolutionItems Delete; disposition ReresolutionRuns RetainAudit;
    disposition SocialAnalysisLinks Delete; disposition SocialSourceRevisions Detach;
    disposition SocialSources Detach; disposition Tombstones RetainShared;
    disposition RawObjectBlob Detach; disposition MediaBlob Detach;
    disposition ExportArchiveBlob NotApplicable].

Definition CONNECTION_DELETION_CLASSIFICATIONS : list DataClassDisposition :=
  [
    disposition AccountBudgets Delete; disposition AccountSyncCheckpoints Delete;
    disposition Accounts Delete; disposition BlobDeletionTasks RetainAudit;
    disposition Captures NotApplicable; disposition CaptureResolutions NotApplicable;
    disposition Credentials Delete; disposition CredentialAudit RetainAudit;
    disposition DeletionEffects RetainAudit; disposition DeletionOperations RetainAudit;
    disposition ExportRecords NotApplicable; disposition ExportReprocessingItems NotApplicable;
    disposition ExportReprocessingRuns NotApplicable; disposition ExportRuns NotApplicable;
    disposition InboxEvents RetainAudit; disposition LocalSourceRemovals RetainAudit;
    disposition Media Detach; disposition OutboxEvents RetainAudit;
    disposition PostRelations Detach; disposition PostRevisions Detach;
    disposition Posts Detach; disposition RawObjects Detach;
    disposition ReresolutionItems NotApplicable; disposition ReresolutionRuns NotApplicable;
    disposition SocialAnalysisLinks Detach; disposition SocialSourceRevisions Detach;
    disposition SocialSources Detach; disposition Tombstones RetainShared;
    disposition RawObjectBlob Detach; disposition MediaBlob Detach;
    disposition ExportArchiveBlob NotApplicable].

(** [OwnedDataClass::key]. *)
Definition key (c : OwnedDataClass) : string :=
  match c with
  | AccountBudgets => "table:account_budgets"
  | AccountSyncCheckpoints => "table:account_sync_checkpoints"
  | Accounts => "table:accounts"
  | BlobDeletionTasks => "table:blob_deletion_tasks"
  | Captures => "table:captures"
  | CaptureResolutions => "table:capture_resolutions"
  | Credentials => "table:credentials"
  | CredentialAudit => "table:credential_audit"
  | DeletionEffects => "table:deletion_effects"
  | DeletionOperations => "table:deletion_operations"
  | ExportRecords => "table:export_records"
  | ExportReprocessingItems => "table:export_reprocessing_items"
  | ExportReprocessingRuns => "table:export_reprocessing_runs"
  | ExportRuns => "table:export_runs"
  | InboxEvents => "table:inbox_events"
  | LocalSourceRemovals => "table:local_source_removals"
  | Media => "table:media"
  | OutboxEvents => "table:outbox_events"
  | PostRelations => "table:post_relations"
  | PostRevisions => "table:post_revisions"
  | Posts => "table:posts"
  | RawObjects => "table:raw_objects"
  | ReresolutionItems => "table:reresolution_items"
  | ReresolutionRuns => "table:reresolution_runs"
  | SocialAnalysisLinks => "table:social_analysis_links"
  | SocialSourceRevisions => "table:social_source_revisions"
  | SocialSources => "table:social_sources"
  | Tombstones => "table:tombstones"
  | RawObjectBlob => "blob:raw_object"
  | MediaBlob => "blob:provider_media"
  | ExportArchiveBlob => "blob:export_archive"
  end.

(** [OwnedDataClass::audit_key]. *)
Definition audit_key (c : OwnedDataClass) : string :=
  match c with
  | RawObjectBlob => "raw_object_blob"
  | MediaBlob => "provider_media_blob"
  | ExportArchiveBlob => "export_archive_blob"
  | _ => default "invalid_class" (strip_prefix "table:" (key c))
  end.

(** [OwnedDataClass::from_audit_key]. *)
Definition from_audit_key (value : string) : option OwnedDataClass :=
  List.find (fun c => bool_decide (audit_key c = value)) OWNED_DATA_CLASSES.

(** [DeletionAction::as_str] and [DeletionAction::from_str]. *)
Definition as_str (a : DeletionAction) : string :=
  match a with
  | Delete => "delete"
  | Detach => "detach"
  | RetainAudit => "retain_audit"
  | RetainShared => "retain_shared"
  | NotApplicable => "not_applicable"
  end.

Definition from_str (value : string) : option DeletionAction :=
  if bool_decide (value = "delete") then Some Delete
  else if bool_decide (value = "detach") then Some Detach
  else if bool_decide (value = "retain_audit") then Some RetainAudit
  else if bool_decide (value = "retain_shared") then Some RetainShared
  else if bool_decide (value = "not_applicable") then Some NotApplicable
  else None.

(** The derived order of the classes: the place of their declaration. *)
Definition class_rank (c : OwnedDataClass) : nat :=
  match c with
  | AccountBudgets => 0
  | AccountSyncCheckpoints => 1
  | Accounts => 2
  | BlobDeletionTasks => 3
  | Captures => 4
  | CaptureResolutions => 5
  | Credentials => 6
  | CredentialAudit => 7
  | DeletionEffects => 8
  | DeletionOperations => 9
  | ExportRecords => 10
  | ExportReprocessingItems => 11
  | ExportReprocessingRuns => 12
  | ExportRuns => 13
  | InboxEvents => 14
  | LocalSourceRemovals => 15
  | Media => 16
  | OutboxEvents => 17
  | PostRelations => 18
  | PostRevisions => 19
  | Posts => 20
  | RawObjects => 21
  | ReresolutionItems => 22
  | ReresolutionRuns => 23
  | SocialAnalysisLinks => 24
  | SocialSourceRevisions => 25
  | SocialSources => 26
  | Tombstones => 27
  | RawObjectBlob => 28
  | MediaBlob => 29
  | ExportArchiveBlob => 30
  end.

(** The schema's tests of the stored columns, [data_class ~ '^[a-z][a-z0-9_]{0,63}$'] and the
    vocabulary of actions. *)
Definition data_class_check (s : string) : bool :=
  match s with
  | EmptyString => false
  | String c s' => is_ascii_lowercase c && str_all Relation.kind_byte s' && (String.length s' <=? 63)%nat
  end.

Definition action_vocabulary : list string :=
  ["delete"; "detach"; "retain_audit"; "retain_shared"; "not_applicable"].

(** * Properties *)

Lemma from_audit_key_audit_key c : from_audit_key (audit_key c) = Some c.
Proof. by destruct c. Qed.

Lemma from_str_as_str a : from_str (as_str a) = Some a.
Proof. by destruct a. Qed.

Lemma audit_key_checked c : data_class_check (audit_key c) = true.
Proof. by destruct c. Qed.

Lemma as_str_checked a : as_str a ∈ action_vocabulary.
Proof. destruct a; unfold action_vocabulary; set_solver. Qed.

Lemma audit_key_inj c1 c2 : audit_key c1 = audit_key c2 -> c1 = c2.
Proof. intros E. apply (f_equal from_audit_key) in E. rewrite !from_audit_key_audit_key in E. congruence. Qed.

Lemma from_audit_key_Some s c : from_audit_key s = Some c -> s = audit_key c.
Proof. intros [_ H]%find_some. by apply bool_decide_eq_true in H. Qed.

Lemma class_rank_inj c1 c2 : class_rank c1 = class_rank c2 -> c1 = c2.
Proof. by destruct c1, c2. Qed.

Lemma OWNED_DATA_CLASSES_complete c : OWNED_DATA_CLASSES !! class_rank c = Some c.
Proof. by destruct c. Qed.

(** The inventory is closed: every class has exactly one disposition for a capture and one for a
    connection, in the same order; its audit key is accepted by the schema and names no other
    class, and reading it back gives the class. *)
Theorem inventory_closed :
  dd_class <$> CAPTURE_DELETION_CLASSIFICATIONS = OWNED_DATA_CLASSES
  /\ dd_class <$> CONNECTION_DELETION_CLASSIFICATIONS = OWNED_DATA_CLASSES
  /\ NoDup OWNED_DATA_CLASSES /\ (forall c, c ∈ OWNED_DATA_CLASSES)
  /\ (forall c, data_class_check (audit_key c) = true)
  /\ (forall s c, from_audit_key s = Some c <-> s = audit_key c)
  /\ (forall s a, from_str s = Some a <-> s = as_str a).
Proof.
  split_and!; [done|done| | |apply audit_key_checked| |].
  - apply NoDup_alt. intros i j c Hi Hj.
    assert (forall k, OWNED_DATA_CLASSES !! k = Some c -> k = class_rank c) as H.
    { intros k Hk. do 31 (destruct k as [|k]; [by simplify_eq/=|]). done. }
    by rewrite (H _ Hi), (H _ Hj).
  - intros c. eapply list_elem_of_lookup_2, OWNED_DATA_CLASSES_complete.
  - intros s c. split; [apply from_audit_key_Some|intros ->; apply from_audit_key_audit_key].
  - intros s a. split; [|intros ->; apply from_str_as_str]. unfold from_str.
    repeat case_bool_decide; intros; by simplify_eq.
Qed.

End Inventory.
