(* ===== verification/PrivacyDeletion.v ===== *)
(** Owner deletion (src/crates/threads-archive/src/privacy_deletion.rs): the preview and the
    application of one deletion request of a capture or of an official connection.

    A [delete] is refused while a foreign key still points at a deleted row, as PostgreSQL checks
    it at the end of the statement. Rows locked with [for update] are plain reads: a request
    runs in one transaction, and interleavings are sequences of transactions. *)
From S2P Require Import Prelude Schema Store Publishing Inventory.

Module PrivacyDeletion.
Import Schema Store Inventory.
Local Open Scope string_scope.
Local Open Scope store_scope.
Local Open Scope rust_scope.

Inductive DeletionTarget := TCapture (id : Uuid) | TConnection (id : Uuid).

#[global] Instance DeletionTarget_eq_dec : EqDecision DeletionTarget.
Proof. solve_decision. Defined.

Record DeletionRequest := mk_request {
  rq_operation_id : Uuid;
  rq_user_ref : Uuid;
  rq_target : DeletionTarget;
}.

Record DeletionEffectCount := mk_effect {
  ef_class : OwnedDataClass;
  ef_action : DeletionAction;
  ef_affected_count : Z;
}.

#[global] Instance DeletionEffectCount_eq_dec : EqDecision DeletionEffectCount.
Proof. solve_decision. Defined.

(** [DeletionPlan] and [DeletionResult] have the same fields. *)
Record DeletionPlan := mk_plan { pn_operation_id : Uuid; pn_effects : list DeletionEffectCount }.

Inductive PrivacyDeletionError :=
| TargetNotFound
| DeletionPersistence (e : SqlError)
| Publication
| OperationConflict.

Definition nil_uuid : Uuid := 0%N.

Definition target_id (t : DeletionTarget) : Uuid := match t with TCapture id | TConnection id => id end.

Definition target_parts (t : DeletionTarget) : string * Uuid :=
  match t with TCapture id => ("capture", id) | TConnection id => ("connection", id) end.

(** * Counting and planning *)

(** [iter_mut().find(|effect| effect.class == class)], then the update. *)
Fixpoint alter_effect (class : OwnedDataClass) (f : DeletionEffectCount -> DeletionEffectCount)
  (effects : list DeletionEffectCount) : list DeletionEffectCount :=
  match effects with
  | [] => []
  | e :: rest => if bool_decide (ef_class e = class) then f e :: rest else e :: alter_effect class f rest
  end.

Definition set_count (effects : list DeletionEffectCount) (class : OwnedDataClass) (count : Z)
  : list DeletionEffectCount :=
  alter_effect class (fun e => mk_effect (ef_class e) (ef_action e) count) effects.

Definition set_effect (effects : list DeletionEffectCount) (class : OwnedDataClass) (action : DeletionAction)
  (count : Z) : list DeletionEffectCount :=
  alter_effect class (fun e => mk_effect (ef_class e) action count) effects.

Definition initial_effects (t : DeletionTarget) : list DeletionEffectCount :=
  (fun entry => mk_effect (dd_class entry) (dd_action entry) 0) <$>
  match t with
  | TCapture _ => CAPTURE_DELETION_CLASSIFICATIONS
  | TConnection _ => CONNECTION_DELETION_CLASSIFICATIONS
  end.

(** Captures of one owner of a post, other than one. *)
Definition other_captures (owner post_id except : Uuid) (d : db) : Z :=
  count_where (captures d) (fun id c => bool_decide (c_user_ref c = owner)
    && bool_decide (c_post_id c = Some post_id) && negb (bool_decide (id = except))).

(** The owner's source of a post. *)
Definition source_of (owner post_id : Uuid) (s : source_row) : bool :=
  bool_decide (ss_user_ref s = owner) && bool_decide (ss_post_id s = post_id).

(** The row of the owner's source of a post, joined by its identifier. *)
Definition joins_source (owner post_id : Uuid) (d : db) (source_id : Uuid) : bool :=
  match social_sources d !! source_id with Some s => source_of owner post_id s | None => false end.

Definition relates_to (post_id : Uuid) (r : relation_row) : bool :=
  bool_decide (rel_referencing_post_id r = post_id) || bool_decide (rel_target_post_id r = Some post_id).

(** The shared classes of a capture whose owner holds the post through another capture. *)
Definition shared_counts (owner post_id : Uuid) (d : db) : list (OwnedDataClass * Z) :=
  let raw := count_where (raw_objects d) (fun id _ => exists_where (post_revisions d) (fun _ rev =>
    bool_decide (rev_raw_object_id rev = id) && bool_decide (rev_post_id rev = post_id))) in
  let media := count_where (media d) (fun _ m => bool_decide (m_post_id m = post_id)) in
  [(Posts, count_where (posts d) (fun id _ => bool_decide (id = post_id)));
   (PostRevisions, count_where (post_revisions d) (fun _ rev => bool_decide (rev_post_id rev = post_id)));
   (RawObjects, raw);
   (Media, media);
   (PostRelations, count_where (post_relations d) (fun _ r => relates_to post_id r));
   (SocialSources, count_where (social_sources d) (fun _ s => source_of owner post_id s));
   (SocialSourceRevisions, count_where (social_source_revisions d) (fun _ r =>
      joins_source owner post_id d (ssr_social_source_id r)));
   (SocialAnalysisLinks, count_where (social_analysis_links d) (fun _ l =>
      joins_source owner post_id d (al_social_source_id l)));
   (RawObjectBlob, raw);
   (MediaBlob, media)].

(** The first query of a capture's plan: the post and the rows that name the capture. *)
Definition capture_counts (capture_id : Uuid) (d : db) : option Uuid * list (OwnedDataClass * Z) :=
  (captures d !! capture_id ≫= c_post_id,
   [(CaptureResolutions,
      count_where (capture_resolutions d) (fun _ r => bool_decide (r_capture_id r = capture_id)));
    (ReresolutionItems, count_keys (reresolution_items d) (fun k _ => bool_decide (k.2 = capture_id)));
    (Tombstones, count_where (tombstones d) (fun _ t => bool_decide (t_capture_id t = Some capture_id)))]).

Definition set_counts (effects : list DeletionEffectCount) (counts : list (OwnedDataClass * Z))
  : list DeletionEffectCount :=
  foldl (fun effects kv => set_count effects kv.1 kv.2) effects counts.

(** Marks the shared classes when the owner has another capture of the post. *)
Definition share_effects (effects : list DeletionEffectCount) (others : Z) (counts : list (OwnedDataClass * Z))
  : list DeletionEffectCount :=
  if (0 <? others)%Z
  then foldl (fun effects kv => set_effect effects kv.1 RetainShared kv.2) effects counts
  else effects.

Definition on_account (account_id : Uuid) (p : post_row) : bool := bool_decide (p_account_id p = Some account_id).

Definition plan_connection (account_id : Uuid) (d : db) : list DeletionEffectCount :=
  let effects := set_counts (initial_effects (TConnection account_id))
    [(Accounts, count_where (accounts d) (fun id _ => bool_decide (id = account_id)));
     (AccountBudgets, count_keys (account_budgets d) (fun k _ => bool_decide (k.1 = account_id)));
     (AccountSyncCheckpoints, count_where (account_sync_checkpoints d) (fun id _ => bool_decide (id = account_id)));
     (Credentials, count_where (credentials d) (fun _ r => bool_decide (cr_account_id r = account_id)));
     (CredentialAudit, count_where (credential_audit d) (fun _ r => bool_decide (ca_account_id r = account_id)));
     (Posts, count_where (posts d) (fun _ p => on_account account_id p))] in
  let shared := count_where (posts d) (fun id p => on_account account_id p
    && exists_where (captures d) (fun _ c => bool_decide (c_post_id c = Some id))) in
  if (0 <? shared)%Z then set_effect effects Posts RetainShared shared else effects.

(** * Deletes under foreign keys *)

Definition fk (constraint : string) (violated : bool) : Result SqlError () :=
  if violated then Err (ForeignKeyViolation constraint) else Ok ().

Definition delete_capture_row (capture_id : Uuid) (d : db) : Result SqlError db :=
  let? _ := fk "capture_resolutions_capture_id_fkey"
    (exists_where (capture_resolutions d) (fun _ r => bool_decide (r_capture_id r = capture_id))) in
  let? _ := fk "social_sources_first_capture_id_fkey"
    (exists_where (social_sources d) (fun _ s => bool_decide (ss_first_capture_id s = Some capture_id))) in
  let? _ := fk "tombstones_capture_id_fkey"
    (exists_where (tombstones d) (fun _ t => bool_decide (t_capture_id t = Some capture_id))) in
  Ok (set_captures (base.delete capture_id (captures d)) d).

Definition delete_account_row (account_id : Uuid) (d : db) : Result SqlError db :=
  let? _ := fk "credentials_account_id_fkey"
    (exists_where (credentials d) (fun _ r => bool_decide (cr_account_id r = account_id))) in
  let? _ := fk "credential_audit_account_id_fkey"
    (exists_where (credential_audit d) (fun _ r => bool_decide (ca_account_id r = account_id))) in
  let? _ := fk "account_budgets_account_id_fkey"
    (0 <? count_keys (account_budgets d) (fun k _ => bool_decide (k.1 = account_id)))%Z in
  let? _ := fk "account_sync_checkpoints_account_id_fkey"
    (bool_decide (is_Some (account_sync_checkpoints d !! account_id))) in
  let? _ := fk "posts_account_id_fkey" (exists_where (posts d) (fun _ p => on_account account_id p)) in
  Ok (set_accounts (base.delete account_id (accounts d)) d).

Definition delete_source_row (source_id : Uuid) (d : db) : Result SqlError db :=
  let? _ := fk "social_source_revisions_social_source_id_fkey"
    (exists_where (social_source_revisions d) (fun _ r => bool_decide (ssr_social_source_id r = source_id))) in
  let? _ := fk "social_analysis_links_social_source_id_fkey"
    (exists_where (social_analysis_links d) (fun _ l => bool_decide (al_social_source_id l = source_id))) in
  Ok (set_social_sources (base.delete source_id (social_sources d)) d).

(** The links refer to (source, digest), a unique key of the revisions. *)
Definition delete_source_revisions (source_id : Uuid) (d : db) : Result SqlError db :=
  let? _ := fk "social_analysis_links_source_digest_fkey"
    (exists_where (social_analysis_links d) (fun _ l => bool_decide (al_social_source_id l = source_id))) in
  Ok (set_social_source_revisions
    (delete_where (fun _ r => bool_decide (ssr_social_source_id r = source_id)) (social_source_revisions d)) d).

Definition delete_raw_object_row (raw_id : Uuid) (d : db) : Result SqlError db :=
  let? _ := fk "post_revisions_raw_object_id_fkey"
    (exists_where (post_revisions d) (fun _ rev => bool_decide (rev_raw_object_id rev = raw_id))) in
  let? _ := fk "capture_resolutions_raw_object_id_fkey"
    (exists_where (capture_resolutions d) (fun _ r => bool_decide (r_raw_object_id r = Some raw_id))) in
  let? _ := fk "export_records_raw_object_id_fkey"
    (exists_where (export_records d) (fun _ x => bool_decide (xr_raw_object_id x = Some raw_id))) in
  Ok (set_raw_objects (base.delete raw_id (raw_objects d)) d).

Definition delete_post_row (post_id : Uuid) (d : db) : Result SqlError db :=
  let? _ := fk "post_revisions_post_id_fkey"
    (exists_where (post_revisions d) (fun _ rev => bool_decide (rev_post_id rev = post_id))) in
  let? _ := fk "post_relations_referencing_post_id_fkey"
    (exists_where (post_relations d) (fun _ r => bool_decide (rel_referencing_post_id r = post_id))) in
  let? _ := fk "post_relations_target_post_id_fkey"
    (exists_where (post_relations d) (fun _ r => bool_decide (rel_target_post_id r = Some post_id))) in
  let? _ := fk "media_post_id_fkey" (exists_where (media d) (fun _ m => bool_decide (m_post_id m = post_id))) in
  let? _ := fk "captures_post_id_fkey"
    (exists_where (captures d) (fun _ c => bool_decide (c_post_id c = Some post_id))) in
  let? _ := fk "social_sources_post_id_fkey"
    (exists_where (social_sources d) (fun _ s => bool_decide (ss_post_id s = post_id))) in
  let? _ := fk "tombstones_post_id_fkey"
    (exists_where (tombstones d) (fun _ t => bool_decide (t_post_id t = Some post_id))) in
  Ok (set_posts (base.delete post_id (posts d)) d).

(** * Audit inserts *)

Definition insert_deletion_operation (id : Uuid) (row : deletion_operation_row) (d : db) : Result SqlError db :=
  if bool_decide (is_Some (deletion_operations d !! id)) then Err (UniqueViolation "deletion_operations_pkey")
  else Ok (set_deletion_operations (<[id := row]> (deletion_operations d)) d).

Definition insert_deletion_effect (id : Uuid) (class action : string) (count : Z) (d : db) : Result SqlError db :=
  if bool_decide (is_Some (deletion_effects d !! (id, class, action))) then Err (UniqueViolation "deletion_effects_pkey")
  else if negb (data_class_check class) then Err (CheckViolation "deletion_effects_data_class_check")
  else if negb (bool_decide (action ∈ action_vocabulary)) then Err (CheckViolation "deletion_effects_action_check")
  else if (count <? 0)%Z then Err (CheckViolation "deletion_effects_count_check")
  else if negb (bool_decide (is_Some (deletion_operations d !! id)))
  then Err (ForeignKeyViolation "deletion_effects_operation_id_fkey")
  else Ok (set_deletion_effects (<[(id, class, action) := count]> (deletion_effects d)) d).

(** [insert ... on conflict (user_ref, social_source_id) do nothing]. *)
Definition insert_local_removal (owner source_id : Uuid) (row : local_removal_row) (d : db) : Result SqlError db :=
  if bool_decide (is_Some (local_source_removals d !! (owner, source_id))) then Ok d
  else if negb (bool_decide (is_Some (deletion_operations d !! lr_operation_id row)))
  then Err (ForeignKeyViolation "local_source_removals_operation_id_fkey")
  else Ok (set_local_source_removals (<[(owner, source_id) := row]> (local_source_removals d)) d).

(** [insert ... on conflict (blob_ref, content_hash) do nothing]. *)
Definition insert_blob_task (task_id operation_id : Uuid) (blob_ref content_hash : string) (d : db)
  : Result SqlError db :=
  if exists_where (blob_deletion_tasks d) (fun _ t =>
       bool_decide (bt_blob_ref t = blob_ref) && bool_decide (bt_content_hash t = content_hash)) then Ok d
  else if bool_decide (is_Some (blob_deletion_tasks d !! task_id)) then Err (UniqueViolation "blob_deletion_tasks_pkey")
  else if negb (bool_decide (is_Some (deletion_operations d !! operation_id)))
  then Err (ForeignKeyViolation "blob_deletion_tasks_operation_id_fkey")
  else Ok (set_blob_deletion_tasks
    (<[task_id := mk_blob_task_row (Some operation_id) blob_ref content_hash "pending" 0 None]>
      (blob_deletion_tasks d)) d).

Section WithEnv.
Context {Henv : Env} {Hcon : Publishing.Contracts}.

Abbreviation P A := (M PrivacyDeletionError A).

(** The statements of this module, with their error mapped. *)
Definition sql {A} (m : M SqlError A) : P A := mapErr DeletionPersistence m.
Definition statement (f : db -> Result SqlError db) : P () := sql (execute (fun _ d => f d)).
Definition lookup {A} (f : db -> A) : P A := sql (read (fun _ d => Ok (f d))).

(** [require_owned_locked]. *)
Definition require_owned_locked (request : DeletionRequest) : P () :=
  let* owner := lookup (fun d =>
    match rq_target request with
    | TCapture id => c_user_ref <$> captures d !! id
    | TConnection id => a_user_ref <$> accounts d !! id
    end) in
  if bool_decide (owner = Some (rq_user_ref request)) then ret () else throw TargetNotFound.

(** [build_plan]. *)
Definition build_plan (request : DeletionRequest) : P DeletionPlan :=
  let effects := initial_effects (rq_target request) in
  let* effects := (match rq_target request with
    | TCapture capture_id =>
        let effects := set_count effects Captures 1 in
        let* counted := lookup (capture_counts capture_id) in
        let effects := set_counts effects counted.2 in
        match counted.1 with
        | None => ret effects
        | Some post_id =>
            let* shared := lookup (fun d => (other_captures (rq_user_ref request) post_id capture_id d,
              shared_counts (rq_user_ref request) post_id d)) in
            ret (share_effects effects shared.1 shared.2)
        end
    | TConnection account_id => lookup (plan_connection account_id)
    end) in
  ret (mk_plan (rq_operation_id request) effects).

(** The stored effects of an operation, [order by data_class, action]. *)
Definition stored_effects (operation_id : Uuid) (d : db) : list (string * string * Z) :=
  sort_by (lex_leb [fun e => e.1.1; fun e => e.1.2])
    ((fun kv => (kv.1.1.2, kv.1.2, kv.2)) <$>
      List.filter (fun kv => bool_decide (kv.1.1.1 = operation_id)) (map_to_list (deletion_effects d))).

Fixpoint decode_effects (stored : list (string * string * Z)) : Result PrivacyDeletionError (list DeletionEffectCount) :=
  match stored with
  | [] => Ok []
  | (class, action, count) :: rest =>
      let? class := ok_or (from_audit_key class) OperationConflict in
      let? action := ok_or (from_str action) OperationConflict in
      let? effects := decode_effects rest in
      Ok (mk_effect class action count :: effects)
  end.

(** [load_completed]. *)
Definition load_completed (request : DeletionRequest) : P (option DeletionPlan) :=
  let* existing := lookup (fun d => deletion_operations d !! rq_operation_id request) in
  match existing with
  | None => ret None
  | Some row =>
      let '(expected_kind, expected_id) := target_parts (rq_target request) in
      if negb (bool_decide (do_user_ref row = rq_user_ref request))
         || negb (bool_decide (do_target_kind row = expected_kind))
         || negb (bool_decide (do_target_id row = expected_id))
      then throw OperationConflict
      else if negb (bool_decide (do_state row = "complete")) then ret None else
      let* stored := lookup (stored_effects (rq_operation_id request)) in
      let* effects := lift (decode_effects stored) in
      ret (Some (mk_plan (rq_operation_id request)
        (sort_by (fun a b => (class_rank (ef_class a) <=? class_rank (ef_class b))%nat) effects)))
  end.

(** [schedule_blob_task]. *)
Definition schedule_blob_task (operation_id : Uuid) (blob : string * string) : P () :=
  let* task_id := now_v7 in
  statement (insert_blob_task task_id operation_id blob.1 blob.2).

(** The body of the loop of [remove_final_owner_source] for one source. *)
Definition remove_source (request : DeletionRequest) (post_id source_id : Uuid) : P () :=
  let target := target_id (rq_target request) in
  statement (fun d => Ok (set_outbox_events (delete_where (fun _ o =>
    (bool_decide (o_aggregate_id o = target) || bool_decide (o_aggregate_id o = post_id))
    && negb (bool_decide (o_event_type o = Publishing.REMOVED_EVENT))) (outbox_events d)) d)) ;;;
  mapErr (fun _ => Publication) (Publishing.append_removal (rq_user_ref request) source_id
    (rq_operation_id request)
    (match rq_target request with TCapture _ => "capture" | TConnection _ => "account" end) target) ;;;
  statement (insert_local_removal (rq_user_ref request) source_id
    (mk_local_removal_row post_id (rq_operation_id request))) ;;;
  statement (fun d => Ok (set_social_analysis_links
    (delete_where (fun _ l => bool_decide (al_social_source_id l = source_id)) (social_analysis_links d)) d)) ;;;
  statement (delete_source_revisions source_id) ;;;
  statement (delete_source_row source_id).

(** The official holdings of a post by an owner, an excluded account apart. *)
Definition official_holding (owner post_id : Uuid) (excluded : option Uuid) (d : db) : Z :=
  count_where (posts d) (fun id p => bool_decide (id = post_id)
    && match p_account_id p with
       | Some account_id =>
           match accounts d !! account_id with
           | Some a => bool_decide (a_user_ref a = owner) && negb (bool_decide (excluded = Some account_id))
           | None => false
           end
       | None => false
       end).

(** [remove_final_owner_source]. *)
Definition remove_final_owner_source (request : DeletionRequest) (post_id : Uuid) : P () :=
  let owner := rq_user_ref request in
  let excluded := match rq_target request with TConnection id => Some id | TCapture _ => None end in
  let except := match rq_target request with TCapture id => id | TConnection _ => nil_uuid end in
  let* held := lookup (fun d => (other_captures owner post_id except d, official_holding owner post_id excluded d)) in
  if (0 <? held.1)%Z || (0 <? held.2)%Z then ret () else
  let* source_ids := lookup (fun d => (select (social_sources d) (fun _ s => source_of owner post_id s)).*1) in
  forM_ source_ids (remove_source request post_id).

(** The loop body over the raw objects of a removed post. *)
Definition remove_raw_object (operation_id raw_id : Uuid) : P () :=
  let* raw := lookup (fun d =>
    if exists_where (post_revisions d) (fun _ rev => bool_decide (rev_raw_object_id rev = raw_id))
       || exists_where (export_records d) (fun _ x => bool_decide (xr_raw_object_id x = Some raw_id))
    then None else (fun r => (raw_blob_ref r, raw_content_hash r)) <$> raw_objects d !! raw_id) in
  match raw with
  | None => ret ()
  | Some blob => schedule_blob_task operation_id blob ;;; statement (delete_raw_object_row raw_id)
  end.

(** The archived bytes of a post's media. *)
Definition media_blobs (post_id : Uuid) (d : db) : list (string * string) :=
  omap (fun kv => match m_blob_ref kv.2, m_content_hash kv.2 with
                  | Some blob_ref, Some hash => Some (blob_ref, hash)
                  | _, _ => None
                  end) (select (media d) (fun _ m => bool_decide (m_post_id m = post_id))).

(** [remove_unreferenced_post]. *)
Definition remove_unreferenced_post (operation_id post_id : Uuid) : P () :=
  let* held := lookup (fun d =>
    (count_where (captures d) (fun _ c => bool_decide (c_post_id c = Some post_id)),
     count_where (social_sources d) (fun _ s => bool_decide (ss_post_id s = post_id)),
     count_where (posts d) (fun id p => bool_decide (id = post_id) && bool_decide (is_Some (p_account_id p))))) in
  if (0 <? held.1.1)%Z || (0 <? held.1.2)%Z || (0 <? held.2)%Z then ret () else
  let* blobs := lookup (media_blobs post_id) in
  forM_ blobs (schedule_blob_task operation_id) ;;;
  statement (fun d => Ok (set_media (delete_where (fun _ m => bool_decide (m_post_id m = post_id)) (media d)) d)) ;;;
  statement (fun d => Ok (set_post_relations (delete_where (fun _ r => relates_to post_id r) (post_relations d)) d)) ;;;
  let* raw_ids := lookup (fun d => (fun kv => rev_raw_object_id kv.2) <$>
    select (post_revisions d) (fun _ rev => bool_decide (rev_post_id rev = post_id))) in
  statement (fun d => Ok (set_post_revisions
    (delete_where (fun _ rev => bool_decide (rev_post_id rev = post_id)) (post_revisions d)) d)) ;;;
  forM_ raw_ids (remove_raw_object operation_id) ;;;
  statement (fun d => Ok (set_tombstones
    (delete_where (fun _ t => bool_decide (t_post_id t = Some post_id)) (tombstones d)) d)) ;;;
  statement (delete_post_row post_id).

(** The capture that becomes the first one of a source when [capture_id] goes. *)
Definition next_first_capture (capture_id : Uuid) (d : db) (s : source_row) : option Uuid :=
  fst <$> head (select (captures d) (fun id c => bool_decide (c_user_ref c = ss_user_ref s)
    && bool_decide (c_post_id c = Some (ss_post_id s)) && negb (bool_decide (id = capture_id)))).

Definition detach_tombstone (t : tombstone_row) : tombstone_row :=
  mk_tombstone_row (t_post_id t) None (t_availability t) (t_reason_code t) (t_observed_at t).

(** The statements of a capture deletion that remove what names the capture. *)
Definition detach_capture (capture_id : Uuid) : P () :=
  statement (fun d => Ok (set_social_sources (update_where
    (fun _ s => bool_decide (ss_first_capture_id s = Some capture_id))
    (fun s => mk_source_row (ss_user_ref s) (ss_post_id s) (next_first_capture capture_id d s))
    (social_sources d)) d)) ;;;
  statement (fun d => Ok (set_tombstones (delete_where (fun _ t =>
    bool_decide (t_capture_id t = Some capture_id) && bool_decide (t_post_id t = None)) (tombstones d)) d)) ;;;
  statement (fun d => Ok (set_tombstones (update_where (fun _ t =>
    bool_decide (t_capture_id t = Some capture_id) && bool_decide (is_Some (t_post_id t)))
    detach_tombstone (tombstones d)) d)) ;;;
  statement (fun d => Ok (set_reresolution_items
    (delete_where (fun k _ => bool_decide (k.2 = capture_id)) (reresolution_items d)) d)) ;;;
  statement (fun d => Ok (set_capture_resolutions
    (delete_where (fun _ r => bool_decide (r_capture_id r = capture_id)) (capture_resolutions d)) d)) ;;;
  statement (delete_capture_row capture_id).

Definition detach_post (p : post_row) : post_row :=
  mk_post_row None (p_provider_post_id p) (p_permalink p) (p_post_kind p) (p_text_content p) (p_published_at p)
    (p_acquisition_method p) (p_saved_authority p) (p_upstream_status p) (p_updated_at p).

(** The statements of a connection deletion between its two loops over posts. *)
Definition detach_connection (account_id : Uuid) : P () :=
  statement (fun d => Ok (set_posts (update_where (fun _ p => on_account account_id p) detach_post (posts d)) d)) ;;;
  statement (fun d => Ok (set_credentials
    (delete_where (fun _ r => bool_decide (cr_account_id r = account_id)) (credentials d)) d)) ;;;
  statement (fun d => Ok (set_credential_audit
    (delete_where (fun _ r => bool_decide (ca_account_id r = account_id)) (credential_audit d)) d)) ;;;
  statement (fun d => Ok (set_account_budgets
    (delete_where (fun k _ => bool_decide (k.1 = account_id)) (account_budgets d)) d)) ;;;
  statement (fun d => Ok (set_account_sync_checkpoints
    (base.delete account_id (account_sync_checkpoints d)) d)) ;;;
  statement (delete_account_row account_id).

(** [apply_target_rows]. *)
Definition apply_target_rows (request : DeletionRequest) : P () :=
  match rq_target request with
  | TCapture capture_id =>
      let* post_id := sql (read (fun _ d => ok_or (c_post_id <$> captures d !! capture_id) RowNotFound)) in
      (match post_id with Some post_id => remove_final_owner_source request post_id | None => ret () end) ;;;
      detach_capture capture_id ;;;
      (match post_id with
       | Some post_id => remove_unreferenced_post (rq_operation_id request) post_id
       | None => ret ()
       end)
  | TConnection account_id =>
      let* post_ids := lookup (fun d => (select (posts d) (fun _ p => on_account account_id p)).*1) in
      forM_ post_ids (remove_final_owner_source request) ;;;
      detach_connection account_id ;;;
      forM_ post_ids (remove_unreferenced_post (rq_operation_id request))
  end.

(** The audit rows of an application. *)
Definition record_effects (operation_id : Uuid) (effects : list DeletionEffectCount) : P () :=
  forM_ effects (fun e => statement (insert_deletion_effect operation_id (audit_key (ef_class e))
    (as_str (ef_action e)) (ef_affected_count e))).

Definition apply_body (request : DeletionRequest) : P (Finish DeletionPlan) :=
  require_owned_locked request ;;;
  let* plan := build_plan request in
  let '(target_kind, target_id) := target_parts (rq_target request) in
  statement (insert_deletion_operation (rq_operation_id request)
    (mk_deletion_operation_row (rq_user_ref request) target_kind target_id "complete")) ;;;
  record_effects (rq_operation_id request) (pn_effects plan) ;;;
  apply_target_rows request ;;;
  ret (Commit plan).

(** [DeletionStore::apply]. *)
Definition apply (request : DeletionRequest) : P DeletionPlan :=
  let* completed := load_completed request in
  match completed with
  | Some result => ret result
  | None => transaction DeletionPersistence (apply_body request)
  end.

(** [DeletionStore::preview]; the rollback is a round trip of its own. *)
Definition preview (request : DeletionRequest) : P DeletionPlan :=
  transaction DeletionPersistence
    (require_owned_locked request ;;;
     let* plan := build_plan request in
     lookup (fun _ => ()) ;;;
     ret (Rollback plan)).

End WithEnv.

End PrivacyDeletion.
