(* ===== verification/OwnerErasure.v ===== *)
(** What an owner deletion erases, keeps and leaves behind: the effect of every run of
    [PrivacyDeletion.apply] that commits, and its replay. *)
From S2P Require Import Prelude Schema Store Publishing RemovalAck OutboxRelay DeletionAcks Inventory PrivacyDeletion.

Module OwnerErasure.
Import Schema Store Inventory PrivacyDeletion.
Local Open Scope string_scope.
Local Open Scope store_scope.
Local Open Scope rust_scope.

Section WithEnv.
Context {Henv : Env} {Hcon : Publishing.Contracts}.

(** * Removing the sources of a post *)

(** The unpublished removal fact of one source. *)
Definition removal_fact (request : DeletionRequest) (source_id : Uuid) (o : outbox_row) : Prop :=
  o_event_type o = Publishing.REMOVED_EVENT
  /\ pl_body (o_payload o) = RemovedBody source_id (rq_user_ref request)
  /\ pl_tenant_id (o_payload o) = Publishing.tenant (rq_user_ref request)
  /\ o_aggregate_id o = target_id (rq_target request)
  /\ o_published_at o = None /\ o_acknowledged_at o = None /\ o_causation_id o = None.

(** Rows of the outbox that removing a source of a post deletes: every fact or report filed under the
    target or the post, removals apart. *)
Definition retracts (request : DeletionRequest) (post_id : Uuid) (o : outbox_row) : bool :=
  (bool_decide (o_aggregate_id o = target_id (rq_target request)) || bool_decide (o_aggregate_id o = post_id))
  && negb (bool_decide (o_event_type o = Publishing.REMOVED_EVENT)).

(** What removing the sources [sids], each of one of the posts [posts_], leaves. *)
Record sources_removed (request : DeletionRequest) (posts_ sids : list Uuid) (d d' : db) : Prop := {
  sr_rest : d' = set_social_sources (social_sources d') (set_social_source_revisions (social_source_revisions d')
    (set_social_analysis_links (social_analysis_links d') (set_local_source_removals (local_source_removals d')
      (set_outbox_events (outbox_events d') d))));
  sr_sources : forall id s, social_sources d' !! id = Some s <-> social_sources d !! id = Some s /\ id ∉ sids;
  sr_revisions : forall id r, social_source_revisions d' !! id = Some r
    <-> social_source_revisions d !! id = Some r /\ ssr_social_source_id r ∉ sids;
  sr_links : forall id l, social_analysis_links d' !! id = Some l
    <-> social_analysis_links d !! id = Some l /\ al_social_source_id l ∉ sids;
  sr_guards : forall id, id ∈ sids -> is_Some (local_source_removals d' !! (rq_user_ref request, id));
  sr_guards_kept : local_source_removals d ⊆ local_source_removals d';
  sr_guards_new : forall k row, local_source_removals d' !! k = Some row -> local_source_removals d !! k = None ->
    k.1 = rq_user_ref request /\ k.2 ∈ sids;
  sr_facts : forall id, id ∈ sids -> exists event o, outbox_events d' !! event = Some o /\ removal_fact request id o;
  sr_outbox_kept : forall event o, outbox_events d !! event = Some o ->
    (forall post_id, post_id ∈ posts_ -> retracts request post_id o = false) -> outbox_events d' !! event = Some o;
  sr_outbox_new : forall event o, outbox_events d' !! event = Some o -> outbox_events d !! event = Some o
    \/ exists id, id ∈ sids /\ removal_fact request id o;
}.

Lemma sources_removed_nil request posts_ d : sources_removed request posts_ [] d d.
Proof.
  assert (forall (P : Prop) (x : Uuid), P <-> P /\ x ∉ []) as Hnil.
  { intros P x. split; [intros H; split; [done|apply not_elem_of_nil]|by intros []]. }
  split; try (intros; apply Hnil); try (by intros id ?%not_elem_of_nil); try done.
  - by destruct d.
  - intros k row H1 H2. congruence.
  - by left.
Qed.

Lemma removal_not_retracted request post_id o : o_event_type o = Publishing.REMOVED_EVENT ->
  retracts request post_id o = false.
Proof. intros H. unfold retracts. rewrite (bool_decide_eq_true_2 _ H). apply andb_false_r. Qed.

Lemma sources_removed_trans request p1 s1 p2 s2 d1 d2 d3 :
  sources_removed request p1 s1 d1 d2 -> sources_removed request p2 s2 d2 d3 ->
  sources_removed request (p1 ++ p2) (s1 ++ s2) d1 d3.
Proof.
  intros [R1 S1 V1 L1 G1 K1 N1 F1 O1 W1] [R2 S2 V2 L2 G2 K2 N2 F2 O2 W2]. split.
  - rewrite R2, R1. done.
  - intros id s. rewrite S2, S1, not_elem_of_app. tauto.
  - intros id r. rewrite V2, V1, not_elem_of_app. tauto.
  - intros id l. rewrite L2, L1, not_elem_of_app. tauto.
  - intros id [H|H]%elem_of_app; [|by apply G2]. destruct (G1 _ H) as [row Hrow].
    exists row. by eapply lookup_weaken.
  - by etrans.
  - intros k row H3 H1. destruct (local_source_removals d2 !! k) as [row2|] eqn:E.
    + destruct (N1 _ _ E H1). rewrite elem_of_app. auto.
    + destruct (N2 _ _ H3 E). rewrite elem_of_app. auto.
  - intros id [H|H]%elem_of_app; [|by apply F2]. destruct (F1 _ H) as (event & o & Ho & Hf).
    exists event, o. split; [|done]. apply O2; [done|]. intros p _. apply removal_not_retracted, Hf.
  - intros event o Ho Hk. apply O2; [apply O1; [done|]|]; intros p Hp; apply Hk; rewrite elem_of_app; auto.
  - intros event o [Ho|(id & Hid & Hf)]%W2; [|right; exists id; rewrite elem_of_app; auto].
    destruct (W1 _ _ Ho) as [|(id & Hid & Hf)]; [by left|right; exists id; rewrite elem_of_app; auto].
Qed.

Lemma append_removal_Ok owner source_id operation_id aggregate aggregate_id w w' :
  Publishing.append_removal owner source_id operation_id aggregate aggregate_id w = (Ok (), w') ->
  exists event payload now, outbox_events (w_db w) !! event = None
    /\ pl_body payload = RemovedBody source_id owner /\ pl_tenant_id payload = Publishing.tenant owner
    /\ w_db w' = set_outbox_events (<[event := new_outbox_row Publishing.REMOVED_EVENT aggregate aggregate_id payload
         (Some operation_id) None now]> (outbox_events (w_db w))) (w_db w).
Proof.
  unfold Publishing.append_removal. intros H. run_ok. sql_ok. simpl in *.
  eexists _, _, _. split; [exact H2|]. split; [|split; [|reflexivity]]; done.
Qed.

Lemma insert_local_removal_Ok owner source_id row d d' : insert_local_removal owner source_id row d = Ok d' ->
  exists guards, d' = set_local_source_removals guards d /\ local_source_removals d ⊆ guards
    /\ is_Some (guards !! (owner, source_id))
    /\ forall k r, guards !! k = Some r -> local_source_removals d !! k = None -> k = (owner, source_id).
Proof.
  unfold insert_local_removal. case_bool_decide as E.
  - intros [= <-]. exists (local_source_removals d). split_and!; [by destruct d|done|done|congruence].
  - apply eq_None_not_Some in E. destruct (negb _); [done|]. intros [= <-]. eexists. split; [reflexivity|].
    split_and!; [by apply insert_subseteq|by rewrite lookup_insert_eq|].
    intros k r [[<- _]|[_ Hl]]%lookup_insert_Some Hn; [done|congruence].
Qed.


Lemma fk_Ok constraint b u : fk constraint b = Ok u -> b = false.
Proof. by destruct b. Qed.

(** The accepted foreign-key tests of a statement, as facts about the rows. *)
Ltac fk_ok :=
  repeat match goal with
  | H : fk _ _ = Ok _ |- _ => apply fk_Ok in H; try rewrite exists_where_false in H
  | H : forall id r, _ !! id = Some r -> bool_decide _ = false |- _ => setoid_rewrite bool_decide_eq_false in H
  end.

Lemma delete_raw_object_row_Ok raw_id d d' : delete_raw_object_row raw_id d = Ok d' ->
  d' = set_raw_objects (base.delete raw_id (raw_objects d)) d
  /\ (forall id r, capture_resolutions d !! id = Some r -> r_raw_object_id r <> Some raw_id).
Proof. unfold delete_raw_object_row. intros H. repeat result_step. fk_ok. done. Qed.

Lemma delete_post_row_Ok post_id d d' : delete_post_row post_id d = Ok d' ->
  d' = set_posts (base.delete post_id (posts d)) d.
Proof. unfold delete_post_row. intros H. by repeat result_step. Qed.

Lemma sources_removed_one request post_id source_id d guards event o :
  local_source_removals d ⊆ guards -> is_Some (guards !! (rq_user_ref request, source_id)) ->
  (forall k r, guards !! k = Some r -> local_source_removals d !! k = None -> k = (rq_user_ref request, source_id)) ->
  delete_where (fun _ o => retracts request post_id o) (outbox_events d) !! event = None ->
  removal_fact request source_id o ->
  sources_removed request [post_id] [source_id] d
    (set_social_sources (base.delete source_id (social_sources d))
      (set_social_source_revisions (delete_where (fun _ r => bool_decide (ssr_social_source_id r = source_id))
          (social_source_revisions d))
        (set_social_analysis_links (delete_where (fun _ l => bool_decide (al_social_source_id l = source_id))
            (social_analysis_links d))
          (set_local_source_removals guards
            (set_outbox_events (<[event := o]> (delete_where (fun _ o => retracts request post_id o)
              (outbox_events d))) d))))).
Proof.
  intros Hg Hin Hnew Hev Hf. split; simpl.
  - done.
  - intros id s. rewrite lookup_delete_Some, list_elem_of_singleton. naive_solver.
  - intros id r. rewrite lookup_delete_where, bool_decide_eq_false, list_elem_of_singleton. done.
  - intros id l. rewrite lookup_delete_where, bool_decide_eq_false, list_elem_of_singleton. done.
  - by intros id ->%list_elem_of_singleton.
  - done.
  - intros k row H1 H2. rewrite (Hnew _ _ H1 H2). simpl. by rewrite list_elem_of_singleton.
  - intros id ->%list_elem_of_singleton. exists event, o. by rewrite lookup_insert_eq.
  - intros ev o' Ho Hk. specialize (Hk post_id (proj2 (list_elem_of_singleton _ _) eq_refl)).
    assert (delete_where (fun _ o => retracts request post_id o) (outbox_events d) !! ev = Some o') as Hl
      by (by apply lookup_delete_where).
    rewrite lookup_insert_ne; [done|]. intros ->. congruence.
  - intros ev o' [[_ <-]|[_ Hl]]%lookup_insert_Some.
    + right. exists source_id. by rewrite list_elem_of_singleton.
    + left. by apply lookup_delete_where in Hl as [Hl _].
Qed.

Lemma remove_source_Ok request post_id source_id w u w' : remove_source request post_id source_id w = (Ok u, w') ->
  sources_removed request [post_id] [source_id] (w_db w) (w_db w').
Proof.
  unfold remove_source, statement, sql. intros H.
  apply bind_Ok in H as (? & w1 & H1 & H). apply bind_Ok in H as ([] & w2 & H2 & H). apply mapErr_Ok in H2.
  apply append_removal_Ok in H2 as (event & payload & now & Hev & Hbody & Hten & Hd2).
  unfold delete_source_revisions, delete_source_row in H. db_ok. repeat result_step. rewrite Hd2 in *. clear Hd2.
  apply insert_local_removal_Ok in H as (guards & -> & Hg & Hin & Hnew). simpl in *.
  eapply (sources_removed_one request post_id source_id (w_db w) guards event); try done.
Qed.

Lemma remove_sources_Ok request post_id sids w u w' : forM_ sids (remove_source request post_id) w = (Ok u, w') ->
  exists posts_, (forall p, p ∈ posts_ -> p = post_id) /\ sources_removed request posts_ sids (w_db w) (w_db w').
Proof.
  apply (forM_Ok (fun sids d d' => exists posts_, (forall p, p ∈ posts_ -> p = post_id)
    /\ sources_removed request posts_ sids d d')).
  - intros d. exists []. split; [by intros p ?%not_elem_of_nil|apply sources_removed_nil].
  - intros sid rest d w1 u1 w2 H1 (posts_ & Hp & H2). exists (post_id :: posts_).
    split; [intros p [->|]%elem_of_cons; auto|].
    apply (sources_removed_trans request [post_id] [sid] posts_ rest _ (w_db w2)); [|done].
    by eapply remove_source_Ok.
Qed.


(** The owner still holds the post: through another capture, or through an account other than the one
    being deleted. *)
Definition held (request : DeletionRequest) (post_id : Uuid) (d : db) : bool :=
  let excluded := match rq_target request with TConnection id => Some id | TCapture _ => None end in
  let except := match rq_target request with TCapture id => id | TConnection _ => nil_uuid end in
  (0 <? other_captures (rq_user_ref request) post_id except d)%Z
  || (0 <? official_holding (rq_user_ref request) post_id excluded d)%Z.

(** The owner's source of one of the posts. *)
Definition owner_source (request : DeletionRequest) (post_ids : list Uuid) (d : db) (sid : Uuid) : Prop :=
  exists s, social_sources d !! sid = Some s /\ ss_user_ref s = rq_user_ref request /\ ss_post_id s ∈ post_ids.

(** What looping [remove_final_owner_source] over posts leaves. *)
Record owner_removed (request : DeletionRequest) (post_ids sids : list Uuid) (d d' : db) : Prop := {
  or_removed : exists posts_, (forall p, p ∈ posts_ -> p ∈ post_ids) /\ sources_removed request posts_ sids d d';
  or_only : forall sid, sid ∈ sids -> owner_source request post_ids d sid;
  or_all : forall post_id sid s, post_id ∈ post_ids -> held request post_id d = false ->
    social_sources d !! sid = Some s -> ss_user_ref s = rq_user_ref request -> ss_post_id s = post_id -> sid ∈ sids;
}.

Lemma source_of_true owner post_id s : source_of owner post_id s = true <-> ss_user_ref s = owner /\ ss_post_id s = post_id.
Proof. unfold source_of. by rewrite andb_true_iff, !bool_decide_eq_true. Qed.

Lemma lookup_Ok {A} (f : db -> A) w a w' : lookup f w = (Ok a, w') -> a = f (w_db w) /\ w_db w' = w_db w.
Proof. unfold lookup, sql. intros (t & [= <-] & Hd)%mapErr_Ok%read_db. done. Qed.

Lemma statement_Ok f w u w' : statement f w = (Ok u, w') -> f (w_db w) = Ok (w_db w').
Proof. unfold statement, sql. intros (t & d & Hf & Hd)%mapErr_Ok%execute_db. by rewrite Hd. Qed.

Lemma remove_final_owner_source_Ok request post_id w u w' :
  remove_final_owner_source request post_id w = (Ok u, w') ->
  exists sids, owner_removed request [post_id] sids (w_db w) (w_db w').
Proof.
  unfold remove_final_owner_source. intros H. apply bind_Ok in H as (counts & w1 & H1 & H).
  apply lookup_Ok in H1 as [-> Hd1]. simpl in H.
  match type of H with (if ?b then _ else _) _ = _ => change b with (held request post_id (w_db w)) in H end.
  destruct (held request post_id (w_db w)) eqn:Eh.
  - apply ret_db in H as [_ ->]. rewrite Hd1. exists []. split; [|by intros sid ?%not_elem_of_nil|].
    + exists []. split; [by intros p ?%not_elem_of_nil|apply sources_removed_nil].
    + intros p sid s ->%list_elem_of_singleton. congruence.
  - apply bind_Ok in H as (sids & w2 & [-> Hd2]%lookup_Ok & H).
    apply remove_sources_Ok in H as (posts_ & Hp & Hs). rewrite Hd2, Hd1 in *. eexists.
    split; [|clear Hs..].
    + exists posts_. split; [|exact Hs]. intros p ->%Hp. by apply list_elem_of_singleton.
    + intros sid ([id s] & -> & [Hl [Hu Hpost]%source_of_true]%elem_of_select)%list_elem_of_fmap. simpl.
      exists s. by rewrite list_elem_of_singleton.
    + intros p sid s ->%list_elem_of_singleton _ Hl Hu Hpost. apply list_elem_of_fmap. exists (sid, s). split; [done|].
      apply elem_of_select. split; [done|]. by apply source_of_true.
Qed.

(** Removing sources changes neither captures nor posts nor accounts. *)
Lemma sources_removed_held request posts_ sids d d' post_id : sources_removed request posts_ sids d d' ->
  held request post_id d' = held request post_id d.
Proof. intros [-> _ _ _ _ _ _ _ _ _]. done. Qed.

Lemma owner_removed_cons request post_id rest s1 s2 d1 d2 d3 : owner_removed request [post_id] s1 d1 d2 ->
  owner_removed request rest s2 d2 d3 -> owner_removed request (post_id :: rest) (s1 ++ s2) d1 d3.
Proof.
  intros [(p1 & Hp1 & R1) O1 A1] [(p2 & Hp2 & R2) O2 A2]. split.
  - exists (p1 ++ p2)%list. split; [|by eapply sources_removed_trans].
    intros p [H|H]%elem_of_app; [apply Hp1, list_elem_of_singleton in H as ->; left|right; auto].
  - intros sid [H|H]%elem_of_app.
    + destruct (O1 _ H) as (s & Hl & Hu & Hp%list_elem_of_singleton). exists s. split_and!; [done|done|]. rewrite Hp. by left.
    + destruct (O2 _ H) as (s & Hl & Hu & Hp). apply (sr_sources _ _ _ _ _ R1) in Hl as [Hl _].
      exists s. split_and!; [done|done|by right].
  - intros p sid s Hp Hh Hl Hu Hs. rewrite elem_of_app. destruct (decide (sid ∈ s1)) as [|Hn]; [by left|right].
    apply elem_of_cons in Hp as [->|Hp]; [exfalso; apply Hn; eapply A1; eauto; by apply list_elem_of_singleton|].
    eapply A2; eauto; [by rewrite (sources_removed_held _ _ _ _ _ _ R1)|]. by apply (sr_sources _ _ _ _ _ R1).
Qed.

Lemma remove_owner_sources_Ok request post_ids w u w' :
  forM_ post_ids (remove_final_owner_source request) w = (Ok u, w') ->
  exists sids, owner_removed request post_ids sids (w_db w) (w_db w').
Proof.
  apply (forM_Ok (fun post_ids d d' => exists sids, owner_removed request post_ids sids d d')).
  - intros d. exists []. split; [|by intros sid ?%not_elem_of_nil|by intros p sid s ?%not_elem_of_nil].
    exists []. split; [by intros p ?%not_elem_of_nil|apply sources_removed_nil].
  - intros post_id rest d w1 u1 w2 [s1 H1]%remove_final_owner_source_Ok [s2 H2].
    exists (s1 ++ s2)%list. by eapply owner_removed_cons.
Qed.

(** * Removing an unreferenced post *)

(** The object has a deletion task. *)
Definition scheduled (blob : string * string) (d : db) : Prop :=
  exists id t, blob_deletion_tasks d !! id = Some t /\ bt_blob_ref t = blob.1 /\ bt_content_hash t = blob.2.

Lemma scheduled_mono blob d d' : blob_deletion_tasks d ⊆ blob_deletion_tasks d' -> scheduled blob d -> scheduled blob d'.
Proof. intros Hs (id & t & Ht & Hb). exists id, t. split; [by eapply lookup_weaken|done]. Qed.

Lemma schedule_blob_task_Ok operation_id blob w u w' : schedule_blob_task operation_id blob w = (Ok u, w') ->
  w_db w' = set_blob_deletion_tasks (blob_deletion_tasks (w_db w')) (w_db w)
  /\ blob_deletion_tasks (w_db w) ⊆ blob_deletion_tasks (w_db w') /\ scheduled blob (w_db w').
Proof.
  unfold schedule_blob_task. intros (id & w1 & Hm & H)%bind_Ok. unfold now_v7 in Hm. injection Hm as <- <-.
  apply statement_Ok in H. unfold insert_blob_task in H. simpl in H.
  destruct (exists_where _ _) eqn:Ex.
  - injection H as <-. split_and!; [by destruct (w_db w)|done|].
    apply exists_where_true in Ex as (id & t & Ht & [H1%bool_decide_eq_true H2%bool_decide_eq_true]%andb_true_iff).
    by exists id, t.
  - case_bool_decide as Hn; [done|]. apply eq_None_not_Some in Hn. destruct (negb _); [done|]. injection H as <-.
    simpl. split_and!; [done|by apply insert_subseteq|]. eexists _, _. simpl. by rewrite lookup_insert_eq.
Qed.

(** Evidence that something other than the removed post still needs. *)
Definition raw_referenced (raw_id : Uuid) (d : db) : Prop :=
  (exists id rev, post_revisions d !! id = Some rev /\ rev_raw_object_id rev = raw_id)
  \/ exists id x, export_records d !! id = Some x /\ xr_raw_object_id x = Some raw_id.

Definition resolution_raw (raw_id : Uuid) (d : db) : Prop :=
  exists id r, capture_resolutions d !! id = Some r /\ r_raw_object_id r = Some raw_id.

(** What looping over raw objects leaves: only rows nothing refers to vanish, and their objects have tasks. *)
Record raw_removed (raw_ids : list Uuid) (d d' : db) : Prop := {
  rm_rest : d' = set_raw_objects (raw_objects d') (set_blob_deletion_tasks (blob_deletion_tasks d') d);
  rm_tasks : blob_deletion_tasks d ⊆ blob_deletion_tasks d';
  rm_kept : raw_objects d' ⊆ raw_objects d;
  rm_gone : forall id r, raw_objects d !! id = Some r -> raw_objects d' !! id = None ->
    id ∈ raw_ids /\ ~ raw_referenced id d /\ ~ resolution_raw id d
    /\ scheduled (raw_blob_ref r, raw_content_hash r) d';
  rm_all : forall id, id ∈ raw_ids -> raw_objects d' !! id = None \/ raw_referenced id d;
}.

Lemma raw_removed_nil d : raw_removed [] d d.
Proof. split; [by destruct d|done|done|congruence|]. by intros id ?%not_elem_of_nil. Qed.

Lemma raw_referenced_same id d tasks raws :
  raw_referenced id (set_raw_objects raws (set_blob_deletion_tasks tasks d)) <-> raw_referenced id d.
Proof. done. Qed.

Lemma raw_removed_cons raw_id rest d1 d2 d3 : raw_removed [raw_id] d1 d2 -> raw_removed rest d2 d3 ->
  raw_removed (raw_id :: rest) d1 d3.
Proof.
  intros [R1 T1 K1 G1 A1] [R2 T2 K2 G2 A2].
  assert (forall id, raw_referenced id d2 <-> raw_referenced id d1) as Href by (intros id; by rewrite R1).
  assert (forall id, resolution_raw id d2 <-> resolution_raw id d1) as Hres by (intros id; by rewrite R1).
  split.
  - rewrite R2, R1. done.
  - by etrans.
  - by etrans.
  - intros id r H1 H3. destruct (raw_objects d2 !! id) as [r2|] eqn:E2.
    + assert (r2 = r) as -> by (eapply lookup_weaken in E2; [|exact K1]; congruence).
      destruct (G2 _ _ E2 H3) as (Hin & Hn & Hn' & Hs). rewrite Href in Hn. rewrite Hres in Hn'.
      split_and!; [by right|done..].
    + destruct (G1 _ _ H1 E2) as (Hin & Hn & Hn' & Hs). apply list_elem_of_singleton in Hin as ->.
      split_and!; [by left|done|done|by eapply scheduled_mono].
  - intros id [->|Hin]%elem_of_cons.
    + destruct (A1 raw_id) as [Hg|Hg]; [by apply list_elem_of_singleton| |by right]. left.
      destruct (raw_objects d3 !! raw_id) eqn:E; [|done]. eapply lookup_weaken in E; [|exact K2]. congruence.
    + destruct (A2 _ Hin) as [|Hg]; [by left|right; by apply Href].
Qed.

Lemma exists_where_bool {R} (t : gmap Uuid R) (p : R -> bool) b : exists_where t (fun _ r => p r) = b ->
  if b then exists id r, t !! id = Some r /\ p r = true else forall id r, t !! id = Some r -> p r = false.
Proof. destruct b; [apply exists_where_true|apply exists_where_false]. Qed.

Lemma remove_raw_object_Ok operation_id raw_id w u w' : remove_raw_object operation_id raw_id w = (Ok u, w') ->
  raw_removed [raw_id] (w_db w) (w_db w').
Proof.
  unfold remove_raw_object. intros (raw & w1 & [Hraw Hd1]%lookup_Ok & H)%bind_Ok.
  destruct (_ || _) eqn:Eref.
  - subst raw. apply ret_db in H as [_ ->]. rewrite Hd1. split; [by destruct (w_db w)|done|done|congruence|].
    intros id ->%list_elem_of_singleton. right. apply orb_true_iff in Eref as [E|E]; apply exists_where_true in E as
      (id & x & Hl & Hx%bool_decide_eq_true); [left|right]; eauto.
  - apply orb_false_iff in Eref as [E1 E2]. destruct (raw_objects (w_db w) !! raw_id) as [r|] eqn:Er; subst raw; simpl in H.
    2: { apply ret_db in H as [_ ->]. rewrite Hd1. split; [by destruct (w_db w)|done|done|congruence|].
         intros id ->%list_elem_of_singleton. by left. }
    apply bind_Ok in H as (u2 & w2 & (Hrest & Hsub & Hs)%schedule_blob_task_Ok & H). rewrite Hd1 in *.
    apply statement_Ok, delete_raw_object_row_Ok in H as [-> Hres]. rewrite Hrest in *. simpl in *.
    split; simpl; [done|done|apply delete_subseteq| |].
    + intros id r' Hl Hn. apply lookup_delete_None in Hn as [<-|Hn]; [|congruence].
      assert (r' = r) as -> by congruence. split_and!; [by apply list_elem_of_singleton| | |exact Hs].
      * intros [(id & rev & Hv & <-)|(id & x & Hx & Hxr)].
        -- rewrite exists_where_false in E1. specialize (E1 _ _ Hv). by apply bool_decide_eq_false in E1.
        -- rewrite exists_where_false in E2. specialize (E2 _ _ Hx). by apply bool_decide_eq_false in E2.
      * intros (id & res & Hl' & Hr). by apply (Hres _ _ Hl').
    + intros id ->%list_elem_of_singleton. left. apply lookup_delete_eq.
Qed.

Lemma remove_raw_objects_Ok operation_id raw_ids w u w' :
  forM_ raw_ids (remove_raw_object operation_id) w = (Ok u, w') -> raw_removed raw_ids (w_db w) (w_db w').
Proof.
  apply forM_Ok; [apply raw_removed_nil|]. intros raw_id rest d w1 u1 w2 H1%remove_raw_object_Ok H2.
  by eapply raw_removed_cons.
Qed.

Lemma schedule_blob_tasks_Ok operation_id blobs w u w' :
  forM_ blobs (schedule_blob_task operation_id) w = (Ok u, w') ->
  w_db w' = set_blob_deletion_tasks (blob_deletion_tasks (w_db w')) (w_db w)
  /\ blob_deletion_tasks (w_db w) ⊆ blob_deletion_tasks (w_db w')
  /\ (forall blob, blob ∈ blobs -> scheduled blob (w_db w')).
Proof.
  apply (forM_Ok (fun blobs d d' => d' = set_blob_deletion_tasks (blob_deletion_tasks d') d
    /\ blob_deletion_tasks d ⊆ blob_deletion_tasks d' /\ forall blob, blob ∈ blobs -> scheduled blob d')).
  - intros d. split_and!; [by destruct d|done|]. by intros blob ?%not_elem_of_nil.
  - intros blob rest d w1 u1 w2 (R1 & T1 & S1)%schedule_blob_task_Ok (R2 & T2 & S2).
    split_and!; [rewrite R2, R1; done|by etrans|].
    intros b [->|Hin]%elem_of_cons; [by eapply scheduled_mono|by apply S2].
Qed.

(** Something holds the post: a capture, a source, or an account. *)
Definition post_held (post_id : Uuid) (d : db) : Prop :=
  (exists id c, captures d !! id = Some c /\ c_post_id c = Some post_id)
  \/ (exists id s, social_sources d !! id = Some s /\ ss_post_id s = post_id)
  \/ exists p, posts d !! post_id = Some p /\ is_Some (p_account_id p).

(** The rows that belong to a post alone, erased. *)
Definition post_erased (post_id : Uuid) (d : db) : db :=
  set_posts (base.delete post_id (posts d))
    (set_tombstones (delete_where (fun _ t => bool_decide (t_post_id t = Some post_id)) (tombstones d))
      (set_post_revisions (delete_where (fun _ rev => bool_decide (rev_post_id rev = post_id)) (post_revisions d))
        (set_post_relations (delete_where (fun _ r => relates_to post_id r) (post_relations d))
          (set_media (delete_where (fun _ m => bool_decide (m_post_id m = post_id)) (media d)) d)))).

(** What removing an unheld post leaves: its rows are gone, evidence that nothing else needs is gone with them,
    and every archived object among them has a deletion task. *)
Record post_removed (post_id : Uuid) (d d' : db) : Prop := {
  pr_unheld : ~ post_held post_id d;
  pr_rest : d' = set_raw_objects (raw_objects d') (set_blob_deletion_tasks (blob_deletion_tasks d')
    (post_erased post_id d));
  pr_tasks : blob_deletion_tasks d ⊆ blob_deletion_tasks d';
  pr_media : forall id m blob_ref hash, media d !! id = Some m -> m_post_id m = post_id ->
    m_blob_ref m = Some blob_ref -> m_content_hash m = Some hash -> scheduled (blob_ref, hash) d';
  pr_raw_kept : raw_objects d' ⊆ raw_objects d;
  pr_raw_gone : forall id r, raw_objects d !! id = Some r -> raw_objects d' !! id = None ->
    (exists i rev, post_revisions d !! i = Some rev /\ rev_post_id rev = post_id /\ rev_raw_object_id rev = id)
    /\ ~ raw_referenced id d' /\ ~ resolution_raw id d
    /\ scheduled (raw_blob_ref r, raw_content_hash r) d';
  pr_raw_all : forall i rev, post_revisions d !! i = Some rev -> rev_post_id rev = post_id ->
    raw_objects d' !! rev_raw_object_id rev = None \/ raw_referenced (rev_raw_object_id rev) d';
}.

Lemma count_where_pos {R} (t : gmap Uuid R) p :
  (0 <? count_where t p)%Z = true <-> exists id r, t !! id = Some r /\ p id r = true.
Proof.
  rewrite Z.ltb_lt. pose proof (count_where_nonneg t p). split.
  - intros Hp. apply exists_where_true. destruct (exists_where t p) eqn:E; [done|].
    rewrite exists_where_false in E. apply count_where_zero in E. lia.
  - intros He. destruct (decide (count_where t p = 0)%Z) as [E|]; [|lia]. rewrite count_where_zero in E.
    destruct He as (id & r & Hl & Hc). rewrite (E _ _ Hl) in Hc. done.
Qed.

Lemma post_held_counts post_id d :
  (0 <? count_where (captures d) (fun _ c => bool_decide (c_post_id c = Some post_id)))%Z
  || (0 <? count_where (social_sources d) (fun _ s => bool_decide (ss_post_id s = post_id)))%Z
  || (0 <? count_where (posts d) (fun id p => bool_decide (id = post_id) && bool_decide (is_Some (p_account_id p))))%Z
  = true <-> post_held post_id d.
Proof.
  unfold post_held. rewrite !orb_true_iff, !count_where_pos.
  setoid_rewrite andb_true_iff. setoid_rewrite bool_decide_eq_true. naive_solver.
Qed.

Lemma elem_of_media_blobs post_id d id m blob_ref hash : media d !! id = Some m -> m_post_id m = post_id ->
  m_blob_ref m = Some blob_ref -> m_content_hash m = Some hash -> (blob_ref, hash) ∈ media_blobs post_id d.
Proof.
  intros Hm Hp Hb Hh. unfold media_blobs. apply list_elem_of_omap. exists (id, m). split.
  - apply elem_of_select. split; [done|]. by apply bool_decide_eq_true.
  - simpl. by rewrite Hb, Hh.
Qed.

Lemma remove_unreferenced_post_Ok operation_id post_id w u w' :
  remove_unreferenced_post operation_id post_id w = (Ok u, w') ->
  (post_held post_id (w_db w) /\ w_db w' = w_db w) \/ post_removed post_id (w_db w) (w_db w').
Proof.
  unfold remove_unreferenced_post. intros (counts & w1 & [-> Hd1]%lookup_Ok & H)%bind_Ok. cbn [fst snd] in H.
  match type of H with (if ?b then _ else _) _ = _ => destruct b eqn:Eh end.
  { left. apply ret_db in H as [_ ->]. split; [by apply post_held_counts|done]. }
  right. apply bind_Ok in H as (blobs & w2 & [-> Hd2]%lookup_Ok & H).
  apply bind_Ok in H as (? & w3 & (R3 & T3 & S3)%schedule_blob_tasks_Ok & H).
  apply bind_Ok in H as (? & w4 & H4%statement_Ok & H). injection H4 as H4.
  apply bind_Ok in H as (? & w5 & H5%statement_Ok & H). injection H5 as H5.
  apply bind_Ok in H as (raw_ids & w6 & [Hraw Hd6]%lookup_Ok & H).
  apply bind_Ok in H as (? & w7 & H7%statement_Ok & H). injection H7 as H7.
  apply bind_Ok in H as (? & w8 & [R8 T8 K8 G8 A8]%remove_raw_objects_Ok & H).
  apply bind_Ok in H as (? & w9 & H9%statement_Ok & H). injection H9 as H9.
  apply statement_Ok, delete_post_row_Ok in H.
  assert (w_db w5 = set_post_relations (post_relations (w_db w5)) (set_media (media (w_db w5))
    (set_blob_deletion_tasks (blob_deletion_tasks (w_db w3)) (w_db w)))) as R5
    by (rewrite <- H5, <- H4, R3, Hd2, Hd1; db_cbn; reflexivity).
  assert (w_db w' = set_raw_objects (raw_objects (w_db w8)) (set_blob_deletion_tasks (blob_deletion_tasks (w_db w8))
    (post_erased post_id (w_db w)))) as Rw
    by (rewrite H, <- H9, R8, <- H7, Hd6, <- H5, <- H4, R3, Hd2, Hd1; db_cbn; reflexivity).
  assert (raw_objects (w_db w7) = raw_objects (w_db w) /\ blob_deletion_tasks (w_db w7) = blob_deletion_tasks (w_db w3)
    /\ post_revisions (w_db w5) = post_revisions (w_db w)) as (Hr7 & Hb7 & Hv5)
    by (rewrite <- H7, Hd6, R5; db_cbn; done).
  assert (forall id, raw_referenced id (w_db w7) <-> raw_referenced id (w_db w')) as Href
    by (intros id; rewrite Rw, <- H7, Hd6, R5; db_cbn; done).
  assert (forall id, resolution_raw id (w_db w7) <-> resolution_raw id (w_db w)) as Hres
    by (intros id; rewrite <- H7, Hd6, R5; db_cbn; done).
  assert (raw_objects (w_db w') = raw_objects (w_db w8) /\ blob_deletion_tasks (w_db w') = blob_deletion_tasks (w_db w8))
    as [Hrw Hbw] by (by rewrite Rw).
  assert (forall blob, scheduled blob (w_db w8) <-> scheduled blob (w_db w')) as Hsw
    by (intros blob; unfold scheduled; by rewrite Hbw).
  rewrite Hd2, Hd1, Hb7, Hr7, Hv5 in *. subst raw_ids. split.
  - intros Hheld%post_held_counts. congruence.
  - by rewrite Hrw, Hbw.
  - rewrite Hbw. by etrans.
  - intros id m blob_ref hash Hm Hp Hb Hh. apply Hsw. eapply scheduled_mono; [|eapply S3, elem_of_media_blobs; eauto].
    done.
  - by rewrite Hrw.
  - intros id r Hl Hn. rewrite Hrw in Hn. destruct (G8 _ _ Hl Hn) as (Hin & H1 & H2 & H3).
    rewrite Href in H1. rewrite Hres in H2. rewrite Hsw in H3. split_and!; try done.
    apply list_elem_of_fmap in Hin as ([i rev] & -> & [Hv Hp%bool_decide_eq_true]%elem_of_select).
    by exists i, rev.
  - intros i rev Hv Hp. rewrite Hrw, <- Href. apply A8, list_elem_of_fmap. exists (i, rev). split; [done|].
    apply elem_of_select. split; [done|]. by apply bool_decide_eq_true.
Qed.

(** * Removing several posts *)

Inductive posts_removed : list Uuid -> db -> db -> Prop :=
| posts_removed_nil d : posts_removed [] d d
| posts_removed_held post_id rest d d' : post_held post_id d -> posts_removed rest d d' ->
    posts_removed (post_id :: rest) d d'
| posts_removed_cons post_id rest d d1 d' : post_removed post_id d d1 -> posts_removed rest d1 d' ->
    posts_removed (post_id :: rest) d d'.

Lemma remove_unreferenced_posts_Ok operation_id post_ids w u w' :
  forM_ post_ids (remove_unreferenced_post operation_id) w = (Ok u, w') -> posts_removed post_ids (w_db w) (w_db w').
Proof.
  apply forM_Ok; [apply posts_removed_nil|].
  intros post_id rest d w1 u1 w2 [[Hh Hd]|Hr]%remove_unreferenced_post_Ok H2.
  - apply posts_removed_held; [done|]. by rewrite <- Hd.
  - by eapply posts_removed_cons.
Qed.

(** What removing posts can change, and what it keeps. *)
Record posts_frame (d d' : db) : Prop := {
  pf_rest : d' = set_posts (posts d') (set_tombstones (tombstones d') (set_post_revisions (post_revisions d')
    (set_post_relations (post_relations d') (set_media (media d') (set_raw_objects (raw_objects d')
      (set_blob_deletion_tasks (blob_deletion_tasks d') d))))));
  pf_posts : posts d' ⊆ posts d;
  pf_tombstones : tombstones d' ⊆ tombstones d;
  pf_revisions : post_revisions d' ⊆ post_revisions d;
  pf_media : media d' ⊆ media d;
  pf_raw : raw_objects d' ⊆ raw_objects d;
  pf_tasks : blob_deletion_tasks d ⊆ blob_deletion_tasks d';
  pf_held : forall id, post_held id d -> posts d' !! id = posts d !! id
    /\ (forall i rev, post_revisions d !! i = Some rev -> rev_post_id rev = id -> post_revisions d' !! i = Some rev)
    /\ (forall i m, media d !! i = Some m -> m_post_id m = id -> media d' !! i = Some m);
  pf_raw_gone : forall id r, raw_objects d !! id = Some r -> raw_objects d' !! id = None ->
    ~ raw_referenced id d' /\ scheduled (raw_blob_ref r, raw_content_hash r) d';
  pf_media_gone : forall id m blob_ref hash, media d !! id = Some m -> media d' !! id = None ->
    m_blob_ref m = Some blob_ref -> m_content_hash m = Some hash -> scheduled (blob_ref, hash) d';
}.

Lemma posts_frame_refl d : posts_frame d d.
Proof. split; try done; try congruence. by destruct d. Qed.

Lemma delete_where_subseteq {K R} `{Countable K} (p : K -> R -> bool) (t : gmap K R) : delete_where p t ⊆ t.
Proof. apply map_subseteq_spec. by intros k r [? _]%lookup_delete_where. Qed.

Lemma post_removed_frame post_id d d' : post_removed post_id d d' -> posts_frame d d'.
Proof.
  intros [Hu R T M K G A].
  assert (posts d' = base.delete post_id (posts d)
    /\ tombstones d' = delete_where (fun _ t => bool_decide (t_post_id t = Some post_id)) (tombstones d)
    /\ post_revisions d' = delete_where (fun _ rev => bool_decide (rev_post_id rev = post_id)) (post_revisions d)
    /\ media d' = delete_where (fun _ m => bool_decide (m_post_id m = post_id)) (media d)) as (Ep & Et & Ev & Em)
    by (rewrite R; done).
  split; rewrite ?Ep, ?Et, ?Ev, ?Em; try apply delete_where_subseteq; try done.
  - rewrite R at 1. unfold post_erased. db_cbn. rewrite R at 3. done.
  - apply delete_subseteq.
  - intros id Hh. assert (id <> post_id) as Hne by (by intros ->). split_and!.
    + by rewrite lookup_delete_ne.
    + intros i rev Hv Hp. apply lookup_delete_where. split; [done|]. apply bool_decide_eq_false. congruence.
    + intros i m Hm Hp. apply lookup_delete_where. split; [done|]. apply bool_decide_eq_false. congruence.
  - intros id r Hl Hn. destruct (G _ _ Hl Hn) as (_ & H1 & _ & H2). done.
  - intros id m blob_ref hash Hm Hn Hb Hh. eapply M; eauto.
    destruct (decide (m_post_id m = post_id)) as [|Hne]; [done|exfalso].
    assert (delete_where (fun _ m => bool_decide (m_post_id m = post_id)) (media d) !! id = Some m); [|congruence].
    apply lookup_delete_where. split; [done|]. by apply bool_decide_eq_false.
Qed.

Lemma posts_frame_held d d' id : posts_frame d d' -> post_held id d -> post_held id d'.
Proof.
  intros [R _ _ _ _ _ _ H _ _] Hh. destruct (H _ Hh) as (Hp & _). unfold post_held. rewrite Hp, R. exact Hh.
Qed.

Lemma posts_frame_referenced d d' id : posts_frame d d' -> raw_referenced id d' -> raw_referenced id d.
Proof.
  intros [R _ _ V _ _ _ _ _ _] [(i & rev & Hv & He)|(i & x & Hx & He)].
  - left. exists i, rev. split; [|done]. by eapply lookup_weaken.
  - right. exists i, x. split; [|done]. by rewrite R in Hx.
Qed.

Lemma posts_frame_trans d1 d2 d3 : posts_frame d1 d2 -> posts_frame d2 d3 -> posts_frame d1 d3.
Proof.
  intros F1 F2. pose proof F1 as [R1 P1 T1 V1 M1 K1 S1 H1 G1 N1]. pose proof F2 as [R2 P2 T2 V2 M2 K2 S2 H2 G2 N2].
  split; try (by etrans).
  - rewrite R2 at 1. rewrite R1. db_cbn. done.
  - intros id Hh. destruct (H1 _ Hh) as (E1 & Ev1 & Em1).
    destruct (H2 _ (posts_frame_held _ _ _ F1 Hh)) as (E2 & Ev2 & Em2).
    split_and!; [congruence| |]; eauto.
  - intros id r Hl Hn. destruct (raw_objects d2 !! id) as [r2|] eqn:E2.
    + assert (r2 = r) as -> by (eapply lookup_weaken in E2; [|exact K1]; congruence). eauto.
    + destruct (G1 _ _ Hl E2) as [Hr Hs]. split; [|by eapply scheduled_mono].
      intros Href. by eapply Hr, posts_frame_referenced.
  - intros id m blob_ref hash Hl Hn Hb Hh. destruct (media d2 !! id) as [m2|] eqn:E2.
    + assert (m2 = m) as -> by (eapply lookup_weaken in E2; [|exact M1]; congruence). eauto.
    + eapply scheduled_mono; [exact S2|]. eauto.
Qed.

Lemma posts_removed_frame post_ids d d' : posts_removed post_ids d d' -> posts_frame d d'.
Proof.
  induction 1 as [d|p rest d d' _ _ IH|p rest d d1 d' Hr _ IH]; [apply posts_frame_refl|done|].
  eapply posts_frame_trans; [by eapply post_removed_frame|done].
Qed.

(** An unheld post of the list is gone. *)
Lemma posts_removed_gone post_ids d d' id : posts_removed post_ids d d' -> id ∈ post_ids -> ~ post_held id d ->
  posts d' !! id = None.
Proof.
  induction 1 as [d|p rest d d' Hh Hrest IH|p rest d d1 d' Hr Hrest IH]; [by intros ?%not_elem_of_nil|..];
    intros [->|Hin]%elem_of_cons Hn; auto.
  - done.
  - apply posts_removed_frame in Hrest as [_ P _ _ _ _ _ _ _ _].
    assert (posts d1 !! p = None) as Hg by (destruct Hr as [_ -> _ _ _ _ _]; apply lookup_delete_eq).
    destruct (posts d' !! p) eqn:E; [|done]. eapply lookup_weaken in E; [|exact P]. congruence.
  - apply IH; [done|]. intros Hh. apply Hn. apply post_removed_frame in Hr as [R P _ _ _ _ _ _ _ _].
    destruct Hh as [Hc|[Hs|(q & Hq & Ha)]].
    + left. by rewrite R in Hc.
    + right. left. by rewrite R in Hs.
    + right. right. exists q. split; [by eapply lookup_weaken|done].
Qed.

(** * Detaching the target *)

(** The tables after everything that names a capture is gone. *)
Definition capture_detached (capture_id : Uuid) (d : db) : db :=
  set_captures (base.delete capture_id (captures d))
    (set_capture_resolutions (delete_where (fun _ r => bool_decide (r_capture_id r = capture_id)) (capture_resolutions d))
      (set_reresolution_items (delete_where (fun k _ => bool_decide (k.2 = capture_id)) (reresolution_items d))
        (set_tombstones (update_where (fun _ t =>
            bool_decide (t_capture_id t = Some capture_id) && bool_decide (is_Some (t_post_id t))) detach_tombstone
            (delete_where (fun _ t =>
              bool_decide (t_capture_id t = Some capture_id) && bool_decide (t_post_id t = None)) (tombstones d)))
          (set_social_sources (update_where (fun _ s => bool_decide (ss_first_capture_id s = Some capture_id))
              (fun s => mk_source_row (ss_user_ref s) (ss_post_id s) (next_first_capture capture_id d s))
              (social_sources d)) d)))).

Definition connection_detached (account_id : Uuid) (d : db) : db :=
  set_accounts (base.delete account_id (accounts d))
    (set_account_sync_checkpoints (base.delete account_id (account_sync_checkpoints d))
      (set_account_budgets (delete_where (fun k _ => bool_decide (k.1 = account_id)) (account_budgets d))
        (set_credential_audit (delete_where (fun _ r => bool_decide (ca_account_id r = account_id)) (credential_audit d))
          (set_credentials (delete_where (fun _ r => bool_decide (cr_account_id r = account_id)) (credentials d))
            (set_posts (update_where (fun _ p => on_account account_id p) detach_post (posts d)) d))))).

Definition detached (t : DeletionTarget) (d : db) : db :=
  match t with TCapture id => capture_detached id d | TConnection id => connection_detached id d end.

Lemma delete_capture_row_Ok capture_id d d' : delete_capture_row capture_id d = Ok d' ->
  d' = set_captures (base.delete capture_id (captures d)) d.
Proof. unfold delete_capture_row. intros H. by repeat result_step. Qed.

Lemma delete_account_row_Ok account_id d d' : delete_account_row account_id d = Ok d' ->
  d' = set_accounts (base.delete account_id (accounts d)) d.
Proof. unfold delete_account_row. intros H. by repeat result_step. Qed.

(** Splits a successful run of statements, keeping one equation per statement. *)
Ltac statements_ok H :=
  repeat match type of H with
  | bind (statement _) _ _ = (Ok _, _) =>
      let E := fresh "E" in apply bind_Ok in H as (? & ? & E%statement_Ok & H);
      try (injection E as E; rewrite <- ?E in *)
  end.

Lemma detach_capture_Ok capture_id w u w' : detach_capture capture_id w = (Ok u, w') ->
  w_db w' = capture_detached capture_id (w_db w).
Proof.
  unfold detach_capture. intros H. statements_ok H. apply statement_Ok, delete_capture_row_Ok in H. rewrite H.
  repeat match goal with E : _ = w_db _ |- _ => rewrite <- E; clear E end.
  unfold capture_detached. db_cbn. reflexivity.
Qed.

Lemma detach_connection_Ok account_id w u w' : detach_connection account_id w = (Ok u, w') ->
  w_db w' = connection_detached account_id (w_db w).
Proof.
  unfold detach_connection. intros H. statements_ok H. apply statement_Ok, delete_account_row_Ok in H. rewrite H.
  repeat match goal with E : _ = w_db _ |- _ => rewrite <- E; clear E end.
  unfold connection_detached. db_cbn. reflexivity.
Qed.

(** The posts a target leads to. *)
Definition target_posts (t : DeletionTarget) (d : db) : list Uuid :=
  match t with
  | TCapture id => option_list (captures d !! id ≫= c_post_id)
  | TConnection id => (select (posts d) (fun _ p => on_account id p)).*1
  end.

(** The effect of an application on the rows: sources, target, posts, in this order. *)
Definition rows_deleted (request : DeletionRequest) (d d' : db) : Prop :=
  exists sids d1, owner_removed request (target_posts (rq_target request) d) sids d d1
    /\ posts_removed (target_posts (rq_target request) d) (detached (rq_target request) d1) d'.

Lemma owner_removed_none request d : owner_removed request [] [] d d.
Proof.
  split; [|by intros sid ?%not_elem_of_nil|by intros p sid s ?%not_elem_of_nil].
  exists []. split; [by intros p ?%not_elem_of_nil|apply sources_removed_nil].
Qed.

Lemma apply_target_rows_Ok request w u w' : apply_target_rows request w = (Ok u, w') ->
  rows_deleted request (w_db w) (w_db w').
Proof.
  unfold apply_target_rows, rows_deleted. destruct (rq_target request) as [capture_id|account_id] eqn:Et; intros H.
  - apply bind_Ok in H as (post_id & w1 & (t & Hp%ok_or_Ok & Hd1)%mapErr_Ok%read_db & H). unfold tables in Hd1.
    simpl. destruct (captures (w_db w) !! capture_id) as [c|] eqn:Ec; [|done]. simpl in *. injection Hp as <-.
    apply bind_Ok in H as (? & w2 & H2 & H). apply bind_Ok in H as (? & w3 & H3%detach_capture_Ok & H).
    destruct (c_post_id c) as [post_id|]; simpl.
    + apply remove_final_owner_source_Ok in H2 as [sids H2]. rewrite Hd1 in H2. exists sids, (w_db w2). split; [done|].
      rewrite <- H3. apply remove_unreferenced_post_Ok in H as [[Hh Hd]|Hr].
      * rewrite Hd. apply posts_removed_held; [done|apply posts_removed_nil].
      * eapply posts_removed_cons; [exact Hr|apply posts_removed_nil].
    + apply ret_db in H2 as [_ ->], H as [_ ->]. exists [], (w_db w1). rewrite <- H3, Hd1.
      split; [apply owner_removed_none|apply posts_removed_nil].
  - apply bind_Ok in H as (post_ids & w1 & [-> Hd1]%lookup_Ok & H).
    apply bind_Ok in H as (? & w2 & [sids H2]%remove_owner_sources_Ok & H).
    apply bind_Ok in H as (? & w3 & H3%detach_connection_Ok & H). apply remove_unreferenced_posts_Ok in H.
    rewrite Hd1 in H2. exists sids, (w_db w2). simpl. by rewrite <- H3.
Qed.

(** * The audit *)

Definition effect_key (operation_id : Uuid) (e : DeletionEffectCount) : Uuid * string * string :=
  (operation_id, audit_key (ef_class e), as_str (ef_action e)).

(** The plan of a request, as a function of the tables. *)
Definition plan_effects (request : DeletionRequest) (d : db) : list DeletionEffectCount :=
  match rq_target request with
  | TCapture capture_id =>
      let counted := capture_counts capture_id d in
      let effects := set_counts (set_count (initial_effects (rq_target request)) Captures 1) counted.2 in
      match counted.1 with
      | None => effects
      | Some post_id => share_effects effects (other_captures (rq_user_ref request) post_id capture_id d)
          (shared_counts (rq_user_ref request) post_id d)
      end
  | TConnection account_id => plan_connection account_id d
  end.

Lemma build_plan_Ok request w plan w' : build_plan request w = (Ok plan, w') ->
  plan = mk_plan (rq_operation_id request) (plan_effects request (w_db w)) /\ w_db w' = w_db w.
Proof.
  unfold build_plan, plan_effects. destruct (rq_target request) as [capture_id|account_id];
    intros (effects & w1 & H & [-> ->]%ret_db)%bind_Ok.
  - apply bind_Ok in H as (counted & w2 & [-> Hd2]%lookup_Ok & H).
    destruct (capture_counts capture_id (w_db w)).1 as [post_id|]; [|apply ret_db in H as [-> ->]; done].
    apply bind_Ok in H as (shared & w3 & [-> Hd3]%lookup_Ok & [-> ->]%ret_db). rewrite Hd3, Hd2. done.
  - apply lookup_Ok in H as [-> Hd]. done.
Qed.

Definition classes_of (effects : list DeletionEffectCount) : list OwnedDataClass := ef_class <$> effects.

Lemma alter_effect_classes class f effects : (forall e, ef_class (f e) = ef_class e) ->
  classes_of (alter_effect class f effects) = classes_of effects.
Proof.
  intros Hf. induction effects as [|e rest IH]; [done|]. simpl. case_bool_decide; simpl; [by rewrite Hf|].
  unfold classes_of in *. simpl. by rewrite IH.
Qed.

Lemma set_counts_classes counts : forall effects, classes_of (set_counts effects counts) = classes_of effects.
Proof.
  induction counts as [|[c n] rest IH]; intros effects; [done|]. unfold set_counts in *. simpl. rewrite IH.
  by apply alter_effect_classes.
Qed.

Lemma share_effects_classes counts others : forall effects,
  classes_of (share_effects effects others counts) = classes_of effects.
Proof.
  unfold share_effects. destruct (_ <? _)%Z; [|done].
  induction counts as [|[c n] rest IH]; intros effects; [done|]. simpl. rewrite IH. by apply alter_effect_classes.
Qed.

(** A plan has every class of the inventory once, in its order. *)
Lemma plan_effects_classes request d : classes_of (plan_effects request d) = OWNED_DATA_CLASSES.
Proof.
  unfold plan_effects. destruct (rq_target request) as [capture_id|account_id] eqn:Et.
  - assert (classes_of (set_counts (set_count (initial_effects (TCapture capture_id)) Captures 1)
      (capture_counts capture_id d).2) = OWNED_DATA_CLASSES) as Hc
      by (rewrite set_counts_classes; unfold set_count; by rewrite alter_effect_classes).
    destruct (capture_counts capture_id d).1; [|exact Hc]. by rewrite share_effects_classes, Hc.
  - unfold plan_connection. destruct (_ <? _)%Z; [unfold set_effect; rewrite alter_effect_classes by done|];
      by rewrite set_counts_classes.
Qed.

(** The effects of a plan, stored. *)
Definition store_effects (operation_id : Uuid) (effects : list DeletionEffectCount)
  (t : gmap (Uuid * string * string) Z) : gmap (Uuid * string * string) Z :=
  foldl (fun t e => <[effect_key operation_id e := ef_affected_count e]> t) t effects.

Lemma record_effects_Ok operation_id effects w u w' : record_effects operation_id effects w = (Ok u, w') ->
  w_db w' = set_deletion_effects (store_effects operation_id effects (deletion_effects (w_db w))) (w_db w).
Proof.
  apply (forM_Ok (fun effects d d' =>
    d' = set_deletion_effects (store_effects operation_id effects (deletion_effects d)) d)).
  - intros d. by destruct d.
  - intros e rest d w1 u1 w2 H%statement_Ok ->. unfold insert_deletion_effect in H.
    repeat first [destruct (negb _); [done|]|case_match; try done]. injection H as <-. done.
Qed.

Definition operation_row (request : DeletionRequest) : deletion_operation_row :=
  mk_deletion_operation_row (rq_user_ref request) (target_parts (rq_target request)).1
    (target_parts (rq_target request)).2 "complete".

(** The tables with the audit rows of an application. *)
Definition audited (request : DeletionRequest) (d : db) : db :=
  set_deletion_effects (store_effects (rq_operation_id request) (plan_effects request d) (deletion_effects d))
    (set_deletion_operations (<[rq_operation_id request := operation_row request]> (deletion_operations d)) d).

Definition owned (request : DeletionRequest) (d : db) : Prop :=
  match rq_target request with
  | TCapture id => exists c, captures d !! id = Some c /\ c_user_ref c = rq_user_ref request
  | TConnection id => exists a, accounts d !! id = Some a /\ a_user_ref a = rq_user_ref request
  end.

Lemma require_owned_Ok request w u w' : require_owned_locked request w = (Ok u, w') ->
  owned request (w_db w) /\ w_db w' = w_db w.
Proof.
  unfold require_owned_locked, owned. intros (owner & w1 & [-> Hd]%lookup_Ok & H)%bind_Ok.
  case_bool_decide as Ho; [|done]. apply ret_db in H as [_ ->]. split; [|done].
  destruct (rq_target request) as [id|id]; apply fmap_Some in Ho as (row & Hl & He); eauto.
Qed.

(** A committed application. *)
Definition committed (request : DeletionRequest) (d d' : db) : Prop :=
  owned request d /\ deletion_operations d !! rq_operation_id request = None
  /\ rows_deleted request (audited request d) d'.

Lemma apply_body_Ok request w f w' : apply_body request w = (Ok f, w') ->
  f = Commit (mk_plan (rq_operation_id request) (plan_effects request (w_db w)))
  /\ committed request (w_db w) (w_db w').
Proof.
  unfold apply_body. intros (? & w1 & [Ho Hd1]%require_owned_Ok & H)%bind_Ok.
  apply bind_Ok in H as (plan & w2 & [-> Hd2]%build_plan_Ok & H). rewrite Hd1 in *.
  destruct (target_parts (rq_target request)) as [kind id] eqn:Etp.
  apply bind_Ok in H as (? & w3 & H3%statement_Ok & H). unfold insert_deletion_operation in H3.
  case_bool_decide as Hnew; [done|]. injection H3 as H3. apply eq_None_not_Some in Hnew. rewrite Hd2 in *.
  apply bind_Ok in H as (? & w4 & H4%record_effects_Ok & H).
  apply bind_Ok in H as (? & w5 & H5%apply_target_rows_Ok & H). apply ret_db in H as [-> ->]. split; [done|].
  split_and!; [done|done|]. unfold audited, operation_row. rewrite Etp. rewrite H4, <- H3 in H5. exact H5.
Qed.

(** * What a committed deletion leaves *)

(** The target's own row is gone, and so is every row that refers to it: the columns with a foreign key to
    [captures] or [accounts], and the re-resolution items. What only mentions the identifier stays: the audit
    of the deletion itself names its target, and events already in the outbox keep their text. The rows of
    [credential_audit] have such a foreign key and are deleted, although the inventory classifies them as
    retained ([credential_audit_not_retained]). *)
Definition unnamed (t : DeletionTarget) (d : db) : Prop :=
  match t with
  | TCapture capture_id =>
      captures d !! capture_id = None
      /\ (forall id r, capture_resolutions d !! id = Some r -> r_capture_id r <> capture_id)
      /\ (forall k v, reresolution_items d !! k = Some v -> k.2 <> capture_id)
      /\ (forall id t, tombstones d !! id = Some t -> t_capture_id t <> Some capture_id)
      /\ (forall id s, social_sources d !! id = Some s -> ss_first_capture_id s <> Some capture_id)
  | TConnection account_id =>
      accounts d !! account_id = None
      /\ (forall id r, credentials d !! id = Some r -> cr_account_id r <> account_id)
      /\ (forall id r, credential_audit d !! id = Some r -> ca_account_id r <> account_id)
      /\ (forall k b, account_budgets d !! k = Some b -> k.1 <> account_id)
      /\ account_sync_checkpoints d !! account_id = None
      /\ (forall id p, posts d !! id = Some p -> p_account_id p <> Some account_id)
  end.

Lemma next_first_capture_ne capture_id d s : next_first_capture capture_id d s <> Some capture_id.
Proof.
  unfold next_first_capture. intros ([id c] & Hh & ->)%fmap_Some. simpl in *.
  apply head_select_Some in Hh as [_ Hp]. rewrite !andb_true_iff, negb_true_iff in Hp. destruct Hp as [_ Hp].
  by apply bool_decide_eq_false in Hp.
Qed.

Lemma detached_unnamed t d : unnamed t (detached t d).
Proof.
  destruct t as [capture_id|account_id]; simpl; split_and!; try apply lookup_delete_eq.
  - by intros id r [_ ?%bool_decide_eq_false]%lookup_delete_where.
  - by intros k v [_ ?%bool_decide_eq_false]%lookup_delete_where.
  - intros id t. rewrite lookup_update_where. intros (t0 & [_ Hp]%lookup_delete_where & ->)%fmap_Some.
    destruct (bool_decide (t_capture_id t0 = Some capture_id)) eqn:E1; simpl in *; [|by apply bool_decide_eq_false in E1].
    apply bool_decide_eq_false in Hp. by rewrite bool_decide_eq_true_2 by (by apply not_eq_None_Some).
  - intros id s. rewrite lookup_update_where. intros (s0 & _ & ->)%fmap_Some.
    case_bool_decide; [apply next_first_capture_ne|done].
  - by intros id r [_ ?%bool_decide_eq_false]%lookup_delete_where.
  - by intros id r [_ ?%bool_decide_eq_false]%lookup_delete_where.
  - by intros k b [_ ?%bool_decide_eq_false]%lookup_delete_where.
  - intros id p. rewrite lookup_update_where. intros (p0 & _ & ->)%fmap_Some. unfold on_account.
    case_bool_decide; done.
Qed.

Lemma posts_frame_unnamed t d d' : posts_frame d d' -> unnamed t d -> unnamed t d'.
Proof.
  intros [R P T _ _ _ _ _ _ _]. destruct t as [cap|acc]; simpl.
  - intros (H1 & H2 & H3 & H4 & H5). rewrite R. db_cbn. split_and!; try done.
    intros id t Ht. apply (H4 id). by eapply lookup_weaken.
  - intros (H1 & H2 & H3 & H4 & H5 & H6). rewrite R. db_cbn. split_and!; try done.
    intros id p Hp. apply (H6 id). by eapply lookup_weaken.
Qed.

(** The source is withdrawn: no row of it is left, its guard is stored and its removal fact queued. *)
Record withdrawn (request : DeletionRequest) (sid : Uuid) (d : db) : Prop := {
  wd_source : social_sources d !! sid = None;
  wd_revisions : forall id r, social_source_revisions d !! id = Some r -> ssr_social_source_id r <> sid;
  wd_links : forall id l, social_analysis_links d !! id = Some l -> al_social_source_id l <> sid;
  wd_guard : is_Some (local_source_removals d !! (rq_user_ref request, sid));
  wd_fact : exists event o, outbox_events d !! event = Some o /\ removal_fact request sid o;
}.

Lemma sources_removed_withdrawn request posts_ sids d d' sid : sources_removed request posts_ sids d d' ->
  sid ∈ sids -> withdrawn request sid d'.
Proof.
  intros [R S V L G _ _ F _ _] Hin. split; auto.
  - destruct (social_sources d' !! sid) as [s|] eqn:E; [|done]. by apply S in E as [_ ?].
  - intros id r [_ Hn]%V <-. done.
  - intros id l [_ Hn]%L <-. done.
Qed.

(** Tables that neither detaching the target nor removing posts touches. *)
Lemma withdrawn_after request sid t d d' : withdrawn request sid d -> posts_frame (detached t d) d' ->
  withdrawn request sid d'.
Proof.
  intros [S V L G F] [R _ _ _ _ _ _ _ _ _]. rewrite R. destruct t; split; simpl; try done.
  rewrite lookup_update_where, S. done.
Qed.

(** Whoever holds a post after the deletion: another capture, a source of another owner, another account. *)
Definition held_by_others (request : DeletionRequest) (post_id : Uuid) (d : db) : Prop :=
  (exists id c, captures d !! id = Some c /\ c_post_id c = Some post_id /\ rq_target request <> TCapture id)
  \/ (exists id s, social_sources d !! id = Some s /\ ss_post_id s = post_id /\ ss_user_ref s <> rq_user_ref request)
  \/ exists p a, posts d !! post_id = Some p /\ p_account_id p = Some a /\ rq_target request <> TConnection a.

(** What a deletion must leave alone. *)
Record spared (request : DeletionRequest) (d d' : db) : Prop := {
  sp_captures : forall id, rq_target request <> TCapture id -> captures d' !! id = captures d !! id;
  sp_accounts : forall id, rq_target request <> TConnection id -> accounts d' !! id = accounts d !! id;
  sp_credentials : forall id r, credentials d !! id = Some r -> rq_target request <> TConnection (cr_account_id r) ->
    credentials d' !! id = Some r;
  sp_sources : forall id s, social_sources d !! id = Some s -> ss_user_ref s <> rq_user_ref request ->
    exists s', social_sources d' !! id = Some s' /\ ss_user_ref s' = ss_user_ref s /\ ss_post_id s' = ss_post_id s;
  sp_source_revisions : forall id r s, social_source_revisions d !! id = Some r ->
    social_sources d !! ssr_social_source_id r = Some s -> ss_user_ref s <> rq_user_ref request ->
    social_source_revisions d' !! id = Some r;
  sp_links : forall id l s, social_analysis_links d !! id = Some l ->
    social_sources d !! al_social_source_id l = Some s -> ss_user_ref s <> rq_user_ref request ->
    social_analysis_links d' !! id = Some l;
  sp_posts : forall id p, posts d !! id = Some p -> held_by_others request id d ->
    (exists p', posts d' !! id = Some p' /\ (p' = p \/ p' = detach_post p))
    /\ (forall i rev, post_revisions d !! i = Some rev -> rev_post_id rev = id -> post_revisions d' !! i = Some rev)
    /\ (forall i m, media d !! i = Some m -> m_post_id m = id -> media d' !! i = Some m);
  sp_raw : forall id r, raw_objects d !! id = Some r -> raw_referenced id d' -> raw_objects d' !! id = Some r;
  sp_removals : forall id o, outbox_events d !! id = Some o -> o_event_type o = Publishing.REMOVED_EVENT ->
    outbox_events d' !! id = Some o;
  sp_events : forall id o, outbox_events d' !! id = Some o -> outbox_events d !! id = Some o
    \/ exists sid, removal_fact request sid o;
  sp_inbox : inbox_events d' = inbox_events d;
  sp_exports : export_runs d' = export_runs d /\ export_records d' = export_records d;
}.

Lemma owner_source_not_other request post_ids d sid s : owner_source request post_ids d sid ->
  social_sources d !! sid = Some s -> ss_user_ref s <> rq_user_ref request -> False.
Proof. intros (s0 & Hs & Hu & _) Hl Hne. rewrite Hs in Hl. injection Hl as ->. done. Qed.

(** Holders that the deletion spares still hold the post after the target was detached. *)
Lemma held_by_others_after request post_ids sids d d1 id : owner_removed request post_ids sids d d1 ->
  held_by_others request id d -> post_held id (detached (rq_target request) d1).
Proof.
  intros [(posts_ & _ & [R S _ _ _ _ _ _ _ _]) Honly _] [(i & c & Hc & Hp & Ht)|[(i & s & Hs & Hp & Hu)|(p & a & Hp & Ha & Ht)]].
  - left. exists i, c. split; [|done]. rewrite R. destruct (rq_target request) as [cap|acc]; simpl; [|done].
    rewrite lookup_delete_ne; [done|congruence].
  - right. left. assert (i ∉ sids) as Hn by (intros Hin; eapply owner_source_not_other; eauto).
    assert (social_sources d1 !! i = Some s) as Hs1 by (by apply S).
    destruct (rq_target request) as [cap|acc]; simpl; [|by exists i, s].
    eexists i, _. rewrite lookup_update_where, Hs1. simpl. split; [done|]. by case_bool_decide.
  - right. right. rewrite R. destruct (rq_target request) as [cap|acc]; simpl; [by exists p|].
    exists p. rewrite lookup_update_where, Hp. simpl. unfold on_account.
    rewrite bool_decide_eq_false_2 by congruence. by rewrite Ha.
Qed.

Lemma detached_posts t d id p : posts d !! id = Some p ->
  exists p', posts (detached t d) !! id = Some p' /\ (p' = p \/ p' = detach_post p).
Proof.
  intros Hp. destruct t as [cap|acc]; simpl; [by eauto|]. rewrite lookup_update_where, Hp. simpl.
  destruct (on_account acc p); eauto.
Qed.

(** The tables a target's detachment leaves alone. *)
Lemma detached_rest t d : post_revisions (detached t d) = post_revisions d /\ media (detached t d) = media d
  /\ raw_objects (detached t d) = raw_objects d /\ outbox_events (detached t d) = outbox_events d
  /\ inbox_events (detached t d) = inbox_events d /\ export_runs (detached t d) = export_runs d
  /\ export_records (detached t d) = export_records d /\ social_source_revisions (detached t d) = social_source_revisions d
  /\ social_analysis_links (detached t d) = social_analysis_links d.
Proof. by destruct t. Qed.

Lemma detached_source t d id s : social_sources d !! id = Some s -> exists s', social_sources (detached t d) !! id = Some s'
  /\ ss_user_ref s' = ss_user_ref s /\ ss_post_id s' = ss_post_id s.
Proof.
  intros Hs. destruct t as [cap|acc]; simpl; [|by eauto]. rewrite lookup_update_where, Hs. simpl.
  eexists. split; [done|]. by case_bool_decide.
Qed.

Lemma rows_deleted_spared request d d' : rows_deleted request d d' -> spared request d d'.
Proof.
  intros (sids & d1 & Hown & Hposts). pose proof (posts_removed_frame _ _ _ Hposts) as [R P T V M K S H G N].
  pose proof Hown as [(posts_ & Hp & [Rs Ss Vs Ls _ _ _ _ Os Ws]) Honly _].
  pose proof (detached_rest (rq_target request) d1) as (Ev & Em & Er & Eo & Ei & Ex & Ey & Es & El).
  assert (forall sid s, social_sources d !! sid = Some s -> ss_user_ref s <> rq_user_ref request -> sid ∉ sids) as Hother.
  { intros sid s Hs Hu Hin. eapply owner_source_not_other; eauto. }
  assert (captures d1 = captures d /\ accounts d1 = accounts d /\ credentials d1 = credentials d /\ posts d1 = posts d
    /\ post_revisions d1 = post_revisions d /\ media d1 = media d /\ raw_objects d1 = raw_objects d
    /\ inbox_events d1 = inbox_events d /\ export_runs d1 = export_runs d /\ export_records d1 = export_records d)
    as (C1 & A1 & Cr1 & P1 & V1 & M1 & K1 & I1 & X1 & Y1) by (rewrite Rs; done).
  split.
  - intros id Ht. rewrite R. simpl. destruct (rq_target request) as [cap|acc]; simpl; rewrite C1; [|done].
    rewrite lookup_delete_ne; [done|congruence].
  - intros id Ht. rewrite R. simpl. destruct (rq_target request) as [cap|acc]; simpl; rewrite A1; [done|].
    rewrite lookup_delete_ne; [done|congruence].
  - intros id r Hr Ht. rewrite R. simpl. destruct (rq_target request) as [cap|acc]; simpl; rewrite Cr1; [done|].
    apply lookup_delete_where. split; [done|]. apply bool_decide_eq_false. congruence.
  - intros id s Hs Hu. rewrite R. simpl. apply detached_source. apply Ss. eauto.
  - intros id r s Hr Hs Hu. rewrite R. simpl. rewrite Es. apply Vs. eauto.
  - intros id l s Hl Hs Hu. rewrite R. simpl. rewrite El. apply Ls. eauto.
  - intros id p Hl Hh. destruct (H id) as (Hpost & Hrev & Hmed); [by eapply held_by_others_after|].
    rewrite Ev, V1 in Hrev. rewrite Em, M1 in Hmed. split_and!; [|done|done].
    rewrite Hpost. apply detached_posts. by rewrite P1.
  - intros id r Hr Href. destruct (raw_objects d' !! id) as [r'|] eqn:E.
    + eapply lookup_weaken in E; [|exact K]. rewrite Er, K1 in E. congruence.
    + destruct (G id r) as [Hn _]; [by rewrite Er, K1|done|done].
  - intros id o Ho Ht. rewrite R. simpl. rewrite Eo. apply Os; [done|]. intros p _. by apply removal_not_retracted.
  - intros id o. rewrite R. simpl. rewrite Eo. intros [|(sid & _ & Hf)]%Ws; [by left|right; eauto].
  - rewrite R. simpl. by rewrite Ei.
  - rewrite R. simpl. by rewrite Ex, Ey.
Qed.

(** Every source of the owner that nothing else of the owner holds is withdrawn. *)
Lemma rows_deleted_withdrawn request d d' post_id sid s : rows_deleted request d d' ->
  post_id ∈ target_posts (rq_target request) d -> held request post_id d = false ->
  social_sources d !! sid = Some s -> ss_user_ref s = rq_user_ref request -> ss_post_id s = post_id ->
  withdrawn request sid d'.
Proof.
  intros (sids & d1 & [(posts_ & _ & Hs) _ Hall] & Hposts) Hin Hh Hl Hu Hp.
  eapply withdrawn_after; [|by eapply posts_removed_frame]. eapply sources_removed_withdrawn; eauto.
Qed.

Lemma rows_deleted_unnamed request d d' : rows_deleted request d d' -> unnamed (rq_target request) d'.
Proof.
  intros (sids & d1 & _ & Hposts). eapply posts_frame_unnamed; [by eapply posts_removed_frame|apply detached_unnamed].
Qed.

(** Archived bytes whose row vanished have a deletion task. *)
Record bytes_scheduled (d d' : db) : Prop := {
  bs_raw : forall id r, raw_objects d !! id = Some r -> raw_objects d' !! id = None ->
    ~ raw_referenced id d' /\ scheduled (raw_blob_ref r, raw_content_hash r) d';
  bs_media : forall id m blob_ref hash, media d !! id = Some m -> media d' !! id = None ->
    m_blob_ref m = Some blob_ref -> m_content_hash m = Some hash -> scheduled (blob_ref, hash) d';
  bs_tasks : blob_deletion_tasks d ⊆ blob_deletion_tasks d';
}.

Lemma rows_deleted_bytes request d d' : rows_deleted request d d' -> bytes_scheduled d d'.
Proof.
  intros (sids & d1 & [(posts_ & _ & [Rs _ _ _ _ _ _ _ _ _]) _ _] & Hposts).
  pose proof (posts_removed_frame _ _ _ Hposts) as [R P T V M K S H G N].
  assert (raw_objects (detached (rq_target request) d1) = raw_objects d /\ media (detached (rq_target request) d1) = media d
    /\ blob_deletion_tasks (detached (rq_target request) d1) = blob_deletion_tasks d) as (Er & Em & Et).
  { rewrite Rs. by destruct (rq_target request). }
  rewrite Er, Em, Et in *. by split.
Qed.

(** * Runs of [apply] *)

Lemma load_completed_db request w : w_db (load_completed request w).2 = w_db w.
Proof.
  change ((fun d => d = w_db w) (w_db (load_completed request w).2)).
  assert (preserves (fun d => d = w_db w) (load_completed request)) as Hp; [|by apply Hp].
  unfold load_completed, lookup, sql. preserve_steps.
Qed.

(** Whatever fails, a run leaves the tables as they were or the deletion whole. *)
Lemma erasure_cases request w : w_db (apply request w).2 = w_db w
  \/ committed request (w_db w) (w_db (apply request w).2).
Proof.
  unfold apply, bind. pose proof (load_completed_db request w) as Hl.
  destruct (load_completed request w) as [[[plan|]|e] w1]; simpl in *; [by left| |by left].
  destruct (transaction_atomic DeletionPersistence (apply_body request) w1)
    as [->|(f & w2 & w3 & Hd2 & _ & _ & Hbody & ->)]; [by left|right].
  apply apply_body_Ok in Hbody as [_ Hc]. by rewrite <- Hl, <- Hd2.
Qed.

(** The audit rows of an operation. *)
Record recorded (request : DeletionRequest) (effects : list DeletionEffectCount) (d : db) : Prop := {
  rc_operation : deletion_operations d !! rq_operation_id request = Some (operation_row request);
  rc_effects : forall class action count, deletion_effects d !! (rq_operation_id request, class, action) = Some count
    <-> exists e, e ∈ effects /\ class = audit_key (ef_class e) /\ action = as_str (ef_action e)
          /\ count = ef_affected_count e;
}.

(** The foreign key of the audit: effects belong to a stored operation. *)
Definition audit_keyed (d : db) : Prop :=
  forall k, is_Some (deletion_effects d !! k) -> is_Some (deletion_operations d !! k.1.1).

Lemma store_effects_lookup operation_id effects : forall t k, NoDup (classes_of effects) ->
  store_effects operation_id effects t !! k =
  match List.find (fun e => bool_decide (effect_key operation_id e = k)) effects with
  | Some e => Some (ef_affected_count e)
  | None => t !! k
  end.
Proof.
  induction effects as [|e rest IH]; intros t k Hn; [done|]. simpl.
  unfold classes_of in *. simpl in Hn. apply NoDup_cons in Hn as [Hnin Hn]. unfold store_effects in *. simpl.
  rewrite IH by done. case_bool_decide as Ek; [|destruct (List.find _ _); [done|by rewrite lookup_insert_ne]].
  subst k. rewrite lookup_insert_eq. destruct (List.find _ _) as [e'|] eqn:Ef; [|done].
  apply find_some in Ef as [Hin He%bool_decide_eq_true]. injection He as He _. apply audit_key_inj in He.
  destruct Hnin. rewrite <- He. apply list_elem_of_fmap. exists e'. split; [done|]. by apply list_elem_of_In.
Qed.

Lemma plan_effects_NoDup request d : NoDup (classes_of (plan_effects request d)).
Proof. rewrite plan_effects_classes. apply (bool_decide_unpack _). by vm_compute. Qed.

Lemma NoDup_classes_eq effects e1 e2 : NoDup (classes_of effects) -> e1 ∈ effects -> e2 ∈ effects ->
  ef_class e1 = ef_class e2 -> e1 = e2.
Proof.
  intros Hn [i Hi]%list_elem_of_lookup [j Hj]%list_elem_of_lookup He.
  assert (i = j) as ->; [|congruence].
  eapply (NoDup_lookup (classes_of effects)); [done|..]; unfold classes_of; rewrite list_lookup_fmap;
    [rewrite Hi|rewrite Hj]; simpl; [done|by rewrite He].
Qed.

Lemma rows_deleted_audit request d d' : rows_deleted request d d' ->
  deletion_operations d' = deletion_operations d /\ deletion_effects d' = deletion_effects d.
Proof.
  intros (sids & d1 & [(posts_ & _ & [Rs _ _ _ _ _ _ _ _ _]) _ _] & Hposts).
  pose proof (posts_removed_frame _ _ _ Hposts) as [R _ _ _ _ _ _ _ _ _]. rewrite R, Rs.
  by destruct (rq_target request).
Qed.

(** The audit tables of a committed application. *)
Lemma committed_audit request d d' : committed request d d' ->
  deletion_operations d' = <[rq_operation_id request := operation_row request]> (deletion_operations d)
  /\ deletion_effects d' = store_effects (rq_operation_id request) (plan_effects request d) (deletion_effects d).
Proof. intros (_ & _ & [-> ->]%rows_deleted_audit). done. Qed.

Lemma committed_recorded request d d' : audit_keyed d -> committed request d d' ->
  recorded request (plan_effects request d) d'.
Proof.
  intros Hfk Hc. pose proof (committed_audit _ _ _ Hc) as [Ho He]. destruct Hc as (_ & Hnew & _). split.
  - rewrite Ho. apply lookup_insert_eq.
  - intros class action count. rewrite He, store_effects_lookup by apply plan_effects_NoDup.
    destruct (List.find _ _) as [e|] eqn:Ef.
    + apply find_some in Ef as [Hin%list_elem_of_In Hk%bool_decide_eq_true]. injection Hk as <- <-. split.
      * intros [= <-]. by exists e.
      * intros (e' & Hin' & Hc%audit_key_inj & _ & ->). f_equal. f_equal.
        eapply NoDup_classes_eq; eauto using plan_effects_NoDup.
    + split.
      * intros Hl. assert (is_Some (deletion_operations d !! rq_operation_id request)) as [? Hs]
          by (apply (Hfk (rq_operation_id request, class, action)); eauto). congruence.
      * intros (e & Hin & -> & -> & _). pose proof (find_none _ _ Ef e) as Hno.
        rewrite <- list_elem_of_In in Hno. specialize (Hno Hin). by rewrite bool_decide_eq_true_2 in Hno.
Qed.

Lemma committed_audit_keyed request d d' : audit_keyed d -> committed request d d' -> audit_keyed d'.
Proof.
  intros Hfk Hc. pose proof (committed_recorded _ _ _ Hfk Hc) as [Hop _].
  pose proof (committed_audit _ _ _ Hc) as [Ho He]. intros [[op class] action]. simpl.
  destruct (decide (op = rq_operation_id request)) as [->|Hne]; [by rewrite Hop|].
  rewrite Ho, He, store_effects_lookup by apply plan_effects_NoDup.
  destruct (List.find _ _) as [e|] eqn:Ef.
  - apply find_some in Ef as [_ Hk%bool_decide_eq_true]. by injection Hk as <- _ _.
  - rewrite lookup_insert_ne by done. apply (Hfk (op, class, action)).
Qed.

(** * Replaying a recorded operation *)

Definition encode_effect (e : DeletionEffectCount) : string * string * Z :=
  (audit_key (ef_class e), as_str (ef_action e), ef_affected_count e).

Lemma decode_encode effects : decode_effects (encode_effect <$> effects) = Ok effects.
Proof.
  induction effects as [|[c a n] rest IH]; [done|]. simpl. rewrite from_audit_key_audit_key. simpl.
  rewrite from_str_as_str. simpl. unfold fmap in IH. by rewrite IH.
Qed.

Lemma NoDup_encode effects : NoDup (classes_of effects) -> NoDup (encode_effect <$> effects).
Proof.
  intros Hn. apply (NoDup_fmap_1 (fun t => t.1.1)). rewrite <- list_fmap_compose.
  change (NoDup ((audit_key ∘ ef_class) <$> effects)). rewrite list_fmap_compose. apply NoDup_fmap_2; [|done].
  exact audit_key_inj.
Qed.

Lemma NoDup_stored operation_id (l : list (Uuid * string * string * Z)) : NoDup l ->
  NoDup ((fun kv => (kv.1.1.2, kv.1.2, kv.2)) <$> List.filter (fun kv => bool_decide (kv.1.1.1 = operation_id)) l).
Proof.
  intros Hl.
  apply NoDup_fmap_2_strong.
  - intros [[[o1 c1] a1] n1] [[[o2 c2] a2] n2] [_ H1%bool_decide_eq_true]%list_elem_of_In%filter_In
      [_ H2%bool_decide_eq_true]%list_elem_of_In%filter_In [= -> -> ->]. simpl in *. congruence.
  - apply NoDup_ListNoDup, List.NoDup_filter, NoDup_ListNoDup, Hl.
Qed.

Lemma recorded_stored request effects d : NoDup (classes_of effects) -> recorded request effects d ->
  stored_effects (rq_operation_id request) d ≡ₚ encode_effect <$> effects.
Proof.
  intros Hn [_ He]. unfold stored_effects. rewrite sort_by_perm.
  apply NoDup_Permutation; [apply NoDup_stored, NoDup_map_to_list|by apply NoDup_encode|]. intros [[class action] n]. split.
  - intros ([[[o c] a] m] & [= -> -> ->] & [Hl Ho]%list_elem_of_In%filter_In)%list_elem_of_fmap.
    rewrite <- list_elem_of_In, elem_of_map_to_list in Hl. apply bool_decide_eq_true in Ho. simpl in *. subst o.
    apply He in Hl as (e & Hin & -> & -> & ->). apply list_elem_of_fmap. by exists e.
  - intros (e & [= -> -> ->] & Hin)%list_elem_of_fmap. apply list_elem_of_fmap.
    exists (effect_key (rq_operation_id request) e, ef_affected_count e). split; [done|].
    apply list_elem_of_In, filter_In. simpl. rewrite bool_decide_eq_true_2 by done. split; [|done].
    rewrite <- list_elem_of_In, elem_of_map_to_list. apply He. by exists e.
Qed.

Lemma ranked_sorted effects : classes_of effects = OWNED_DATA_CLASSES ->
  StronglySorted (fun a b => (class_rank (ef_class a) <=? class_rank (ef_class b))%nat = true) effects.
Proof.
  intros Hc. assert (StronglySorted (fun a b => (class_rank a <=? class_rank b)%nat = true) (classes_of effects)) as Hs.
  { rewrite Hc. repeat (constructor; [|repeat (constructor; [reflexivity|]); constructor]). constructor. }
  clear Hc. induction effects as [|e rest IH]; [constructor|]. unfold classes_of in Hs. simpl in Hs.
  apply StronglySorted_inv in Hs as [Hs Hall]. constructor; [by apply IH|]. by apply Forall_fmap in Hall.
Qed.

Lemma ranked_sort effects effects' : classes_of effects = OWNED_DATA_CLASSES -> effects' ≡ₚ effects ->
  sort_by (fun a b => (class_rank (ef_class a) <=? class_rank (ef_class b))%nat) effects' = effects.
Proof.
  intros Hc. apply sort_by_unique.
  - intros x y. lia.
  - intros x y z. lia.
  - intros x y Hx Hy H1 H2. eapply NoDup_classes_eq; eauto.
    + rewrite Hc. apply (bool_decide_unpack _). by vm_compute.
    + apply class_rank_inj. lia.
  - by apply ranked_sorted.
Qed.

Lemma recorded_decoded request effects d : classes_of effects = OWNED_DATA_CLASSES -> recorded request effects d ->
  exists effects', decode_effects (stored_effects (rq_operation_id request) d) = Ok effects'
    /\ sort_by (fun a b => (class_rank (ef_class a) <=? class_rank (ef_class b))%nat) effects' = effects.
Proof.
  intros Hc Hr. apply recorded_stored in Hr as Hp;
    [|rewrite Hc; apply (bool_decide_unpack _); by vm_compute].
  apply Permutation_map_inv in Hp as (effects' & -> & Hp). exists effects'. split; [apply decode_encode|].
  by apply ranked_sort.
Qed.

(** * What deletion guarantees *)

Lemma spared_refl request d : spared request d d.
Proof. split; eauto 7. Qed.

Lemma committed_spared request d d' : committed request d d' -> spared request d d'.
Proof. intros (_ & _ & [H1 H2 H3 H4 H5 H6 H7 H8 H9 H10 H11 H12]%rows_deleted_spared). split; assumption. Qed.

(** A post of the target that nothing holds any more is gone, with its revisions and media. *)
Lemma rows_deleted_gone request d d' post_id : rows_deleted request d d' ->
  post_id ∈ target_posts (rq_target request) d -> ~ post_held post_id d' -> posts d' !! post_id = None.
Proof.
  intros (sids & d1 & _ & Hposts) Hin Hn. eapply posts_removed_gone; [done|done|].
  contradict Hn. eapply posts_frame_held; [by eapply posts_removed_frame|done].
Qed.


(** [C13] A deletion touches nothing else. Whatever fails on the way, a run of [apply] keeps the other
    captures and accounts, the credentials of other accounts, the sources, revisions and analysis
    links of every other owner, every post somebody else holds with its revisions and media, raw
    evidence that a revision or an export still refers to, every queued removal, the inbox and the
    exports; and the only events it adds are removals of this request. *)
Theorem deletion_isolated request w : spared request (w_db w) (w_db (apply request w).2).
Proof.
  destruct (erasure_cases request w) as [->|Hc]; [apply spared_refl|by apply committed_spared].
Qed.

(** No bytes are orphaned. Whatever fails on the way, after a run of [apply] every raw object and
    every archived medium whose row vanished has a deletion task for its bytes, a vanished raw object
    is referred to by no revision and no export, and no earlier task was lost. *)
Theorem deletion_schedules_bytes request w : bytes_scheduled (w_db w) (w_db (apply request w).2).
Proof.
  destruct (erasure_cases request w) as [->|(_ & _ & Hr)]; [|].
  - split; [congruence|congruence|done].
  - apply rows_deleted_bytes in Hr as [H1 H2 H3]. split; assumption.
Qed.

Lemma erasure_silent request : silent (apply request).
Proof.
  unfold apply, load_completed, apply_body, require_owned_locked, build_plan, record_effects, apply_target_rows,
    remove_final_owner_source, detach_capture, detach_connection, remove_unreferenced_post, remove_raw_object,
    schedule_blob_task, remove_source, statement, lookup, sql, Publishing.append_removal. silent_steps.
Qed.

Import RemovalAck OutboxRelay DeletionAcks Store PrivacyDeletion.

(** To the pump and to the acknowledgements a deletion is one of the other writers. *)
Lemma apply_other_writer request w : other_writer w (apply request w).2.
Proof.
  assert (spared request (w_db w) (w_db (apply request w).2)) as Hs
    by (destruct (erasure_cases request w) as [->|Hc]; [apply spared_refl|by apply committed_spared]).
  split; [|..|apply erasure_silent].
  - intros id o Ho Hr. apply (sp_removals _ _ _ Hs id o Ho). by apply bool_decide_eq_true in Hr.
  - intros id o Ho. destruct (sp_events _ _ _ Hs id o Ho) as [|(sid & _ & _ & _ & _ & Hp & _)]; [by left|right].
    unfold is_published. by rewrite Hp.
Qed.

(** [C14] A withdrawn source stays withdrawn until Knowledge has answered. Take a run of [apply] that
    changed the tables, and a source of the owner of a post of the target that nothing else of the
    owner holds. The run queues a removal of it, and after any passes of the pump, messages of
    Knowledge and other writers, further deletions among them, in any order and with any faults, this
    removal is still in the outbox; and unless one of the messages was the answer of the
    owner's tenant to it, there is a time from which it is due again. *)
Theorem deletion_retracted_until_answered {Hcodec : AckCodec} request w post_id sid s :
  relay_inv (w_db w) (w_bus w) -> w_db (apply request w).2 <> w_db w ->
  post_id ∈ target_posts (rq_target request) (w_db w) -> held request post_id (w_db w) = false ->
  social_sources (w_db w) !! sid = Some s -> ss_user_ref s = rq_user_ref request -> ss_post_id s = post_id ->
  exists event, forall msgs w', history msgs (apply request w).2 w' ->
    exists o, outbox_events (w_db w') !! event = Some o
      /\ pl_body (o_payload o) = RemovedBody sid (rq_user_ref request)
      /\ ((exists t, forall now, (t <= now)%Z -> publish_due now o = true \/ resend_due now o = true)
          \/ exists payload ack, payload ∈ msgs /\ decode payload = Some ack
               /\ ak_acknowledged_event_id ack = event /\ ak_owner ack = Publishing.tenant (rq_user_ref request)).
Proof.
  intros Hi Hch Hin Hh Hs Hu Hp. destruct (erasure_cases request w) as [|(_ & _ & Hr)]; [done|].
  destruct (rows_deleted_withdrawn request _ _ post_id sid s Hr Hin Hh Hs Hu Hp)
    as [_ _ _ _ (event & o & Ho & Hty & Hbody & Hten & _ & _ & Hack & _)].
  exists event. intros msgs w' Hhist.
  apply (history_keeps _ _ _ event o) in Hhist as [Hi' Hk]; [|by eapply other_relay_inv, Hi; apply apply_other_writer
    |done|by apply bool_decide_eq_true|by unfold is_acknowledged; rewrite Hack].
  destruct (removal_kept_due _ _ _ _ Hi' Hk) as (o' & Ho' & Hpl & Hdue). exists o'. by rewrite Hpl, <- Hten.
Qed.

(** The tables agree on the audit of one operation. *)
Definition same_audit (operation_id : Uuid) (d d' : db) : Prop :=
  deletion_operations d' !! operation_id = deletion_operations d !! operation_id
  /\ forall class action, deletion_effects d' !! (operation_id, class, action)
       = deletion_effects d !! (operation_id, class, action).

Lemma recorded_same request effects d d' : same_audit (rq_operation_id request) d d' -> recorded request effects d ->
  recorded request effects d'.
Proof.
  intros [Ho He] [H1 H2]. split; [by rewrite Ho|]. intros class action count. by rewrite He.
Qed.

(** A computation that starts with a lookup. *)
Lemma bind_lookup {A B} (f : db -> A) (k : A -> M PrivacyDeletionError B) w :
  bind (lookup f) k w = k (f (w_db w)) (tick w)
  \/ bind (lookup f) k w = (Err (DeletionPersistence ConnectionLost), tick w).
Proof.
  unfold bind, lookup, sql, mapErr, read, query. destruct (fault (w_tick w)); [left|right|right]; try done;
    by rewrite tick_with_db_same.
Qed.

Lemma load_completed_recorded request effects w : classes_of effects = OWNED_DATA_CLASSES ->
  recorded request effects (w_db w) ->
  exists w', w_db w' = w_db w /\ (load_completed request w = (Ok (Some (mk_plan (rq_operation_id request) effects)), w')
    \/ load_completed request w = (Err (DeletionPersistence ConnectionLost), w')).
Proof.
  intros Hc Hr. destruct (recorded_decoded _ _ _ Hc Hr) as (effects' & Hdec & Hsort). destruct Hr as [Hop _].
  unfold load_completed. edestruct @bind_lookup as [H|H]; rewrite H; clear H; [|eexists; split; [|by right]; done].
  rewrite Hop. unfold operation_row. destruct (target_parts (rq_target request)) as [kind id]. simpl.
  rewrite !bool_decide_eq_true_2 by done. simpl.
  edestruct @bind_lookup as [H|H]; rewrite H; clear H; [|eexists; split; [|by right]; done].
  simpl. rewrite Hdec. unfold bind, lift. simpl. rewrite Hsort. eexists. split; [|by left]. done.
Qed.

(** [C40] A repeated deletion request is answered from its audit. Once an application has committed,
    whether or not its answer arrived, repeating the request at any later time, with the audit rows of
    the operation as the commit left them, changes nothing and returns the plan of the tables it was
    applied to, unless the connection is lost; and a request that reuses the operation for another
    owner or target changes nothing and is a conflict. *)
Theorem deletion_replay request d d1 w : audit_keyed d -> committed request d d1 ->
  same_audit (rq_operation_id request) d1 (w_db w) ->
  (w_db (apply request w).2 = w_db w
   /\ ((apply request w).1 = Ok (mk_plan (rq_operation_id request) (plan_effects request d))
       \/ (apply request w).1 = Err (DeletionPersistence ConnectionLost)))
  /\ forall other, rq_operation_id other = rq_operation_id request -> other <> request ->
       w_db (apply other w).2 = w_db w
       /\ ((apply other w).1 = Err OperationConflict
           \/ (apply other w).1 = Err (DeletionPersistence ConnectionLost)).
Proof.
  intros Hfk Hc Hsame. pose proof (recorded_same _ _ _ _ Hsame (committed_recorded _ _ _ Hfk Hc)) as Hr. split.
  - destruct (load_completed_recorded request (plan_effects request d) w) as (w' & Hd & [H|H]);
      [apply plan_effects_classes|done|..]; unfold apply, bind; rewrite H; split; auto.
  - intros other Hid Hne. destruct Hr as [Hop _].
    enough (load_completed other w = (Err OperationConflict, tick w)
      \/ load_completed other w = (Err (DeletionPersistence ConnectionLost), tick w)) as [H|H]
      by (unfold apply, bind; rewrite H; auto).
    unfold load_completed. edestruct @bind_lookup as [H|H]; rewrite H; clear H; [|by right].
    rewrite Hid, Hop. destruct (target_parts (rq_target other)) as [kind id] eqn:E.
    assert (negb (bool_decide (do_user_ref (operation_row request) = rq_user_ref other))
      || negb (bool_decide (do_target_kind (operation_row request) = kind))
      || negb (bool_decide (do_target_id (operation_row request) = id)) = true) as ->; [|by auto].
    rewrite !orb_true_iff, !negb_true_iff, !bool_decide_eq_false. simpl.
    destruct other as [op u t], request as [op' u' t']. simpl in *. subst op'.
    destruct (decide (u' = u)) as [->|]; [|by auto]. destruct t, t'; simplify_eq/=; auto; right; congruence.
Qed.

(** A preview is honest. A preview changes nothing, and an application to the tables it saw, of an
    operation not yet recorded, reports exactly the previewed effects and commits; both are
    refused for a target that is not the owner's. *)
Theorem preview_then_apply request w w1 w2 plan result :
  preview request w = (Ok plan, w1) -> deletion_operations (w_db w) !! rq_operation_id request = None ->
  apply request w1 = (Ok result, w2) ->
  w_db w1 = w_db w /\ result = plan /\ owned request (w_db w) /\ committed request (w_db w) (w_db w2)
  /\ ef_class <$> pn_effects plan = OWNED_DATA_CLASSES.
Proof.
  intros Hp Hnew Ha.
  apply transaction_Ok in Hp as (w0 & w3 & Hd0 & _ & _ & [[Hb _]|[Hb Hd1]]);
    apply bind_Ok in Hb as (? & w4 & [Ho Hd4]%require_owned_Ok & Hb);
    apply bind_Ok in Hb as (pl & w5 & [-> Hd5]%build_plan_Ok & Hb);
    apply bind_Ok in Hb as (? & w6 & _ & [Hpl _]%ret_db); [done|]. injection Hpl as ->.
  unfold apply in Ha. apply bind_Ok in Ha as (completed & w7 & Hl & Ha).
  pose proof (load_completed_db request w1) as Hd7. rewrite Hl in Hd7. simpl in Hd7.
  assert (completed = None) as ->.
  { unfold load_completed in Hl. apply bind_Ok in Hl as (existing & w8 & [-> _]%lookup_Ok & Hl).
    rewrite Hd1, Hnew in Hl. by apply ret_db in Hl as [-> _]. }
  apply transaction_Ok in Ha as (w8 & w9 & Hd8 & _ & _ & [[Hb Hd2]|[Hb _]]);
    apply apply_body_Ok in Hb as [Hf Hc]; [|done].
  injection Hf as ->. rewrite Hd8, Hd7, Hd1 in *. rewrite Hd4, Hd0 in *. rewrite Hd2.
  split_and!; try done. apply plan_effects_classes.
Qed.

Lemma alter_effect_elem class f effects e : e ∈ effects -> ef_class e <> class -> e ∈ alter_effect class f effects.
Proof.
  intros Hin Hne. induction effects as [|e0 rest IH]; [done|]. simpl.
  apply elem_of_cons in Hin as [->|Hin]; case_bool_decide; [done|left|right; done|right; auto].
Qed.

Lemma connection_counts_audit account_id n1 n2 n3 n4 n5 n6 : mk_effect CredentialAudit RetainAudit n5 ∈
  set_counts (initial_effects (TConnection account_id)) [(Accounts, n1); (AccountBudgets, n2);
    (AccountSyncCheckpoints, n3); (Credentials, n4); (CredentialAudit, n5); (Posts, n6)].
Proof. apply (list_elem_of_lookup_2 _ 7). reflexivity. Qed.

(** The audit of a connection deletion records credential history that it does not keep. A run of
    [apply] on a connection that changed the tables records the effect "retain_audit" for the
    connection's credential audit with the number of its rows, and has deleted every one of them. *)
Theorem credential_audit_not_retained request account_id w :
  rq_target request = TConnection account_id -> audit_keyed (w_db w) -> w_db (apply request w).2 <> w_db w ->
  let d' := w_db (apply request w).2 in
  deletion_effects d' !! (rq_operation_id request, audit_key CredentialAudit, as_str RetainAudit)
    = Some (count_where (credential_audit (w_db w)) (fun _ r => bool_decide (ca_account_id r = account_id)))
  /\ count_where (credential_audit d') (fun _ r => bool_decide (ca_account_id r = account_id)) = 0%Z.
Proof.
  intros Ht Hfk Hch. destruct (erasure_cases request w) as [|Hc]; [done|]. split.
  - apply (rc_effects _ _ _ (committed_recorded _ _ _ Hfk Hc)).
    eexists (mk_effect CredentialAudit RetainAudit _). split; [|done].
    unfold plan_effects. rewrite Ht. unfold plan_connection.
    destruct (_ <? _)%Z; [apply alter_effect_elem; [|done]|]; apply connection_counts_audit.
  - destruct Hc as (_ & _ & Hr%rows_deleted_unnamed). rewrite Ht in Hr. destruct Hr as (_ & _ & Hca & _).
    apply count_where_zero. intros id r Hr. by apply bool_decide_eq_false, (Hca id).
Qed.

End WithEnv.

(** * Witnesses: a published capture of owner 7, deleted by operation 50; a connection deleted by 51 *)

Definition erasure_world : World := mkWorld
  (w_db (@Publishing.append_fact sample_env Publishing.sample_contracts 10
    (Publishing.in_txn (Publishing.sample_archive "one") 1)).2) 0 100 None ∅ [].

Definition erasure_request : DeletionRequest := mk_request 50 7 (TCapture 10).

Definition connection_world : World := sample_world
  (set_accounts {[60%N := mk_account_row 7 "provider" "name" "personal" "active" "[]"]}
    (set_credential_audit {[61%N := mk_credential_audit_row 60 "connected"]} empty_db)).

Definition connection_request : DeletionRequest := mk_request 51 7 (TConnection 60).

(** The source the capture was published under, and the event that announced it. *)
Definition erasure_sources : list Uuid := (map_to_list (social_sources (w_db erasure_world))).*1.

Lemma erasure_happens :
  w_db (@apply sample_env Publishing.sample_contracts erasure_request erasure_world).2 <> w_db erasure_world.
Proof.
  intros H.
  assert (bool_decide (is_Some (captures (w_db (@apply sample_env Publishing.sample_contracts erasure_request
    erasure_world).2) !! 10%N)) = false) as H1 by (vm_compute; reflexivity).
  rewrite H in H1. assert (bool_decide (is_Some (captures (w_db erasure_world) !! 10%N)) = true) as H2
    by (vm_compute; reflexivity). congruence.
Qed.

Lemma connection_erasure_happens :
  w_db (@apply sample_env Publishing.sample_contracts connection_request connection_world).2 <> w_db connection_world.
Proof.
  intros H.
  assert (bool_decide (is_Some (accounts (w_db (@apply sample_env Publishing.sample_contracts connection_request
    connection_world).2) !! 60%N)) = false) as H1 by (vm_compute; reflexivity).
  rewrite H in H1. assert (bool_decide (is_Some (accounts (w_db connection_world) !! 60%N)) = true) as H2
    by (vm_compute; reflexivity). congruence.
Qed.

Lemma erasure_unaudited : deletion_effects (w_db erasure_world) = ∅.
Proof. vm_compute. reflexivity. Qed.

Lemma deletion_retracted_until_answered_witness :
  let w1 := (@apply sample_env Publishing.sample_contracts erasure_request erasure_world).2 in
  let w2 := (@OutboxRelay.flush_outbox sample_env RemovalAck.default_policy w1).2 in
  exists sid event o, sid ∈ erasure_sources /\ outbox_events (w_db w2) !! event = Some o
    /\ pl_body (o_payload o) = RemovedBody sid 7
    /\ exists t, forall now, (t <= now)%Z -> OutboxRelay.publish_due now o = true \/ RemovalAck.resend_due now o = true.
Proof.
  intros w1 w2.
  assert (@DeletionAcks.history sample_env DeletionAcks.sample_codec [] w1 w2) as Hhist
    by apply DeletionAcks.history_pump, DeletionAcks.history_start.
  clearbody w2.
  destruct (@deletion_retracted_until_answered sample_env Publishing.sample_contracts DeletionAcks.sample_codec
    erasure_request erasure_world 20 (default 0%N (head erasure_sources)) (mk_source_row 7 20 (Some 10%N)))
    as (event & H).
  - assert (map_Forall (fun _ o => RemovalAck.is_published o = false) (outbox_events (w_db erasure_world))) as Hu
      by (apply (bool_decide_unpack _); by vm_compute).
    split; intros id o Ho Hp; by rewrite (Hu id o Ho) in Hp.
  - exact erasure_happens.
  - vm_compute. by left.
  - by vm_compute.
  - by vm_compute.
  - done.
  - done.
  - destruct (H [] w2 Hhist) as (o & Ho & Hb & [Hd|(p & ack & Hin & _)]); [|by apply not_elem_of_nil in Hin].
    exists (default 0%N (head erasure_sources)), event, o. split; [by vm_compute; left|]. split; [exact Ho|].
    split; [exact Hb|exact Hd].
Defined.

(** The tables right after the deletion, and a request that reuses the operation for another capture. *)
Lemma deletion_replay_witness :
  let w1 := (@apply sample_env Publishing.sample_contracts erasure_request erasure_world).2 in
  let again := @apply sample_env Publishing.sample_contracts erasure_request w1 in
  w_db again.2 = w_db w1 /\ w_db (@apply sample_env Publishing.sample_contracts (mk_request 50 7 (TCapture 11)) w1).2 = w_db w1.
Proof.
  intros w1 again.
  destruct (@deletion_replay sample_env Publishing.sample_contracts erasure_request (w_db erasure_world) (w_db w1) w1)
    as [[Hd _] Ho].
  - intros k [n Hn]. exfalso. rewrite erasure_unaudited in Hn. by rewrite lookup_empty in Hn.
  - destruct (@erasure_cases sample_env Publishing.sample_contracts erasure_request erasure_world) as [H|H]; [|exact H].
    by destruct (erasure_happens H).
  - done.
  - split; [exact Hd|]. apply Ho; done.
Defined.

Lemma preview_then_apply_witness :
  let previewed := @preview sample_env erasure_request erasure_world in
  exists plan, previewed.1 = Ok plan
    /\ (@apply sample_env Publishing.sample_contracts erasure_request previewed.2).1 = Ok plan.
Proof.
  intros previewed.
  assert (exists plan, previewed.1 = Ok plan) as [plan Hp] by (eexists; vm_compute; reflexivity).
  assert (exists result, (@apply sample_env Publishing.sample_contracts erasure_request previewed.2).1 = Ok result)
    as [result Ha] by (eexists; vm_compute; reflexivity).
  exists plan. split; [exact Hp|]. rewrite Ha. f_equal.
  eapply (@preview_then_apply sample_env Publishing.sample_contracts erasure_request erasure_world previewed.2 _ plan result).
  - unfold previewed in *. rewrite <- Hp. apply surjective_pairing.
  - vm_compute. reflexivity.
  - rewrite <- Ha. apply surjective_pairing.
Defined.

Lemma credential_audit_not_retained_witness :
  let w1 := (@apply sample_env Publishing.sample_contracts connection_request connection_world).2 in
  deletion_effects (w_db w1) !! (51%N, "credential_audit", "retain_audit") = Some 1%Z
  /\ credential_audit (w_db w1) = ∅.
Proof.
  intros w1.
  destruct (@credential_audit_not_retained sample_env Publishing.sample_contracts connection_request 60 connection_world)
    as [H _]; [done| | |].
  - intros k [n Hn]. exfalso. exact (lookup_empty_Some k n Hn).
  - exact connection_erasure_happens.
  - split; [exact H|]. vm_compute. reflexivity.
Defined.

End OwnerErasure.
