(* ===== verification/Reprocessing.v ===== *)
(** Reprocessing of retained exports (src/crates/threads-archive/src/data_export_reprocessing.rs):
    the gate that checks the retained evidence, the report shared by a dry run and an application,
    and the application in restartable chunks. *)
From stdpp Require Import pretty.
From S2P Require Import Prelude Schema Store Publishing.

Module Reprocessing.
Import Schema Store.
Local Open Scope string_scope.
Local Open Scope store_scope.
Local Open Scope rust_scope.

Definition SUPPORTED_REPROCESSING_PARSER : string := "threads-export-v1-parser-1".
Definition SUPPORTED_REPROCESSING_EXPORT : string := "threads-export-v1".

Record RetainedExportReceipt := mk_retained_receipt {
  rt_bytes : string;
  rt_expected_hash : string;
  rt_expected_length : Z;
  rt_detected_version : string;
}.

Inductive ReprocessingError := ReceiptIntegrity | UnsupportedParser.

Record VerifiedReprocessingReceipt := mk_verified_receipt { vr_archive_hash : string; vr_archive_length : Z }.

Inductive ReprocessClassification :=
| Normalized | UnknownRecord | UnknownSection | Conflict | Warning | Omitted.

#[global] Instance ReprocessClassification_eq_dec : EqDecision ReprocessClassification.
Proof. solve_decision. Defined.

(** [ReprocessClassification::wire_name]. *)
Definition wire_name (c : ReprocessClassification) : string :=
  match c with
  | Normalized => "normalized"
  | UnknownRecord => "unknown_record"
  | UnknownSection => "unknown_section"
  | Conflict => "conflict"
  | Warning => "warning"
  | Omitted => "omitted"
  end.

(** [ReprocessInput] and [ReprocessReportItem] have the same fields. *)
Record ReprocessInput := mk_input {
  in_item_key : string;
  in_classification : ReprocessClassification;
  in_prospective_digest : option string;
}.

Record ReprocessReportItem := mk_item {
  it_item_key : string;
  it_classification : ReprocessClassification;
  it_digest : option string;
}.

#[global] Instance ReprocessReportItem_eq_dec : EqDecision ReprocessReportItem.
Proof. solve_decision. Defined.

Record ReprocessReport := mk_report {
  rp_items : list ReprocessReportItem;
  rp_counts : gmap string Z;
  rp_warnings : list string;
  rp_conflicts : list string;
  rp_plan_fingerprint : string;
  rp_state_fingerprint : string;
}.

Record ReprocessApplyOutcome := mk_outcome {
  oc_reprocessing_run_id : Uuid;
  oc_report : ReprocessReport;
  oc_completed : bool;
}.

(** * The report *)

Definition item_of_input (input : ReprocessInput) : ReprocessReportItem :=
  mk_item (in_item_key input) (in_classification input) (in_prospective_digest input).

Definition key_leb (left_ right_ : ReprocessReportItem) : bool := lex_leb [it_item_key] left_ right_.

(** One round of the first loop of [render_report]; the counters are as wide as the item count. *)
Definition tally (acc : gmap string Z * list string * list string) (item : ReprocessReportItem)
  : gmap string Z * list string * list string :=
  let '(counts, warnings, conflicts) := acc in
  let name := wire_name (it_classification item) in
  let counts := <[name := (default 0 (counts !! name) + 1)%Z]> counts in
  match it_classification item with
  | Warning => (counts, (warnings ++ [it_item_key item])%list, conflicts)
  | Conflict => (counts, warnings, (conflicts ++ [it_item_key item])%list)
  | _ => (counts, warnings, conflicts)
  end.

(** What the second loop appends for one item. *)
Definition plan_line (item : ReprocessReportItem) : string :=
  pretty (N.of_nat (String.length (it_item_key item))) +:+ ":" +:+ it_item_key item +:+ "|"
  +:+ wire_name (it_classification item) +:+ "|" +:+ default "-" (it_digest item) +:+ String "010" "".

Definition canonical_plan (items : list ReprocessReportItem) : string :=
  foldl (fun plan item => plan +:+ plan_line item) "" items.

Definition item_state (c : ReprocessClassification) : string :=
  match c with
  | Conflict => "conflict"
  | Warning => "warning"
  | Omitted => "skipped"
  | Normalized | UnknownRecord | UnknownSection => "applied"
  end.

Section WithEnv.
Context {Henv : Env}.

Definition render_report (inputs : list ReprocessInput) (state_fingerprint : string) : ReprocessReport :=
  let items := sort_by key_leb (item_of_input <$> inputs) in
  let '(counts, warnings, conflicts) := foldl tally (∅, [], []) items in
  mk_report items counts warnings conflicts (Publishing.hex (sha256 (canonical_plan items))) state_fingerprint.

Definition migration_dry_run := render_report.
Definition migration_apply := render_report.

(** [begin_reprocessing]; [projection] is the caller's closure, on the caller's state. *)
Definition begin_reprocessing {S} (receipt : RetainedExportReceipt) (parser_version : string)
  (projection : S -> S) (s : S) : Result ReprocessingError VerifiedReprocessingReceipt * S :=
  let actual_hash := sha256 (rt_bytes receipt) in
  let length := Z.of_nat (String.length (rt_bytes receipt)) in
  if (u64_max <? length)%Z then (Err ReceiptIntegrity, s)
  else if negb (bool_decide (actual_hash = rt_expected_hash receipt))
       || negb (length =? rt_expected_length receipt)%Z then (Err ReceiptIntegrity, s)
  else if negb (bool_decide (rt_detected_version receipt = SUPPORTED_REPROCESSING_EXPORT))
       || negb (bool_decide (parser_version = SUPPORTED_REPROCESSING_PARSER)) then (Err UnsupportedParser, s)
  else (Ok (mk_verified_receipt actual_hash length), projection s).

(** * Statements *)

Definition text_length (s : string) : Z := Z.of_nat (length (chars s)).

Definition insert_run (id : Uuid) (row : reprocessing_run_row) (d : db) : Result SqlError db :=
  if bool_decide (is_Some (export_reprocessing_runs d !! id))
  then Err (UniqueViolation "export_reprocessing_runs_pkey")
  else if exists_where (export_reprocessing_runs d) (fun _ r => bool_decide (rr_user_ref r = rr_user_ref row)
       && bool_decide (rr_operation_id r = rr_operation_id row))
  then Err (UniqueViolation "export_reprocessing_runs_owner_operation_key")
  else if negb ((text_length (rr_plan_fingerprint row) =? 64)%Z && (text_length (rr_state_fingerprint row) =? 64)%Z)
  then Err (CheckViolation "export_reprocessing_runs_fingerprint_check")
  else if negb (bool_decide (is_Some (export_runs d !! rr_export_run_id row)))
  then Err (ForeignKeyViolation "export_reprocessing_runs_export_run_id_fkey")
  else Ok (set_export_reprocessing_runs (<[id := row]> (export_reprocessing_runs d)) d).

Definition digest_check (digest : option string) : bool :=
  match digest with Some s => (text_length s =? 64)%Z | None => true end.

Definition key_check (key : string) : bool := ((1 <=? text_length key) && (text_length key <=? 512))%Z.

Definition item_row (item : ReprocessReportItem) : reprocessing_item_row :=
  mk_reprocessing_item_row (wire_name (it_classification item)) (item_state (it_classification item))
    (it_digest item) (it_digest item).

(** The classification and the state are words of the schema's vocabularies. *)
Definition insert_item (run_id : Uuid) (item : ReprocessReportItem) (d : db) : Result SqlError db :=
  if bool_decide (is_Some (export_reprocessing_items d !! (run_id, it_item_key item)))
  then Err (UniqueViolation "export_reprocessing_items_pkey")
  else if negb (key_check (it_item_key item)) then Err (CheckViolation "export_reprocessing_items_item_key_check")
  else if negb (digest_check (it_digest item)) then Err (CheckViolation "export_reprocessing_items_digest_check")
  else if negb (bool_decide (is_Some (export_reprocessing_runs d !! run_id)))
  then Err (ForeignKeyViolation "export_reprocessing_items_run_id_fkey")
  else Ok (set_export_reprocessing_items (<[(run_id, it_item_key item) := item_row item]> (export_reprocessing_items d)) d).

(** [ReprocessingStore::dry_run]. *)
Definition dry_run (owner export_run_id : Uuid) (inputs : list ReprocessInput) (state_fingerprint : string)
  : M SqlError ReprocessReport :=
  let* authorized := read (fun _ d => Ok (match export_runs d !! export_run_id with
    | Some run => bool_decide (er_user_ref run = owner)
    | None => false
    end)) in
  if negb authorized then throw RowNotFound else ret (migration_dry_run inputs state_fingerprint).

(** The run of an operation of an owner, a unique key. *)
Definition run_of (owner operation_id : Uuid) (d : db) : option (Uuid * reprocessing_run_row) :=
  head (select (export_reprocessing_runs d) (fun _ r =>
    bool_decide (rr_user_ref r = owner) && bool_decide (rr_operation_id r = operation_id))).

(** [ensure_reprocessing_run]. *)
Definition ensure_reprocessing_run (owner export_run_id operation_id : Uuid) (report : ReprocessReport)
  : M SqlError (Uuid * string) :=
  let* existing := read (fun _ d => Ok (run_of owner operation_id d)) in
  match existing with
  | Some (run_id, row) =>
      if negb (bool_decide (rr_export_run_id row = export_run_id))
         || negb (bool_decide (rr_plan_fingerprint row = rp_plan_fingerprint report))
         || negb (bool_decide (rr_state_fingerprint row = rp_state_fingerprint report))
      then throw (Protocol "reprocessing plan precondition changed")
      else ret (run_id, rr_state row)
  | None =>
      let* run_id := now_v7 in
      execute (fun _ => insert_run run_id (mk_reprocessing_run_row operation_id export_run_id owner
        SUPPORTED_REPROCESSING_EXPORT SUPPORTED_REPROCESSING_PARSER "running" (rp_plan_fingerprint report)
        (rp_state_fingerprint report) None None None)) ;;;
      ret (run_id, "running")
  end.

Definition summary (report : ReprocessReport) : ReprocessSummary :=
  mk_reprocess_summary (rp_counts report) (rp_warnings report) (rp_conflicts report) (rp_plan_fingerprint report)
    (rp_state_fingerprint report).

(** The state of a finished run. *)
Definition final_state (report : ReprocessReport) : string :=
  if negb (bool_decide (rp_warnings report = [])) || negb (bool_decide (rp_conflicts report = []))
  then "completed_with_warnings" else "completed".

(** [finish_reprocessing_run]. *)
Definition finish_reprocessing_run (run_id : Uuid) (checkpoint : option string) (report : ReprocessReport)
  : M SqlError bool :=
  let* committed_items := read (fun _ d =>
    Ok (count_keys (export_reprocessing_items d) (fun k _ => bool_decide (k.1 = run_id)))) in
  let completed := (committed_items =? Z.of_nat (length (rp_items report)))%Z in
  let state := if completed then final_state report else "running" in
  execute (fun now d => Ok (set_export_reprocessing_runs (update_where (fun id _ => bool_decide (id = run_id))
    (fun r => mk_reprocessing_run_row (rr_operation_id r) (rr_export_run_id r) (rr_user_ref r)
      (rr_detected_version r) (rr_parser_version r) state (rr_plan_fingerprint r) (rr_state_fingerprint r)
      (match checkpoint with Some key => Some key | None => rr_checkpoint_item_key r end) (Some (summary report))
      (if completed then Some now else None)) (export_reprocessing_runs d)) d)) ;;;
  ret completed.

(** The loop of [apply_chunk]: inserts the items and returns the last key. *)
Fixpoint insert_items (run_id : Uuid) (items : list ReprocessReportItem) (checkpoint : option string)
  : M SqlError (option string) :=
  match items with
  | [] => ret checkpoint
  | item :: rest =>
      execute (fun _ => insert_item run_id item) ;;;
      insert_items run_id rest (Some (it_item_key item))
  end.

(** The keys a run has stored. *)
Definition stored_keys (run_id : Uuid) (d : db) : gset string :=
  set_map snd (filter (fun k => k.1 = run_id) (dom (export_reprocessing_items d))).

Definition apply_chunk_body (owner export_run_id operation_id : Uuid) (report : ReprocessReport) (max_items : nat)
  : M SqlError (Finish ReprocessApplyOutcome) :=
  let* ensured := ensure_reprocessing_run owner export_run_id operation_id report in
  let '(run_id, previous_state) := ensured in
  if bool_decide (previous_state = "completed") || bool_decide (previous_state = "completed_with_warnings")
  then ret (Commit (mk_outcome run_id report true))
  else
    let* existing_keys := read (fun _ d => Ok (stored_keys run_id d)) in
    let* checkpoint := insert_items run_id (take max_items (List.filter (fun item =>
      negb (bool_decide (it_item_key item ∈ existing_keys))) (rp_items report))) None in
    let* completed := finish_reprocessing_run run_id checkpoint report in
    ret (Commit (mk_outcome run_id report completed)).

(** [ReprocessingStore::apply_chunk]. *)
Definition apply_chunk (owner export_run_id operation_id : Uuid) (inputs : list ReprocessInput)
  (state_fingerprint : string) (max_items : nat) : M SqlError ReprocessApplyOutcome :=
  let report := migration_apply inputs state_fingerprint in
  transaction id (apply_chunk_body owner export_run_id operation_id report max_items).

(** * The chunks of an application refine a counter *)

(** The abstract application of a plan of [n] items: a chunk that commits advances the number of
    applied items, a chunk that fails leaves it. *)
Inductive chunk_step (n max_items : nat) : nat -> nat -> Prop :=
| chunk_committed k : chunk_step n max_items k (Nat.min n (k + max_items))
| chunk_failed k : chunk_step n max_items k k.

(** The row belongs to this application. *)
Definition run_matches (owner export_run_id operation_id : Uuid) (report : ReprocessReport)
  (row : reprocessing_run_row) : Prop :=
  rr_user_ref row = owner /\ rr_operation_id row = operation_id /\ rr_export_run_id row = export_run_id
  /\ rr_plan_fingerprint row = rp_plan_fingerprint report /\ rr_state_fingerprint row = rp_state_fingerprint report.

(** The foreign key of the items. *)
Definition items_keyed (d : db) : Prop :=
  forall k, is_Some (export_reprocessing_items d !! k) -> is_Some (export_reprocessing_runs d !! k.1).

(** The items of a run are exactly these. *)
Definition items_exact (run_id : Uuid) (items : list ReprocessReportItem) (d : db) : Prop :=
  forall key row, export_reprocessing_items d !! (run_id, key) = Some row
    <-> exists item, item ∈ items /\ it_item_key item = key /\ row = item_row item.

(** A stored run with these items and state. *)
Record started (owner export_run_id operation_id : Uuid) (report : ReprocessReport) (run_id : Uuid)
  (items : list ReprocessReportItem) (state : string) (d : db) : Prop := {
  st_row : exists row, export_reprocessing_runs d !! run_id = Some row
    /\ run_matches owner export_run_id operation_id report row /\ rr_state row = state;
  st_unique : forall id r, export_reprocessing_runs d !! id = Some r -> rr_user_ref r = owner ->
    rr_operation_id r = operation_id -> id = run_id;
  st_items : items_exact run_id items d;
  st_keyed : items_keyed d;
}.

Definition state_at (report : ReprocessReport) (k : nat) : string :=
  if bool_decide (k = length (rp_items report)) then final_state report else "running".

(** A stored run has applied the first [k] items of the plan. *)
Definition begun (owner export_run_id operation_id : Uuid) (report : ReprocessReport) (k : nat) (d : db) : Prop :=
  exists run_id, (k <= length (rp_items report))%nat
    /\ started owner export_run_id operation_id report run_id (take k (rp_items report)) (state_at report k) d.

(** The tables represent the abstract state [k]. *)
Definition progress (owner export_run_id operation_id : Uuid) (report : ReprocessReport) (k : nat) (d : db) : Prop :=
  (k = 0%nat /\ items_keyed d /\ forall id r, export_reprocessing_runs d !! id = Some r ->
     ~ (rr_user_ref r = owner /\ rr_operation_id r = operation_id))
  \/ begun owner export_run_id operation_id report k d.

Lemma filter_applied (items : list ReprocessReportItem) k (keys : gset string) : NoDup (it_item_key <$> items) ->
  (forall key, key ∈ keys <-> exists item, item ∈ take k items /\ it_item_key item = key) ->
  List.filter (fun item => negb (bool_decide (it_item_key item ∈ keys))) items = drop k items.
Proof.
  intros Hn Hk. rewrite <- (take_drop k items) at 1. rewrite List.filter_app.
  rewrite <- (take_drop k items), fmap_app in Hn. apply NoDup_app in Hn as (_ & Hd & _).
  assert (forall item, item ∈ take k items -> negb (bool_decide (it_item_key item ∈ keys)) = false) as H1.
  { intros item Hin. rewrite bool_decide_eq_true_2; [done|]. apply Hk. eauto. }
  assert (forall item, item ∈ drop k items -> negb (bool_decide (it_item_key item ∈ keys)) = true) as H2.
  { intros item Hin. rewrite bool_decide_eq_false_2; [done|]. intros (item' & Hin' & He)%Hk.
    apply (Hd (it_item_key item)); [rewrite <- He|]; apply list_elem_of_fmap; eauto. }
  clear Hk Hd. induction (take k items) as [|x l IH]; simpl.
  - clear H1. induction (drop k items) as [|x l IH]; [done|]. simpl.
    rewrite H2 by (by left). f_equal. apply IH. intros y Hy. apply H2. by right.
  - rewrite H1 by (by left). apply IH. intros y Hy. apply H1. by right.
Qed.

Lemma elem_of_stored_keys run_id d key :
  key ∈ stored_keys run_id d <-> is_Some (export_reprocessing_items d !! (run_id, key)).
Proof.
  unfold stored_keys. rewrite elem_of_map. split.
  - intros ([r key'] & -> & [Hr Hd]%elem_of_filter). simpl in *. subst r. by apply elem_of_dom.
  - intros H. exists (run_id, key). split; [done|]. apply elem_of_filter. split; [done|]. by apply elem_of_dom.
Qed.

(** The size of a run's share of the table. *)
Lemma items_exact_count run_id items d : NoDup (it_item_key <$> items) -> items_exact run_id items d ->
  count_keys (export_reprocessing_items d) (fun k _ => bool_decide (k.1 = run_id)) = Z.of_nat (length items).
Proof.
  intros Hn He. unfold count_keys. f_equal. rewrite <- length_map_to_list.
  rewrite <- (length_fmap (fun item => ((run_id, it_item_key item), item_row item)) items).
  apply Permutation_length, NoDup_Permutation; [apply NoDup_map_to_list| |].
  - apply (NoDup_fmap_1 (fun kv => kv.1.2)). by rewrite <- list_fmap_compose.
  - intros [[r key] row]. rewrite elem_of_map_to_list, map_lookup_filter_Some, list_elem_of_fmap. simpl.
    rewrite bool_decide_eq_true. split.
    + intros [Hl ->]. apply He in Hl as (item & Hin & <- & ->). by exists item.
    + intros (item & [= -> -> ->] & Hin). split; [|done]. apply He. eauto.
Qed.

Lemma run_of_Some owner operation_id d id r : run_of owner operation_id d = Some (id, r) ->
  export_reprocessing_runs d !! id = Some r /\ rr_user_ref r = owner /\ rr_operation_id r = operation_id.
Proof. intros [Hl [H1 H2]%andb_true_iff]%head_select_Some. by rewrite bool_decide_eq_true in H1, H2. Qed.

Lemma run_of_None owner operation_id d : run_of owner operation_id d = None ->
  forall id r, export_reprocessing_runs d !! id = Some r -> ~ (rr_user_ref r = owner /\ rr_operation_id r = operation_id).
Proof.
  intros H%head_None id r Hl [H1 H2]. eapply select_nil in H; [|exact Hl]. simpl in H.
  by rewrite !bool_decide_eq_true_2 in H.
Qed.

(** After the run is found or created its first [k] items are stored, as they were before. *)
Lemma ensure_Ok owner export_run_id operation_id report k w ensured w' :
  progress owner export_run_id operation_id report k (w_db w) ->
  ensure_reprocessing_run owner export_run_id operation_id report w = (Ok ensured, w') ->
  started owner export_run_id operation_id report ensured.1 (take k (rp_items report)) ensured.2 (w_db w')
  /\ (k <= length (rp_items report))%nat
  /\ (ensured.2 = state_at report k \/ ensured.2 = "running").
Proof.
  intros Hp (existing & w1 & (t & [= <-] & Hd)%read_db & H)%bind_Ok. unfold tables in Hd.
  destruct (run_of owner operation_id (w_db w)) as [[run_id row]|] eqn:Er.
  - apply run_of_Some in Er as (Hl & Hu & Ho).
    destruct (bool_decide (rr_export_run_id row = export_run_id)) eqn:E1; [|done].
    destruct (bool_decide (rr_plan_fingerprint row = _)) eqn:E2; [|done].
    destruct (bool_decide (rr_state_fingerprint row = _)) eqn:E3; [|done].
    simpl in H. apply ret_db in H as [-> ->]. rewrite Hd.
    destruct Hp as [(_ & _ & Hno)|(id & Hk & Hs)]; [by destruct (Hno _ _ Hl)|].
    assert (run_id = id) as -> by (by apply (st_unique _ _ _ _ _ _ _ _ Hs _ row)).
    pose proof Hs as [(row' & Hl' & _ & Hst) _ _ _]. rewrite Hl in Hl'. injection Hl' as <-.
    simpl. rewrite Hst. split; [exact Hs|]. split; [done|]. by left.
  - apply bind_Ok in H as (run_id & w2 & Hm%now_v7_db & H). unfold tables in Hm.
    apply bind_Ok in H as (u & w3 & (t' & d' & Hi & Hd3)%execute_db & [-> ->]%ret_db). unfold tables in Hd3.
    destruct Hp as [(-> & Hkey & Hno)|(id & _ & [(row & Hl & (Hu & Ho & _) & _) _ _ _])];
      [|by destruct (run_of_None _ _ _ Er _ _ Hl)].
    rewrite Hm, Hd in Hi. unfold insert_run in Hi. case_bool_decide as Hnew; [done|]. apply eq_None_not_Some in Hnew.
    destruct (exists_where _ _); [done|]. destruct (negb _); [done|]. destruct (negb _); [done|].
    injection Hi as <-. rewrite Hd3. simpl. split; [|split; [lia|by right]]. split; simpl.
    + eexists. rewrite lookup_insert_eq. split; [done|]. done.
    + intros id r [[<- _]|[_ Hl]]%lookup_insert_Some; [done|]. intros Hu Ho. by destruct (Hno _ _ Hl).
    + intros key row. simpl. split; [|by intros (item & ?%not_elem_of_nil & _)].
      intros Hl. destruct (Hkey (run_id, key)) as [r Hr]; [eauto|]. simpl in Hr. congruence.
    + intros k Hk. simpl in *. apply lookup_insert_is_Some'. right. by apply Hkey.
Qed.

Lemma insert_item_Ok run_id item d d' : insert_item run_id item d = Ok d' ->
  export_reprocessing_items d !! (run_id, it_item_key item) = None
  /\ d' = set_export_reprocessing_items
       (<[(run_id, it_item_key item) := item_row item]> (export_reprocessing_items d)) d.
Proof.
  unfold insert_item. case_bool_decide as E; [done|]. apply eq_None_not_Some in E.
  destruct (negb _); [done|]. destruct (negb _); [done|]. destruct (negb _); [done|]. by intros [= <-].
Qed.

Lemma started_item owner export_run_id operation_id report run_id applied item state d :
  started owner export_run_id operation_id report run_id applied state d ->
  export_reprocessing_items d !! (run_id, it_item_key item) = None ->
  started owner export_run_id operation_id report run_id (applied ++ [item]) state
    (set_export_reprocessing_items (<[(run_id, it_item_key item) := item_row item]> (export_reprocessing_items d)) d).
Proof.
  intros [Hrow Huniq Hitems Hkey] Hnew. split; [done|done|..].
  - intros key row. simpl. rewrite lookup_insert_Some, (Hitems key row). split.
    + intros [[[= <-] <-]|[Hne (item' & Hin & Hk & ->)]]; [exists item|exists item'];
        rewrite elem_of_app, ?list_elem_of_singleton; auto.
    + intros (item' & [Hin| ->%list_elem_of_singleton]%elem_of_app & <- & ->); [right|by left].
      assert (is_Some (export_reprocessing_items d !! (run_id, it_item_key item'))) as [r Hr]
        by (eexists; apply Hitems; eauto).
      split; [|eauto]. intros [= He]. congruence.
  - intros k. simpl. rewrite lookup_insert_is_Some'. intros [<-|Hk]; [|by apply Hkey].
    destruct Hrow as (row & Hrow & _). simpl. by rewrite Hrow.
Qed.

Lemma insert_items_Ok owner export_run_id operation_id report run_id state todo : forall applied cp w cp' w',
  started owner export_run_id operation_id report run_id applied state (w_db w) ->
  insert_items run_id todo cp w = (Ok cp', w') ->
  started owner export_run_id operation_id report run_id (applied ++ todo) state (w_db w').
Proof.
  induction todo as [|item rest IH]; intros applied cp w cp' w' Hs; simpl.
  - intros [_ ->]%ret_db. by rewrite app_nil_r.
  - intros (u & w1 & (t & d1 & [Hnew ->]%insert_item_Ok & Hd1)%execute_db & H)%bind_Ok. unfold tables in Hd1.
    rewrite cons_middle, app_assoc. eapply IH; [|exact H]. rewrite Hd1. by apply started_item.
Qed.

Lemma finish_Ok owner export_run_id operation_id report run_id items state cp w completed w' :
  NoDup (it_item_key <$> items) -> started owner export_run_id operation_id report run_id items state (w_db w) ->
  finish_reprocessing_run run_id cp report w = (Ok completed, w') ->
  completed = bool_decide (length items = length (rp_items report))
  /\ started owner export_run_id operation_id report run_id items
       (if completed then final_state report else "running") (w_db w').
Proof.
  intros Hn Hs (count & w1 & (t & [= <-] & Hd1)%read_db & H)%bind_Ok. unfold tables in Hd1.
  rewrite (items_exact_count run_id items (w_db w) Hn (st_items _ _ _ _ _ _ _ _ Hs)) in H.
  apply bind_Ok in H as (u & w2 & (t' & d2 & [= <-] & Hd2)%execute_db & [-> ->]%ret_db). unfold tables in Hd2.
  split; [apply Bool.eq_iff_eq_true; rewrite Z.eqb_eq, bool_decide_eq_true; lia|].
  rewrite Hd2, Hd1. clear Hd1 Hd2. destruct Hs as [(row & Hrow & (Hu & Ho & Hx & Hp & Hf) & _) Huniq Hitems Hkey].
  split; simpl.
  - eexists. rewrite lookup_update_where, Hrow. simpl. split; [done|]. by rewrite bool_decide_eq_true_2.
  - intros id r. rewrite lookup_update_where. intros (r0 & Hr0 & ->)%fmap_Some Hu' Ho'.
    destruct (bool_decide (id = run_id)); by apply (Huniq id r0).
  - exact Hitems.
  - intros k Hk. simpl in *. rewrite lookup_update_where. apply fmap_is_Some. by apply Hkey.
Qed.

(** A chunk that ran to its end. *)
Lemma apply_chunk_body_Ok owner export_run_id operation_id report max_items k w f w' :
  NoDup (it_item_key <$> rp_items report) -> progress owner export_run_id operation_id report k (w_db w) ->
  apply_chunk_body owner export_run_id operation_id report max_items w = (Ok f, w') ->
  let k' := Nat.min (length (rp_items report)) (k + max_items) in
  begun owner export_run_id operation_id report k' (w_db w')
  /\ exists run_id, f = Commit (mk_outcome run_id report (bool_decide (k' = length (rp_items report)))).
Proof.
  intros Hn Hp ([run_id previous] & w1 & H1 & H)%bind_Ok k'.
  apply (ensure_Ok _ _ _ _ k) in H1 as (Hs & Hk & Hst); [|done]. simpl in *.
  destruct (bool_decide (previous = "completed") || bool_decide (previous = "completed_with_warnings")) eqn:Edone.
  - apply ret_db in H as [-> ->]. destruct Hst as [->| ->]; [|by vm_compute in Edone].
    assert (k = length (rp_items report)) as ->.
    { unfold state_at in Edone. destruct (bool_decide (k = _)) eqn:E; [by apply bool_decide_eq_true in E|by vm_compute in Edone]. }
    assert (k' = length (rp_items report)) as -> by lia. rewrite bool_decide_eq_true_2 by done.
    split; [exists run_id; split; [lia|exact Hs]|eauto].
  - apply bind_Ok in H as (keys & w2 & (t & [= <-] & Hd2)%read_db & H). unfold tables in Hd2.
    rewrite (filter_applied _ k) in H; [|done|].
    2: { intros key. rewrite elem_of_stored_keys. split.
         - intros [row (item & Hin & Hi & _)%(st_items _ _ _ _ _ _ _ _ Hs)]. eauto.
         - intros (item & Hin & Hi). eexists. apply (st_items _ _ _ _ _ _ _ _ Hs). eauto. }
    apply bind_Ok in H as (cp & w3 & H3 & H).
    eapply (insert_items_Ok owner export_run_id operation_id report) in H3; [|by rewrite Hd2].
    apply bind_Ok in H as (completed & w4 & H4 & [-> ->]%ret_db).
    assert (take k (rp_items report) ++ take max_items (drop k (rp_items report)) = take k' (rp_items report))%list as Ht.
    { rewrite take_take_drop. unfold k'. destruct (decide (k + max_items <= length (rp_items report)))%nat;
        [by rewrite Nat.min_r|rewrite Nat.min_l by lia; rewrite !take_ge by lia; done]. }
    rewrite Ht in H3. eapply finish_Ok in H4 as [-> Hs4]; [| |exact H3].
    + assert (length (take k' (rp_items report)) = k') as Hl by (rewrite length_take; lia). rewrite Hl in *.
      split; [exists run_id; split; [lia|exact Hs4]|]. eauto.
    + rewrite fmap_take. eapply sublist_NoDup; [exact Hn|]. apply sublist_take.
Qed.

(** * The report *)

Lemma key_leb_antisym x y : key_leb x y = true -> key_leb y x = true -> it_item_key x = it_item_key y.
Proof. intros H1 H2. pose proof (lex_leb_antisym _ _ _ H1 H2) as H. exact (Forall_inv H). Qed.

Lemma tally_eq counts warnings conflicts item : tally (counts, warnings, conflicts) item =
  (<[wire_name (it_classification item) := (default 0 (counts !! wire_name (it_classification item)) + 1)%Z]> counts,
   (warnings ++ if bool_decide (it_classification item = Warning) then [it_item_key item] else [])%list,
   (conflicts ++ if bool_decide (it_classification item = Conflict) then [it_item_key item] else [])%list).
Proof. unfold tally. destruct (it_classification item); simpl; by rewrite ?app_nil_r. Qed.

Lemma count_succ (counts : gmap string Z) name name' :
  default 0%Z (<[name := (default 0 (counts !! name) + 1)%Z]> counts !! name')
  = (default 0 (counts !! name') + if bool_decide (name = name') then 1 else 0)%Z.
Proof.
  case_bool_decide as E; [subst; by rewrite lookup_insert_eq|rewrite lookup_insert_ne by done; lia].
Qed.

Lemma tally_foldl items : forall counts warnings conflicts,
  let acc := foldl tally (counts, warnings, conflicts) items in
  (forall name, default 0%Z (acc.1.1 !! name) = (default 0 (counts !! name)
     + Z.of_nat (length (List.filter (fun item => bool_decide (wire_name (it_classification item) = name)) items)))%Z)
  /\ acc.1.2 = (warnings ++ (it_item_key <$> List.filter (fun item =>
       bool_decide (it_classification item = Warning)) items))%list
  /\ acc.2 = (conflicts ++ (it_item_key <$> List.filter (fun item =>
       bool_decide (it_classification item = Conflict)) items))%list.
Proof.
  induction items as [|item rest IH]; intros counts warnings conflicts acc.
  - unfold acc. simpl. split; [intros name; lia|]. by rewrite !app_nil_r.
  - unfold acc. cbn [foldl]. rewrite tally_eq. edestruct IH as (H1 & -> & ->). split_and!.
    + intros name. rewrite H1, count_succ. cbn [List.filter].
      destruct (bool_decide (wire_name (it_classification item) = name)); cbn [length]; lia.
    + cbn [List.filter]. rewrite <- app_assoc. f_equal. by destruct (bool_decide (it_classification item = Warning)).
    + cbn [List.filter]. rewrite <- app_assoc. f_equal. by destruct (bool_decide (it_classification item = Conflict)).
Qed.

(** The report of sorted items. *)
Definition report_of (items : list ReprocessReportItem) (fingerprint : string) : ReprocessReport :=
  let acc := foldl tally (∅, [], []) items in
  mk_report items acc.1.1 acc.1.2 acc.2 (Publishing.hex (sha256 (canonical_plan items))) fingerprint.

Lemma render_report_of inputs fingerprint :
  render_report inputs fingerprint = report_of (sort_by key_leb (item_of_input <$> inputs)) fingerprint.
Proof. unfold render_report, report_of. by destruct (foldl tally _ _) as [[]]. Qed.

Lemma length_filter_perm {A} (f : A -> bool) l l' : l ≡ₚ l' -> length (List.filter f l) = length (List.filter f l').
Proof. induction 1; simpl; repeat case_match; simpl; congruence. Qed.

Lemma wire_name_inj c1 c2 : wire_name c1 = wire_name c2 -> c1 = c2.
Proof. by destruct c1, c2. Qed.

Lemma render_keys inputs fingerprint : NoDup (in_item_key <$> inputs) ->
  NoDup (it_item_key <$> rp_items (render_report inputs fingerprint))
  /\ length (rp_items (render_report inputs fingerprint)) = length inputs.
Proof.
  intros Hn. rewrite render_report_of. simpl. rewrite sort_by_perm, length_fmap. split; [|done].
  by rewrite <- list_fmap_compose.
Qed.

(** A report says what the plan holds: its items are the inputs sorted by key, it counts every
    class, and lists the keys of the warnings and of the conflicts in their order; and a dry run and an
    application render the same report, which does not depend on the order of inputs with
    distinct keys. *)
Theorem report_exact inputs fingerprint :
  let report := migration_dry_run inputs fingerprint in
  migration_apply inputs fingerprint = report
  /\ rp_items report ≡ₚ (item_of_input <$> inputs) /\ StronglySorted (fun a b => key_leb a b = true) (rp_items report)
  /\ (forall c, default 0%Z (rp_counts report !! wire_name c)
        = Z.of_nat (length (List.filter (fun input => bool_decide (in_classification input = c)) inputs)))
  /\ rp_warnings report = it_item_key <$> List.filter (fun item => bool_decide (it_classification item = Warning)) (rp_items report)
  /\ rp_conflicts report = it_item_key <$> List.filter (fun item => bool_decide (it_classification item = Conflict)) (rp_items report)
  /\ (forall inputs', NoDup (in_item_key <$> inputs) -> inputs' ≡ₚ inputs -> migration_dry_run inputs' fingerprint = report).
Proof.
  intros report. split; [done|].
  assert (report = report_of (sort_by key_leb (item_of_input <$> inputs)) fingerprint) as -> by apply render_report_of.
  cbn [rp_items rp_counts rp_warnings rp_conflicts report_of].
  edestruct (tally_foldl (sort_by key_leb (item_of_input <$> inputs))) as (H1 & H2 & H3).
  split_and!; [apply sort_by_perm|apply sort_by_lex_sorted| |exact H2|exact H3|].
  - intros c. rewrite H1, lookup_empty. cbn [default]. rewrite Z.add_0_l. f_equal.
    rewrite (length_filter_perm _ _ _ (sort_by_perm key_leb _)). clear.
    induction inputs as [|input rest IH]; [done|]. cbn.
    assert (bool_decide (wire_name (in_classification input) = wire_name c) = bool_decide (in_classification input = c)) as ->
      by (apply bool_decide_ext; split; [apply wire_name_inj|by intros ->]).
    destruct (bool_decide (in_classification input = c)); cbn; by rewrite IH.
  - intros inputs' Hn Hp. unfold migration_dry_run. rewrite render_report_of. f_equal.
    apply sort_by_unique; [apply lex_leb_total|apply lex_leb_trans| |apply sort_by_lex_sorted|].
    + intros x y Hx%elem_of_sort_by Hy%elem_of_sort_by Hxy Hyx.
      apply list_elem_of_fmap in Hx as (i & -> & Hi), Hy as (j & -> & Hj).
      assert (in_item_key i = in_item_key j) as Hk.
      { exact (key_leb_antisym _ _ Hxy Hyx). }
      apply list_elem_of_lookup in Hi as [n Hi], Hj as [m Hj].
      assert (n = m) as ->; [|congruence].
      eapply (NoDup_lookup (in_item_key <$> inputs)); [done|..]; rewrite list_lookup_fmap;
        [rewrite Hi|rewrite Hj]; simpl; [done|by rewrite Hk].
    + by rewrite sort_by_perm, Hp.
Qed.

(** * The canonical plan *)

Lemma pretty_digits (n : N) : str_all is_ascii_digit (pretty n) = true.
Proof.
  assert (forall x s, str_all is_ascii_digit s = true -> str_all is_ascii_digit (pretty_N_go x s) = true) as H.
  { intros x. induction (N.lt_wf_0 x) as [x _ IH]; intros s Hs.
    destruct (decide (0 < x)%N) as [Hx|Hx]; [|assert (x = 0%N) as -> by lia; by rewrite pretty_N_go_0].
    rewrite pretty_N_go_step by done. apply IH; [by apply N.div_lt|]. simpl. rewrite Hs, andb_true_r.
    unfold pretty_N_char. by repeat case_match. }
  unfold pretty, pretty_N. case_decide; [done|]. by apply H.
Qed.

(** Two texts split at the same first separator. *)
Lemma separator_inj c a1 b1 a2 b2 : contains c a1 = false -> contains c a2 = false ->
  a1 +:+ String c b1 = a2 +:+ String c b2 -> a1 = a2 /\ b1 = b2.
Proof.
  intros H1 H2 E. apply (split_once_append c "" a1 b1) in H1. apply (split_once_append c "" a2 b2) in H2.
  simpl in *. rewrite E, H2 in H1. by injection H1 as -> ->.
Qed.

Lemma append_inj_length a1 b1 a2 b2 : String.length a1 = String.length a2 -> a1 +:+ b1 = a2 +:+ b2 -> a1 = a2 /\ b1 = b2.
Proof.
  revert a2. induction a1 as [|c a1 IH]; intros [|c2 a2] Hl; simpl in *; try done.
  intros [= -> E]. injection Hl as Hl. destruct (IH a2 Hl E) as [-> ->]. done.
Qed.

(** A digest the canonical plan writes unambiguously: one line, and not the mark of an absent one. *)
Definition digest_ok (item : ReprocessReportItem) : Prop :=
  forall digest, it_digest item = Some digest -> digest <> "-" /\ contains "010" digest = false.

Lemma plan_line_inj i1 i2 r1 r2 : digest_ok i1 -> digest_ok i2 ->
  plan_line i1 +:+ r1 = plan_line i2 +:+ r2 -> i1 = i2 /\ r1 = r2.
Proof.
  intros D1 D2. unfold plan_line. rewrite !append_assoc. intros E.
  assert (forall n : N, contains ":" (pretty n) = false) as Hcolon
    by (intros n; eapply str_all_not_contains; [apply pretty_digits|done]).
  assert (forall c, contains "|" (wire_name c) = false) as Hbar by (by intros []).
  assert (forall i, digest_ok i -> contains "010" (default "-" (it_digest i)) = false) as Hline.
  { intros i D. destruct (it_digest i) as [digest|] eqn:Ed; [|done]. by apply D. }
  apply separator_inj in E as [Hlen E]; [|done|done]. apply (inj _) in Hlen.
  apply append_inj_length in E as [Hkey E]; [|lia]. simpl in E. injection E as E.
  apply separator_inj in E as [Hclass%wire_name_inj E]; [|done|done].
  apply separator_inj in E as [Hdig Hr]; [|by apply Hline..]. split; [|done].
  destruct i1 as [k1 c1 g1], i2 as [k2 c2 g2]. simpl in *. subst. f_equal.
  destruct g1 as [g1|], g2 as [g2|]; simpl in *; [congruence| | |done]; subst.
  - by destruct (D1 "-").
  - by destruct (D2 "-").
Qed.

Lemma canonical_plan_foldl items : forall acc,
  foldl (fun plan item => plan +:+ plan_line item) acc items = acc +:+ canonical_plan items.
Proof.
  unfold canonical_plan. induction items as [|i rest IH]; intros acc; [by rewrite append_nil_r|]. simpl.
  rewrite IH, (IH (plan_line i)). by rewrite append_assoc.
Qed.

Lemma canonical_plan_cons i rest : canonical_plan (i :: rest) = plan_line i +:+ canonical_plan rest.
Proof. unfold canonical_plan at 1. simpl. apply canonical_plan_foldl. Qed.

Lemma canonical_plan_inj items1 : forall items2, Forall digest_ok items1 -> Forall digest_ok items2 ->
  canonical_plan items1 = canonical_plan items2 -> items1 = items2.
Proof.
  assert (forall i rest, canonical_plan (i :: rest) <> canonical_plan []) as Hne.
  { intros i rest H. rewrite canonical_plan_cons in H. apply (f_equal String.length) in H.
    unfold plan_line in H. rewrite !length_append in H. simpl in H. lia. }
  induction items1 as [|i1 rest1 IH]; intros [|i2 rest2] H1 H2 E; [done|by symmetry in E; apply Hne in E|by apply Hne in E|].
  rewrite !canonical_plan_cons in E. apply Forall_cons in H1 as [D1 H1], H2 as [D2 H2].
  apply plan_line_inj in E as [-> E]; [|done|done]. f_equal. by apply IH.
Qed.

(** The canonical plan names its items: two plans whose digests are single lines other than
    "-" have the same canonical text only when they are the same plan, whatever bytes
    their keys hold. *)
Theorem canonical_plan_faithful items1 items2 : Forall digest_ok items1 -> Forall digest_ok items2 ->
  canonical_plan items1 = canonical_plan items2 <-> items1 = items2.
Proof. intros H1 H2. split; [by apply canonical_plan_inj|by intros ->]. Qed.

(** Nothing is projected from evidence that does not match. The caller's projection runs, and runs
    once, exactly when the retained bytes hash to the recorded digest, have the recorded length,
    and the export and the parser are the supported pair; the receipt returned then names these
    bytes. Otherwise the caller's state is untouched. *)
Theorem reprocessing_gate {S} receipt parser (projection : S -> S) s :
  (Z.of_nat (String.length (rt_bytes receipt)) <= u64_max)%Z ->
  (sha256 (rt_bytes receipt) = rt_expected_hash receipt
   /\ rt_expected_length receipt = Z.of_nat (String.length (rt_bytes receipt))
   /\ rt_detected_version receipt = SUPPORTED_REPROCESSING_EXPORT /\ parser = SUPPORTED_REPROCESSING_PARSER
   /\ begin_reprocessing receipt parser projection s
      = (Ok (mk_verified_receipt (rt_expected_hash receipt) (rt_expected_length receipt)), projection s))
  \/ exists e, begin_reprocessing receipt parser projection s = (Err e, s)
       /\ (e = ReceiptIntegrity <-> sha256 (rt_bytes receipt) <> rt_expected_hash receipt
             \/ rt_expected_length receipt <> Z.of_nat (String.length (rt_bytes receipt))).
Proof.
  intros Hlen. unfold begin_reprocessing.
  destruct (u64_max <? Z.of_nat (String.length (rt_bytes receipt)))%Z eqn:E0; [unfold u64_max in *; lia|].
  destruct (bool_decide_reflect (sha256 (rt_bytes receipt) = rt_expected_hash receipt)) as [H1|H1]; simpl.
  2: { right. eexists. split; [done|]. split; auto. }
  destruct (Z.eqb_spec (Z.of_nat (String.length (rt_bytes receipt))) (rt_expected_length receipt)) as [H2|H2]; simpl.
  2: { right. eexists. split; [done|]. split; auto. }
  destruct (bool_decide_reflect (rt_detected_version receipt = SUPPORTED_REPROCESSING_EXPORT)) as [H3|H3]; simpl.
  2: { right. eexists. split; [done|]. split; [done|]. intros [|]; congruence. }
  destruct (bool_decide_reflect (parser = SUPPORTED_REPROCESSING_PARSER)) as [H4|H4]; simpl.
  2: { right. eexists. split; [done|]. split; [done|]. intros [|]; congruence. }
  left. by rewrite <- H2, H1.
Qed.

(** [C17] The chunked application refines a counter. Let the tables represent that [k] items of a plan
    with distinct keys are applied: no run of the operation, or one whose stored items are
    exactly the first [k] of the plan. Whatever fails, a call of [apply_chunk] is a step of the
    counter: it leaves the tables representing [k], or [k] advanced by the chunk and at most to the
    end. A call that returns advanced it, says exactly whether the end is reached, and returns the report
    of the dry run. *)
Theorem apply_chunk_refines owner export_run_id operation_id inputs fingerprint max_items k w :
  NoDup (in_item_key <$> inputs) ->
  let report := migration_dry_run inputs fingerprint in
  progress owner export_run_id operation_id report k (w_db w) ->
  let w' := (apply_chunk owner export_run_id operation_id inputs fingerprint max_items w).2 in
  (exists k', chunk_step (length inputs) max_items k k' /\ progress owner export_run_id operation_id report k' (w_db w'))
  /\ forall outcome, (apply_chunk owner export_run_id operation_id inputs fingerprint max_items w).1 = Ok outcome ->
       progress owner export_run_id operation_id report (Nat.min (length inputs) (k + max_items)) (w_db w')
       /\ (oc_completed outcome = true <-> (length inputs <= k + max_items)%nat) /\ oc_report outcome = report.
Proof.
  intros Hn report Hp w'. destruct (render_keys inputs fingerprint Hn) as [Hk Hl].
  fold (migration_dry_run inputs fingerprint) in Hk, Hl. fold report in Hk, Hl. split.
  - destruct (transaction_atomic id (apply_chunk_body owner export_run_id operation_id report max_items) w)
      as [Hd|(a & w0 & w1 & Hd0 & _ & _ & Hbody & Hd)].
    + exists k. split; [constructor|]. unfold w', apply_chunk. change (migration_apply inputs fingerprint) with report.
      by rewrite Hd.
    + exists (Nat.min (length inputs) (k + max_items)). split; [constructor|].
      unfold w', apply_chunk. change (migration_apply inputs fingerprint) with report. rewrite Hd.
      eapply apply_chunk_body_Ok in Hbody as [Hp' _]; [|done|by rewrite Hd0]. rewrite <- Hl. by right.
  - intros outcome Ho.
    destruct (apply_chunk owner export_run_id operation_id inputs fingerprint max_items w) as [r w1] eqn:Er.
    simpl in *. subst r w'. apply transaction_Ok in Er as (w2 & w3 & Hd2 & _ & _ & [[Hb Hd]|[Hb Hd]]);
      (eapply apply_chunk_body_Ok in Hb as [Hp' [run_id Hf]]; [|done|by rewrite Hd2]); [|done].
    injection Hf as ->. simpl. rewrite Hd. change (migration_apply inputs fingerprint) with report in *.
    rewrite Hl in *. split; [by right|]. rewrite bool_decide_eq_true. split; [lia|done].
Qed.

End WithEnv.

(** * Progress on a healthy database *)

Section Healthy.
Context {Henv : Env} {Hh : Healthy Henv} {Hw : DigestWidth Henv}.

Lemma hex_text_length bytes : text_length (Publishing.hex bytes) = (2 * Z.of_nat (String.length bytes))%Z.
Proof.
  unfold text_length. rewrite length_chars_ascii.
  - induction bytes as [|b rest IH]; [done|]. cbn [Publishing.hex String.length]. lia.
  - induction bytes as [|b rest IH]; [done|]. cbn [Publishing.hex]. unfold is_ascii in *. cbn [str_all]. rewrite IH.
    destruct b as [[] [] [] [] [] [] [] []]; reflexivity.
Qed.

(** What the schema requires of a plan. *)
Definition plan_storable (inputs : list ReprocessInput) (fingerprint : string) : Prop :=
  text_length fingerprint = 64%Z
  /\ forall input, input ∈ inputs -> key_check (in_item_key input) = true
       /\ digest_check (in_prospective_digest input) = true.

Lemma insert_items_run run_id todo : forall cp w,
  is_Some (export_reprocessing_runs (w_db w) !! run_id) -> NoDup (it_item_key <$> todo) ->
  (forall item, item ∈ todo -> key_check (it_item_key item) = true /\ digest_check (it_digest item) = true
    /\ export_reprocessing_items (w_db w) !! (run_id, it_item_key item) = None) ->
  exists cp' w', insert_items run_id todo cp w = (Ok cp', w').
Proof using Hh.
  induction todo as [|item rest IH]; intros cp w Hrun Hn Htodo; [by eexists _, _|]. simpl.
  destruct (Htodo item) as (Hk & Hd & Hnew); [by left|]. apply NoDup_cons in Hn as [Hnin Hn].
  set (d1 := set_export_reprocessing_items (<[(run_id, it_item_key item) := item_row item]>
    (export_reprocessing_items (w_db w))) (w_db w)).
  destruct (IH (Some (it_item_key item)) (tick (with_db d1 w))) as (cp' & w' & Hrest); [done|done| |].
  - intros item' Hin. destruct (Htodo item') as (Hk' & Hd' & Hnew'); [by right|]. split_and!; [done|done|]. simpl.
    rewrite lookup_insert_ne; [done|]. intros [= He]. apply Hnin. rewrite He. apply list_elem_of_fmap. eauto.
  - exists cp', w'. apply bind_Ok. eexists _, _. split; [|exact Hrest]. apply execute_run. unfold insert_item.
    rewrite Hnew, Hk, Hd. destruct Hrun as [row ->]. done.
Qed.

Lemma ensure_run owner export_run_id operation_id inputs fingerprint k w :
  let report := migration_dry_run inputs fingerprint in
  progress owner export_run_id operation_id report k (w_db w) ->
  is_Some (export_runs (w_db w) !! export_run_id) -> text_length fingerprint = 64%Z ->
  export_reprocessing_runs (w_db w) !! mint (w_minted w) = None
    \/ (exists id r, export_reprocessing_runs (w_db w) !! id = Some r /\ rr_user_ref r = owner /\ rr_operation_id r = operation_id) ->
  exists ensured w', ensure_reprocessing_run owner export_run_id operation_id report w = (Ok ensured, w').
Proof using Hh Hw.
  intros report Hp [run Hrun] Hf Hmint. unfold ensure_reprocessing_run, bind at 1. rewrite read_healthy.
  destruct (run_of owner operation_id (w_db w)) as [[run_id row]|] eqn:Er.
  - apply run_of_Some in Er as (Hl & Hu & Ho).
    destruct Hp as [(_ & _ & Hno)|(id & _ & [(row' & Hl' & (_ & _ & Hx & Hpf & Hsf) & _) Huniq _ _])];
      [by destruct (Hno _ _ Hl)|].
    assert (run_id = id) as -> by (by apply (Huniq _ row)). rewrite Hl in Hl'. injection Hl' as <-.
    rewrite !bool_decide_eq_true_2 by done. by eexists _, _.
  - pose proof (run_of_None _ _ _ Er) as Hno.
    destruct Hmint as [Hmint|(id & r & Hl & Hu & Ho)]; [|by destruct (Hno _ _ Hl)].
    eexists _, _. apply bind_Ok. eexists _, _. split; [reflexivity|].
    apply bind_Ok. eexists _, _. split; [|reflexivity]. apply execute_run. simpl. unfold insert_run. simpl.
    rewrite Hmint, bool_decide_eq_false_2 by (by intros [? ?]).
    rewrite (proj2 (exists_where_false _ _)) by (intros id r Hl; simpl;
      apply andb_false_iff; rewrite !bool_decide_eq_false; destruct (decide (rr_user_ref r = owner)); [right|by left];
      intros Ho; by apply (Hno _ _ Hl)).
    unfold report, migration_dry_run. rewrite render_report_of. simpl. rewrite hex_text_length, digest_width, Hf.
    rewrite Hrun. done.
Qed.

Lemma apply_chunk_run owner export_run_id operation_id inputs fingerprint max_items k w :
  let report := migration_dry_run inputs fingerprint in
  NoDup (in_item_key <$> inputs) -> plan_storable inputs fingerprint ->
  progress owner export_run_id operation_id report k (w_db w) -> is_Some (export_runs (w_db w) !! export_run_id) ->
  export_reprocessing_runs (w_db w) !! mint (w_minted w) = None
    \/ begun owner export_run_id operation_id report k (w_db w) ->
  exists outcome w', apply_chunk owner export_run_id operation_id inputs fingerprint max_items w = (Ok outcome, w').
Proof using Hh Hw.
  intros report Hn [Hf Hst] Hp Hrun Hmint. destruct (render_keys inputs fingerprint Hn) as [Hk Hl].
  fold (migration_dry_run inputs fingerprint) in Hk, Hl. fold report in Hk, Hl.
  enough (exists f w1, apply_chunk_body owner export_run_id operation_id report max_items (txn_start w) = (Ok f, w1)) as (f & w1 & Hb).
  { destruct f as [outcome|outcome]; unfold apply_chunk; change (migration_apply inputs fingerprint) with report;
      rewrite transaction_healthy, Hb; eauto. }
  unfold apply_chunk_body.
  destruct (ensure_run owner export_run_id operation_id inputs fingerprint k (txn_start w)) as (ensured & w1 & He);
    [done|done|done| |].
  { destruct Hmint as [Hm|(run_id & _ & [(row & Hl' & (Hu & Ho & _) & _) _ _ _])]; [by left|right; eauto]. }
  fold report in He. pose proof (ensure_Ok _ _ _ _ k (txn_start w) _ _ Hp He) as (Hs & Hkl & _).
  unfold bind at 1. rewrite He. destruct ensured as [run_id previous]. simpl in *.
  destruct (_ || _); [by eexists _, _|].
  unfold bind at 1. rewrite read_healthy.
  destruct Hs as [(row & Hrow & _) _ Hitems _].
  rewrite (filter_applied _ k); [|done|].
  2: { intros key. rewrite elem_of_stored_keys. split.
       - intros [r (item & Hin & Hi & _)%Hitems]. eauto.
       - intros (item & Hin & Hi). eexists. apply Hitems. eauto. }
  destruct (insert_items_run run_id (take max_items (drop k (rp_items report))) None (tick w1)) as (cp & w2 & Hi).
  - simpl. by rewrite Hrow.
  - eapply sublist_NoDup; [exact Hk|]. rewrite fmap_take, fmap_drop. etrans; [apply sublist_take|apply sublist_drop].
  - intros item Hin%elem_of_take_in. assert (item ∈ rp_items report) as Hin'
      by (rewrite <- (take_drop k (rp_items report)); apply elem_of_app; by right).
    unfold report, migration_dry_run in Hin'. rewrite render_report_of in Hin'. simpl in Hin'.
    apply elem_of_sort_by, list_elem_of_fmap in Hin' as (input & -> & Hinput).
    destruct (Hst input Hinput) as [Hkc Hdc]. split_and!; [done|done|]. simpl.
    destruct (export_reprocessing_items (w_db w1) !! (run_id, in_item_key input)) as [r|] eqn:E; [|done].
    apply Hitems in E as (item' & Hin2 & Heq & _). exfalso.
    rewrite <- (take_drop k (rp_items report)), fmap_app in Hk. apply NoDup_app in Hk as (_ & Hdis & _).
    apply (Hdis (in_item_key input)); [rewrite <- Heq|change (in_item_key input) with (it_item_key (item_of_input input))];
      apply list_elem_of_fmap; eauto.
  - unfold bind at 1. rewrite Hi. unfold finish_reprocessing_run, bind. rewrite read_healthy, execute_healthy.
    by eexists _, _.
Qed.

(** A caller that applies [S j] chunks in a row. *)
Fixpoint apply_chunks (owner export_run_id operation_id : Uuid) (inputs : list ReprocessInput) (fingerprint : string)
  (max_items j : nat) : M SqlError ReprocessApplyOutcome :=
  match j with
  | O => apply_chunk owner export_run_id operation_id inputs fingerprint max_items
  | S j => apply_chunk owner export_run_id operation_id inputs fingerprint max_items ;;;
           apply_chunks owner export_run_id operation_id inputs fingerprint max_items j
  end.

Lemma apply_chunk_export_runs owner export_run_id operation_id inputs fingerprint max_items w :
  export_runs (w_db (apply_chunk owner export_run_id operation_id inputs fingerprint max_items w).2) = export_runs (w_db w).
Proof.
  change ((fun d => export_runs d = export_runs (w_db w))
    (w_db (apply_chunk owner export_run_id operation_id inputs fingerprint max_items w).2)).
  assert (preserves (fun d => export_runs d = export_runs (w_db w))
    (apply_chunk owner export_run_id operation_id inputs fingerprint max_items)) as Hp; [|by apply Hp].
  assert (forall run_id todo cp, preserves (fun d => export_runs d = export_runs (w_db w)) (insert_items run_id todo cp)) as Hi.
  { intros run_id todo. induction todo as [|item rest IH]; intros cp; simpl; preserve_steps; [|apply IH].
    apply preserves_execute. by intros t d d' Hd [_ ->]%insert_item_Ok. }
  apply preserves_transaction_body. unfold apply_chunk_body, ensure_reprocessing_run, finish_reprocessing_run.
  preserve_steps; try apply Hi; apply preserves_execute; intros t d d' Hd.
  - unfold insert_run. repeat (case_match; try done). by intros [= <-].
  - by intros [= <-].
Qed.

Lemma apply_chunks_complete owner export_run_id operation_id inputs fingerprint max_items j k w :
  let report := migration_dry_run inputs fingerprint in
  NoDup (in_item_key <$> inputs) -> plan_storable inputs fingerprint ->
  progress owner export_run_id operation_id report k (w_db w) -> is_Some (export_runs (w_db w) !! export_run_id) ->
  export_reprocessing_runs (w_db w) !! mint (w_minted w) = None ->
  (length inputs <= k + S j * max_items)%nat ->
  exists outcome w', apply_chunks owner export_run_id operation_id inputs fingerprint max_items j w = (Ok outcome, w')
    /\ oc_completed outcome = true /\ oc_report outcome = report
    /\ begun owner export_run_id operation_id report (length inputs) (w_db w').
Proof using Hh Hw.
  intros report Hn Hst Hp Hrun Hmint Hlen. destruct (render_keys inputs fingerprint Hn) as [Hk Hl].
  fold (migration_dry_run inputs fingerprint) in Hk, Hl. fold report in Hk, Hl.
  assert (forall k w outcome w', progress owner export_run_id operation_id report k (w_db w) ->
    apply_chunk owner export_run_id operation_id inputs fingerprint max_items w = (Ok outcome, w') ->
    begun owner export_run_id operation_id report (Nat.min (length inputs) (k + max_items)) (w_db w')
    /\ oc_completed outcome = bool_decide (Nat.min (length inputs) (k + max_items) = length inputs)
    /\ oc_report outcome = report) as Hstep.
  { intros k0 w0 outcome w' Hp0 (w2 & w3 & Hd2 & _ & _ & [[Hb Hd]|[Hb Hd]])%transaction_Ok;
      (eapply apply_chunk_body_Ok in Hb as [Hp' [run_id Hf]]; [|done|by rewrite Hd2]); [|done].
    injection Hf as ->. simpl. rewrite Hd. change (migration_apply inputs fingerprint) with report in *.
    by rewrite Hl in *. }
  apply or_introl with (B := begun owner export_run_id operation_id report k (w_db w)) in Hmint.
  revert k w Hp Hrun Hmint Hlen. induction j as [|j IH]; intros k w Hp Hrun Hmint Hlen;
    destruct (apply_chunk_run owner export_run_id operation_id inputs fingerprint max_items k w) as (outcome & w' & Ha);
    try done; destruct (Hstep _ _ _ _ Hp Ha) as (Hb & Hc & Hr).
  - exists outcome, w'. split; [done|]. rewrite Nat.min_l in Hb, Hc by lia. by rewrite Hc, bool_decide_eq_true_2.
  - destruct (IH (Nat.min (length inputs) (k + max_items)) w') as (outcome' & w'' & Ha' & H); [by right| |by right| |].
    + pose proof (apply_chunk_export_runs owner export_run_id operation_id inputs fingerprint max_items w) as Hx.
      rewrite Ha in Hx. simpl in Hx. by rewrite Hx.
    + lia.
    + exists outcome', w''. split; [|done]. simpl. apply bind_Ok. eauto.
Qed.

(** A reprocessing finishes. On a healthy database, for an export that exists and a plan with
    distinct keys that the schema accepts, calling [apply_chunk] repeatedly, from any stage
    the operation is at, completes it as soon as the calls together cover the remaining items:
    [m] calls of [max_items] complete what is left when it is at most [m * max_items] items. *)
Theorem reprocessing_completes owner export_run_id operation_id inputs fingerprint max_items j k w :
  let report := migration_dry_run inputs fingerprint in
  NoDup (in_item_key <$> inputs) -> plan_storable inputs fingerprint ->
  progress owner export_run_id operation_id report k (w_db w) -> is_Some (export_runs (w_db w) !! export_run_id) ->
  export_reprocessing_runs (w_db w) !! mint (w_minted w) = None ->
  (length inputs <= k + S j * max_items)%nat ->
  exists outcome w', apply_chunks owner export_run_id operation_id inputs fingerprint max_items j w = (Ok outcome, w')
    /\ oc_completed outcome = true /\ oc_report outcome = report
    /\ begun owner export_run_id operation_id report (length inputs) (w_db w').
Proof using Hh Hw. apply apply_chunks_complete. Qed.

End Healthy.

(** * Witnesses: three items of one export, applied two at a time *)

(** The sample environment with digests of 32 bytes. *)
Definition digest_env : Env := {|
  fault := @fault sample_env; io := @io sample_env; bus := @bus sample_env; clock := @clock sample_env;
  mint := @mint sample_env; show_uuid := @show_uuid sample_env; new_v5 := @new_v5 sample_env;
  sha256 := fun s => String.substring 0 32 (s +:+ "................................");
|}.

#[export] Instance digest_env_healthy : Healthy digest_env.
Proof. by intros n. Qed.

#[export] Instance digest_env_width : DigestWidth digest_env.
Proof.
  assert (forall n s t, n <= String.length t -> String.length (String.substring 0 n (s +:+ t)) = n) as H.
  { intros n s. revert n. induction s as [|c s IH]; simpl.
    - intros n t. revert n. induction t as [|c t IH]; intros [|n]; simpl; intros; [lia..|]. rewrite IH; lia.
    - intros [|n] t Hn; simpl; [done|]. rewrite IH; lia. }
  intros s. apply H. reflexivity.
Qed.

Definition sample_fingerprint : string := "0000000000000000000000000000000000000000000000000000000000000000".

Definition sample_inputs : list ReprocessInput :=
  [mk_input "posts/2" Normalized (Some sample_fingerprint); mk_input "posts/1" Warning None;
   mk_input "media/1" Omitted None].

Definition reprocessing_world : World := sample_world (set_export_runs
  {[5%N := mk_export_run_row 7 "hash" "blob" 3 "parser" "completed" None 0 None None]} empty_db).

Lemma sample_inputs_distinct : NoDup (in_item_key <$> sample_inputs).
Proof. apply (bool_decide_unpack _). by vm_compute. Qed.

Lemma reprocessing_fresh : progress 7 5 9 (@migration_dry_run digest_env sample_inputs sample_fingerprint) 0
  (w_db reprocessing_world).
Proof.
  left. split; [done|]. split; [intros k [r H]; exfalso; exact (lookup_empty_Some k r H)|].
  intros id r H. exfalso. exact (lookup_empty_Some id r H).
Qed.

Lemma apply_chunk_refines_witness :
  let r := @apply_chunk digest_env 7 5 9 sample_inputs sample_fingerprint 2 reprocessing_world in
  exists outcome, r.1 = Ok outcome /\ oc_completed outcome = false
    /\ size (export_reprocessing_items (w_db r.2)) = 2.
Proof.
  intros r. assert (exists outcome, r.1 = Ok outcome) as [outcome Ho] by (eexists; vm_compute; reflexivity).
  exists outcome. split; [exact Ho|].
  destruct (@apply_chunk_refines digest_env 7 5 9 sample_inputs sample_fingerprint 2 0 reprocessing_world
    sample_inputs_distinct reprocessing_fresh) as [_ H].
  destruct (H outcome Ho) as (_ & Hc & _). split; [|vm_compute; reflexivity].
  destruct (oc_completed outcome); [|done]. exfalso. assert (length sample_inputs <= 2) by (by apply Hc). simpl in *. lia.
Defined.

Lemma reprocessing_completes_witness :
  exists outcome w', @apply_chunks digest_env 7 5 9 sample_inputs sample_fingerprint 2 1 reprocessing_world = (Ok outcome, w')
    /\ oc_completed outcome = true.
Proof.
  destruct (@reprocessing_completes digest_env _ _ 7 5 9 sample_inputs sample_fingerprint 2 1 0 reprocessing_world)
    as (outcome & w' & H1 & H2 & _).
  - exact sample_inputs_distinct.
  - split; [vm_compute; reflexivity|]. intros input Hin.
    unfold sample_inputs in Hin. rewrite !elem_of_cons, elem_of_nil in Hin.
    destruct Hin as [->|[->|[->|[]]]]; split; vm_compute; reflexivity.
  - exact reprocessing_fresh.
  - by eexists.
  - done.
  - simpl. lia.
  - exists outcome, w'. split; [exact H1|exact H2].
Defined.

Lemma canonical_plan_faithful_witness :
  canonical_plan [mk_item "a" Normalized None] <> canonical_plan [mk_item "a|normalized" Normalized None].
Proof.
  intros H. apply (canonical_plan_faithful [mk_item "a" Normalized None] [mk_item "a|normalized" Normalized None]) in H;
    [discriminate H|apply Forall_singleton; intros digest; discriminate..].
Defined.

Lemma reprocessing_gate_witness :
  @begin_reprocessing sample_env nat (mk_retained_receipt "zip" "zip" 3 SUPPORTED_REPROCESSING_EXPORT)
    SUPPORTED_REPROCESSING_PARSER S 0 = (Ok (mk_verified_receipt "zip" 3), 1).
Proof.
  destruct (@reprocessing_gate sample_env nat (mk_retained_receipt "zip" "zip" 3 SUPPORTED_REPROCESSING_EXPORT)
    SUPPORTED_REPROCESSING_PARSER S 0) as [(_ & _ & _ & _ & H)|(e & H & _)]; [|exact H|].
  - vm_compute. discriminate.
  - exfalso. vm_compute in H. discriminate.
Defined.

End Reprocessing.
