(* ===== verification/ExportArchive.v ===== *)
(** Archives of the Data Export (src/crates/threads-archive/src/data_export_archive.rs): inspection
    of the ZIP metadata under limits, extraction below a private root, and the parser of the one
    supported layout.

    The ZIP reader, the CP437 table and the JSON decoder are library code and a parameter
    ([ZipLibrary]); path components are those of the standard library on Unix. *)
From stdpp Require Import pretty.
From S2P Require Import Prelude Schema Store RawObjects.

Module ExportArchive.
Import Schema Store RawObjects.
Local Open Scope string_scope.
Local Open Scope rust_scope.

Definition SUPPORTED_EXPORT_VERSION : string := "threads-export-v1".
Definition PARSER_VERSION : string := "threads-export-v1-parser-1".
Definition MANIFEST : string := "threads_export.json".

Record ExportLimits := mk_limits {
  max_entries : Z;
  max_path_depth : Z;
  max_compressed_bytes : Z;
  max_decompressed_bytes : Z;
  max_compression_ratio : Z;
}.

Definition default_limits : ExportLimits :=
  mk_limits 1000 16 (64 * 1024 * 1024) (256 * 1024 * 1024) 100.

(** Payloads of library errors are not kept. *)
Inductive ExportError :=
| ExportRawStorage (e : PublicResolutionError)
| ExportPersistence (e : SqlError)
| InvalidZip
| Limit (limit detail : string)
| UnsupportedLayout
| InvalidManifest
| UnsupportedVersion (version : string)
| Extraction (operation : string).

(** * The library *)

(** What [by_index] and [by_name] give: the metadata, and the results of successive [read] calls on the
    decompressed content, a failed one with its kind. *)
Record ZipFile := mk_zip_file {
  zf_flags : Z;
  zf_name_raw : string;
  zf_name : option string;
  zf_compressed_size : Z;
  zf_size : Z;
  zf_content : list (Result string string);
}.

Record ExportManifestPost := mk_manifest_post { mp_id : string; mp_permalink : string; mp_text : option string }.
Record ExportManifestRelation := mk_manifest_relation { mr_from : string; mr_kind : string; mr_to : string }.
Record ExportManifest := mk_manifest {
  mf_version : string;
  mf_posts : list ExportManifestPost;
  mf_relations : list ExportManifestRelation;
}.

Record ZipArchive := mk_zip_archive {
  za_len : nat;
  za_by_index : nat -> option ZipFile;
  za_by_name : string -> option ZipFile;
}.

Class ZipLibrary := {
  zip_new : string -> option ZipArchive;         (* [ZipArchive::new] *)
  cp437 : ascii -> string;                       (* the character of a CP437 byte, in UTF-8 *)
  manifest_from_str : string -> option ExportManifest; (* [serde_json::from_str] *)
}.

(** Sizes are unsigned. *)
Class ZipLaws (H : ZipLibrary) : Prop := zip_sizes : forall bytes archive i file,
  @zip_new H bytes = Some archive -> za_by_index archive i = Some file ->
  (0 <= zf_compressed_size file)%Z /\ (0 <= zf_size file)%Z.

Record ParsedExport := mk_parsed_export {
  pe_detected_version : string;
  pe_parser_version : string;
  pe_posts : list ExportPost;
  pe_relations : list ExportRelation;
  pe_unknown_entries : list string;
}.

(** * Limits *)

Definition show_Z (n : Z) : string := pretty n.

Definition size_error (limit : string) (value : Z) : ExportError := Limit limit (show_Z value).
Definition path_error (name : string) : ExportError := Limit "path" name.

Definition checked_total (total value : Z) (limit : string) : Result ExportError Z :=
  ok_or (checked_add u64_max total value) (size_error limit u64_max).

Definition exceeds_ratio (uncompressed compressed maximum : Z) : bool :=
  if (uncompressed =? 0)%Z then false
  else (compressed =? 0)%Z || (saturating_mul u64_max compressed maximum <? uncompressed)%Z.

(** * Paths *)

Inductive Component := RootDir | CurDir | ParentDir | Normal (name : string).

(** [Path::components]: repeated separators and inner "." components disappear. *)
Definition components (name : string) : list Component :=
  let pieces := split_char "/" name in
  ((if starts_with "/" name then [RootDir]
    else match pieces with p :: _ => if bool_decide (p = ".") then [CurDir] else [] | [] => [] end)
   ++ omap (fun p => if bool_decide (p = "") || bool_decide (p = ".") then None
                     else if bool_decide (p = "..") then Some ParentDir else Some (Normal p)) pieces)%list.

Definition is_normal (c : Component) : bool := match c with Normal _ => true | _ => false end.

Definition validate_entry_name (name : string) (max_depth : Z) : Result ExportError string :=
  if bool_decide (name = "") || starts_with "/" name || contains "\" name then Err (path_error name) else
  if List.existsb (fun c => negb (is_normal c)) (components name)
     || List.existsb (fun p => bool_decide (p = "")) (split_char "/" name) then Err (path_error name) else
  if (max_depth <? Z.of_nat (length (split_char "/" name)))%Z then Err (Limit "path_depth" name)
  else Ok name.

(** Where the file system puts [base.join(name)]: an absolute name replaces the base, ".." leaves a
    directory. *)
Definition walk (base : list string) (pieces : list string) : list string :=
  foldl (fun dir p => if bool_decide (p = "") || bool_decide (p = ".") then dir
                      else if bool_decide (p = "..") then removelast dir else (dir ++ [p])%list) base pieces.

Definition join (base : list string) (name : string) : list string :=
  walk (if starts_with "/" name then [] else base) (split_char "/" name).

Section WithEnv.
Context {Henv : Env} {Hzip : ZipLibrary}.

(** * Inspection *)

(** Bit 11 of the general-purpose flags: the name is UTF-8. *)
Definition utf8_flag (file : ZipFile) : bool := negb (Z.land (zf_flags file) 0x0800 =? 0)%Z.

(** The entry's name, decoded. *)
Definition entry_name (file : ZipFile) : Result ExportError string :=
  if utf8_flag file && negb (valid_utf8 (zf_name_raw file)) then Err InvalidZip
  else if negb (utf8_flag file) && negb (is_ascii (zf_name_raw file))
  then Ok (String.concat "" (cp437 <$> String.list_ascii_of_string (zf_name_raw file)))
  else ok_or (zf_name file) InvalidZip.

(** One round of the loop: the running totals and the name to keep. *)
Definition inspect_entry (limits : ExportLimits) (file : ZipFile) (compressed decompressed : Z)
  : Result ExportError (Z * Z * string) :=
  let? name := entry_name file in
  let? compressed := checked_total compressed (zf_compressed_size file) "compressed_bytes" in
  let? decompressed := checked_total decompressed (zf_size file) "decompressed_bytes" in
  if (max_compressed_bytes limits <? compressed)%Z then Err (size_error "compressed_bytes" compressed) else
  if (max_decompressed_bytes limits <? decompressed)%Z then Err (size_error "decompressed_bytes" decompressed) else
  if exceeds_ratio (zf_size file) (zf_compressed_size file) (max_compression_ratio limits)
  then Err (Limit "compression_ratio" name) else
  let? kept := validate_entry_name name (max_path_depth limits) in
  Ok (compressed, decompressed, kept).

Fixpoint inspect_from (limits : ExportLimits) (archive : ZipArchive) (indices : list nat) (compressed decompressed : Z)
  : Result ExportError (list string) :=
  match indices with
  | [] => Ok []
  | index :: rest =>
      let? file := ok_or (za_by_index archive index) InvalidZip in
      let? totals := inspect_entry limits file compressed decompressed in
      let? names := inspect_from limits archive rest totals.1.1 totals.1.2 in
      Ok (totals.2 :: names)
  end.

(** [inspect_archive]. *)
Definition inspect_archive (bytes : string) (limits : ExportLimits) : Result ExportError (list string) :=
  let? archive := ok_or (zip_new bytes) InvalidZip in
  if (max_entries limits <? Z.of_nat (za_len archive))%Z
  then Err (size_error "entry_count" (Z.of_nat (za_len archive)))
  else inspect_from limits archive (seq 0 (za_len archive)) 0 0.

(** * Extraction *)

(** A directory tree: files and directories by absolute path, and the file operations made. *)
Record Tree := mk_tree { tr_files : gmap (list string) string; tr_dirs : gset (list string); tr_step : nat }.

Definition X (A : Type) : Type := Tree -> Result ExportError A * Tree.

Definition stepped (t : Tree) : Tree := mk_tree (tr_files t) (tr_dirs t) (S (tr_step t)).

(** The directories on the way to a path, itself included. *)
Definition ancestors (path : list string) : list (list string) := (fun n => take n path) <$> seq 1 (length path).

(** [create_dir_all]: fails when the way leads through a file. *)
Definition create_dir_all (operation : string) (path : list string) : X () :=
  fun t => match io (tr_step t) with
           | IoOk => if List.existsb (fun p => bool_decide (is_Some (tr_files t !! p))) (ancestors path)
                     then (Err (Extraction operation), stepped t)
                     else (Ok (), stepped (mk_tree (tr_files t) (tr_dirs t ∪ list_to_set (ancestors path)) (tr_step t)))
           | _ => (Err (Extraction operation), stepped t)
           end.

(** [OpenOptions::create_new]: fails on anything that exists. *)
Definition create_new (path : list string) : X () :=
  fun t => match io (tr_step t) with
           | IoOk => if bool_decide (is_Some (tr_files t !! path)) || bool_decide (path ∈ tr_dirs t)
                     then (Err (Extraction "creating entry"), stepped t)
                     else (Ok (), stepped (mk_tree (<[path := ""]> (tr_files t)) (tr_dirs t) (tr_step t)))
           | _ => (Err (Extraction "creating entry"), stepped t)
           end.

Definition write_all (path : list string) (bytes : string) : X () :=
  fun t =>
    let append data := stepped (mk_tree (alter (fun c => c +:+ data) path (tr_files t)) (tr_dirs t) (tr_step t)) in
    match io (tr_step t) with
    | IoOk => (Ok (), append bytes)
    | IoError => (Err (Extraction "writing entry"), stepped t)
    | IoPartial n => (Err (Extraction "writing entry"), append (String.substring 0 n bytes))
    end.

Definition sync_all : X () :=
  fun t => match io (tr_step t) with
           | IoOk => (Ok (), stepped t)
           | _ => (Err (Extraction "syncing entry"), stepped t)
           end.

Definition bindX {A B} (m : X A) (k : A -> X B) : X B :=
  fun t => match m t with
           | (Ok a, t') => k a t'
           | (Err e, t') => (Err e, t')
           end.

Definition liftX {A} (r : Result ExportError A) : X A := fun t => (r, t).

Notation "'let@' x ':=' m 'in' k" := (bindX m (fun x => k))
  (at level 10, x pattern, m at level 100, k at level 200).

(** The buffer of [copy_bounded]. *)
Definition COPY_BUFFER : Z := 8192.

(** [copy_bounded]; a read that claims more than its buffer is refused. *)
Fixpoint copy_bounded (input : list (Result string string)) (output : list string) (maximum total : Z) : X Z :=
  match input with
  | [] => liftX (Ok total)
  | Err _ :: _ => liftX (Err (Extraction "reading entry"))
  | Ok chunk :: rest =>
      if bool_decide (chunk = "") then liftX (Ok total) else
      let read := Z.of_nat (String.length chunk) in
      let@ total := liftX (checked_total total read "decompressed_bytes") in
      if (maximum <? total)%Z then liftX (Err (size_error "decompressed_bytes" total)) else
      if (COPY_BUFFER <? read)%Z then liftX (Err (size_error "entry_read" read)) else
      let@ _ := write_all output chunk in
      copy_bounded rest output maximum total
  end.

(** [write_entry]. *)
Definition write_entry (file : ZipFile) (root : list string) (name : string) (max_bytes : Z) : X Z :=
  let path := join root name in
  let@ parent := liftX (if bool_decide (path = []) then Err (path_error name) else Ok (removelast path)) in
  let@ _ := create_dir_all "creating parent" parent in
  let@ _ := create_new path in
  let@ written := copy_bounded (zf_content file) path max_bytes 0 in
  let@ _ := sync_all in
  liftX (Ok written).

Fixpoint extract_from (limits : ExportLimits) (archive : ZipArchive) (root : list string) (index : nat)
  (names : list string) (extracted : Z) : X () :=
  match names with
  | [] => liftX (Ok ())
  | name :: rest =>
      let@ file := liftX (ok_or (za_by_index archive index) InvalidZip) in
      let@ written := write_entry file root name (max_decompressed_bytes limits) in
      let@ extracted := liftX (checked_total extracted written "decompressed_bytes") in
      if (max_decompressed_bytes limits <? extracted)%Z
      then liftX (Err (size_error "decompressed_bytes" extracted))
      else extract_from limits archive root (S index) rest extracted
  end.

(** [extract_archive]. *)
Definition extract_archive (bytes : string) (limits : ExportLimits) (root : list string) : X (list string) :=
  let@ names := liftX (inspect_archive bytes limits) in
  let@ _ := create_dir_all "creating root" root in
  let@ archive := liftX (ok_or (zip_new bytes) InvalidZip) in
  let@ _ := extract_from limits archive root 0 names 0 in
  liftX (Ok names).

(** * The parser *)

Definition post_of_manifest (p : ExportManifestPost) : ExportPost := mk_export_post (mp_id p) (mp_permalink p) (mp_text p).
Definition relation_of_manifest (r : ExportManifestRelation) : ExportRelation :=
  mk_export_relation (mr_from r) (mr_kind r) (mr_to r).

(** The derived order of the relations. *)
Definition export_relation_leb : ExportRelation -> ExportRelation -> bool :=
  lex_leb [xl_referencing_provider_post_id; xl_relation_kind; xl_target_provider_post_id].

Definition export_post_leb : ExportPost -> ExportPost -> bool := lex_leb [ep_provider_post_id].

Definition entry_leb : string -> string -> bool := lex_leb [id].

(** [normalize_manifest]. *)
Definition normalize_manifest (manifest : ExportManifest) (entry_names : list string) : Result ExportError ParsedExport :=
  if negb (bool_decide (mf_version manifest = SUPPORTED_EXPORT_VERSION))
  then Err (UnsupportedVersion (mf_version manifest)) else
  Ok (mk_parsed_export SUPPORTED_EXPORT_VERSION PARSER_VERSION
    (sort_by export_post_leb (post_of_manifest <$> mf_posts manifest))
    (sort_by export_relation_leb (relation_of_manifest <$> mf_relations manifest))
    (sort_by entry_leb (List.filter (fun name => negb (bool_decide (name = MANIFEST))) entry_names))).

(** [read_to_string]: the bytes up to the end, which must be UTF-8; a failure has its kind. *)
Fixpoint read_to_end (input : list (Result string string)) : Result string string :=
  match input with
  | [] => Ok ""
  | Err kind :: _ => Err kind
  | Ok chunk :: rest =>
      if bool_decide (chunk = "") then Ok "" else
      let? more := read_to_end rest in Ok (chunk +:+ more)
  end.

Definition read_to_string (input : list (Result string string)) : Result string string :=
  let? bytes := read_to_end input in
  if valid_utf8 bytes then Ok bytes else Err "invalid data".

(** [parse_export]. *)
Definition parse_export (bytes : string) (limits : ExportLimits) : Result ExportError ParsedExport :=
  let? entry_names := inspect_archive bytes limits in
  if negb (List.existsb (fun name => bool_decide (name = MANIFEST)) entry_names) then Err UnsupportedLayout else
  let? archive := ok_or (zip_new bytes) InvalidZip in
  let? file := ok_or (za_by_name archive MANIFEST) InvalidZip in
  let? text := map_err (fun kind => Limit "manifest_read" kind) (read_to_string (zf_content file)) in
  let? manifest := ok_or (manifest_from_str text) InvalidManifest in
  normalize_manifest manifest entry_names.

(** * Names stay below their root *)

Lemma split_char_cons c s : exists p rest, split_char c s = p :: rest.
Proof.
  induction s as [|d s (p & rest & E)]; simpl; [by eexists _, _|]. case_decide; [by eexists _, _|].
  rewrite E. by eexists _, _.
Qed.

Lemma starts_with_empty_piece name : starts_with "/" name = true -> "" ∈ split_char "/" name.
Proof. intros [t ->]%starts_with_true. by left. Qed.

Lemma existsb_false {A} (f : A -> bool) l : List.existsb f l = false <-> forall x, x ∈ l -> f x = false.
Proof.
  rewrite <- not_true_iff_false, List.existsb_exists. split.
  - intros H x Hx. apply not_true_iff_false. intros Hf. apply H. exists x. by rewrite <- list_elem_of_In.
  - intros H (x & Hx%list_elem_of_In & Hf). by rewrite (H x Hx) in Hf.
Qed.

(** An entry name that stays where it is put: relative, no empty component, no "..", not starting
    with ".", no backslash. *)
Definition safe_name (name : string) : Prop :=
  contains "\" name = false /\ head (split_char "/" name) <> Some "."
  /\ forall p, p ∈ split_char "/" name -> p <> "" /\ p <> "..".

Lemma components_normal name : starts_with "/" name = false ->
  (forall p, p ∈ split_char "/" name -> p <> "") ->
  List.existsb (fun c => negb (is_normal c)) (components name) = false
  <-> head (split_char "/" name) <> Some "." /\ forall p, p ∈ split_char "/" name -> p <> "..".
Proof.
  intros Hs Hne. rewrite existsb_false. unfold components. rewrite Hs.
  destruct (split_char_cons "/" name) as (p0 & rest & E). rewrite E in *. cbn [head]. split.
  - intros H. split.
    + intros [= ->]. specialize (H CurDir). simpl in H. discriminate H. by left.
    + intros p Hp ->. specialize (H ParentDir). discriminate H. apply elem_of_app. right.
      apply list_elem_of_omap. exists "..". done.
  - intros [Hd Hdd] c [Hc|(p & Hp & Ho)%list_elem_of_omap]%elem_of_app.
    + case_bool_decide; [congruence|by apply not_elem_of_nil in Hc].
    + rewrite (bool_decide_eq_false_2 _ (Hdd p Hp)) in Ho. destruct (_ || _); [done|]. by injection Ho as <-.
Qed.

Lemma validate_entry_name_Ok name max_depth kept : validate_entry_name name max_depth = Ok kept <->
  kept = name /\ safe_name name /\ (Z.of_nat (length (split_char "/" name)) <= max_depth)%Z.
Proof.
  unfold validate_entry_name, safe_name. split.
  - destruct (bool_decide (name = "")); [done|]. destruct (starts_with "/" name) eqn:Es; [done|].
    destruct (contains "\" name) eqn:Eb; [done|]. simpl.
    destruct (List.existsb _ (components name)) eqn:Ec; [done|]. simpl.
    destruct (List.existsb _ (split_char "/" name)) eqn:Ep; [done|].
    destruct (_ <? _)%Z eqn:Ed; [done|]. intros [= <-].
    rewrite existsb_false in Ep. setoid_rewrite bool_decide_eq_false in Ep.
    apply components_normal in Ec as [H1 H2]; [|done|done]. split_and!; auto; lia.
  - intros (-> & (Hb & Hd & Hp) & Hl).
    assert (starts_with "/" name = false) as Hs.
    { destruct (starts_with "/" name) eqn:E; [|done]. apply starts_with_empty_piece in E. by apply Hp in E as [? _]. }
    assert (name <> "") as Hne by (intros ->; destruct (Hp "") as [? _]; [simpl; by left|done]).
    rewrite (bool_decide_eq_false_2 _ Hne), Hs, Hb. simpl.
    rewrite (proj2 (components_normal name Hs (fun p H => proj1 (Hp p H)))) by (split; [done|]; intros p H; by apply Hp).
    rewrite (proj2 (existsb_false _ _)); [simpl|intros p H; apply bool_decide_eq_false; by apply Hp].
    by rewrite (proj2 (Z.ltb_ge _ _) Hl).
Qed.

Lemma walk_below base pieces : (forall p, p ∈ pieces -> p <> "" /\ p <> "..") ->
  walk base pieces = (base ++ List.filter (fun p => negb (bool_decide (p = "."))) pieces)%list.
Proof.
  unfold walk. revert base. induction pieces as [|p rest IH]; intros base Hp; simpl; [by rewrite app_nil_r|].
  destruct (Hp p) as [H1 H2]; [by left|]. rewrite !(bool_decide_eq_false_2 _ H1), !(bool_decide_eq_false_2 _ H2). simpl.
  rewrite IH by (intros q Hq; apply Hp; by right). case_bool_decide; simpl; [done|]. by rewrite <- app_assoc.
Qed.

(** A safe name lands strictly below the base. *)
Lemma join_below base name : safe_name name ->
  exists p rest, join base name = (base ++ p :: rest)%list /\ Forall (fun q => q <> "" /\ q <> "." /\ q <> "..") (p :: rest).
Proof.
  intros (_ & Hd & Hp). unfold join.
  assert (starts_with "/" name = false) as Hs.
  { destruct (starts_with "/" name) eqn:E; [|done]. apply starts_with_empty_piece in E. by apply Hp in E as [? _]. }
  rewrite Hs, walk_below by done. destruct (split_char_cons "/" name) as (p & rest & E). rewrite E in *. simpl in *.
  rewrite bool_decide_eq_false_2 by congruence. simpl. eexists p, _. split; [done|].
  apply Forall_forall. intros q [->|Hq]%elem_of_cons.
  - destruct (Hp p) as [H1 H2]; [by left|]. split_and!; congruence.
  - apply list_elem_of_In, filter_In in Hq as [Hq%list_elem_of_In Hn]. apply negb_true_iff, bool_decide_eq_false in Hn.
    destruct (Hp q) as [H1 H2]; [by right|]. done.
Qed.

(** * Inspection enforces the limits *)

Definition total (f : ZipFile -> Z) (files : list ZipFile) : Z := foldr (fun file n => (f file + n)%Z) 0%Z files.

(** What one entry must satisfy to be kept under a name. *)
Definition entry_ok (limits : ExportLimits) (file : ZipFile) (name : string) : Prop :=
  entry_name file = Ok name /\ safe_name name
  /\ (Z.of_nat (length (split_char "/" name)) <= max_path_depth limits)%Z
  /\ exceeds_ratio (zf_size file) (zf_compressed_size file) (max_compression_ratio limits) = false.

(** The limits are 64-bit quantities. *)
Definition limits_u64 (limits : ExportLimits) : Prop :=
  (0 <= max_compressed_bytes limits <= u64_max)%Z /\ (0 <= max_decompressed_bytes limits <= u64_max)%Z.

Lemma checked_total_Ok total_ value limit n : checked_total total_ value limit = Ok n <->
  n = (total_ + value)%Z /\ (total_ + value <= u64_max)%Z.
Proof.
  unfold checked_total, checked_add. destruct (_ <=? _)%Z eqn:E; simpl; split; intros H; [|..|lia].
  - injection H as <-. lia.
  - by destruct H as [-> _].
  - done.
Qed.

Lemma inspect_entry_Ok limits file c d r : limits_u64 limits ->
  inspect_entry limits file c d = Ok r <->
  exists name, entry_ok limits file name /\ r = ((c + zf_compressed_size file)%Z, (d + zf_size file)%Z, name)
    /\ (c + zf_compressed_size file <= max_compressed_bytes limits)%Z
    /\ (d + zf_size file <= max_decompressed_bytes limits)%Z.
Proof.
  intros [Hc Hd]. unfold inspect_entry, entry_ok. split.
  - intros H. destruct (entry_name file) as [name|] eqn:En; [|done]. simpl in H.
    destruct (checked_total c _ _) as [c'|] eqn:Ec; [|done]. apply checked_total_Ok in Ec as [-> _]. simpl in H.
    destruct (checked_total d _ _) as [d'|] eqn:Ed; [|done]. apply checked_total_Ok in Ed as [-> _]. simpl in H.
    destruct (_ <? _)%Z eqn:E1; [done|]. destruct (max_decompressed_bytes limits <? _)%Z eqn:E2; [done|].
    destruct (exceeds_ratio _ _ _) eqn:E3; [done|]. destruct (validate_entry_name _ _) as [kept|] eqn:E4; [|done].
    apply validate_entry_name_Ok in E4 as (-> & Hs & Hl). simpl in H. injection H as <-.
    exists name. split_and!; try done; lia.
  - intros (name & (-> & Hs & Hl & Hr) & -> & H1 & H2). simpl.
    rewrite (proj2 (checked_total_Ok c (zf_compressed_size file) "compressed_bytes" _)) by (split; [done|lia]). simpl.
    rewrite (proj2 (checked_total_Ok d (zf_size file) "decompressed_bytes" _)) by (split; [done|lia]). simpl.
    rewrite (proj2 (Z.ltb_ge _ _) H1), (proj2 (Z.ltb_ge _ _) H2), Hr.
    by rewrite (proj2 (validate_entry_name_Ok name _ name)).
Qed.

Lemma inspect_from_Ok limits archive indices : limits_u64 limits ->
  (forall i file, za_by_index archive i = Some file -> (0 <= zf_compressed_size file)%Z /\ (0 <= zf_size file)%Z) ->
  forall c d names, inspect_from limits archive indices c d = Ok names <->
  exists files, Forall2 (fun i file => za_by_index archive i = Some file) indices files
    /\ Forall2 (entry_ok limits) files names
    /\ (files = [] \/ (c + total zf_compressed_size files <= max_compressed_bytes limits)%Z
          /\ (d + total zf_size files <= max_decompressed_bytes limits)%Z).
Proof.
  intros Hu Hsize. induction indices as [|i rest IH]; intros c d names; simpl.
  - split.
    + intros [= <-]. exists []. by repeat constructor.
    + intros (files & H1 & H2 & _). apply Forall2_nil_inv_l in H1 as ->. by apply Forall2_nil_inv_l in H2 as ->.
  - split.
    + intros H. destruct (za_by_index archive i) as [file|] eqn:Ei; [|done]. simpl in H.
      destruct (inspect_entry limits file c d) as [r|] eqn:Ee; [|done]. simpl in H.
      apply inspect_entry_Ok in Ee as (name & Hok & -> & H1 & H2); [|done]. simpl in H.
      destruct (inspect_from _ _ _ _ _) as [names'|] eqn:Er; [|done]. injection H as <-.
      apply IH in Er as (files & F1 & F2 & Hsum). exists (file :: files). split_and!; [by constructor|by constructor|].
      right. simpl. destruct Hsum as [->|[]]; simpl; lia.
    + intros (files & F1 & F2 & Hsum). apply Forall2_cons_inv_l in F1 as (file & files' & Hi & F1 & ->).
      apply Forall2_cons_inv_l in F2 as (name & names' & Hok & F2 & ->). destruct Hsum as [|[H1 H2]]; [done|].
      simpl in H1, H2.
      assert (forall l, Forall2 (fun i file => za_by_index archive i = Some file) l files' ->
        (0 <= total zf_compressed_size files')%Z /\ (0 <= total zf_size files')%Z) as Hpos.
      { clear -Hsize. induction files' as [|f fs IH]; intros l Hl; simpl; [lia|].
        apply Forall2_cons_inv_r in Hl as (j & l' & Hj & Hl & ->). destruct (Hsize _ _ Hj), (IH _ Hl). lia. }
      destruct (Hpos _ F1). rewrite Hi. simpl.
      rewrite (proj2 (inspect_entry_Ok limits file c d ((c + zf_compressed_size file)%Z, (d + zf_size file)%Z, name) Hu));
        [|exists name; split_and!; try done; lia].
      simpl. rewrite (proj2 (IH (c + zf_compressed_size file)%Z (d + zf_size file)%Z names')); [done|].
      exists files'. split_and!; [done|done|]. right. lia.
Qed.

(** [C26] An inspected archive is within its limits, and every archive within them is accepted. An
    archive passes exactly when it opens, has at most the allowed entries, the declared sizes add up to
    at most the allowed totals, and every entry has a decodable safe name that is not too deep
    and a compression ratio within the bound; the result is the names in archive order. *)
Theorem inspect_archive_exact {Hlaws : ZipLaws Hzip} bytes limits names : limits_u64 limits ->
  inspect_archive bytes limits = Ok names <->
  exists archive files, zip_new bytes = Some archive
    /\ (Z.of_nat (za_len archive) <= max_entries limits)%Z
    /\ Forall2 (fun i file => za_by_index archive i = Some file) (seq 0 (za_len archive)) files
    /\ (total zf_compressed_size files <= max_compressed_bytes limits)%Z
    /\ (total zf_size files <= max_decompressed_bytes limits)%Z
    /\ Forall2 (entry_ok limits) files names.
Proof.
  intros Hu. unfold inspect_archive. destruct (zip_new bytes) as [archive|] eqn:Ez; simpl; [|naive_solver].
  assert (forall i file, za_by_index archive i = Some file -> (0 <= zf_compressed_size file)%Z /\ (0 <= zf_size file)%Z)
    as Hsize by (intros i file; by apply (zip_sizes bytes)).
  destruct (max_entries limits <? Z.of_nat (za_len archive))%Z eqn:En.
  { split; [done|]. intros (a & files & [= <-] & H & _). lia. }
  rewrite (inspect_from_Ok _ _ _ Hu Hsize). split.
  - intros (files & F1 & F2 & Hsum). exists archive, files. destruct Hu as [[Hc _] [Hd _]].
    destruct Hsum as [->|[]]; simpl; split_and!; try done; lia.
  - intros (a & files & [= <-] & _ & F1 & Hc & Hd & F2). exists files. split_and!; try done. right. lia.
Qed.

(** * Extraction stays below its root *)

(** Below a directory, strictly. *)
Definition below (root path : list string) : Prop := exists p rest, path = (root ++ p :: rest)%list.

(** What extraction may do to the files: those that were there keep their content, and a new one lies below
    the root and holds at most [max_bytes] bytes. *)
Record contained (root : list string) (max_bytes : Z) (t0 t : Tree) : Prop := {
  ct_kept : tr_files t0 ⊆ tr_files t;
  ct_new : forall path bytes, tr_files t !! path = Some bytes -> tr_files t0 !! path = None ->
    below root path /\ (Z.of_nat (String.length bytes) <= max_bytes)%Z;
}.

Lemma contained_refl root max_bytes t : contained root max_bytes t t.
Proof. split; [done|congruence]. Qed.

Lemma contained_same root max_bytes t0 t t' : contained root max_bytes t0 t -> tr_files t' = tr_files t ->
  contained root max_bytes t0 t'.
Proof. intros [Hk Hn] He. split; by rewrite He. Qed.

Lemma contained_write root max_bytes t0 t path c : contained root max_bytes t0 t -> tr_files t0 !! path = None ->
  below root path -> (Z.of_nat (String.length c) <= max_bytes)%Z ->
  forall t', tr_files t' = <[path := c]> (tr_files t) -> contained root max_bytes t0 t'.
Proof.
  intros [Hk Hn] H0 Hb Hl t' He. split; rewrite He.
  - apply map_subseteq_spec. intros p b Hp. rewrite lookup_insert_ne by congruence. by eapply lookup_weaken.
  - intros p b [[<- <-]|[_ Hp]]%lookup_insert_Some Hp0; [done|]. by apply Hn.
Qed.

Lemma length_substring n s : String.length (String.substring 0 n s) <= String.length s.
Proof. revert n. induction s as [|c s IH]; intros [|n]; simpl; try lia. specialize (IH n). lia. Qed.

Lemma alter_insert (files : gmap (list string) string) path cur f : files !! path = Some cur ->
  alter f path files = <[path := f cur]> files.
Proof.
  intros H. apply map_eq. intros p. destruct (decide (p = path)) as [->|Hne].
  - by rewrite lookup_alter_eq, lookup_insert_eq, H.
  - by rewrite lookup_alter_ne, lookup_insert_ne.
Qed.

Lemma copy_bounded_contained root max_bytes t0 output input : tr_files t0 !! output = None -> below root output ->
  forall n t cur, contained root max_bytes t0 t -> tr_files t !! output = Some cur ->
  n = Z.of_nat (String.length cur) -> (n <= max_bytes)%Z ->
  contained root max_bytes t0 (copy_bounded input output max_bytes n t).2
  /\ forall written, (copy_bounded input output max_bytes n t).1 = Ok written -> (written <= max_bytes)%Z.
Proof.
  intros H0 Hb. induction input as [|[chunk|kind] rest IH]; intros n t cur Hc Hcur Hn Hmax; simpl.
  - split; [done|]. intros written [= <-]. lia.
  - case_bool_decide; [split; [done|]; intros written [= <-]; lia|].
    unfold bindX at 1 3. simpl. destruct (checked_total n _ _) as [n'|] eqn:En; [|done].
    apply checked_total_Ok in En as [-> _]. simpl. destruct (_ <? _)%Z eqn:Em; [done|].
    destruct (COPY_BUFFER <? _)%Z; [done|].
    assert (forall k, contained root max_bytes t0 (stepped (mk_tree (alter (fun c => c +:+ String.substring 0 k chunk)
      output (tr_files t)) (tr_dirs t) (tr_step t)))) as Hpart.
    { intros k. apply (contained_write root max_bytes t0 t output (cur +:+ String.substring 0 k chunk));
        [exact Hc|done|done| |exact (alter_insert _ _ cur _ Hcur)].
      rewrite length_append. pose proof (length_substring k chunk). lia. }
    unfold bindX, write_all. destruct (io (tr_step t)); simpl; [|split; [by eapply contained_same|done]|split; [apply Hpart|done]].
    eapply IH.
    + apply (contained_write root max_bytes t0 t output (cur +:+ chunk));
        [exact Hc|done|done|rewrite length_append; lia|exact (alter_insert _ _ cur _ Hcur)].
    + simpl. by rewrite lookup_alter_eq, Hcur.
    + rewrite length_append. lia.
    + lia.
  - done.
Qed.

Lemma write_entry_contained root max_bytes t0 file name t : safe_name name -> (0 <= max_bytes)%Z ->
  contained root max_bytes t0 t ->
  contained root max_bytes t0 (write_entry file root name max_bytes t).2.
Proof.
  intros (p & rest & Hj & _)%(join_below root) Hpos Hc. unfold write_entry. rewrite Hj.
  assert (below root (root ++ p :: rest)) as Hb by (by eexists _, _).
  unfold bindX at 1. rewrite bool_decide_eq_false_2 by (by destruct root). simpl.
  unfold bindX at 1, create_dir_all. destruct (io (tr_step t)); [|by eapply contained_same..].
  destruct (List.existsb _ _); [by eapply contained_same|]. simpl.
  unfold bindX at 1, create_new. simpl. destruct (io (S (tr_step t))); [|by eapply contained_same..].
  destruct (bool_decide_reflect (is_Some (tr_files t !! (root ++ p :: rest)%list))) as [|Hnew]; simpl;
    [by eapply contained_same|]. apply eq_None_not_Some in Hnew.
  destruct (bool_decide _); [by eapply contained_same|]. simpl.
  set (t1 := stepped (mk_tree _ _ _)). unfold bindX at 1.
  destruct (copy_bounded_contained root max_bytes t0 (root ++ p :: rest) (zf_content file)) with (n := 0%Z) (t := t1) (cur := "")
    as [Hcopy _]; try done.
  - destruct (tr_files t0 !! (root ++ p :: rest)%list) eqn:E; [|done]. eapply lookup_weaken in E; [|apply Hc]. congruence.
  - eapply contained_write; [exact Hc| |done| |done]; [|simpl; lia].
    destruct (tr_files t0 !! (root ++ p :: rest)%list) eqn:E; [|done]. eapply lookup_weaken in E; [|apply Hc]. congruence.
  - unfold t1. simpl. apply lookup_insert_eq.
  - destruct (copy_bounded _ _ _ _ _) as [[written|e] t2]; [|done]. simpl in *.
    unfold bindX, sync_all, liftX. destruct (io (tr_step t2)); by eapply contained_same.
Qed.

Lemma extract_from_contained limits archive root t0 names : Forall safe_name names -> (0 <= max_decompressed_bytes limits)%Z ->
  forall index n t, contained root (max_decompressed_bytes limits) t0 t ->
  contained root (max_decompressed_bytes limits) t0 (extract_from limits archive root index names n t).2.
Proof.
  intros Hs Hpos. induction Hs as [|name rest Hname _ IH]; intros index n t Hc; [done|]. simpl. unfold bindX at 1. simpl.
  destruct (za_by_index archive index) as [file|]; [|done]. simpl. unfold bindX at 1.
  pose proof (write_entry_contained root _ t0 file name t Hname Hpos Hc) as Hw.
  destruct (write_entry _ _ _ _ _) as [[written|e] t1]; [|done]. simpl in *. unfold bindX at 1. simpl.
  destruct (checked_total _ _ _) as [n'|]; [|done]. simpl. destruct (_ <? _)%Z; [done|]. by apply IH.
Qed.

(** [C27] Extraction never leaves its directory. Whatever the archive holds and whatever fails on the way,
    after [extract_archive] every file that was there before is unchanged, and every new file lies
    strictly below the root and holds at most the allowed number of bytes. *)
Theorem extract_archive_contained {Hlaws : ZipLaws Hzip} bytes limits root t : limits_u64 limits ->
  contained root (max_decompressed_bytes limits) t (extract_archive bytes limits root t).2.
Proof.
  intros Hu. unfold extract_archive, bindX at 1. simpl.
  destruct (inspect_archive bytes limits) as [names|e] eqn:Ei; [|apply contained_refl].
  assert (Forall safe_name names) as Hsafe.
  { unfold inspect_archive in Ei. destruct (zip_new bytes) as [archive|] eqn:Ez; [|done]. simpl in Ei.
    destruct (_ <? _)%Z; [done|]. apply inspect_from_Ok in Ei as (files & _ & F2 & _); [|done|by intros; eapply zip_sizes].
    clear -F2. induction F2 as [|file name files names (_ & Hn & _) _ IH]; by constructor. }
  unfold bindX at 1, create_dir_all. destruct (io (tr_step t)); [|by (eapply contained_same; [apply contained_refl|])..].
  destruct (List.existsb _ _); [by eapply contained_same; [apply contained_refl|]|]. unfold bindX at 1. simpl.
  destruct (zip_new bytes) as [archive|]; [|by eapply contained_same; [apply contained_refl|]]. simpl.
  unfold bindX at 1. set (t1 := stepped _).
  pose proof (extract_from_contained limits archive root t names Hsafe (proj1 (proj2 Hu)) 0 0 t1
    (contained_same _ _ _ t t1 (contained_refl _ _ _) eq_refl)) as H.
  by destruct (extract_from _ _ _ _ _ _ _) as [[]].
Qed.

(** * The parser is canonical *)

Lemma relation_leb_antisym x y : export_relation_leb x y = true -> export_relation_leb y x = true -> x = y.
Proof.
  intros H1 H2. pose proof (lex_leb_antisym _ _ _ H1 H2) as H. rewrite !Forall_cons in H.
  destruct x, y, H as (? & ? & ? & _). simpl in *. congruence.
Qed.

Lemma entry_leb_antisym x y : entry_leb x y = true -> entry_leb y x = true -> x = y.
Proof. intros H1 H2. pose proof (lex_leb_antisym _ _ _ H1 H2) as H. exact (Forall_inv H). Qed.

(** Rows with distinct keys sort one way. *)
Lemma sort_by_key_unique {A} (key : A -> string) (l l' : list A) : NoDup (key <$> l) -> l' ≡ₚ l ->
  sort_by (lex_leb [key]) l' = sort_by (lex_leb [key]) l.
Proof.
  intros Hn Hp. apply sort_by_unique; [apply lex_leb_total|apply lex_leb_trans| |apply sort_by_lex_sorted|].
  - intros x y Hx%elem_of_sort_by Hy%elem_of_sort_by H1 H2.
    pose proof (lex_leb_antisym _ _ _ H1 H2) as Hk%Forall_inv.
    apply list_elem_of_lookup in Hx as [i Hi], Hy as [j Hj]. assert (i = j) as ->; [|congruence].
    eapply (NoDup_lookup (key <$> l)); [done|..]; rewrite list_lookup_fmap; [rewrite Hi|rewrite Hj]; simpl; [done|by rewrite Hk].
  - by rewrite sort_by_perm.
Qed.

Lemma filter_perm {A} (f : A -> bool) l l' : l ≡ₚ l' -> List.filter f l ≡ₚ List.filter f l'.
Proof.
  induction 1 as [|x l l' _ IH|x y l|l1 l2 l3 _ IH1 _ IH2]; simpl; [done| | |by etrans].
  - destruct (f x); [by constructor|done].
  - destruct (f x), (f y); try done. apply perm_swap.
Qed.

(** The parsed export does not depend on the order of the archive. A manifest of the supported
    version gives its posts sorted by identity, its relations sorted, and every other entry of
    the archive as an unknown section; two manifests with the same posts of distinct identities and the
    same relations, in archives with the same entries, give the same result, and a manifest of
    another version is refused by its version. *)
Theorem normalize_manifest_canonical manifest names :
  (mf_version manifest <> SUPPORTED_EXPORT_VERSION ->
     normalize_manifest manifest names = Err (UnsupportedVersion (mf_version manifest)))
  /\ (mf_version manifest = SUPPORTED_EXPORT_VERSION ->
     exists parsed, normalize_manifest manifest names = Ok parsed
       /\ pe_posts parsed ≡ₚ post_of_manifest <$> mf_posts manifest
       /\ pe_relations parsed ≡ₚ relation_of_manifest <$> mf_relations manifest
       /\ pe_unknown_entries parsed ≡ₚ List.filter (fun name => negb (bool_decide (name = MANIFEST))) names
       /\ StronglySorted (fun a b => export_post_leb a b = true) (pe_posts parsed)
       /\ forall manifest' names', mf_version manifest' = mf_version manifest -> NoDup (mp_id <$> mf_posts manifest) ->
            mf_posts manifest' ≡ₚ mf_posts manifest -> mf_relations manifest' ≡ₚ mf_relations manifest ->
            names' ≡ₚ names -> normalize_manifest manifest' names' = Ok parsed).
Proof.
  unfold normalize_manifest. split.
  - intros Hv. by rewrite bool_decide_eq_false_2.
  - intros Hv. rewrite bool_decide_eq_true_2 by done. simpl. eexists. split; [done|]. simpl.
    split_and!; [apply sort_by_perm..|apply sort_by_lex_sorted|].
    intros manifest' names' Hv' Hn Hp Hr Hu. rewrite Hv', bool_decide_eq_true_2 by done. simpl. do 2 f_equal.
    + apply sort_by_key_unique; [by rewrite <- list_fmap_compose|by rewrite Hp].
    + apply sort_by_unique; [apply lex_leb_total|apply lex_leb_trans| |apply sort_by_lex_sorted|by rewrite sort_by_perm, Hr].
      intros x y _ _. apply relation_leb_antisym.
    + apply sort_by_unique; [apply lex_leb_total|apply lex_leb_trans| |apply sort_by_lex_sorted|].
      * intros x y _ _. apply entry_leb_antisym.
      * rewrite sort_by_perm. by apply filter_perm.
Qed.

End WithEnv.

(** * Witnesses: a library that knows one archive of two entries *)

Definition sample_manifest_file : ZipFile := mk_zip_file 0 MANIFEST (Some MANIFEST) 10 20 [Ok "{}"].
Definition sample_media_file : ZipFile := mk_zip_file 0 "media/a.jpg" (Some "media/a.jpg") 5 5 [Ok "ab"; Ok "cde"].

Definition sample_zip : ZipArchive :=
  mk_zip_archive 2 (fun i => [sample_manifest_file; sample_media_file] !! i) (fun _ => Some sample_manifest_file).

Definition sample_library : ZipLibrary := {|
  zip_new := fun bytes => if bool_decide (bytes = "zip") then Some sample_zip else None;
  cp437 := fun c => String c "";
  manifest_from_str := fun _ => Some (mk_manifest SUPPORTED_EXPORT_VERSION
    [mk_manifest_post "2" "https://www.threads.net/@a/post/2" None;
     mk_manifest_post "1" "https://www.threads.net/@a/post/1" (Some "text")] []);
|}.

#[export] Instance sample_library_laws : ZipLaws sample_library.
Proof.
  intros bytes archive i file. unfold zip_new, sample_library. case_bool_decide; [|done]. intros [= <-].
  simpl. destruct i as [|[|i]]; intros; simplify_eq/=; lia.
Qed.

Lemma default_limits_u64 : limits_u64 default_limits.
Proof. unfold limits_u64, u64_max. simpl. lia. Qed.

Lemma inspect_archive_exact_witness :
  @inspect_archive sample_library "zip" default_limits = Ok [MANIFEST; "media/a.jpg"]
  /\ exists files, (total zf_size files <= 256 * 1024 * 1024)%Z /\ length files = 2.
Proof.
  assert (@inspect_archive sample_library "zip" default_limits = Ok [MANIFEST; "media/a.jpg"]) as H
    by (vm_compute; reflexivity).
  split; [exact H|].
  apply (proj1 (@inspect_archive_exact sample_library _ "zip" default_limits [MANIFEST; "media/a.jpg"] default_limits_u64))
    in H as (archive & files & _ & _ & _ & _ & Hs & F2).
  exists files. split; [exact Hs|]. by apply Forall2_length in F2.
Defined.

Lemma extract_archive_contained_witness :
  let t := mk_tree {[["home"] := "old"]} ∅ 0 in
  let t' := (@extract_archive sample_env sample_library "zip" default_limits ["tmp"] t).2 in
  tr_files t' !! ["tmp"; "media"; "a.jpg"] = Some "abcde" /\ tr_files t' !! ["home"] = Some "old".
Proof.
  intros t t'. split; [vm_compute; reflexivity|].
  destruct (@extract_archive_contained sample_env sample_library _ "zip" default_limits ["tmp"] t default_limits_u64) as [Hk _].
  apply (lookup_weaken _ _ _ _ (lookup_singleton_eq ["home"] "old") Hk).
Defined.

End ExportArchive.
