(* ===== verification/DataExport.v ===== *)
(** Raw-first import of the Data Export (src/crates/threads-archive/src/data_export.rs): the receipt of
    an archive, its import in one transaction, and the completeness evidence. *)
From stdpp Require Import pretty.
From S2P Require Import Prelude Permalink Relation Schema Store Publishing RawObjects PublicResolution AccountSync ExportArchive.

Module DataExport.
Import Schema Store RawObjects ExportArchive.
Local Open Scope string_scope.
Local Open Scope store_scope.

Definition MAX_ARCHIVE_RECEIPT_BYTES : Z := 64 * 1024 * 1024.

Record ExportReceipt := mk_receipt {
  rc_user_ref : Uuid;
  rc_run_id : Uuid;
  rc_archive_hash : string;
  rc_archive_blob_ref : string;
  rc_archive_byte_size : Z;
}.

Inductive ReceiptOutcome := Created (r : ExportReceipt) | Replayed (r : ExportReceipt).

Definition receipt_of (o : ReceiptOutcome) : ExportReceipt := match o with Created r | Replayed r => r end.

Record ImportOutcome := mk_import_outcome {
  io_run_id : Uuid;
  io_completed_with_warnings : bool;
  io_records_processed : Z;
  io_completeness_report : CompletenessReport;
}.

Inductive RunStatus := Running | CompletedRun (outcome : ImportOutcome) | Failed.

(** * Completeness *)

(** One step of the fold of [split_capture_identities]. *)
Definition split_step (acc : gset string * nat) (identity : option string) : gset string * nat :=
  match identity with
  | Some identity => ({[identity]} ∪ acc.1, acc.2)
  | None => (acc.1, S acc.2)
  end.

Definition split_capture_identities (identities : list (option string)) : gset string * nat :=
  foldl split_step (∅, 0%nat) identities.

(** [completeness_report]. *)
Definition completeness_report (export_identities : gset string) (capture_identities : list (option string))
  : CompletenessReport :=
  let '(comparable, non_comparable) := split_capture_identities capture_identities in
  mk_completeness_report (size export_identities) (size (export_identities ∩ comparable))
    (size (export_identities ∖ comparable)) (size (comparable ∖ export_identities)) non_comparable.

(** * Statements *)

(** The run an owner received an archive digest under, a unique key. *)
Definition run_by_digest (user_ref : Uuid) (hash : string) (d : db) : option (Uuid * export_run_row) :=
  head (select (export_runs d) (fun _ r => bool_decide (er_user_ref r = user_ref) && bool_decide (er_archive_hash r = hash))).

(** [insert into export_runs ... on conflict (user_ref, archive_hash) do nothing returning run_id]. *)
Definition insert_export_run (run_id user_ref : Uuid) (raw : StoredRaw) (d : db) : Result SqlError (option Uuid * db) :=
  match run_by_digest user_ref (sr_content_hash raw) d with
  | Some _ => Ok (None, d)
  | None =>
      if bool_decide (is_Some (export_runs d !! run_id)) then Err (UniqueViolation "export_runs_pkey")
      else Ok (Some run_id, set_export_runs (<[run_id := mk_export_run_row user_ref (sr_content_hash raw) (sr_blob_ref raw)
        (sr_byte_size raw) "pending" "running" None 0 None None]> (export_runs d)) d)
  end.

Definition export_row (post : ExportPost) (account_id : option Uuid) (published_at : option Time) (kind : string)
  (now : Time) : post_row :=
  mk_post_row account_id (Some (ep_provider_post_id post)) (ep_permalink post) kind (ep_text post) published_at
    "data_export" "export_observation" "active" now.

(** [insert into posts ... on conflict (provider_post_id) do update ... returning post_id]; the update
    leaves the account, the kind and the publication time alone. *)
Definition upsert_export_post (new_id : Uuid) (post : ExportPost) (now : Time) (d : db) : Result SqlError (Uuid * db) :=
  match post_by_provider_id d (ep_provider_post_id post) with
  | Some (id, p) =>
      if PublicResolution.permalink_taken d (ep_permalink post) (Some id) then Err (UniqueViolation "posts_permalink_key")
      else Ok (id, set_posts (<[id := export_row post (p_account_id p) (p_published_at p) (p_post_kind p) now]> (posts d)) d)
  | None =>
      if bool_decide (is_Some (posts d !! new_id)) then Err (UniqueViolation "posts_pkey")
      else if PublicResolution.permalink_taken d (ep_permalink post) None then Err (UniqueViolation "posts_permalink_key")
      else Ok (new_id, set_posts (<[new_id := export_row post None None "post" now]> (posts d)) d)
  end.

Definition record_kind_vocabulary : list string := ["normalized"; "unknown_record"; "unknown_section"; "conflict"; "warning"].

Definition insert_export_record (id : Uuid) (row : export_record_row) (d : db) : Result SqlError db :=
  if bool_decide (is_Some (export_records d !! id)) then Err (UniqueViolation "export_records_pkey")
  else if negb (bool_decide (xr_record_kind row ∈ record_kind_vocabulary))
  then Err (CheckViolation "export_records_record_kind_check")
  else if negb (bool_decide (is_Some (export_runs d !! xr_run_id row)))
  then Err (ForeignKeyViolation "export_records_run_id_fkey")
  else if match xr_raw_object_id row with Some raw => bool_decide (raw_objects d !! raw = None) | None => false end
  then Err (ForeignKeyViolation "export_records_raw_object_id_fkey")
  else Ok (set_export_records (<[id := row]> (export_records d)) d).

Section WithEnv.
Context {Henv : Env} {Hcon : Publishing.Contracts} {Hzip : ZipLibrary}.

Abbreviation X A := (M ExportError A).

Definition sql {A} (m : M SqlError A) : X A := mapErr ExportPersistence m.

(** [insert_archive_raw]. *)
Definition insert_archive_raw (raw : StoredRaw) : X () :=
  let* id := now_v7 in
  sql (execute (fun now => insert_raw_object id (mk_raw_object_row "export_archive" (sr_blob_ref raw)
    (sr_content_hash raw) (sr_byte_size raw) "application/zip" now))).

(** [load_receipt]. *)
Definition load_receipt (user_ref : Uuid) (hash : string) : X ExportReceipt :=
  let* receipt := sql (read (fun _ d => Ok (run_by_digest user_ref hash d))) in
  match receipt with
  | None => throw (ExportPersistence RowNotFound)
  | Some (run_id, r) => ret (mk_receipt user_ref run_id (er_archive_hash r) (er_archive_blob_ref r) (er_archive_byte_size r))
  end.

(** [DataExportStore::persist_receipt]. *)
Definition persist_receipt_body (user_ref : Uuid) (raw : StoredRaw) : X (Finish ReceiptOutcome) :=
  let* run_id := now_v7 in
  let* created := sql (query (fun _ => insert_export_run run_id user_ref raw)) in
  let* outcome := (match created with
    | Some run_id =>
        insert_archive_raw raw ;;;
        ret (Created (mk_receipt user_ref run_id (sr_content_hash raw) (sr_blob_ref raw) (sr_byte_size raw)))
    | None =>
        let* receipt := load_receipt user_ref (sr_content_hash raw) in
        ret (Replayed receipt)
    end) in
  ret (Commit outcome).

Definition persist_receipt (user_ref : Uuid) (raw : StoredRaw) : X ReceiptOutcome :=
  transaction ExportPersistence (persist_receipt_body user_ref raw).

(** [DataExportStore::receive]. *)
Definition receive (user_ref : Uuid) (archive_bytes : string) : X ReceiptOutcome :=
  let length := Z.of_nat (String.length archive_bytes) in
  if (MAX_ARCHIVE_RECEIPT_BYTES <? length)%Z then throw (Limit "receipt_bytes" (show_Z length)) else
  let* raw := mapErr ExportRawStorage (store archive_bytes) in
  persist_receipt user_ref raw.

(** [DataExportStore::receive_stream]. *)
Definition receive_stream (user_ref : Uuid) (reader : list (option string)) : X ReceiptOutcome :=
  let* raw := mapErr ExportRawStorage (store_stream reader MAX_ARCHIVE_RECEIPT_BYTES "application/zip") in
  persist_receipt user_ref raw.

(** [RunStatus::terminal_outcome]. *)
Definition terminal_outcome (status : RunStatus) : Result ExportError (option ImportOutcome) :=
  match status with
  | Running => Ok None
  | CompletedRun outcome => Ok (Some outcome)
  | Failed => Err (ExportPersistence (Protocol "Data Export run is already failed"))
  end.

(** [load_run_status]; the report column holds a value of the record [finish_run] writes, so that its
    decoding does not fail. *)
Definition run_status (run_id : Uuid) (row : export_run_row) : Result ExportError RunStatus :=
  if bool_decide (er_outcome row = "running") then Ok Running
  else if bool_decide (er_outcome row = "completed") || bool_decide (er_outcome row = "completed_with_warnings") then
    match er_completeness row with
    | None => Err (ExportPersistence (ColumnNotFound "completeness_report"))
    | Some report => Ok (CompletedRun (mk_import_outcome run_id (bool_decide (er_outcome row = "completed_with_warnings"))
        (er_records_processed row) report))
    end
  else if bool_decide (er_outcome row = "failed") then Ok Failed
  else Err (ExportPersistence (Protocol "unknown Data Export run outcome")).

Definition receipt_row (receipt : ExportReceipt) (d : db) : option export_run_row :=
  match export_runs d !! rc_run_id receipt with
  | Some r => if bool_decide (er_user_ref r = rc_user_ref receipt)
                 && bool_decide (er_archive_hash r = rc_archive_hash receipt)
                 && bool_decide (er_archive_blob_ref r = rc_archive_blob_ref receipt) then Some r else None
  | None => None
  end.

Definition load_run_status (receipt : ExportReceipt) : X RunStatus :=
  let* row := sql (read (fun _ d => Ok (receipt_row receipt d))) in
  match row with
  | None => throw (ExportPersistence RowNotFound)
  | Some row => lift (run_status (rc_run_id receipt) row)
  end.

Definition set_outcome (outcome : string) (detected : option string) (parser : string) (records : Z)
  (warning : option string) (report : option CompletenessReport) (r : export_run_row) : export_run_row :=
  mk_export_run_row (er_user_ref r) (er_archive_hash r) (er_archive_blob_ref r) (er_archive_byte_size r) parser outcome
    detected records warning report.

(** [update export_runs ... where run_id = $1 and outcome = 'running']. *)
Definition finish_running (run_id : Uuid) (f : export_run_row -> export_run_row) (d : db) : db :=
  set_export_runs (update_where (fun id r => bool_decide (id = run_id) && bool_decide (er_outcome r = "running")) f
    (export_runs d)) d.

(** [mark_failed]. *)
Definition mark_failed (run_id : Uuid) (warning : string) : X () :=
  sql (execute (fun _ d => Ok (finish_running run_id (fun r => set_outcome "failed" (er_detected_version r)
    (er_parser_version r) (er_records_processed r) (Some warning) (er_completeness r) r) d))).

(** [safe_error_summary]. *)
Definition safe_error_summary (e : ExportError) : string :=
  match e with
  | InvalidZip => "invalid_zip"
  | Limit limit _ => "archive_limit:" +:+ limit
  | UnsupportedLayout => "unsupported_layout"
  | InvalidManifest => "invalid_manifest"
  | UnsupportedVersion _ => "unsupported_version"
  | Extraction _ => "extraction_failed"
  | ExportRawStorage _ | ExportPersistence _ => "import_failed"
  end.

(** [load_archive_raw_object]: [order by observed_at, raw_object_id limit 1]. *)
Definition load_archive_raw_object (receipt : ExportReceipt) : X Uuid :=
  sql (read (fun _ d => ok_or (fst <$> head (sort_by (fun a b => (raw_observed_at a.2 <=? raw_observed_at b.2)%Z)
    (select (raw_objects d) (fun _ r => bool_decide (raw_object_kind r = "export_archive")
      && bool_decide (raw_blob_ref r = rc_archive_blob_ref receipt)
      && bool_decide (raw_content_hash r = rc_archive_hash receipt))))) RowNotFound)).

(** [record_export_post]. *)
Definition record_export_post (post : ExportPost) (raw_object_id : Uuid) : X Uuid :=
  let* new_id := now_v7 in
  let* post_id := sql (query (upsert_export_post new_id post)) in
  let* revision_id := now_v7 in
  sql (execute (fun now => insert_post_revision revision_id (mk_revision_row post_id raw_object_id PARSER_VERSION now))) ;;;
  ret post_id.

(** [record_warning]. *)
Definition record_warning (run_id : Uuid) (warning : string) (relation : ExportRelation) : X () :=
  let* id := now_v7 in
  sql (execute (fun _ => insert_export_record id (mk_export_record_row run_id "warning" "relations" None None
    (WarningPayload warning (xl_referencing_provider_post_id relation) (xl_target_provider_post_id relation))))).

(** [record_export_relation]. *)
Definition record_export_relation (run_id : Uuid) (relation : ExportRelation) : X Z :=
  let* referencing := sql (read (fun _ d => Ok (fst <$> post_by_provider_id d (xl_referencing_provider_post_id relation)))) in
  match referencing with
  | None => record_warning run_id "unresolved_relation_source" relation ;;; ret 1%Z
  | Some referencing_post_id =>
      let* target := sql (read (fun _ d => Ok (fst <$> post_by_provider_id d (xl_target_provider_post_id relation)))) in
      let* id := now_v7 in
      sql (execute (fun _ => PublicResolution.upsert_relation id referencing_post_id target
        (xl_target_provider_post_id relation) None (xl_relation_kind relation))) ;;;
      ret 1%Z
  end.

(** [record_normalized_post]. *)
Definition record_normalized_post (run_id raw_object_id : Uuid) (post : ExportPost) : X () :=
  let* id := now_v7 in
  sql (execute (fun _ => insert_export_record id (mk_export_record_row run_id "normalized" "posts"
    (Some (ep_provider_post_id post)) (Some raw_object_id) (NormalizedPayload post)))).

(** [record_unknown_section]. *)
Definition record_unknown_section (run_id raw_object_id : Uuid) (entry_name : string) : X () :=
  let* id := now_v7 in
  sql (execute (fun _ => insert_export_record id (mk_export_record_row run_id "unknown_section" entry_name None
    (Some raw_object_id) UnknownSectionPayload))).

(** The provider identity of a capture's post, null on either side of the left join. *)
Definition identity_of (d : db) (c : capture_row) : option string :=
  match c_post_id c with
  | Some id => match posts d !! id with Some p => p_provider_post_id p | None => None end
  | None => None
  end.

(** [capture_identities]. *)
Definition capture_identities (user_ref : Uuid) : X (list (option string)) :=
  sql (read (fun _ d => Ok ((fun kv => identity_of d kv.2) <$>
    select (captures d) (fun _ c => bool_decide (c_user_ref c = user_ref))))).

(** [finish_run]. *)
Definition finish_run (run_id : Uuid) (parsed : ParsedExport) (records_processed : Z) (report : CompletenessReport)
  (completed_with_warnings : bool) : X () :=
  let outcome := if completed_with_warnings then "completed_with_warnings" else "completed" in
  let warning := if completed_with_warnings then Some "unknown_export_sections_preserved" else None in
  sql (execute (fun _ d => Ok (finish_running run_id (set_outcome outcome (Some (pe_detected_version parsed))
    (pe_parser_version parsed) records_processed warning (Some report)) d))).

Definition record_count_error : ExportError :=
  ExportPersistence (Configuration "Data Export record count exceeds bigint").
Definition publish_error : ExportError := ExportPersistence (Protocol "social-source publication").

Definition count_record (n : Z) : X Z := lift (ok_or (checked_add i64_max n 1) record_count_error).

(** The three loops of [reconcile]; the second adds without a check, to a number that the lengths of
    lists in memory bound. *)
Fixpoint reconcile_posts (receipt : ExportReceipt) (raw_object_id : Uuid) (ps : list ExportPost) (n : Z) : X Z :=
  match ps with
  | [] => ret n
  | post :: rest =>
      let* post_id := record_export_post post raw_object_id in
      record_normalized_post (rc_run_id receipt) raw_object_id post ;;;
      mapErr (fun _ => publish_error) (Publishing.append_export_fact (rc_user_ref receipt) post_id) ;;;
      let* n := count_record n in
      reconcile_posts receipt raw_object_id rest n
  end.

Fixpoint reconcile_relations (receipt : ExportReceipt) (relations : list ExportRelation) (n : Z) : X Z :=
  match relations with
  | [] => ret n
  | relation :: rest =>
      let* one := record_export_relation (rc_run_id receipt) relation in
      reconcile_relations receipt rest (n + one)%Z
  end.

Fixpoint reconcile_unknown (receipt : ExportReceipt) (raw_object_id : Uuid) (names : list string) (n : Z) : X Z :=
  match names with
  | [] => ret n
  | name :: rest =>
      record_unknown_section (rc_run_id receipt) raw_object_id name ;;;
      let* n := count_record n in
      reconcile_unknown receipt raw_object_id rest n
  end.

Definition reconcile_body (receipt : ExportReceipt) (parsed : ParsedExport) : X (Finish ImportOutcome) :=
  let* raw := load_archive_raw_object receipt in
  let* n := reconcile_posts receipt raw (pe_posts parsed) 0 in
  let* n := reconcile_relations receipt (pe_relations parsed) n in
  let* n := reconcile_unknown receipt raw (pe_unknown_entries parsed) n in
  let* captures := capture_identities (rc_user_ref receipt) in
  let report := completeness_report (list_to_set (ep_provider_post_id <$> pe_posts parsed)) captures in
  let completed_with_warnings := negb (bool_decide (pe_unknown_entries parsed = [])) in
  finish_run (rc_run_id receipt) parsed n report completed_with_warnings ;;;
  ret (Commit (mk_import_outcome (rc_run_id receipt) completed_with_warnings n report)).

(** [DataExportStore::reconcile]. *)
Definition reconcile (receipt : ExportReceipt) (parsed : ParsedExport) : X ImportOutcome :=
  transaction ExportPersistence (reconcile_body receipt parsed).

(** [DataExportStore::import]. *)
Definition import (receipt : ExportReceipt) : X ImportOutcome :=
  let* status := load_run_status receipt in
  let* terminal := lift (terminal_outcome status) in
  match terminal with
  | Some outcome => ret outcome
  | None =>
      let* archive := mapErr ExportRawStorage (read_verified (rc_archive_blob_ref receipt) (rc_archive_hash receipt)) in
      match parse_export archive default_limits with
      | Ok parsed => reconcile receipt parsed
      | Err error => mark_failed (rc_run_id receipt) (safe_error_summary error) ;;; throw error
      end
  end.

(** * Completeness evidence *)

Lemma split_fold identities : forall acc,
  let r := foldl split_step acc identities in
  (forall s, s ∈ r.1 <-> s ∈ acc.1 \/ Some s ∈ identities)
  /\ r.2 = (acc.2 + length (List.filter (fun i => bool_decide (i = None)) identities))%nat.
Proof.
  induction identities as [|[i|] rest IH]; intros acc; cbn [foldl].
  - split; [|simpl; lia]. intros s. rewrite elem_of_nil. tauto.
  - change (split_step acc (Some i)) with ({[i]} ∪ acc.1, acc.2).
    destruct (IH ({[i]} ∪ acc.1, acc.2)) as [H1 H2]. split; [|exact H2]. intros s. rewrite H1. simpl.
    rewrite elem_of_union, elem_of_singleton, elem_of_cons. naive_solver.
  - change (split_step acc None) with (acc.1, S acc.2).
    destruct (IH (acc.1, S acc.2)) as [H1 H2]. split.
    + intros s. rewrite H1. simpl. rewrite elem_of_cons. naive_solver.
    + rewrite H2. simpl. lia.
Qed.

(** The completeness evidence is a partition. The matched and the export-only identities make up the
    export's distinct ones, the matched and the capture-only ones the distinct identities of the
    captures, a capture without identity is counted apart and never as missing, and an
    identity is export-only exactly when no capture has it. *)
Theorem completeness_report_exact exported identities :
  let r := completeness_report exported identities in
  export_identities r = size exported
  /\ (matched_captures r + export_only r = export_identities r)%nat
  /\ (exists comparable : gset string, (forall s, s ∈ comparable <-> Some s ∈ identities)
        /\ (matched_captures r + capture_only r = size comparable)%nat
        /\ export_only r = size (filter (fun s => Some s ∉ identities) exported))
  /\ non_comparable_captures r = length (List.filter (fun i => bool_decide (i = None)) identities).
Proof.
  unfold completeness_report, split_capture_identities.
  pose proof (split_fold identities (∅, 0%nat)) as [H1 H2]. destruct (foldl _ _ _) as [comparable n]. simpl in *.
  assert (forall A B : gset string, (size (A ∩ B) + size (A ∖ B) = size A)%nat) as Hpart.
  { intros A B. rewrite <- size_union by set_solver. f_equal. apply set_eq. intros x.
    rewrite elem_of_union, elem_of_intersection, elem_of_difference. destruct (decide (x ∈ B)); tauto. }
  split; [done|]. split; [apply Hpart|]. split; [|done].
  exists comparable. split; [intros s; rewrite H1; set_solver|]. split.
  - rewrite (intersection_comm_L exported). apply Hpart.
  - f_equal. apply set_eq. intros s. rewrite elem_of_difference, elem_of_filter, H1. set_solver.
Qed.

(** * Receipts *)

(** An owner has one run for a digest. *)
Definition receipts_unique (d : db) : Prop := forall id1 id2 r1 r2,
  export_runs d !! id1 = Some r1 -> export_runs d !! id2 = Some r2 ->
  er_user_ref r1 = er_user_ref r2 -> er_archive_hash r1 = er_archive_hash r2 -> id1 = id2.

Lemma run_by_digest_Some user_ref hash d id r : run_by_digest user_ref hash d = Some (id, r) ->
  export_runs d !! id = Some r /\ er_user_ref r = user_ref /\ er_archive_hash r = hash.
Proof. intros [Hl [H1 H2]%andb_true_iff]%head_select_Some. by rewrite bool_decide_eq_true in H1, H2. Qed.

Lemma run_by_digest_None user_ref hash d : run_by_digest user_ref hash d = None ->
  forall id r, export_runs d !! id = Some r -> ~ (er_user_ref r = user_ref /\ er_archive_hash r = hash).
Proof.
  unfold run_by_digest. intros H id r Hl [H1 H2]. apply (proj1 (head_select_None _ _)) with (id := id) (r := r) in H; [|done].
  simpl in H. by rewrite !bool_decide_eq_true_2 in H.
Qed.

(** The stored row of a receipt. *)
Definition received (receipt : ExportReceipt) (d : db) : Prop :=
  exists r, export_runs d !! rc_run_id receipt = Some r /\ er_user_ref r = rc_user_ref receipt
    /\ er_archive_hash r = rc_archive_hash receipt /\ er_archive_blob_ref r = rc_archive_blob_ref receipt
    /\ er_archive_byte_size r = rc_archive_byte_size receipt.

(** What an answered receipt did to the tables. *)
Definition receipt_result (user_ref : Uuid) (raw : StoredRaw) (outcome : ReceiptOutcome) (d d' : db) : Prop :=
  match outcome with
  | Replayed receipt => d' = d /\ received receipt d
      /\ rc_user_ref receipt = user_ref /\ rc_archive_hash receipt = sr_content_hash raw
  | Created receipt =>
      receipt = mk_receipt user_ref (rc_run_id receipt) (sr_content_hash raw) (sr_blob_ref raw) (sr_byte_size raw)
      /\ run_by_digest user_ref (sr_content_hash raw) d = None
      /\ export_runs d !! rc_run_id receipt = None
      /\ export_runs d' = <[rc_run_id receipt := mk_export_run_row user_ref (sr_content_hash raw)
           (sr_blob_ref raw) (sr_byte_size raw) "pending" "running" None 0 None None]> (export_runs d)
      /\ exists raw_id row, raw_objects d !! raw_id = None /\ raw_objects d' = <[raw_id := row]> (raw_objects d)
           /\ raw_object_kind row = "export_archive" /\ raw_blob_ref row = sr_blob_ref raw
           /\ raw_content_hash row = sr_content_hash raw
  end.

Lemma persist_receipt_body_Ok user_ref raw w f w' : persist_receipt_body user_ref raw w = (Ok f, w') ->
  exists outcome, f = Commit outcome /\ receipt_result user_ref raw outcome (w_db w) (w_db w').
Proof.
  intros (run_id & w1 & Hm%now_v7_db & H)%bind_Ok. unfold tables in Hm.
  apply bind_Ok in H as (created & w2 & (t & d2 & Hi & Hd2)%mapErr_Ok%query_db & H). unfold tables in Hd2.
  rewrite Hm in Hi. unfold insert_export_run in Hi.
  apply bind_Ok in H as (outcome & w3 & H & [-> ->]%ret_db). exists outcome. split; [done|].
  destruct (run_by_digest user_ref (sr_content_hash raw) (w_db w)) as [[id r]|] eqn:Er.
  - injection Hi as <- <-. apply bind_Ok in H as (receipt & w4 & H & [-> ->]%ret_db).
    apply bind_Ok in H as (row & w5 & (t5 & [= <-] & Hd5)%mapErr_Ok%read_db & H). unfold tables in Hd5.
    rewrite Hd2, Er in H. apply ret_db in H as [-> ->]. apply run_by_digest_Some in Er as (Hl & Hu & Hh).
    rewrite Hd5, Hd2. simpl. split; [done|]. split; [|done]. by exists r.
  - case_bool_decide as Hnew; [done|]. apply eq_None_not_Some in Hnew. injection Hi as <- <-.
    apply bind_Ok in H as (u & w4 & H & [-> ->]%ret_db).
    apply bind_Ok in H as (raw_id & w5 & Hm5%now_v7_db & (t6 & d6 & [Hf ->]%insert_raw_object_Ok & Hd6)%mapErr_Ok%execute_db).
    unfold tables in *. rewrite Hm5, Hd2 in *. rewrite Hd6. simpl. split_and!; try done.
    eexists raw_id, _. split; [exact Hf|]. split; [reflexivity|]. done.
Qed.

Lemma persist_receipt_Ok user_ref raw w outcome w' : persist_receipt user_ref raw w = (Ok outcome, w') ->
  receipt_result user_ref raw outcome (w_db w) (w_db w').
Proof.
  intros (w0 & w4 & Hd0 & _ & _ & [[Hb Hd]|[Hb Hd]])%transaction_Ok;
    apply persist_receipt_body_Ok in Hb as (o & Hf & Hr); [|done]. injection Hf as <-. by rewrite Hd, <- Hd0.
Qed.

(** An archive is received once per owner. A receipt that was answered, new or repeated, names a
    stored run of this owner with this digest and changes nothing but a new run with a row of its raw
    archive; one owner never has two runs for a digest; and receiving the same bytes
    again, whatever happened to the run in between, answers with the same run and
    changes nothing. *)
Theorem receipt_idempotent user_ref raw w outcome w1 : receipts_unique (w_db w) ->
  persist_receipt user_ref raw w = (Ok outcome, w1) ->
  receipts_unique (w_db w1) /\ received (receipt_of outcome) (w_db w1)
  /\ (forall receipt, outcome = Replayed receipt -> w_db w1 = w_db w)
  /\ forall w2 raw2 outcome2 w3, receipts_unique (w_db w2) -> received (receipt_of outcome) (w_db w2) ->
       sr_content_hash raw2 = sr_content_hash raw -> persist_receipt user_ref raw2 w2 = (Ok outcome2, w3) ->
       outcome2 = Replayed (receipt_of outcome) /\ w_db w3 = w_db w2.
Proof.
  intros Hu Hr%persist_receipt_Ok.
  assert (rc_user_ref (receipt_of outcome) = user_ref /\ rc_archive_hash (receipt_of outcome) = sr_content_hash raw) as [Ho Hh].
  { destruct outcome as [receipt|receipt]; [destruct Hr as (-> & _)|destruct Hr as (_ & _ & ? & ?)]; done. }
  split_and!.
  - destruct outcome as [receipt|receipt]; [|by destruct Hr as (-> & _)].
    destruct Hr as (_ & Hno & _ & Hruns & _). pose proof (run_by_digest_None _ _ _ Hno) as Hnone. intros id1 id2 r1 r2. rewrite Hruns.
    intros [[<- <-]|[N1 L1]]%lookup_insert_Some [[<- <-]|[N2 L2]]%lookup_insert_Some; simpl; intros E1 E2; [done| | |eauto].
    + by destruct (Hnone id2 r2).
    + by destruct (Hnone id1 r1).
  - destruct outcome as [receipt|receipt]; [|by destruct Hr as (-> & H & _)].
    destruct Hr as (He & _ & _ & Hruns & _). eexists. simpl. rewrite Hruns, lookup_insert_eq. split; [done|]. by rewrite He.
  - by intros receipt ->; destruct Hr as (-> & _).
  - intros w2 raw2 outcome2 w3 Hu2 Hrec Hsame Hr2%persist_receipt_Ok.
    destruct Hrec as (r & Hl & H1 & H2 & H3 & H4). destruct outcome2 as [receipt2|receipt2].
    + destruct Hr2 as (_ & Hno & _). destruct (run_by_digest_None _ _ _ Hno _ _ Hl). by rewrite Hsame, <- Hh, <- Ho.
    + destruct Hr2 as (-> & (r2 & L2 & A1 & A2 & A3 & A4) & E1 & E2). split; [|done]. f_equal.
      assert (rc_run_id receipt2 = rc_run_id (receipt_of outcome)) as Hid by (eapply Hu2; eauto; congruence).
      rewrite Hid, Hl in L2. injection L2 as <-. destruct receipt2, (receipt_of outcome). simpl in *. congruence.
Qed.

(** * What an import adds *)

(** An import adds rows and overwrites posts with the identities [ids]; it deletes nothing. *)
Record export_frame (ids : list string) (d0 d : db) : Prop := {
  xf_rest : d = set_posts (posts d) (set_post_revisions (post_revisions d) (set_post_relations (post_relations d)
    (set_export_records (export_records d) (set_social_sources (social_sources d)
      (set_social_source_revisions (social_source_revisions d) (set_outbox_events (outbox_events d) d0))))));
  xf_posts : forall id p, posts d0 !! id = Some p -> exists p', posts d !! id = Some p'
    /\ p_provider_post_id p' = p_provider_post_id p /\ p_account_id p' = p_account_id p
    /\ (p' = p \/ exists i, i ∈ ids /\ p_provider_post_id p = Some i);
  xf_revisions : post_revisions d0 ⊆ post_revisions d;
  xf_records : export_records d0 ⊆ export_records d;
  xf_relations : forall id r, post_relations d0 !! id = Some r -> exists r', post_relations d !! id = Some r'
    /\ rel_referencing_post_id r' = rel_referencing_post_id r
    /\ rel_target_provider_post_id r' = rel_target_provider_post_id r /\ rel_relation_kind r' = rel_relation_kind r;
  xf_sources : social_sources d0 ⊆ social_sources d;
  xf_source_revisions : social_source_revisions d0 ⊆ social_source_revisions d;
  xf_outbox : outbox_events d0 ⊆ outbox_events d;
}.

Lemma export_frame_refl ids d : export_frame ids d d.
Proof. split; [by destruct d|eauto 8|done|done|eauto 8|done|done|done]. Qed.

Lemma export_frame_trans ids1 ids2 d1 d2 d3 : export_frame ids1 d1 d2 -> export_frame ids2 d2 d3 ->
  export_frame (ids1 ++ ids2) d1 d3.
Proof.
  intros [R1 P1 V1 X1 L1 S1 W1 O1] [R2 P2 V2 X2 L2 S2 W2 O2]. split; try by etrans.
  - rewrite R2, R1. done.
  - intros id p Hp. destruct (P1 _ _ Hp) as (p2 & H2 & E2 & A2 & C2). destruct (P2 _ _ H2) as (p3 & H3 & E3 & A3 & C3).
    exists p3. split_and!; [done|congruence|congruence|].
    destruct C3 as [->|(i & Hi & He)]; [|right; exists i; rewrite elem_of_app; split; [auto|congruence]].
    destruct C2 as [->|(i & Hi & He)]; [by left|right; exists i; rewrite elem_of_app; auto].
  - intros id r Hr. destruct (L1 _ _ Hr) as (r2 & H2 & E2 & F2 & G2). destruct (L2 _ _ H2) as (r3 & H3 & E3 & F3 & G3).
    exists r3. split_and!; congruence.
Qed.

Lemma export_frame_sub ids ids' d d' : (forall i, i ∈ ids -> i ∈ ids') -> export_frame ids d d' -> export_frame ids' d d'.
Proof.
  intros Hs [R P V X L S W O]. split; try done. intros id p Hp. destruct (P _ _ Hp) as (p' & H1 & H2 & H3 & H4).
  exists p'. split_and!; try done. destruct H4 as [|(i & Hi & He)]; [by left|right; eauto].
Qed.

Lemma published_export_frame d d' : Publishing.published_from d d' -> export_frame [] d d'.
Proof. intros [R S V O _]. rewrite R. split; simpl; try done; eauto 8. Qed.

(** Computations within the frame. *)
Definition framed {A} (ids : list string) (m : M ExportError A) : Prop :=
  forall w, export_frame ids (w_db w) (w_db (m w).2).

Lemma framed_Ok {A} ids (m : M ExportError A) w a w' : framed ids m -> m w = (Ok a, w') -> export_frame ids (w_db w) (w_db w').
Proof. intros H E. specialize (H w). by rewrite E in H. Qed.

Lemma framed_ret {A} (a : A) : framed [] (ret a).
Proof. intros w. apply export_frame_refl. Qed.

Lemma framed_lift {A} (r : Result ExportError A) : framed [] (lift r).
Proof. intros w. apply export_frame_refl. Qed.

Lemma framed_mint : framed [] now_v7.
Proof. intros w. apply export_frame_refl. Qed.

Lemma framed_bind {A B} ids1 ids2 (m : M ExportError A) (k : A -> M ExportError B) :
  framed ids1 m -> (forall a, framed ids2 (k a)) -> framed (ids1 ++ ids2) (bind m k).
Proof.
  intros Hm Hk w. unfold bind. specialize (Hm w). destruct (m w) as [[a|e] w1]; simpl in *.
  - eapply export_frame_trans; [exact Hm|apply Hk].
  - eapply export_frame_sub; [|exact Hm]. intros i. rewrite elem_of_app. auto.
Qed.

Lemma framed_bind_nil {A B} ids (m : M ExportError A) (k : A -> M ExportError B) :
  framed [] m -> (forall a, framed ids (k a)) -> framed ids (bind m k).
Proof. apply (framed_bind []). Qed.

Lemma framed_statement {A} ids (f : Time -> db -> Result SqlError (A * db)) :
  (forall t d a d', f t d = Ok (a, d') -> export_frame ids d d') -> framed ids (sql (query f)).
Proof.
  intros Hf w. unfold sql, mapErr. pose proof (query_cases f w) as Hc. destruct (query f w) as [[a|e] w1]; simpl in *;
    (destruct Hc as [->|(a' & d' & Hr & ->)]; [apply export_frame_refl|by eapply Hf]).
Qed.

Lemma framed_read {A} (f : Time -> db -> Result SqlError A) : framed [] (sql (read f)).
Proof.
  unfold read. apply framed_statement. intros t d a d'. destruct (f t d); [|done]. intros [= _ <-]. apply export_frame_refl.
Qed.

Lemma framed_execute ids (f : Time -> db -> Result SqlError db) :
  (forall t d d', f t d = Ok d' -> export_frame ids d d') -> framed ids (sql (execute f)).
Proof.
  intros Hf. unfold execute. apply framed_statement. intros t d a d' H. destruct (f t d) eqn:E; [|done].
  injection H as _ <-. by eapply Hf.
Qed.

Lemma insert_export_record_Ok id row d d' : insert_export_record id row d = Ok d' ->
  export_records d !! id = None /\ d' = set_export_records (<[id := row]> (export_records d)) d.
Proof.
  unfold insert_export_record. case_bool_decide as E; [done|]. apply eq_None_not_Some in E.
  repeat (case_match; try done); by intros [= <-].
Qed.

Lemma insert_record_framed id row : framed [] (sql (execute (fun _ => insert_export_record id row))).
Proof.
  apply framed_execute. intros t d d' [Hn ->]%insert_export_record_Ok.
  split; simpl; try done; eauto 8. by apply insert_subseteq.
Qed.

Lemma insert_revision_framed id row :
  framed [] (sql (execute (fun now => insert_post_revision id (row now)))).
Proof.
  apply framed_execute. intros t d d' (Hn & _ & ->)%insert_post_revision_Ok.
  split; simpl; try done; eauto 8. by apply insert_subseteq.
Qed.

Lemma upsert_relation_framed id referencing target provider kind :
  framed [] (sql (execute (fun _ => PublicResolution.upsert_relation id referencing target provider None kind))).
Proof.
  apply framed_execute. intros t d d'. unfold PublicResolution.upsert_relation.
  destruct (head _) as [[rid r]|] eqn:Eh.
  - apply head_select_Some in Eh as [Hl [[E1 E2]%andb_true_iff E3]%andb_true_iff].
    rewrite bool_decide_eq_true in E1, E2, E3. intros [= <-]. split; simpl; try done; [eauto 8|].
    intros i r0 Hr0. destruct (decide (i = rid)) as [->|Hne].
    + rewrite lookup_insert_eq. eexists. split; [done|]. rewrite Hl in Hr0. injection Hr0 as <-. done.
    + rewrite lookup_insert_ne by done. eauto.
  - case_bool_decide as En; [done|]. apply eq_None_not_Some in En. repeat (case_match; try done). intros [= <-].
    split; simpl; try done; [eauto 8|]. intros i r0 Hr0. exists r0. rewrite lookup_insert_ne by congruence. done.
Qed.

Lemma upsert_export_post_Ok new_id post now d id d' : upsert_export_post new_id post now d = Ok (id, d') ->
  exists p, d' = set_posts (<[id := p]> (posts d)) d /\ p_provider_post_id p = Some (ep_provider_post_id post)
    /\ p_permalink p = ep_permalink post /\ p_text_content p = ep_text post
    /\ p_acquisition_method p = "data_export" /\ p_saved_authority p = "export_observation"
    /\ forall p0, posts d !! id = Some p0 -> p_provider_post_id p0 = Some (ep_provider_post_id post)
         /\ p_account_id p = p_account_id p0.
Proof.
  unfold upsert_export_post. destruct (post_by_provider_id d (ep_provider_post_id post)) as [[id0 p0]|] eqn:Ep.
  - destruct (PublicResolution.permalink_taken _ _ _); [done|]. intros [= <- <-]. eexists. split; [done|].
    apply head_select_Some in Ep as [Hl Hc%bool_decide_eq_true]. do 5 (split; [done|]).
    intros p1 H1. rewrite Hl in H1. by injection H1 as <-.
  - case_bool_decide as Hn; [done|]. apply eq_None_not_Some in Hn.
    destruct (PublicResolution.permalink_taken _ _ _); [done|]. intros [= <- <-]. eexists. split; [done|].
    do 5 (split; [done|]). intros p1 H1. congruence.
Qed.

(** The export's observation of a post: the row as exported, a revision from the archive, the
    published fact of the owner, and the normalized record of the run. *)
Definition observed (receipt : ExportReceipt) (raw_object_id : Uuid) (post : ExportPost) (d : db) : Prop :=
  (exists id p, posts d !! id = Some p /\ p_provider_post_id p = Some (ep_provider_post_id post)
     /\ p_permalink p = ep_permalink post /\ p_text_content p = ep_text post
     /\ p_acquisition_method p = "data_export" /\ p_saved_authority p = "export_observation"
     /\ (exists rid rev, post_revisions d !! rid = Some rev /\ rev_post_id rev = id /\ rev_raw_object_id rev = raw_object_id)
     /\ exists at_, Publishing.fact_stands (Publishing.official_origin (rc_user_ref receipt) id at_) d)
  /\ exists xid row, export_records d !! xid = Some row /\ xr_run_id row = rc_run_id receipt
       /\ xr_raw_object_id row = Some raw_object_id /\ xr_payload row = NormalizedPayload post.

Lemma observed_kept receipt raw_object_id post ids d d' : export_frame ids d d' -> ep_provider_post_id post ∉ ids ->
  observed receipt raw_object_id post d -> observed receipt raw_object_id post d'.
Proof.
  intros [_ P V X _ S R _] Hn [(id & p & Hp & H1 & H2 & H3 & H4 & H5 & (rid & rev & Hr & H6) & at_ & Hf) (xid & row & Hx & H7)]. split.
  - destruct (P _ _ Hp) as (p' & Hp' & _ & _ & [->|(i & Hi & He)]); [|congruence].
    exists id, p. split_and!; try done; [exists rid, rev; split; [by eapply lookup_weaken|done]|].
    exists at_. eapply Publishing.fact_stands_kept; [|done|done|exact Hf]. cbn. by rewrite Hp', Hp.
  - exists xid, row. split; [by eapply lookup_weaken|done].
Qed.

Lemma preserves_append_export_fact d0 owner post_id :
  preserves (Publishing.published_from d0) (Publishing.append_export_fact owner post_id).
Proof.
  unfold Publishing.append_export_fact, Publishing.post_updated_at. preserve_steps. apply Publishing.append_origin_fact_frame.
Qed.

Lemma append_export_fact_framed owner post_id :
  framed [] (mapErr (fun _ => publish_error) (Publishing.append_export_fact owner post_id)).
Proof.
  intros w. apply published_export_frame.
  pose proof (preserves_append_export_fact (w_db w) owner post_id) as H. apply (preserves_mapErr _ (fun _ => publish_error)) in H. apply H, Publishing.published_from_refl.
Qed.

Lemma upsert_post_framed new_id post : framed [ep_provider_post_id post] (sql (query (upsert_export_post new_id post))).
Proof.
  apply framed_statement. intros t d id d' (p & -> & Hp & _ & _ & _ & _ & Hold)%upsert_export_post_Ok.
  split; simpl; try done; [|eauto 8]. intros i p0 Hp0. destruct (decide (i = id)) as [->|Hne].
  - destruct (Hold _ Hp0) as [E1 E2]. rewrite lookup_insert_eq. exists p. split_and!; [done|congruence|done|].
    right. exists (ep_provider_post_id post). rewrite list_elem_of_singleton. done.
  - rewrite lookup_insert_ne by done. eauto 8.
Qed.

Lemma reconcile_posts_framed receipt raw ps : forall n, framed (ep_provider_post_id <$> ps) (reconcile_posts receipt raw ps n).
Proof.
  induction ps as [|post rest IH]; intros n; simpl; [apply framed_ret|].
  apply (framed_bind [ep_provider_post_id post]).
  - unfold record_export_post. apply framed_bind_nil; [apply framed_mint|intros new_id].
    apply (framed_bind [ep_provider_post_id post] []); [apply upsert_post_framed|intros id].
    apply framed_bind_nil; [apply framed_mint|intros rid]. apply framed_bind_nil; [|intros _; apply framed_ret].
    apply (insert_revision_framed rid (fun now => mk_revision_row id raw PARSER_VERSION now)).
  - intros id. apply framed_bind_nil; [|intros _; apply framed_bind_nil; [apply append_export_fact_framed|intros _]].
    + unfold record_normalized_post. apply framed_bind_nil; [apply framed_mint|intros xid; apply insert_record_framed].
    + apply framed_bind_nil; [apply framed_lift|intros m; apply IH].
Qed.

Lemma reconcile_relations_framed receipt relations : forall n, framed [] (reconcile_relations receipt relations n).
Proof.
  induction relations as [|r rest IH]; intros n; simpl; [apply framed_ret|]. apply framed_bind_nil; [|intros one; apply IH].
  unfold record_export_relation, record_warning. apply framed_bind_nil; [apply framed_read|intros [id|]].
  - apply framed_bind_nil; [apply framed_read|intros target]. apply framed_bind_nil; [apply framed_mint|intros rid].
    apply framed_bind_nil; [apply upsert_relation_framed|intros _; apply framed_ret].
  - apply framed_bind_nil; [|intros _; apply framed_ret].
    apply framed_bind_nil; [apply framed_mint|intros xid; apply insert_record_framed].
Qed.

Lemma reconcile_unknown_framed receipt raw names : forall n, framed [] (reconcile_unknown receipt raw names n).
Proof.
  induction names as [|name rest IH]; intros n; simpl; [apply framed_ret|]. apply framed_bind_nil; [|intros _].
  - unfold record_unknown_section. apply framed_bind_nil; [apply framed_mint|intros xid; apply insert_record_framed].
  - apply framed_bind_nil; [apply framed_lift|intros m; apply IH].
Qed.

(** * A committed import *)

Lemma count_record_Ok n w m w' : count_record n w = (Ok m, w') -> m = (n + 1)%Z /\ w_db w' = w_db w.
Proof.
  intros [H Hd]%lift_db. apply ok_or_Ok, checked_add_Some in H as [-> _]. done.
Qed.

Lemma record_export_post_Ok post raw w id w' : record_export_post post raw w = (Ok id, w') ->
  exists p, posts (w_db w') !! id = Some p /\ p_provider_post_id p = Some (ep_provider_post_id post)
    /\ p_permalink p = ep_permalink post /\ p_text_content p = ep_text post
    /\ p_acquisition_method p = "data_export" /\ p_saved_authority p = "export_observation"
    /\ (exists rid rev, post_revisions (w_db w') !! rid = Some rev /\ rev_post_id rev = id /\ rev_raw_object_id rev = raw)
    /\ social_source_revisions (w_db w') = social_source_revisions (w_db w)
    /\ post_relations (w_db w') = post_relations (w_db w).
Proof.
  intros (new_id & w1 & Hm%now_v7_db & H)%bind_Ok. unfold tables in Hm.
  apply bind_Ok in H as (id' & w2 & (t & d2 & Hu & Hd2)%mapErr_Ok%query_db & H). unfold tables in Hd2.
  apply upsert_export_post_Ok in Hu as (p & -> & E1 & E2 & E3 & E4 & E5 & _).
  apply bind_Ok in H as (rid & w3 & Hm3%now_v7_db & H). unfold tables in Hm3.
  apply bind_Ok in H as (u & w4 & (t4 & d4 & (_ & _ & ->)%insert_post_revision_Ok & Hd4)%mapErr_Ok%execute_db & [-> ->]%ret_db).
  unfold tables in Hd4. rewrite Hm3, Hd2 in Hd4. rewrite Hd4. simpl. exists p. rewrite lookup_insert_eq.
  split_and!; try done; [|by rewrite Hm..]. eexists rid, _. rewrite lookup_insert_eq. split; [done|]. done.
Qed.

Lemma append_export_fact_stands owner post_id w w' :
  mapErr (fun _ => publish_error) (Publishing.append_export_fact owner post_id) w = (Ok (), w') ->
  Publishing.announced (w_db w) (w_db w') /\ post_relations (w_db w') = post_relations (w_db w)
  /\ exists at_, Publishing.fact_stands (Publishing.official_origin owner post_id at_) (w_db w').
Proof.
  intros H%mapErr_Ok. assert (preserves (fun d => post_relations d = post_relations (w_db w))
    (Publishing.append_export_fact owner post_id)) as Hrel.
  { intros w0 Hw0. rewrite <- Hw0. unfold Publishing.append_export_fact.
    assert (Publishing.published_from (w_db w0) (w_db (Publishing.append_export_fact owner post_id w0).2)) as [E _ _ _ _];
      [|unfold Publishing.append_export_fact in E; by rewrite E].
    apply (preserves_append_export_fact (w_db w0)), Publishing.published_from_refl. }
  specialize (Hrel w eq_refl). rewrite H in Hrel. revert H. unfold Publishing.append_export_fact, Publishing.post_updated_at.
  intros (at_ & w1 & Hat & [Hs Ha]%Publishing.append_origin_fact_stands)%bind_Ok. db_ok. split_and!; [done|done|by exists at_].
Qed.

Lemma export_frame_announced ids1 ids2 d1 d2 d3 : export_frame ids1 d1 d2 -> export_frame ids2 d2 d3 ->
  Publishing.announced d1 d2 -> Publishing.announced d2 d3 -> Publishing.announced d1 d3.
Proof. intros F1 F2. apply Publishing.announced_trans; [apply F1|apply F2|apply F2]. Qed.

Lemma record_export_post_framed post raw : framed [ep_provider_post_id post] (record_export_post post raw).
Proof.
  unfold record_export_post. apply framed_bind_nil; [apply framed_mint|intros new_id].
  apply (framed_bind [ep_provider_post_id post] []); [apply upsert_post_framed|intros id].
  apply framed_bind_nil; [apply framed_mint|intros rid]. apply framed_bind_nil; [|intros _; apply framed_ret].
  apply (insert_revision_framed rid (fun now => mk_revision_row id raw PARSER_VERSION now)).
Qed.

Lemma record_normalized_post_framed run_id raw post : framed [] (record_normalized_post run_id raw post).
Proof. unfold record_normalized_post. apply framed_bind_nil; [apply framed_mint|intros xid; apply insert_record_framed]. Qed.

Lemma record_normalized_post_Ok run_id raw post w w' : record_normalized_post run_id raw post w = (Ok (), w') ->
  exists xid, export_records (w_db w) !! xid = None /\ w_db w' = set_export_records
    (<[xid := mk_export_record_row run_id "normalized" "posts" (Some (ep_provider_post_id post)) (Some raw)
       (NormalizedPayload post)]> (export_records (w_db w))) (w_db w).
Proof.
  intros (xid & w1 & Hm%now_v7_db & (t & d & [Hn ->]%insert_export_record_Ok & Hd)%mapErr_Ok%execute_db)%bind_Ok.
  unfold tables in *. rewrite Hm in *. eauto.
Qed.

Lemma reconcile_posts_Ok receipt raw ps : forall n w m w', reconcile_posts receipt raw ps n w = (Ok m, w') ->
  m = (n + Z.of_nat (length ps))%Z /\ Publishing.announced (w_db w) (w_db w') /\ post_relations (w_db w') = post_relations (w_db w)
  /\ (NoDup (ep_provider_post_id <$> ps) -> forall post, post ∈ ps -> observed receipt raw post (w_db w')).
Proof.
  induction ps as [|post rest IH]; intros n w m w'; simpl.
  - intros [-> ->]%ret_db. split_and!; [lia|by apply Publishing.announced_same|done|by intros _ post ?%not_elem_of_nil].
  - intros (id & w1 & Hpost & H)%bind_Ok. pose proof (framed_Ok _ _ _ _ _ (record_export_post_framed post raw) Hpost) as F1.
    apply record_export_post_Ok in Hpost as (p & Hp & E1 & E2 & E3 & E4 & E5 & Hrev & Hs1 & Hl1).
    apply bind_Ok in H as ([] & w2 & Hrec & H).
    pose proof (framed_Ok _ _ _ _ _ (record_normalized_post_framed _ _ _) Hrec) as F2.
    apply record_normalized_post_Ok in Hrec as (xid & _ & Hd2).
    apply bind_Ok in H as ([] & w3 & Hfact & H). pose proof (framed_Ok [] _ _ _ _ (append_export_fact_framed _ _) Hfact) as F3.
    apply append_export_fact_stands in Hfact as (A3 & Hl3 & Hstands).
    apply bind_Ok in H as (n' & w4 & [-> Hd4]%count_record_Ok & H).
    pose proof (framed_Ok _ _ _ _ _ (reconcile_posts_framed receipt raw rest (n + 1)) H) as F4. rewrite Hd4 in F4.
    destruct (IH _ _ _ _ H) as (-> & A4 & Hl4 & Hall). rewrite Hd4 in A4, Hl4.
    assert (observed receipt raw post (w_db w3)) as Ho.
    { destruct F3 as [_ P V X _ _ _ _]. rewrite Hd2 in *. split.
      - destruct (P _ _ Hp) as (p' & Hp' & _ & _ & [->|(i & []%elem_of_nil & _)]). destruct Hrev as (rid & rev & Hr & Hr').
        exists id, p. split_and!; try done. exists rid, rev. split; [by eapply lookup_weaken|done].
      - eexists xid, _. split; [eapply lookup_weaken; [|exact X]; cbn; by rewrite lookup_insert_eq|done]. }
    split; [lia|]. split_and!.
    + pose proof (export_frame_trans _ _ _ _ _ F1 F2) as F12.
      eapply (export_frame_announced _ _ _ (w_db w3)); [exact (export_frame_trans _ _ _ _ _ F12 F3)|exact F4| |exact A4].
      eapply (export_frame_announced _ _ _ (w_db w2)); [exact F12|exact F3| |exact A3].
      apply Publishing.announced_same. by rewrite Hd2.
    + rewrite Hl4, Hl3, Hd2. exact Hl1.
    + intros [Hnin Hn]%NoDup_cons post' [->|Hin]%elem_of_cons; [|by apply Hall].
      eapply observed_kept; [exact F4|done|exact Ho].
Qed.

(** ** Relations *)

Definition warning_row (run_id : Uuid) (relation : ExportRelation) : export_record_row :=
  mk_export_record_row run_id "warning" "relations" None None (WarningPayload "unresolved_relation_source"
    (xl_referencing_provider_post_id relation) (xl_target_provider_post_id relation)).

(** An exported relation is stored between the posts it names, its target resolved as far as posts are
    known, or kept as a warning when the referencing post is not stored. *)
Definition relation_kept (run_id : Uuid) (relation : ExportRelation) (d : db) : Prop :=
  match fst <$> post_by_provider_id d (xl_referencing_provider_post_id relation) with
  | None => exists xid, export_records d !! xid = Some (warning_row run_id relation)
  | Some id => PublicResolution.resolved_relation id (xl_target_provider_post_id relation) (xl_relation_kind relation) d
  end.

(** Everything the relations of an export change, with what the posts resolve to. *)
Record relations_kept (run_id : Uuid) (relations : list ExportRelation) (d d' : db) : Prop := {
  rk_posts : posts d' = posts d;
  rk_source_revisions : social_source_revisions d' = social_source_revisions d;
  rk_stored relation : relation ∈ relations -> relation_kept run_id relation d';
  rk_kept relation : relation_kept run_id relation d -> relation_kept run_id relation d';
  rk_only id row : post_relations d' !! id = Some row -> post_relations d !! id = Some row
    \/ exists relation post_id, relation ∈ relations
         /\ fst <$> post_by_provider_id d (xl_referencing_provider_post_id relation) = Some post_id
         /\ PublicResolution.relation_key row = (post_id, xl_target_provider_post_id relation, xl_relation_kind relation);
}.

Lemma relation_kept_posts run_id relation d d' : posts d' = posts d -> export_records d ⊆ export_records d' ->
  (forall p tp k, PublicResolution.resolved_relation p tp k d -> PublicResolution.resolved_relation p tp k d') ->
  relation_kept run_id relation d -> relation_kept run_id relation d'.
Proof.
  intros Hp Hx Hr. unfold relation_kept, post_by_provider_id. rewrite Hp. case_match; [apply Hr|].
  intros [xid Hxid]. exists xid. by eapply lookup_weaken.
Qed.

Lemma record_export_relation_Ok run_id relation w n w' : record_export_relation run_id relation w = (Ok n, w') ->
  n = 1%Z /\ relations_kept run_id [relation] (w_db w) (w_db w').
Proof.
  unfold record_export_relation. intros (r & w1 & (t & [= <-] & Hd1)%mapErr_Ok%read_db & H)%bind_Ok. unfold tables in Hd1.
  destruct (fst <$> post_by_provider_id (w_db w) (xl_referencing_provider_post_id relation)) as [id|] eqn:Er.
  - unfold sql in H. db_ok. cbv beta in *. rewrite Hd1 in *. match goal with H : PublicResolution.upsert_relation _ _ _ _ _ _ _ = Ok _ |- _ =>
      apply PublicResolution.upsert_relation_relates in H as Hrel end.
    destruct (PublicResolution.relates_resolved _ _ _ _ _ Hrel) as [Hown Hkeep]. destruct Hrel as [Hf _ _ Honly].
    pose proof (fun tp => PublicResolution.only_relations_posts _ _ tp Hf) as Hposts.
    unfold PublicResolution.only_relations in Hf. split; [done|]. split; try (by rewrite Hf).
    + intros relation' ->%list_elem_of_singleton. unfold relation_kept. by rewrite Hposts, Er.
    + intros relation'. apply relation_kept_posts; [by rewrite Hf|by rewrite Hf|done].
    + intros rid row Hrow. destruct (Honly _ _ Hrow) as [|Hkey]; [by left|right]. exists relation, id.
      split_and!; [by apply list_elem_of_singleton|done|done].
  - apply bind_Ok in H as ([] & w2 & Hw & [-> ->]%ret_db).
    apply bind_Ok in Hw as (xid & w3 & Hm%now_v7_db & (t' & d & [Hn ->]%insert_export_record_Ok & Hd)%mapErr_Ok%execute_db).
    unfold tables in *. rewrite Hm, Hd1 in *. rewrite Hd. split; [done|]. split; try done.
    + intros relation' ->%list_elem_of_singleton. unfold relation_kept.
      change (post_by_provider_id (set_export_records _ _)) with (post_by_provider_id (w_db w)). rewrite Er.
      exists xid. cbn. by rewrite lookup_insert_eq.
    + intros relation'. apply relation_kept_posts; [done|by apply insert_subseteq|done].
    + by left.
Qed.

Lemma reconcile_relations_Ok receipt relations : forall n w m w',
  reconcile_relations receipt relations n w = (Ok m, w') ->
  m = (n + Z.of_nat (length relations))%Z /\ relations_kept (rc_run_id receipt) relations (w_db w) (w_db w').
Proof.
  induction relations as [|r rest IH]; intros n w m w'; simpl.
  - intros [-> ->]%ret_db. split; [lia|]. split; try done; [by intros r ?%not_elem_of_nil|by left].
  - intros (one & w1 & [-> [P1 S1 R1 K1 O1]]%record_export_relation_Ok & [-> [P2 S2 R2 K2 O2]]%IH)%bind_Ok. split; [lia|].
    split; try congruence; try by auto.
    + intros relation [->|Hin]%elem_of_cons; [apply K2, R1; by apply list_elem_of_singleton|auto].
    + intros id row Hrow. destruct (O2 _ _ Hrow) as [Hrow1|(relation & pid & Hin & Hp & Hkey)].
      * destruct (O1 _ _ Hrow1) as [|(relation & pid & ->%list_elem_of_singleton & H)]; [by left|right].
        exists r, pid. split; [left|done].
      * right. exists relation, pid. unfold post_by_provider_id in *. rewrite P1 in Hp. split; [by right|done].
Qed.

(** The record of an unknown section. *)
Definition preserved_section (receipt : ExportReceipt) (raw_object_id : Uuid) (name : string) (d : db) : Prop :=
  exists xid, export_records d !! xid = Some (mk_export_record_row (rc_run_id receipt) "unknown_section" name None
    (Some raw_object_id) UnknownSectionPayload).

Lemma reconcile_unknown_Ok receipt raw names : forall n w m w',
  reconcile_unknown receipt raw names n w = (Ok m, w') ->
  m = (n + Z.of_nat (length names))%Z /\ w_db w' = set_export_records (export_records (w_db w')) (w_db w)
  /\ forall name, name ∈ names -> preserved_section receipt raw name (w_db w').
Proof.
  induction names as [|name rest IH]; intros n w m w'; simpl.
  - intros [-> ->]%ret_db. split; [lia|]. split; [by destruct (w_db w)|]. by intros name ?%not_elem_of_nil.
  - intros (u & w1 & Hrec & H)%bind_Ok.
    apply bind_Ok in Hrec as (xid & w2 & Hm%now_v7_db & (t & d1 & [_ ->]%insert_export_record_Ok & Hd1)%mapErr_Ok%execute_db).
    unfold tables in *. apply bind_Ok in H as (n' & w3 & [-> Hd3]%count_record_Ok & H).
    pose proof (framed_Ok _ _ _ _ _ (reconcile_unknown_framed receipt raw rest (n + 1)) H) as Hf.
    destruct (IH _ _ _ _ H) as (-> & Hf' & Hall). split; [lia|]. split.
    { rewrite Hf', Hd3, Hd1, Hm. by cbn. }
    intros name' [->|Hin]%elem_of_cons; [|by apply Hall].
    exists xid. eapply lookup_weaken; [|apply (xf_records _ _ _ Hf)]. rewrite Hd3, Hd1. simpl. apply lookup_insert_eq.
Qed.

(** The raw object of the receipt's archive. *)
Definition archive_raw (receipt : ExportReceipt) (raw_object_id : Uuid) (d : db) : Prop :=
  exists row, raw_objects d !! raw_object_id = Some row /\ raw_object_kind row = "export_archive"
    /\ raw_blob_ref row = rc_archive_blob_ref receipt /\ raw_content_hash row = rc_archive_hash receipt.

Lemma load_archive_raw_object_Ok receipt w raw w' : load_archive_raw_object receipt w = (Ok raw, w') ->
  archive_raw receipt raw (w_db w) /\ w_db w' = w_db w.
Proof.
  intros (t & H%ok_or_Ok & Hd)%mapErr_Ok%read_db. split; [|done].
  apply fmap_Some in H as ([id row] & Hh & ->). simpl. apply head_Some in Hh as [rest Hl].
  assert ((id, row) ∈ (id, row) :: rest) as Hin by left. rewrite <- Hl in Hin.
  apply elem_of_sort_by, elem_of_select in Hin as [Hrow [[E1 E2]%andb_true_iff E3]%andb_true_iff].
  rewrite bool_decide_eq_true in E1, E2, E3. by exists row.
Qed.

(** What a committed import did to the tables. *)
Definition imported (receipt : ExportReceipt) (parsed : ParsedExport) (outcome : ImportOutcome) (d d' : db) : Prop :=
  exists raw d1, archive_raw receipt raw d
    /\ (NoDup (ep_provider_post_id <$> pe_posts parsed) ->
          forall post, post ∈ pe_posts parsed -> observed receipt raw post d1)
    /\ (forall relation, relation ∈ pe_relations parsed -> relation_kept (rc_run_id receipt) relation d1)
    /\ (forall id row, post_relations d1 !! id = Some row -> post_relations d !! id = Some row
          \/ exists relation post_id, relation ∈ pe_relations parsed
               /\ fst <$> post_by_provider_id d1 (xl_referencing_provider_post_id relation) = Some post_id
               /\ PublicResolution.relation_key row
                  = (post_id, xl_target_provider_post_id relation, xl_relation_kind relation))
    /\ (forall name, name ∈ pe_unknown_entries parsed -> preserved_section receipt raw name d1)
    /\ Publishing.announced d d1
    /\ export_frame (ep_provider_post_id <$> pe_posts parsed) d d1
    /\ outcome = mk_import_outcome (rc_run_id receipt) (negb (bool_decide (pe_unknown_entries parsed = [])))
         (Z.of_nat (length (pe_posts parsed) + length (pe_relations parsed) + length (pe_unknown_entries parsed)))
         (completeness_report (list_to_set (ep_provider_post_id <$> pe_posts parsed))
           ((fun kv => identity_of d1 kv.2) <$> select (captures d) (fun _ c => bool_decide (c_user_ref c = rc_user_ref receipt))))
    /\ d' = finish_running (rc_run_id receipt) (set_outcome
         (if io_completed_with_warnings outcome then "completed_with_warnings" else "completed")
         (Some (pe_detected_version parsed)) (pe_parser_version parsed) (io_records_processed outcome)
         (if io_completed_with_warnings outcome then Some "unknown_export_sections_preserved" else None)
         (Some (io_completeness_report outcome))) d1.

Lemma reconcile_body_Ok receipt parsed w f w' :
  reconcile_body receipt parsed w = (Ok f, w') ->
  exists outcome, f = Commit outcome /\ imported receipt parsed outcome (w_db w) (w_db w').
Proof.
  intros (raw & w1 & [Hraw Hd1]%load_archive_raw_object_Ok & H)%bind_Ok.
  apply bind_Ok in H as (n1 & w2 & H2 & H). pose proof (framed_Ok _ _ _ _ _ (reconcile_posts_framed _ _ _ _) H2) as F2.
  apply reconcile_posts_Ok in H2 as (-> & A2 & L2 & Hposts).
  apply bind_Ok in H as (n2 & w3 & H3 & H). pose proof (framed_Ok _ _ _ _ _ (reconcile_relations_framed _ _ _) H3) as F3.
  apply reconcile_relations_Ok in H3 as [-> [P3 S3 R3 _ O3]].
  apply bind_Ok in H as (n3 & w4 & H4 & H). pose proof (framed_Ok _ _ _ _ _ (reconcile_unknown_framed _ _ _ _) H4) as F4.
  apply reconcile_unknown_Ok in H4 as (-> & Hd4 & Hunknown).
  apply bind_Ok in H as (ids & w5 & (t5 & [= <-] & Hd5)%mapErr_Ok%read_db & H). unfold tables in Hd5.
  apply bind_Ok in H as (u & w6 & (t6 & d6 & [= <-] & Hd6)%mapErr_Ok%execute_db & [-> ->]%ret_db). unfold tables in Hd6.
  assert (export_frame (ep_provider_post_id <$> pe_posts parsed) (w_db w) (w_db w4)) as F.
  { rewrite <- Hd1. rewrite <- (app_nil_r (ep_provider_post_id <$> pe_posts parsed)).
    eapply export_frame_trans; [exact F2|]. exact (export_frame_trans [] [] _ _ _ F3 F4). }
  eexists. split; [done|]. exists raw, (w_db w4). split; [done|]. split_and!.
  - intros Hn post Hin. eapply observed_kept; [exact (export_frame_trans [] [] _ _ _ F3 F4)|apply not_elem_of_nil|auto].
  - intros relation Hin. apply (relation_kept_posts _ _ (w_db w3)); [by rewrite Hd4|apply F4| |by apply R3].
    intros p tp k. by rewrite Hd4.
  - intros id row Hrow. rewrite Hd4 in Hrow. rewrite <- Hd1, <- L2.
    destruct (O3 _ _ Hrow) as [|(relation & pid & Hin & Hp & Hkey)]; [by left|right].
    exists relation, pid. split; [done|]. split; [|done]. rewrite <- Hp. rewrite Hd4. unfold post_by_provider_id. cbn. by rewrite P3.
  - done.
  - eapply (export_frame_announced _ [] _ (w_db w2)); [rewrite <- Hd1; exact F2|exact (export_frame_trans [] [] _ _ _ F3 F4)|by rewrite <- Hd1|].
    apply Publishing.announced_same. by rewrite Hd4.
  - done.
  - assert (captures (w_db w4) = captures (w_db w)) as Hc by (rewrite (xf_rest _ _ _ F); done). rewrite Hc in *.
    f_equal; lia.
  - by rewrite Hd6, Hd5.
Qed.

Lemma read_verified_Ok blob_ref hash w archive w' : read_verified blob_ref hash w = (Ok archive, w') ->
  sha256 archive = hash /\ w_db w' = w_db w.
Proof.
  unfold read_verified. destruct (negb _); [done|]. intros (bytes & w1 & Hr & H)%bind_Ok.
  case_bool_decide as E; [|done]. apply ret_db in H as [-> ->]. split; [done|]. unfold fs_read in Hr.
  destruct (io (w_tick w)); [|done..]. destruct (w_files w !! object_path (raw_hex hash)); by simplify_eq.
Qed.

Lemma read_verified_db blob_ref hash w : w_db (read_verified blob_ref hash w).2 = w_db w.
Proof.
  unfold read_verified. destruct (negb _); [done|]. unfold bind, fs_read.
  destruct (io (w_tick w)); [|done..]. destruct (w_files w !! object_path (raw_hex hash)); [|done]. simpl.
  by case_bool_decide.
Qed.

(** The status of a receipt's run, read in one round trip. *)
Lemma load_run_status_cases receipt w :
  load_run_status receipt w = (match receipt_row receipt (w_db w) with
    | Some row => run_status (rc_run_id receipt) row
    | None => Err (ExportPersistence RowNotFound)
    end, tick w)
  \/ load_run_status receipt w = (Err (ExportPersistence ConnectionLost), tick w).
Proof.
  unfold load_run_status, bind, sql, mapErr, read, query. destruct (fault (w_tick w)); [left|right|right]; simpl;
    rewrite ?tick_with_db_same; try done. destruct (receipt_row receipt (w_db w)); done.
Qed.

(** The run of a receipt is finished with this outcome. *)
Definition settled (receipt : ExportReceipt) (outcome : ImportOutcome) (d : db) : Prop :=
  exists row, receipt_row receipt d = Some row /\ run_status (rc_run_id receipt) row = Ok (CompletedRun outcome).

(** The run of a receipt has not finished. *)
Definition running (receipt : ExportReceipt) (d : db) : Prop :=
  exists row, receipt_row receipt d = Some row /\ er_outcome row = "running".

Lemma run_status_Running run_id row : run_status run_id row = Ok Running <-> er_outcome row = "running".
Proof.
  unfold run_status. destruct (bool_decide_reflect (er_outcome row = "running")); [done|]. split; [|done].
  repeat (case_match; try done).
Qed.

Lemma receipt_row_Some receipt d row : receipt_row receipt d = Some row <->
  export_runs d !! rc_run_id receipt = Some row /\ er_user_ref row = rc_user_ref receipt
  /\ er_archive_hash row = rc_archive_hash receipt /\ er_archive_blob_ref row = rc_archive_blob_ref receipt.
Proof.
  unfold receipt_row. destruct (export_runs d !! rc_run_id receipt) as [r|]; [|naive_solver].
  destruct (bool_decide_reflect (er_user_ref r = rc_user_ref receipt)); simpl; [|naive_solver].
  destruct (bool_decide_reflect (er_archive_hash r = rc_archive_hash receipt)); simpl; [|naive_solver].
  destruct (bool_decide_reflect (er_archive_blob_ref r = rc_archive_blob_ref receipt)); naive_solver.
Qed.

Lemma imported_settled receipt parsed outcome d d' : running receipt d -> imported receipt parsed outcome d d' ->
  settled receipt outcome d'.
Proof.
  intros (row & (Hl & H1 & H2 & H3)%receipt_row_Some & Hr) (raw & d1 & _ & _ & _ & _ & _ & _ & F & Ho & ->).
  assert (export_runs d1 = export_runs d) as Hruns by (rewrite (xf_rest _ _ _ F); done).
  eexists. split.
  - apply receipt_row_Some. unfold finish_running. simpl. rewrite Hruns, lookup_update_where, Hl. simpl.
    rewrite !bool_decide_eq_true_2 by done. simpl. split; [done|]. done.
  - unfold run_status. simpl. rewrite Ho. by destruct (negb (bool_decide (pe_unknown_entries parsed = []))).
Qed.

(** What one call of [import] can do. *)
Inductive import_result (receipt : ExportReceipt) (w : World) : Result ExportError ImportOutcome -> db -> Prop :=
| import_unchanged e : import_result receipt w (Err e) (w_db w)
| import_replayed outcome : settled receipt outcome (w_db w) -> import_result receipt w (Ok outcome) (w_db w)
| import_refused archive e : running receipt (w_db w) -> sha256 archive = rc_archive_hash receipt ->
    parse_export archive default_limits = Err e ->
    forall result, result = Err e \/ result = Err (ExportPersistence ConnectionLost) ->
    import_result receipt w result (finish_running (rc_run_id receipt) (fun r => set_outcome "failed" (er_detected_version r)
      (er_parser_version r) (er_records_processed r) (Some (safe_error_summary e)) (er_completeness r) r) (w_db w))
| import_committed archive parsed outcome d : running receipt (w_db w) -> sha256 archive = rc_archive_hash receipt ->
    parse_export archive default_limits = Ok parsed -> imported receipt parsed outcome (w_db w) d ->
    forall result, result = Ok outcome \/ result = Err (ExportPersistence ConnectionLost) ->
    import_result receipt w result d.

(** A transaction that failed left the tables alone, or lost the answer of its commit. *)
Lemma transaction_failed {A} (body : M ExportError (Finish A)) w e w' :
  transaction ExportPersistence body w = (Err e, w') ->
  w_db w' = w_db w
  \/ e = ExportPersistence ConnectionLost /\ exists a w0 w1, w_db w0 = w_db w /\ body w0 = (Ok (Commit a), w1) /\ w_db w' = w_db w1.
Proof.
  intros H. pose proof (transaction_atomic ExportPersistence body w) as Hat. rewrite H in Hat. simpl in Hat.
  destruct Hat as [|(a & w0 & w1 & Hd0 & _ & _ & Hb & Hd)]; [by left|].
  apply transaction_Err in H as [->|[Hs _]]; [right; eauto 8|by left].
Qed.

(** The part of [import] after the run was found running. *)
Lemma import_running receipt w0 w result w' : w_db w = w_db w0 -> running receipt (w_db w0) ->
  (let* archive := mapErr ExportRawStorage (read_verified (rc_archive_blob_ref receipt) (rc_archive_hash receipt)) in
   match parse_export archive default_limits with
   | Ok parsed => reconcile receipt parsed
   | Err error => mark_failed (rc_run_id receipt) (safe_error_summary error) ;;; throw error
   end) w = (result, w') ->
  import_result receipt w0 result (w_db w').
Proof.
  intros Hd Hrun. unfold bind, mapErr at 1.
  pose proof (read_verified_db (rc_archive_blob_ref receipt) (rc_archive_hash receipt) w) as Hd1.
  destruct (read_verified _ _ w) as [[archive|e] w1] eqn:Ev; simpl in Hd1; rewrite Hd in Hd1.
  2: { intros [= <- <-]. rewrite Hd1. apply import_unchanged. }
  apply read_verified_Ok in Ev as [Hsha _].
  destruct (parse_export archive default_limits) as [parsed|e] eqn:Ep.
  - destruct result as [outcome|e]; intros Ht.
    + apply transaction_Ok in Ht as (w2 & w3 & Hd2 & _ & _ & [[Hb Hd']|[Hb _]]);
        apply reconcile_body_Ok in Hb as (o & Hf & Hi); [|done]. injection Hf as <-.
      rewrite Hd2, Hd1 in Hi. rewrite Hd'. eapply import_committed; eauto.
    + apply transaction_failed in Ht as [Hs|(-> & o & w2 & w3 & Hd2 & Hb & Hd')]; [rewrite Hs, Hd1; apply import_unchanged|].
      apply reconcile_body_Ok in Hb as (o' & _ & Hi). rewrite Hd2, Hd1 in Hi. rewrite Hd'. eapply import_committed; eauto.
  - unfold mark_failed, sql, mapErr, execute, query. destruct (fault (w_tick w1)); simpl; intros [= <- <-]; simpl;
      rewrite Hd1; [|apply import_unchanged|]; eapply import_refused; eauto.
Qed.

Lemma import_cases receipt w result w' : import receipt w = (result, w') -> import_result receipt w result (w_db w').
Proof.
  unfold import. unfold bind at 1. destruct (load_run_status_cases receipt w) as [->| ->];
    [|intros [= <- <-]; apply (import_unchanged receipt w)].
  destruct (receipt_row receipt (w_db w)) as [row|] eqn:Erow; [|intros [= <- <-]; apply (import_unchanged receipt w)].
  destruct (run_status (rc_run_id receipt) row) as [[|outcome|]|e] eqn:Es; try (unfold bind at 1; unfold lift; simpl).
  - apply import_running; [done|]. exists row. split; [done|]. by apply run_status_Running in Es.
  - intros [= <- <-]. apply (import_replayed receipt w). by exists row.
  - intros [= <- <-]. apply (import_unchanged receipt w).
  - intros [= <- <-]. apply (import_unchanged receipt w).
Qed.


(** Importing twice is importing once. After an import was answered, importing the receipt again at
    any later time, with its run as the import left it, returns the same outcome and changes
    nothing, unless the connection is lost. *)
Theorem import_replay receipt w outcome w1 w2 : import receipt w = (Ok outcome, w1) ->
  receipt_row receipt (w_db w2) = receipt_row receipt (w_db w1) ->
  w_db (import receipt w2).2 = w_db w2
  /\ ((import receipt w2).1 = Ok outcome \/ (import receipt w2).1 = Err (ExportPersistence ConnectionLost)).
Proof.
  intros H%import_cases Hsame. assert (settled receipt outcome (w_db w1)) as (row & Hrow & Hst).
  { inversion H as [|outcome' Hs|? ? ? ? ? result Hr|? ? ? ? Hrun ? ? Hi result Hr]; subst; [done|by destruct Hr|].
    destruct Hr as [[= <-]|]; [|done]. by eapply imported_settled. }
  assert (import receipt w2 = (Ok outcome, tick w2)
    \/ import receipt w2 = (Err (ExportPersistence ConnectionLost), tick w2)) as [-> | ->]; [|by auto..].
  destruct (load_run_status_cases receipt w2) as [Hl|Hl]; [left|right]; unfold import, bind; rewrite Hl; [|done].
  by rewrite Hsame, Hrow, Hst.
Qed.

End WithEnv.

(** * Witnesses: the sample archive received and imported by owner 7 *)

Definition export_start : World := sample_world empty_db.
Definition export_raw : StoredRaw := mk_stored_raw (blob_ref_of (raw_hex "zip")) "zip" 3 "application/json".

Definition sample_receive : Result ExportError ReceiptOutcome * World := @receive sample_env 7 "zip" export_start.

Definition sample_receipt : ExportReceipt := mk_receipt 7 1000 "zip" (blob_ref_of (raw_hex "zip")) 3.

Definition sample_import (w : World) : Result ExportError ImportOutcome * World :=
  @import sample_env Publishing.sample_contracts sample_library sample_receipt w.

Lemma receipt_idempotent_witness :
  let first := @persist_receipt sample_env 7 export_raw export_start in
  let second := @persist_receipt sample_env 7 export_raw first.2 in
  first.1 = Ok (Created sample_receipt) /\ second.1 = Ok (Replayed sample_receipt) /\ w_db second.2 = w_db first.2.
Proof.
  intros first second. assert (first.1 = Ok (Created sample_receipt)) as H1 by (vm_compute; reflexivity).
  split; [exact H1|]. assert (exists o, second.1 = Ok o) as [o H2] by (eexists; vm_compute; reflexivity).
  destruct (@receipt_idempotent sample_env 7 export_raw export_start (Created sample_receipt) first.2)
    as (Hu & Hr & _ & Hnext).
  - intros id1 id2 r1 r2 H. exfalso. exact (lookup_empty_Some id1 r1 H).
  - rewrite <- H1. apply surjective_pairing.
  - destruct (Hnext first.2 export_raw o second.2 Hu Hr eq_refl) as [-> Hd];
      [rewrite <- H2; apply surjective_pairing|]. split; [exact H2|exact Hd].
Defined.

Lemma import_replay_witness :
  let first := sample_import sample_receive.2 in
  let second := sample_import first.2 in
  (exists outcome, first.1 = Ok outcome /\ io_records_processed outcome = 3%Z /\ io_completed_with_warnings outcome = true)
  /\ w_db second.2 = w_db first.2.
Proof.
  intros first second.
  assert (exists outcome, first.1 = Ok outcome /\ io_records_processed outcome = 3%Z
    /\ io_completed_with_warnings outcome = true) as (outcome & H1 & H2 & H3).
  { eexists. split; [vm_compute; reflexivity|]. split; vm_compute; reflexivity. }
  split; [exists outcome; split; [exact H1|split; [exact H2|exact H3]]|].
  apply (@import_replay sample_env Publishing.sample_contracts sample_library sample_receipt sample_receive.2 outcome first.2
    first.2); [|reflexivity].
  rewrite <- H1. apply surjective_pairing.
Defined.

(** Two imports of one receipt that both find the run running are both reconciled: the second
    finishes nothing, and leaves a second normalized record of every post in the same run. *)
Example interleaved_imports_duplicate :
  let w1 := (sample_import sample_receive.2).2 in
  let records w := count_where (export_records (w_db w)) (fun _ x => bool_decide (xr_run_id x = 1000%N)
    && bool_decide (xr_provider_record_id x = Some "1")) in
  exists parsed, @parse_export sample_library "zip" default_limits = Ok parsed
    /\ (let r := @reconcile sample_env Publishing.sample_contracts sample_receipt parsed w1 in
        is_ok r.1 = true /\ records w1 = 1%Z /\ records r.2 = 2%Z
        /\ (er_outcome <$> export_runs (w_db w1) !! 1000%N) = Some "completed_with_warnings").
Proof. eexists. split; [vm_compute; reflexivity|]. split_and!; vm_compute; reflexivity. Qed.

End DataExport.
