(* ===== verification/OAuth.v ===== *)
(** Official OAuth connections (src/crates/threads-archive/src/oauth.rs): the sealed credential
    envelope, the lifecycle of a connected account and its one stored grant, and the
    reconciliation of granted scopes with the capability matrix.

    AES-256-GCM and the operating system's random source are parameters ([Aead]); a nonce is
    drawn from the same counter the identifiers are minted from. *)
From S2P Require Import Prelude Schema Store Capability AccountSync.

Module OAuth.
Import Schema Store AccountSync.
Local Open Scope string_scope.
Local Open Scope store_scope.

(** * Bytes *)

(** [split_at]; [None] past the end. *)
Fixpoint split_at (n : nat) (s : string) : option (string * string) :=
  match n, s with
  | O, _ => Some ("", s)
  | S n, "" => None
  | S n, String c s => r ← split_at n s; Some (String c r.1, r.2)
  end.

(** [get(first..last)], [get(first..)]. *)
Definition get_range (first last : nat) (s : string) : option string :=
  r ← split_at first s; r ← split_at (last - first) r.2; Some r.1.

Definition get_from (first : nat) (s : string) : option string := snd <$> split_at first s.

Definition byte_of (z : Z) : ascii := ascii_of_N (Z.to_N (z mod 256)).

(** [u32::to_be_bytes], [u32::from_be_bytes]. *)
Definition to_be_bytes (z : Z) : string :=
  String (byte_of (Z.shiftr z 24)) (String (byte_of (Z.shiftr z 16))
    (String (byte_of (Z.shiftr z 8)) (String (byte_of z) ""))).

Fixpoint from_be_bytes_acc (acc : Z) (s : string) : Z :=
  match s with
  | "" => acc
  | String c s => from_be_bytes_acc (acc * 256 + byte_val c) s
  end.

Definition from_be_bytes (s : string) : Z := from_be_bytes_acc 0 s.

(** * The envelope *)

Inductive CredentialCipherError :=
| InvalidKeyGeneration | MalformedEnvelope | KeyGeneration | Binding | Authentication | Randomness.

#[global] Instance CredentialCipherError_eq_dec : EqDecision CredentialCipherError.
Proof. solve_decision. Defined.

Definition FORMAT_MARKER : string := String "t" (String (ascii_of_N 1) "").
Definition GENERATION_LEN : nat := 4.
Definition OWNER_BINDING_LEN : nat := 32.
Definition NONCE_LEN : nat := 12.
Definition TAG_LEN : nat := 16.
Definition HEADER_LEN : nat := String.length FORMAT_MARKER + GENERATION_LEN + OWNER_BINDING_LEN + NONCE_LEN.
Definition CREDENTIAL_LABEL : string := "ratatoskr/threads/official-credential/v1".
Definition KEY_LEN : nat := 32.

Record CredentialCipher := mk_cipher { cc_key : string; cc_generation : Z }.

(** [CredentialEnvelope]: its bytes. *)
Record CredentialEnvelope := from_ciphertext { ciphertext : string }.

Record OfficialCredential := mk_credential { access_token : string; refresh_token : string }.

(** [CredentialCipher::new]. *)
Definition new_cipher (key : string) (generation : Z) : Result CredentialCipherError CredentialCipher :=
  if (generation =? 0)%Z then Err InvalidKeyGeneration else Ok (mk_cipher key generation).

(** [aes_gcm] with a 32-byte key, and [getrandom::fill] of a nonce. *)
Class Aead := {
  aead_encrypt : string -> string -> string -> string -> option string;  (* key, nonce, aad, message *)
  aead_decrypt : string -> string -> string -> string -> option string;
  random_nonce : nat -> option string;
}.

(** What authenticated encryption and the random source promise: decryption accepts exactly what
    encryption wrote under the same key, nonce and associated data, the ciphertext is the message's
    length and a tag, and the nonce has the length asked for. Nothing here separates two keys: that a ciphertext
    does not open under another key is a computational claim, and no theorem uses it. *)
Class AeadLaws (H : Aead) : Prop := {
  decrypt_iff : forall key nonce aad m c,
    aead_decrypt key nonce aad c = Some m <-> aead_encrypt key nonce aad m = Some c;
  encrypt_length : forall key nonce aad m c,
    aead_encrypt key nonce aad m = Some c -> String.length c = String.length m + TAG_LEN;
  nonce_length : forall n nonce, random_nonce n = Some nonce -> String.length nonce = NONCE_LEN;
}.

Definition encode_credential (access refresh : string) : Result CredentialCipherError string :=
  let a := Z.of_nat (String.length access) in
  let r := Z.of_nat (String.length refresh) in
  if (u32_max <? a)%Z then Err MalformedEnvelope
  else if (u32_max <? r)%Z then Err MalformedEnvelope
  else Ok (to_be_bytes a +:+ access +:+ to_be_bytes r +:+ refresh).

Definition decode_part (input : string) : Result CredentialCipherError (string * string) :=
  (let? p := ok_or (split_at 4 input) MalformedEnvelope in
   let length := from_be_bytes p.1 in
   if (Z.of_nat (String.length p.2) <? length)%Z then Err MalformedEnvelope
   else ok_or (split_at (Z.to_nat length) p.2) MalformedEnvelope)%rust.

Definition decode_credential (plaintext : string) : Result CredentialCipherError OfficialCredential :=
  (let? a := decode_part plaintext in
   let? r := decode_part a.2 in
   if negb (bool_decide (r.2 = "")) then Err MalformedEnvelope
   else if negb (valid_utf8 a.1) then Err MalformedEnvelope
   else if negb (valid_utf8 r.1) then Err MalformedEnvelope
   else Ok (mk_credential a.1 r.1))%rust.

(** [parse_array]: a slice of exactly the size of the array. *)
Definition parse_array (size : nat) (input : option string) : Result CredentialCipherError string :=
  match input with
  | Some bytes => if (String.length bytes =? size)%nat then Ok bytes else Err MalformedEnvelope
  | None => Err MalformedEnvelope
  end.

Definition parse_envelope (envelope : string)
  : Result CredentialCipherError (Z * string * string * string) :=
  (if (String.length envelope <? HEADER_LEN + TAG_LEN)%nat
      || negb (bool_decide (get_range 0 (String.length FORMAT_MARKER) envelope = Some FORMAT_MARKER))
   then Err MalformedEnvelope else
   let generation_start := String.length FORMAT_MARKER in
   let binding_start := (generation_start + GENERATION_LEN)%nat in
   let nonce_start := (binding_start + OWNER_BINDING_LEN)%nat in
   let? generation := parse_array GENERATION_LEN (get_range generation_start binding_start envelope) in
   let? binding := parse_array OWNER_BINDING_LEN (get_range binding_start nonce_start envelope) in
   let nonce_end := (nonce_start + NONCE_LEN)%nat in
   let? nonce := parse_array NONCE_LEN (get_range nonce_start nonce_end envelope) in
   let? rest := ok_or (get_from nonce_end envelope) MalformedEnvelope in
   Ok (from_be_bytes generation, binding, nonce, rest))%rust.

Section Cipher.
Context {Henv : Env} {Haead : Aead}.

Definition associated_data (owner : string) : string := CREDENTIAL_LABEL +:+ owner.
Definition owner_binding (owner : string) : string := sha256 (CREDENTIAL_LABEL +:+ owner).

(** [seal] after its nonce was drawn. *)
Definition seal_with (cipher : CredentialCipher) (nonce owner access refresh : string)
  : Result CredentialCipherError CredentialEnvelope :=
  (if negb (String.length (cc_key cipher) =? KEY_LEN)%nat then Err Authentication else
   let binding := owner_binding owner in
   let? plaintext := encode_credential access refresh in
   let? sealed := ok_or (aead_encrypt (cc_key cipher) nonce (associated_data owner) plaintext)
     Authentication in
   Ok (from_ciphertext
     (FORMAT_MARKER +:+ to_be_bytes (cc_generation cipher) +:+ binding +:+ nonce +:+ sealed)))%rust.

Definition fill_nonce : M CredentialCipherError string := fun w =>
  (ok_or (random_nonce (w_minted w)) Randomness,
   mkWorld (w_db w) (w_tick w) (S (w_minted w)) (w_txn w) (w_files w) (w_bus w)).

Definition seal (cipher : CredentialCipher) (owner access refresh : string)
  : M CredentialCipherError CredentialEnvelope :=
  let* nonce := fill_nonce in
  lift (seal_with cipher nonce owner access refresh).

Definition open (cipher : CredentialCipher) (owner : string) (envelope : CredentialEnvelope)
  : Result CredentialCipherError OfficialCredential :=
  (let? parsed := parse_envelope (ciphertext envelope) in
   let '(generation, binding, nonce, sealed) := parsed in
   if negb (generation =? cc_generation cipher)%Z then Err KeyGeneration else
   if negb (bool_decide (binding = owner_binding owner)) then Err Binding else
   if negb (String.length (cc_key cipher) =? KEY_LEN)%nat then Err Authentication else
   let? plaintext := ok_or (aead_decrypt (cc_key cipher) nonce (associated_data owner) sealed)
     Authentication in
   decode_credential plaintext)%rust.

End Cipher.

(** * Account lifecycle *)

Inductive AccountType := Creator.

Definition account_type_str (t : AccountType) : string := match t with Creator => "creator" end.

Record OfficialAccount := mk_account {
  oa_account_id : Uuid;
  oa_user_ref : Uuid;
  oa_provider_account_id : string;
  oa_username : string;
  oa_account_type : AccountType;
}.

Record OfficialGrant := mk_grant {
  og_access_token : string;
  og_refresh_token : string;
  og_scopes : list string;
  og_expires_at : Time;
}.

Inductive RevocationOutcome := Confirmed | Uncertain.

Inductive OfficialOAuthError :=
| Credential (e : CredentialCipherError)
| Storage (e : SqlError)
| OAuthUnavailable
| RevocationUncertain.

Record BudgetObservation := mk_budget {
  bo_endpoint_class : string;
  bo_remaining : Z;
  bo_resets_at : option Time;
  bo_request_id : option string;
}.

(** [BudgetObservation::new]. *)
Definition new_budget (endpoint_class : string) (remaining : Z) (resets_at : option Time)
    (request_id : option string) : Result OfficialOAuthError BudgetObservation :=
  if bool_decide (endpoint_class = "") || (64 <? String.length endpoint_class)%nat
     || match request_id with Some id => (256 <? String.length id)%nat | None => false end
  then Err OAuthUnavailable
  else Ok (mk_budget endpoint_class remaining resets_at request_id).

Definition of_account (account_id : Uuid) (_ : Uuid) (r : credential_row) : bool :=
  bool_decide (cr_account_id r = account_id).

(** [insert into accounts]. *)
Definition insert_account (id : Uuid) (r : account_row) (d : db) : Result SqlError db :=
  if negb (bool_decide (a_account_type r ∈ ["personal"; "creator"; "business"]))
  then Err (CheckViolation "accounts_account_type_check")
  else if negb (bool_decide (a_connection_status r ∈ ["connected"; "reauthorization_required"; "revoked"]))
  then Err (CheckViolation "accounts_connection_status_check")
  else if bool_decide (is_Some (accounts d !! id)) then Err (UniqueViolation "accounts_pkey")
  else if exists_where (accounts d)
            (fun _ a => bool_decide (a_provider_account_id a = a_provider_account_id r))
  then Err (UniqueViolation "accounts_provider_account_id_key")
  else Ok (set_accounts (<[id := r]> (accounts d)) d).

(** [delete from credentials where account_id = $1]. *)
Definition delete_credentials (account_id : Uuid) (d : db) : db :=
  set_credentials (delete_where (of_account account_id) (credentials d)) d.

(** [insert into credentials]. *)
Definition insert_credential (id : Uuid) (r : credential_row) (d : db) : Result SqlError db :=
  if bool_decide (is_Some (credentials d !! id)) then Err (UniqueViolation "credentials_pkey")
  else if bool_decide (accounts d !! cr_account_id r = None)
  then Err (ForeignKeyViolation "credentials_account_id_fkey")
  else Ok (set_credentials (<[id := r]> (credentials d)) d).

(** [update accounts set scopes = ..., connection_status = ... where account_id = $1]. *)
Definition update_account (account_id : Uuid) (scopes status : string) (d : db) : db :=
  match accounts d !! account_id with
  | Some a => set_accounts (<[account_id := mk_account_row (a_user_ref a) (a_provider_account_id a)
      (a_username a) (a_account_type a) status scopes]> (accounts d)) d
  | None => d
  end.

(** [insert into credential_audit]. *)
Definition insert_audit (id : Uuid) (r : credential_audit_row) (d : db) : Result SqlError db :=
  if negb (bool_decide (ca_event_kind r ∈ ["connected"; "refreshed"; "revoked"; "reauthorization_required"]))
  then Err (CheckViolation "credential_audit_event_kind_check")
  else if bool_decide (is_Some (credential_audit d !! id)) then Err (UniqueViolation "credential_audit_pkey")
  else if bool_decide (accounts d !! ca_account_id r = None)
  then Err (ForeignKeyViolation "credential_audit_account_id_fkey")
  else Ok (set_credential_audit (<[id := r]> (credential_audit d)) d).

(** [insert into account_budgets ... on conflict do update]. *)
Definition upsert_budget (key : Uuid * string) (r : budget_row) (d : db) : Result SqlError db :=
  let n := length (chars key.2) in
  if negb ((1 <=? n)%nat && (n <=? 64)%nat) then Err (CheckViolation "account_budgets_endpoint_class_check")
  else if (ab_remaining r <? 0)%Z then Err (CheckViolation "account_budgets_remaining_check")
  else if match ab_request_id r with Some id => (256 <? length (chars id))%nat | None => false end
  then Err (CheckViolation "account_budgets_request_id_check")
  else if bool_decide (accounts d !! key.1 = None)
  then Err (ForeignKeyViolation "account_budgets_account_id_fkey")
  else Ok (set_account_budgets (<[key := r]> (account_budgets d)) d).

Section Lifecycle.
Context {Henv : Env} {Haead : Aead}.

Definition storage (f : db -> Result SqlError db) : M OfficialOAuthError () :=
  mapErr Storage (execute (fun _ d => f d)).

(** [i32::try_from]. *)
Definition to_i32 (z : Z) : Result OfficialOAuthError Z :=
  if (z <=? i32_max)%Z then Ok z else Err OAuthUnavailable.

Definition append_audit (account_id : Uuid) (event_kind : string) : M OfficialOAuthError () :=
  let* audit_id := now_v7 in
  storage (insert_audit audit_id (mk_credential_audit_row account_id event_kind)).

Definition store_credential (cipher : CredentialCipher) (account_id : Uuid) (grant : OfficialGrant)
    (access refresh : CredentialEnvelope) : M OfficialOAuthError () :=
  let* credential_id := now_v7 in
  let* version := lift (to_i32 (cc_generation cipher)) in
  storage (insert_credential credential_id (mk_credential_row account_id (ciphertext access) version
    (String.concat " " (og_scopes grant)) (Some (ciphertext refresh)) (Some (og_expires_at grant)))).

(** The transaction of [connect]. *)
Definition connect_body (cipher : CredentialCipher) (account : OfficialAccount) (grant : OfficialGrant)
    (access refresh : CredentialEnvelope) : M OfficialOAuthError (Finish ()) :=
  storage (insert_account (oa_account_id account) (mk_account_row (oa_user_ref account)
    (oa_provider_account_id account) (oa_username account) (account_type_str (oa_account_type account))
    "connected" (String.concat " " (og_scopes grant)))) ;;;
  storage (fun d => Ok (delete_credentials (oa_account_id account) d)) ;;;
  store_credential cipher (oa_account_id account) grant access refresh ;;;
  append_audit (oa_account_id account) "connected" ;;;
  ret (Commit ()).

Definition connect (cipher : CredentialCipher) (account : OfficialAccount) (grant : OfficialGrant)
  : M OfficialOAuthError () :=
  let owner := show_uuid (oa_account_id account) in
  let* access := mapErr Credential (seal cipher owner (og_access_token grant) "") in
  let* refresh := mapErr Credential (seal cipher owner (og_refresh_token grant) "") in
  transaction Storage (connect_body cipher account grant access refresh).

(** The transaction of [refresh]. *)
Definition refresh_body (cipher : CredentialCipher) (account_id : Uuid) (grant : OfficialGrant)
    (access refresh : CredentialEnvelope) : M OfficialOAuthError (Finish ()) :=
  storage (fun d => Ok (delete_credentials account_id d)) ;;;
  storage (fun d => Ok (update_account account_id (String.concat " " (og_scopes grant)) "connected" d)) ;;;
  store_credential cipher account_id grant access refresh ;;;
  append_audit account_id "refreshed" ;;;
  ret (Commit ()).

Definition refresh (cipher : CredentialCipher) (account_id : Uuid) (grant : OfficialGrant)
  : M OfficialOAuthError () :=
  let owner := show_uuid account_id in
  let* access := mapErr Credential (seal cipher owner (og_access_token grant) "") in
  let* refresh := mapErr Credential (seal cipher owner (og_refresh_token grant) "") in
  transaction Storage (refresh_body cipher account_id grant access refresh).

(** The transaction of [scrub_revoked]. *)
Definition scrub_body (account_id : Uuid) : M OfficialOAuthError (Finish ()) :=
  storage (fun d => Ok (delete_credentials account_id d)) ;;;
  storage (fun d => Ok (update_account account_id "" "revoked" d)) ;;;
  append_audit account_id "revoked" ;;;
  ret (Commit ()).

Definition scrub_revoked (account_id : Uuid) : M OfficialOAuthError () :=
  transaction Storage (scrub_body account_id).

Definition revoke (account_id : Uuid) (outcome : RevocationOutcome) : M OfficialOAuthError () :=
  match outcome with
  | Confirmed => scrub_revoked account_id
  | Uncertain => throw RevocationUncertain
  end.

Definition record_budget (account_id : Uuid) (observation : BudgetObservation)
  : M OfficialOAuthError () :=
  let* remaining := lift (to_i32 (bo_remaining observation)) in
  storage (upsert_budget (account_id, bo_endpoint_class observation)
    (mk_budget_row remaining (bo_resets_at observation) (bo_request_id observation))).

End Lifecycle.

(** * Capabilities *)

Inductive OfficialCapability := AccountIdentity | OwnAccountSync | NativeSavedList | Publishing.

#[global] Instance OfficialCapability_eq_dec : EqDecision OfficialCapability.
Proof. solve_decision. Defined.

Definition availability_for_scope (has_scope : bool) (required_scope : string) : CapabilityAvailability :=
  if has_scope then Available else Unavailable ("missing required scope: " +:+ required_scope).

Definition availability_for_matrix (status : Capability.SupportStatus) : CapabilityAvailability :=
  match status with
  | Capability.Supported => Available
  | Capability.Planned => Unavailable "own_account_sync is planned"
  | Capability.NotSupported => Unavailable "own_account_sync is not supported"
  end.

Definition availability_for_own_account_sync (has_basic : bool) : CapabilityAvailability :=
  match Capability.status (Capability.capability Capability.OwnAccountSync) with
  | Capability.Supported => availability_for_scope has_basic "threads_basic"
  | status => availability_for_matrix status
  end.

(** The entries of the [BTreeMap], in the order of its keys. *)
Definition reconcile_capabilities (account_type : AccountType) (scopes : list string)
  : list (OfficialCapability * CapabilityAvailability) :=
  let has_basic := existsb (fun scope => bool_decide (scope = "threads_basic")) scopes in
  [ (AccountIdentity, availability_for_scope has_basic "threads_basic");
    (OwnAccountSync, availability_for_own_account_sync has_basic);
    (NativeSavedList, Unavailable (Capability.NATIVE_SAVED_LIST_SYNC.2));
    (Publishing, Unavailable "publishing requires separate consent") ].

(** * Bytes, lemmas *)

Lemma split_at_Some n : forall s a b, split_at n s = Some (a, b) <-> s = a +:+ b /\ String.length a = n.
Proof.
  induction n as [|n IH]; intros s a b; simpl.
  - split; [intros [= <- <-]; done|]. intros [-> Ha]. by destruct a.
  - destruct s as [|c s]; [split; [done|]; intros [H Ha]; by destruct a|].
    split.
    + destruct (split_at n s) as [[a' b']|] eqn:E; [|done]. simpl. intros [= <- <-].
      apply IH in E as [-> <-]. done.
    + destruct a as [|c' a]; [intros [_ [=]]|]. simpl. intros [[= -> ->] [= Ha]].
      by rewrite (proj2 (IH (a +:+ b) a b)).
Qed.

Lemma split_at_append a b : split_at (String.length a) (a +:+ b) = Some (a, b).
Proof. by apply split_at_Some. Qed.

Lemma split_at_total n s : n <= String.length s -> exists a b, s = a +:+ b /\ String.length a = n.
Proof.
  revert s. induction n as [|n IH]; intros s Hs; [by exists "", s|].
  destruct s as [|c s]; simpl in Hs; [lia|]. destruct (IH s) as (a & b & -> & <-); [lia|].
  by exists (String c a), b.
Qed.

Lemma get_range_append a b c first last :
  first = String.length a -> last = (String.length a + String.length b)%nat ->
  get_range first last (a +:+ b +:+ c) = Some b.
Proof.
  intros -> ->. unfold get_range. rewrite split_at_append. simpl.
  replace (String.length a + String.length b - String.length a)%nat with (String.length b) by lia.
  by rewrite split_at_append.
Qed.

Lemma get_range_prefix b c last : last = String.length b -> get_range 0 last (b +:+ c) = Some b.
Proof. intros ->. exact (get_range_append "" b c 0 _ eq_refl eq_refl). Qed.

Lemma get_from_append a b first : first = String.length a -> get_from first (a +:+ b) = Some b.
Proof. intros ->. unfold get_from. by rewrite split_at_append. Qed.

Lemma byte_val_of z : byte_val (byte_of z) = (z mod 256)%Z.
Proof.
  unfold byte_val, byte_of. assert (0 <= z mod 256 < 256)%Z by (apply Z.mod_pos_bound; lia).
  rewrite N_ascii_embedding; lia.
Qed.

Lemma byte_of_val c : byte_of (byte_val c) = c.
Proof.
  pose proof (byte_val_range c). unfold byte_of. rewrite Z.mod_small by done.
  unfold byte_val. by rewrite N2Z.id, ascii_N_embedding.
Qed.

Lemma to_be_bytes_length z : String.length (to_be_bytes z) = 4.
Proof. done. Qed.

Lemma from_to_be_bytes z : (0 <= z <= u32_max)%Z -> from_be_bytes (to_be_bytes z) = z.
Proof.
  unfold u32_max, from_be_bytes, to_be_bytes. intros Hz. cbn [from_be_bytes_acc].
  rewrite !byte_val_of, !Z.shiftr_div_pow2 by lia.
  change (2 ^ 24)%Z with 16777216%Z. change (2 ^ 16)%Z with 65536%Z. change (2 ^ 8)%Z with 256%Z.
  Z.to_euclidean_division_equations. lia.
Qed.

Lemma to_from_be_bytes s : String.length s = 4 ->
  to_be_bytes (from_be_bytes s) = s /\ (0 <= from_be_bytes s <= u32_max)%Z.
Proof.
  destruct s as [|a [|b [|c [|d []]]]]; try done. intros _.
  pose proof (byte_val_range a). pose proof (byte_val_range b).
  pose proof (byte_val_range c). pose proof (byte_val_range d).
  unfold from_be_bytes, to_be_bytes, u32_max. cbn [from_be_bytes_acc]. split; [|lia].
  rewrite !Z.shiftr_div_pow2 by lia.
  change (2 ^ 24)%Z with 16777216%Z. change (2 ^ 16)%Z with 65536%Z. change (2 ^ 8)%Z with 256%Z.
  assert (forall x c, (x mod 256 = byte_val c)%Z -> byte_of x = c) as Hb.
  { intros x e Hx. rewrite <- (byte_of_val e), <- Hx. unfold byte_of. by rewrite Zmod_mod. }
  do 3 (f_equal; [apply Hb; Z.to_euclidean_division_equations; lia|]).
  f_equal; apply Hb; Z.to_euclidean_division_equations; lia.
Qed.

(** * The plaintext *)

Definition fits_u32 (s : string) : Prop := (Z.of_nat (String.length s) <= u32_max)%Z.

Lemma decode_part_Ok input x rest : decode_part input = Ok (x, rest) <->
  fits_u32 x /\ input = to_be_bytes (Z.of_nat (String.length x)) +:+ x +:+ rest.
Proof.
  unfold decode_part, fits_u32. split.
  - destruct (split_at 4 input) as [[h t]|] eqn:E; [|done].
    cbn [ok_or result_bind fst snd]. apply split_at_Some in E as [-> Hh]. destruct (to_from_be_bytes h Hh) as [Hto Hr].
    case_match eqn:Hlt; [done|]. intros Hs%ok_or_Ok. apply split_at_Some in Hs as [-> Hx].
    rewrite Hx, Z2Nat.id by lia. split; [lia|].
    by rewrite Hto.
  - intros [Hx ->]. rewrite (split_at_append (to_be_bytes _) (x +:+ rest) : split_at 4 _ = _).
    cbn [ok_or result_bind fst snd].
    rewrite from_to_be_bytes by lia. rewrite length_append, (proj2 (Z.ltb_ge _ _)) by lia.
    by rewrite Nat2Z.id, split_at_append.
Qed.

Lemma encode_credential_Ok access refresh plaintext : encode_credential access refresh = Ok plaintext <->
  fits_u32 access /\ fits_u32 refresh
  /\ plaintext = to_be_bytes (Z.of_nat (String.length access)) +:+ access
                 +:+ to_be_bytes (Z.of_nat (String.length refresh)) +:+ refresh.
Proof.
  unfold encode_credential, fits_u32. case_match eqn:Ha; [split; [done|lia]|].
  case_match eqn:Hr; [split; [done|lia]|]. split; [intros [= <-]; split_and!; [lia..|done]|].
  by intros (_ & _ & ->).
Qed.

(** Decoding accepts exactly what encoding writes of two texts. *)
Lemma decode_credential_Ok plaintext cred : decode_credential plaintext = Ok cred <->
  encode_credential (access_token cred) (refresh_token cred) = Ok plaintext
  /\ valid_utf8 (access_token cred) = true /\ valid_utf8 (refresh_token cred) = true.
Proof.
  rewrite encode_credential_Ok. unfold decode_credential. split.
  - destruct (decode_part plaintext) as [[a r1]|] eqn:Ea; [|done]. cbn [result_bind fst snd].
    destruct (decode_part r1) as [[r r2]|] eqn:Er; [|done]. cbn [result_bind fst snd].
    apply decode_part_Ok in Ea as [Ha ->], Er as [Hr ->].
    case_bool_decide; [subst|done]. rewrite append_nil_r. cbn [negb].
    destruct (valid_utf8 a) eqn:?; [|done]. destruct (valid_utf8 r) eqn:?; [|done].
    cbn [negb]. intros [= <-]. split_and!; done.
  - destruct cred as [a r]. cbn [access_token refresh_token]. intros ((Ha & Hr & ->) & Hva & Hvr).
    rewrite (proj2 (decode_part_Ok _ a (to_be_bytes (Z.of_nat (String.length r)) +:+ r))) by done.
    cbn [result_bind fst snd].
    rewrite (proj2 (decode_part_Ok _ r "")) by (split; [done|by rewrite append_nil_r]).
    cbn [result_bind fst snd]. rewrite bool_decide_eq_true_2 by done. cbn [negb]. by rewrite Hva, Hvr.
Qed.

(** * The envelope *)

Definition envelope_bytes (generation : Z) (binding nonce sealed : string) : string :=
  FORMAT_MARKER +:+ to_be_bytes generation +:+ binding +:+ nonce +:+ sealed.

Lemma parse_array_exact size bytes : String.length bytes = size -> parse_array size (Some bytes) = Ok bytes.
Proof. intros <-. unfold parse_array. by rewrite Nat.eqb_refl. Qed.

Lemma parse_envelope_bytes generation binding nonce sealed :
  (0 <= generation <= u32_max)%Z -> String.length binding = OWNER_BINDING_LEN ->
  String.length nonce = NONCE_LEN -> TAG_LEN <= String.length sealed ->
  parse_envelope (envelope_bytes generation binding nonce sealed)
  = Ok (generation, binding, nonce, sealed).
Proof.
  intros Hg Hb Hn Hs. unfold parse_envelope.
  assert (String.length (envelope_bytes generation binding nonce sealed)
          = HEADER_LEN + String.length sealed)%nat as Hlen.
  { unfold envelope_bytes, HEADER_LEN. rewrite !length_append, Hb, Hn, to_be_bytes_length.
    unfold GENERATION_LEN. lia. }
  rewrite Hlen, (proj2 (Nat.ltb_ge _ _)) by lia. unfold envelope_bytes.
  rewrite (get_range_prefix FORMAT_MARKER) by done.
  rewrite bool_decide_eq_true_2 by done. cbn [negb orb].
  rewrite (get_range_append FORMAT_MARKER (to_be_bytes generation)) by done.
  rewrite parse_array_exact by done. cbn [result_bind].
  rewrite <- (append_assoc FORMAT_MARKER (to_be_bytes generation)).
  rewrite get_range_append by (rewrite ?Hb; done).
  rewrite parse_array_exact by done. cbn [result_bind].
  rewrite <- (append_assoc (FORMAT_MARKER +:+ to_be_bytes generation) binding).
  rewrite get_range_append by (rewrite ?length_append, ?Hb, ?Hn; done).
  rewrite parse_array_exact by done. cbn [result_bind].
  rewrite <- (append_assoc _ nonce).
  rewrite get_from_append by (rewrite !length_append, Hb, Hn; done). cbn [ok_or result_bind].
  by rewrite from_to_be_bytes.
Qed.

Lemma parse_envelope_Ok e generation binding nonce sealed :
  parse_envelope e = Ok (generation, binding, nonce, sealed) <->
  (0 <= generation <= u32_max)%Z /\ String.length binding = OWNER_BINDING_LEN
  /\ String.length nonce = NONCE_LEN /\ TAG_LEN <= String.length sealed
  /\ e = envelope_bytes generation binding nonce sealed.
Proof.
  split; [|intros (? & ? & ? & ? & ->); by apply parse_envelope_bytes].
  intros Hp. assert (HEADER_LEN + TAG_LEN <= String.length e) as Hlen.
  { revert Hp. unfold parse_envelope. destruct (String.length e <? _)%nat eqn:Hlt; [done|].
    by apply Nat.ltb_ge in Hlt. }
  assert (get_range 0 2 e = Some FORMAT_MARKER) as Hm.
  { revert Hp. unfold parse_envelope. rewrite (proj2 (Nat.ltb_ge _ _)) by done.
    change (String.length FORMAT_MARKER) with 2. case_bool_decide; done. }
  unfold HEADER_LEN, TAG_LEN, GENERATION_LEN, OWNER_BINDING_LEN, NONCE_LEN in Hlen. simpl in Hlen.
  destruct (split_at_total 2 e) as (m & e1 & -> & Hm2); [lia|]. rewrite length_append in Hlen.
  destruct (split_at_total 4 e1) as (g & e2 & -> & Hg); [lia|]. rewrite length_append in Hlen.
  destruct (split_at_total 32 e2) as (b & e3 & -> & Hb); [lia|]. rewrite length_append in Hlen.
  destruct (split_at_total 12 e3) as (n & c & -> & Hn); [lia|]. rewrite length_append in Hlen.
  rewrite (get_range_prefix m) in Hm by lia. injection Hm as ->.
  destruct (to_from_be_bytes g Hg) as [Hto Hr]. rewrite <- Hto in Hp at 1.
  fold (envelope_bytes (from_be_bytes g) b n c) in Hp.
  rewrite parse_envelope_bytes in Hp by (unfold OWNER_BINDING_LEN, NONCE_LEN, TAG_LEN; lia).
  injection Hp as <- <- <- <-. split_and!; try done; try (unfold TAG_LEN; lia).
  unfold envelope_bytes. by rewrite Hto.
Qed.

Section CipherLaws.
Context {Henv : Env} {Haead : Aead} {Hwidth : DigestWidth Henv} {Hlaws : AeadLaws Haead}.

(** A key of the length the cipher takes, and a generation [new_cipher] accepts. *)
Definition cipher_ok (cipher : CredentialCipher) : Prop :=
  String.length (cc_key cipher) = KEY_LEN /\ (1 <= cc_generation cipher <= u32_max)%Z.

Lemma seal_with_Ok cipher nonce owner access refresh e : cipher_ok cipher ->
  seal_with cipher nonce owner access refresh = Ok e <->
  exists plaintext sealed, encode_credential access refresh = Ok plaintext
    /\ aead_encrypt (cc_key cipher) nonce (associated_data owner) plaintext = Some sealed
    /\ ciphertext e = envelope_bytes (cc_generation cipher) (owner_binding owner) nonce sealed.
Proof.
  intros [Hk _]. unfold seal_with. rewrite Hk. cbn [Nat.eqb negb KEY_LEN].
  change (KEY_LEN =? KEY_LEN)%nat with true. cbn [negb].
  destruct (encode_credential access refresh) as [p|]; cbn [result_bind]; [|naive_solver].
  destruct (aead_encrypt _ _ _ p) as [c|] eqn:Hc; cbn [ok_or result_bind].
  - split; [intros [= <-]; by exists p, c|]. intros (p' & c' & [= <-] & Hc' & He). destruct e as [e].
    simpl in He. rewrite Hc in Hc'. injection Hc' as ->. by rewrite He.
  - split; [done|]. intros (p' & c' & [= <-] & ? & _). congruence.
Qed.

(** A sealed envelope as its parts, whichever owner reads it. *)
Lemma sealed_parses cipher nonce owner access refresh e : cipher_ok cipher ->
  String.length nonce = NONCE_LEN -> seal_with cipher nonce owner access refresh = Ok e ->
  exists sealed, parse_envelope (ciphertext e)
    = Ok (cc_generation cipher, owner_binding owner, nonce, sealed).
Proof.
  intros Hc Hn (p & c & _ & Henc & ->)%seal_with_Ok; [|done]. exists c.
  apply encrypt_length in Henc as Hl. destruct Hc as [_ Hg].
  apply parse_envelope_bytes; [lia|apply digest_width|done|lia].
Qed.

(** Opening accepts exactly what sealing writes of two texts, under some nonce. *)
Lemma open_Ok cipher owner e cred : cipher_ok cipher ->
  open cipher owner e = Ok cred <->
  exists nonce, String.length nonce = NONCE_LEN
    /\ seal_with cipher nonce owner (access_token cred) (refresh_token cred) = Ok e
    /\ valid_utf8 (access_token cred) = true /\ valid_utf8 (refresh_token cred) = true.
Proof.
  intros Hc. assert ((String.length (cc_key cipher) =? KEY_LEN)%nat = true) as Hk
    by (apply Nat.eqb_eq, Hc).
  split.
  - unfold open. destruct (parse_envelope (ciphertext e)) as [[[[g b] n] c]|] eqn:Hp; [|done].
    cbn [result_bind]. apply parse_envelope_Ok in Hp as (_ & _ & Hn & _ & He).
    destruct (g =? cc_generation cipher)%Z eqn:Hg; [|done]. apply Z.eqb_eq in Hg as ->.
    case_bool_decide as Hb; [subst b|done]. rewrite Hk. cbn [negb].
    destruct (aead_decrypt _ n _ c) as [p|] eqn:Hd; [|done]. cbn [ok_or result_bind].
    intros (Henc & Ha & Hr)%decode_credential_Ok. apply decrypt_iff in Hd.
    exists n. split_and!; [done| |done..]. apply seal_with_Ok; [done|]. by exists p, c.
  - intros (n & Hn & Hs & Ha & Hr). unfold open.
    destruct (sealed_parses _ _ _ _ _ _ Hc Hn Hs) as [c Hp].
    apply seal_with_Ok in Hs as (p & c' & Henc & Hsealed & He); [|done].
    assert (c' = c) as ->.
    { apply encrypt_length in Hsealed as Hl. rewrite He, parse_envelope_bytes in Hp;
        [by injection Hp|destruct Hc; lia|apply digest_width|done|lia]. }
    rewrite Hp. cbn [result_bind]. rewrite Z.eqb_refl, bool_decide_eq_true_2, Hk by done.
    cbn [negb]. apply decrypt_iff in Hsealed. rewrite Hsealed. cbn [ok_or result_bind].
    by apply decode_credential_Ok.
Qed.

(** * What the operations do to the tables *)

(** The tokens of a grant are texts. *)
Definition grant_text (grant : OfficialGrant) : Prop :=
  valid_utf8 (og_access_token grant) = true /\ valid_utf8 (og_refresh_token grant) = true.

(** The column opens, for the account, to the token. *)
Definition holds_token (cipher : CredentialCipher) (account_id : Uuid) (column token : string) : Prop :=
  open cipher (show_uuid account_id) (from_ciphertext column) = Ok (mk_credential token "").

(** The stored grant of an account is the one given, sealed under the configured key. *)
Definition stores_grant (cipher : CredentialCipher) (account_id : Uuid) (grant : OfficialGrant)
    (r : credential_row) : Prop :=
  exists access refresh,
    r = mk_credential_row account_id access (cc_generation cipher) (String.concat " " (og_scopes grant))
          (Some refresh) (Some (og_expires_at grant))
    /\ holds_token cipher account_id access (og_access_token grant)
    /\ holds_token cipher account_id refresh (og_refresh_token grant).

(** The account is connected with the grant as its only credential, one audit row is added, and
    nothing else changes. *)
Definition granted (cipher : CredentialCipher) (account_id : Uuid) (a : account_row) (grant : OfficialGrant)
    (kind : string) (d d' : db) : Prop :=
  exists credential_id audit_id r,
    delete_where (of_account account_id) (credentials d) !! credential_id = None
    /\ credential_audit d !! audit_id = None
    /\ stores_grant cipher account_id grant r
    /\ a_connection_status a = "connected" /\ a_scopes a = String.concat " " (og_scopes grant)
    /\ d' = set_credential_audit (<[audit_id := mk_credential_audit_row account_id kind]> (credential_audit d))
        (set_credentials (<[credential_id := r]> (delete_where (of_account account_id) (credentials d)))
          (set_accounts (<[account_id := a]> (accounts d)) d)).

(** The account is revoked with no credential left, one audit row is added, and nothing else
    changes. *)
Definition scrubbed (account_id : Uuid) (a : account_row) (d d' : db) : Prop :=
  exists audit_id,
    credential_audit d !! audit_id = None
    /\ a_connection_status a = "revoked" /\ a_scopes a = ""
    /\ d' = set_credential_audit (<[audit_id := mk_credential_audit_row account_id "revoked"]> (credential_audit d))
        (set_credentials (delete_where (of_account account_id) (credentials d))
          (set_accounts (<[account_id := a]> (accounts d)) d)).

Lemma storage_Ok f w u w' : storage f w = (Ok u, w') -> f (w_db w) = Ok (w_db w').
Proof.
  unfold storage. rewrite mapErr_Ok. intros (t & d & Hf & Hd)%execute_db. by rewrite Hf, Hd.
Qed.

Lemma now_v7_same_db {E} w (a : Uuid) w' : now_v7 (E := E) w = (Ok a, w') -> w_db w' = w_db w.
Proof. exact (now_v7_db w a w'). Qed.

Lemma seal_Ok cipher owner access refresh w e w' : seal cipher owner access refresh w = (Ok e, w') ->
  w_db w' = w_db w /\ exists nonce, String.length nonce = NONCE_LEN
    /\ seal_with cipher nonce owner access refresh = Ok e.
Proof.
  unfold seal. intros (nonce & w1 & Hn & [Hs Hd]%lift_db)%bind_Ok.
  unfold fill_nonce in Hn. injection Hn as Hn <-. apply ok_or_Ok in Hn.
  rewrite Hd. split; [done|]. exists nonce. split; [by eapply nonce_length|done].
Qed.

Lemma seal_db cipher owner access refresh w : w_db (seal cipher owner access refresh w).2 = w_db w.
Proof.
  unfold seal, bind, fill_nonce, lift. destruct (ok_or _ _); done.
Qed.

Lemma seal_holds_token cipher account_id token w e w' : cipher_ok cipher -> valid_utf8 token = true ->
  seal cipher (show_uuid account_id) token "" w = (Ok e, w') ->
  w_db w' = w_db w /\ holds_token cipher account_id (ciphertext e) token.
Proof.
  intros Hc Ht (Hd & nonce & Hn & Hs)%seal_Ok. split; [done|]. apply open_Ok; [done|].
  exists nonce. destruct e. done.
Qed.

Lemma append_audit_Ok account_id kind w u w' : append_audit account_id kind w = (Ok u, w') ->
  exists audit_id, credential_audit (w_db w) !! audit_id = None
    /\ is_Some (accounts (w_db w) !! account_id)
    /\ w_db w' = set_credential_audit (<[audit_id := mk_credential_audit_row account_id kind]>
         (credential_audit (w_db w))) (w_db w).
Proof.
  unfold append_audit. intros (id & w1 & Hid%now_v7_same_db & Hs%storage_Ok)%bind_Ok.
  rewrite Hid in Hs. unfold insert_audit in Hs. exists id.
  case_match; [done|]. case_bool_decide as Hn; [done|]. case_bool_decide as Ha; [done|].
  injection Hs as <-. split_and!; [by apply eq_None_not_Some| |done].
  simpl in Ha. by apply not_eq_None_Some in Ha.
Qed.

Lemma store_credential_Ok cipher account_id grant access refresh w u w' :
  store_credential cipher account_id grant access refresh w = (Ok u, w') ->
  exists credential_id, credentials (w_db w) !! credential_id = None
    /\ is_Some (accounts (w_db w) !! account_id)
    /\ w_db w' = set_credentials (<[credential_id := mk_credential_row account_id (ciphertext access)
         (cc_generation cipher) (String.concat " " (og_scopes grant)) (Some (ciphertext refresh))
         (Some (og_expires_at grant))]> (credentials (w_db w))) (w_db w).
Proof.
  unfold store_credential. intros (id & w1 & Hid%now_v7_same_db & H)%bind_Ok.
  apply bind_Ok in H as (v & w2 & [Hv Hd]%lift_db & Hs%storage_Ok).
  rewrite Hd, Hid in Hs. unfold to_i32 in Hv. case_match; [|done]. injection Hv as <-.
  unfold insert_credential in Hs. exists id.
  case_bool_decide as Hn; [done|]. case_bool_decide as Ha; [done|]. injection Hs as <-.
  split_and!; [by apply eq_None_not_Some| |done]. simpl in Ha. by apply not_eq_None_Some in Ha.
Qed.

Lemma connect_body_Ok cipher account grant access refresh w f w' : cipher_ok cipher ->
  holds_token cipher (oa_account_id account) (ciphertext access) (og_access_token grant) ->
  holds_token cipher (oa_account_id account) (ciphertext refresh) (og_refresh_token grant) ->
  connect_body cipher account grant access refresh w = (Ok f, w') ->
  f = Commit () /\ accounts (w_db w) !! oa_account_id account = None
  /\ exists a, granted cipher (oa_account_id account) a grant "connected" (w_db w) (w_db w').
Proof.
  intros Hc Ha Hr H. unfold connect_body in H.
  apply bind_Ok in H as ([] & w1 & Hins%storage_Ok & H).
  apply bind_Ok in H as ([] & w2 & Hdel%storage_Ok & H). injection Hdel as Hdel.
  apply bind_Ok in H as ([] & w3 & Hcred%store_credential_Ok & H).
  apply bind_Ok in H as ([] & w4 & Haud%append_audit_Ok & H). apply ret_db in H as [-> ->].
  destruct Hcred as (cid & Hcid & _ & H3), Haud as (aid & Haid & _ & H4).
  unfold insert_account in Hins. repeat (case_match; try discriminate Hins).
  apply bool_decide_eq_false in H1. injection Hins as Hins.
  split; [done|]. split; [by apply eq_None_not_Some|].
  match type of Hins with set_accounts (<[_ := ?r]> _) _ = _ => exists r end. exists cid, aid. eexists.
  rewrite H4, H3, <- Hdel, <- Hins. rewrite H3, <- Hdel, <- Hins in Haid.
  rewrite <- Hdel, <- Hins in Hcid. split_and!; [exact Hcid|exact Haid|..].
  - exists (ciphertext access), (ciphertext refresh). split_and!; [reflexivity|exact Ha|exact Hr].
  - reflexivity.
  - reflexivity.
  - reflexivity.
Qed.

Lemma refresh_body_Ok cipher account_id grant access refresh w f w' :
  holds_token cipher account_id (ciphertext access) (og_access_token grant) ->
  holds_token cipher account_id (ciphertext refresh) (og_refresh_token grant) ->
  refresh_body cipher account_id grant access refresh w = (Ok f, w') ->
  f = Commit () /\ is_Some (accounts (w_db w) !! account_id)
  /\ exists a, granted cipher account_id a grant "refreshed" (w_db w) (w_db w').
Proof.
  intros Ha Hr H. unfold refresh_body in H.
  apply bind_Ok in H as ([] & w1 & Hdel%storage_Ok & H). injection Hdel as Hdel.
  apply bind_Ok in H as ([] & w2 & Hupd%storage_Ok & H). injection Hupd as Hupd.
  apply bind_Ok in H as ([] & w3 & Hcred%store_credential_Ok & H).
  apply bind_Ok in H as ([] & w4 & Haud%append_audit_Ok & H). apply ret_db in H as [-> ->].
  destruct Hcred as (cid & Hcid & Hacc & H3), Haud as (aid & Haid & _ & H4).
  unfold update_account in Hupd. rewrite <- Hdel in Hupd. change (accounts (delete_credentials _ _)) with
    (accounts (w_db w)) in Hupd.
  destruct (accounts (w_db w) !! account_id) as [a|] eqn:Eacc.
  2: { rewrite <- Hupd in Hacc. change (accounts (delete_credentials _ _)) with (accounts (w_db w)) in Hacc.
       rewrite Eacc in Hacc. by destruct Hacc. }
  split; [done|]. split; [done|].
  match type of Hupd with set_accounts (<[_ := ?r]> _) _ = _ => exists r end. exists cid, aid. eexists.
  rewrite H4, H3, <- Hupd. rewrite H3, <- Hupd in Haid.
  rewrite <- Hupd in Hcid. split_and!; [exact Hcid|exact Haid|..].
  - exists (ciphertext access), (ciphertext refresh). split_and!; [reflexivity|exact Ha|exact Hr].
  - reflexivity.
  - reflexivity.
  - reflexivity.
Qed.

Lemma scrub_body_Ok account_id w f w' : scrub_body account_id w = (Ok f, w') ->
  f = Commit () /\ is_Some (accounts (w_db w) !! account_id)
  /\ exists a, scrubbed account_id a (w_db w) (w_db w').
Proof.
  intros H. unfold scrub_body in H.
  apply bind_Ok in H as ([] & w1 & Hdel%storage_Ok & H). injection Hdel as Hdel.
  apply bind_Ok in H as ([] & w2 & Hupd%storage_Ok & H). injection Hupd as Hupd.
  apply bind_Ok in H as ([] & w4 & Haud%append_audit_Ok & H). apply ret_db in H as [-> ->].
  destruct Haud as (aid & Haid & Hacc & H4).
  unfold update_account in Hupd. rewrite <- Hdel in Hupd. change (accounts (delete_credentials _ _)) with
    (accounts (w_db w)) in Hupd.
  destruct (accounts (w_db w) !! account_id) as [a|] eqn:Eacc.
  2: { rewrite <- Hupd in Hacc. change (accounts (delete_credentials _ _)) with (accounts (w_db w)) in Hacc.
       rewrite Eacc in Hacc. by destruct Hacc. }
  split; [done|]. split; [done|].
  match type of Hupd with set_accounts (<[_ := ?r]> _) _ = _ => exists r end. exists aid.
  rewrite H4, <- Hupd. rewrite <- Hupd in Haid. split_and!; [exact Haid|reflexivity..].
Qed.

(** A transaction whose body always commits: its effect, or none; an error after the effect is
    a lost answer. *)
Lemma committed_outcome (body : M OfficialOAuthError (Finish ())) (P : db -> db -> Prop) w :
  (forall w0 f w1, body w0 = (Ok f, w1) -> f = Commit () /\ P (w_db w0) (w_db w1)) ->
  let '(r, w') := transaction Storage body w in
  match r with
  | Ok _ => P (w_db w) (w_db w')
  | Err e => w_db w' = w_db w \/ (e = Storage ConnectionLost /\ P (w_db w) (w_db w'))
  end.
Proof.
  intros Hbody. unfold transaction. destruct (fault (w_tick w)); [|by left..].
  destruct (body _) as [[f|e] w1] eqn:Eb; [|by left].
  destruct (Hbody _ _ _ Eb) as [-> HP]. destruct (fault (w_tick w1)); [exact HP|by left|].
  right. split; [done|exact HP].
Qed.

(** The two seals before a transaction change no table. *)
Lemma sealed_outcome cipher account_id grant (body : CredentialEnvelope -> CredentialEnvelope ->
    M OfficialOAuthError (Finish ())) (P : db -> db -> Prop) w :
  cipher_ok cipher -> grant_text grant ->
  (forall access refresh, holds_token cipher account_id (ciphertext access) (og_access_token grant) ->
    holds_token cipher account_id (ciphertext refresh) (og_refresh_token grant) ->
    forall w0 f w1, body access refresh w0 = (Ok f, w1) -> f = Commit () /\ P (w_db w0) (w_db w1)) ->
  let '(r, w') :=
    (let* access := mapErr Credential (seal cipher (show_uuid account_id) (og_access_token grant) "") in
     let* refresh := mapErr Credential (seal cipher (show_uuid account_id) (og_refresh_token grant) "") in
     transaction Storage (body access refresh)) w in
  match r with
  | Ok _ => P (w_db w) (w_db w')
  | Err e => w_db w' = w_db w \/ (e = Storage ConnectionLost /\ P (w_db w) (w_db w'))
  end.
Proof.
  intros Hc [Ha Hr] Hbody. unfold bind, mapErr.
  pose proof (seal_db cipher (show_uuid account_id) (og_access_token grant) "" w) as Hd1.
  destruct (seal _ _ (og_access_token grant) "" w) as [[access|e] w1] eqn:E1; [|by left].
  simpl in Hd1. apply seal_holds_token in E1 as [_ Hacc]; [|done..].
  pose proof (seal_db cipher (show_uuid account_id) (og_refresh_token grant) "" w1) as Hd2.
  destruct (seal _ _ (og_refresh_token grant) "" w1) as [[refresh|e] w2] eqn:E2;
    [|left; simpl in Hd2; congruence].
  simpl in Hd2. apply seal_holds_token in E2 as [_ Href]; [|done..].
  pose proof (committed_outcome (body access refresh) P w2 (Hbody _ _ Hacc Href)) as H.
  rewrite Hd2, Hd1 in H. exact H.
Qed.

Lemma connect_outcome cipher account grant w : cipher_ok cipher -> grant_text grant ->
  let P d d' := accounts d !! oa_account_id account = None
    /\ exists a, granted cipher (oa_account_id account) a grant "connected" d d' in
  let '(r, w') := connect cipher account grant w in
  match r with
  | Ok _ => P (w_db w) (w_db w')
  | Err e => w_db w' = w_db w \/ (e = Storage ConnectionLost /\ P (w_db w) (w_db w'))
  end.
Proof.
  intros Hc Hg P. unfold connect. apply (sealed_outcome cipher _ grant _ P); [done..|].
  intros access refr Ha Hr w0 f w1 H. by eapply connect_body_Ok.
Qed.

Lemma refresh_outcome cipher account_id grant w : cipher_ok cipher -> grant_text grant ->
  let P d d' := is_Some (accounts d !! account_id)
    /\ exists a, granted cipher account_id a grant "refreshed" d d' in
  let '(r, w') := refresh cipher account_id grant w in
  match r with
  | Ok _ => P (w_db w) (w_db w')
  | Err e => w_db w' = w_db w \/ (e = Storage ConnectionLost /\ P (w_db w) (w_db w'))
  end.
Proof.
  intros Hc Hg P. unfold refresh. apply (sealed_outcome cipher _ grant _ P); [done..|].
  intros access refr Ha Hr w0 f w1 H. by eapply refresh_body_Ok.
Qed.

Lemma revoke_outcome account_id w :
  let P d d' := is_Some (accounts d !! account_id) /\ exists a, scrubbed account_id a d d' in
  let '(r, w') := revoke account_id Confirmed w in
  match r with
  | Ok _ => P (w_db w) (w_db w')
  | Err e => w_db w' = w_db w \/ (e = Storage ConnectionLost /\ P (w_db w) (w_db w'))
  end.
Proof.
  intros P. unfold revoke, scrub_revoked. apply (committed_outcome _ P).
  intros w0 f w1 H. by eapply scrub_body_Ok.
Qed.

(** * The lifecycle invariant *)

(** There is an audit row of the kind for the account. *)
Definition audited (d : db) (account_id : Uuid) (kind : string) : Prop :=
  exists id, credential_audit d !! id = Some (mk_credential_audit_row account_id kind).

Record lifecycle (cipher : CredentialCipher) (d : db) : Prop := {
  (* a credential belongs to a connected account and carries its scopes *)
  lc_owner : forall id r, credentials d !! id = Some r ->
    exists a, accounts d !! cr_account_id r = Some a
      /\ a_connection_status a = "connected" /\ a_scopes a = cr_scopes r;
  (* an account has at most one *)
  lc_one : forall id1 id2 r1 r2, credentials d !! id1 = Some r1 -> credentials d !! id2 = Some r2 ->
    cr_account_id r1 = cr_account_id r2 -> id1 = id2;
  (* and a connected account has one *)
  lc_connected : forall account_id a, accounts d !! account_id = Some a ->
    a_connection_status a = "connected" ->
    exists id r, credentials d !! id = Some r /\ cr_account_id r = account_id;
  (* an account is connected, or revoked without scopes; both leave evidence *)
  lc_status : forall account_id a, accounts d !! account_id = Some a ->
    audited d account_id "connected"
    /\ (a_connection_status a = "connected"
        \/ (a_connection_status a = "revoked" /\ a_scopes a = "" /\ audited d account_id "revoked"));
  (* a stored token opens for its account *)
  lc_sealed : forall id r, credentials d !! id = Some r ->
    cr_token_version r = cc_generation cipher
    /\ (exists token, holds_token cipher (cr_account_id r) (cr_access_token_ciphertext r) token)
    /\ (exists column token, cr_refresh_token_ciphertext r = Some column
          /\ holds_token cipher (cr_account_id r) column token);
}.

Lemma audited_insert d account_id kind id r : credential_audit d !! id = None ->
  audited d account_id kind -> exists id', <[id := r]> (credential_audit d) !! id'
    = Some (mk_credential_audit_row account_id kind).
Proof. intros Hn [id' H]. exists id'. rewrite lookup_insert_ne; [done|congruence]. Qed.

(** The credentials that stay are those of other accounts. *)
Lemma others_kept (d : db) account_id id r :
  delete_where (of_account account_id) (credentials d) !! id = Some r <->
  credentials d !! id = Some r /\ cr_account_id r <> account_id.
Proof.
  rewrite lookup_delete_where. unfold of_account. by rewrite bool_decide_eq_false.
Qed.

Lemma granted_lifecycle cipher account_id a grant kind d d' :
  kind = "connected" \/ is_Some (accounts d !! account_id) ->
  granted cipher account_id a grant kind d d' -> lifecycle cipher d -> lifecycle cipher d'.
Proof.
  intros Hkind (cid & aid & r & Hcid & Haid & (acc & ref & -> & Hacc & Href) & Hst & Hsc & ->) [Ho H1 Hcn Hs Hse].
  split; cbn.
  - intros id r'. rewrite lookup_insert_Some. intros [[<- <-]|[_ [Hr' Hne]%others_kept]].
    + exists a. by rewrite lookup_insert_eq.
    + rewrite lookup_insert_ne by done. eauto.
  - intros id1 id2 r1 r2. rewrite !lookup_insert_Some, !others_kept.
    intros [[<- <-]|[_ [? ?]]] [[<- <-]|[_ [? ?]]]; cbn; intros; first [done|congruence|eauto].
  - intros acct a'. rewrite lookup_insert_Some. intros [[<- <-]|[Hne Ha']] Hc.
    + exists cid. eexists. by rewrite lookup_insert_eq.
    + destruct (Hcn _ _ Ha' Hc) as (id & r' & Hr' & <-). exists id, r'. split; [|done].
      assert (delete_where (of_account account_id) (credentials d) !! id = Some r') by by apply others_kept.
      rewrite lookup_insert_ne by congruence. done.
  - intros acct a'. unfold audited at 1 2. cbn. rewrite lookup_insert_Some. intros [[<- <-]|[Hne Ha']].
    + split; [|by left]. destruct Hkind as [->|[a0 Ha0]].
      * exists aid. by rewrite lookup_insert_eq.
      * apply audited_insert; [done|]. by apply (Hs _ _ Ha0).
    + destruct (Hs _ _ Ha') as [? [?|(? & ? & ?)]]; (split; [by apply audited_insert|]).
      * by left.
      * right. split_and!; [done..|]. by apply audited_insert.
  - intros id r'. rewrite lookup_insert_Some. intros [[<- <-]|[_ [Hr' Hne]%others_kept]]; [|eauto].
    cbn. split; [done|]. split; [by eexists|]. by exists ref, (og_refresh_token grant).
Qed.

Lemma scrubbed_lifecycle cipher account_id a d d' : is_Some (accounts d !! account_id) ->
  scrubbed account_id a d d' -> lifecycle cipher d -> lifecycle cipher d'.
Proof.
  intros [a0 Ha0] (aid & Haid & Hst & Hsc & ->) [Ho H1 Hcn Hs Hse]. split; cbn.
  - intros id r' [Hr' Hne]%others_kept. rewrite lookup_insert_ne by done. eauto.
  - intros id1 id2 r1 r2. rewrite !others_kept. intros [? _] [? _]. eauto.
  - intros acct a'. rewrite lookup_insert_Some. intros [[<- <-]|[Hne Ha']] Hc; [congruence|].
    destruct (Hcn _ _ Ha' Hc) as (id & r' & Hr' & <-). exists id, r'. split; [|done].
    by apply others_kept.
  - intros acct a'. unfold audited at 1 2. cbn. rewrite lookup_insert_Some. intros [[<- <-]|[Hne Ha']].
    + split; [apply audited_insert; [done|]; by apply (Hs _ _ Ha0)|]. right. split_and!; [done..|].
      exists aid. by rewrite lookup_insert_eq.
    + destruct (Hs _ _ Ha') as [? [?|(? & ? & ?)]]; (split; [by apply audited_insert|]).
      * by left.
      * right. split_and!; [done..|]. by apply audited_insert.
  - intros id r' [Hr' _]%others_kept. eauto.
Qed.

Lemma budget_lifecycle cipher v d : lifecycle cipher d -> lifecycle cipher (set_account_budgets v d).
Proof. by intros []. Qed.

(** The calls a credential store receives. *)
Inductive LifecycleOp :=
| OpConnect (account : OfficialAccount) (grant : OfficialGrant)
| OpRefresh (account_id : Uuid) (grant : OfficialGrant)
| OpRevoke (account_id : Uuid) (outcome : RevocationOutcome)
| OpBudget (account_id : Uuid) (observation : BudgetObservation).

Definition op_text (op : LifecycleOp) : Prop :=
  match op with OpConnect _ grant | OpRefresh _ grant => grant_text grant | _ => True end.

Definition run_op (cipher : CredentialCipher) (op : LifecycleOp) : M OfficialOAuthError () :=
  match op with
  | OpConnect account grant => connect cipher account grant
  | OpRefresh account_id grant => refresh cipher account_id grant
  | OpRevoke account_id outcome => revoke account_id outcome
  | OpBudget account_id observation => record_budget account_id observation
  end.

Definition run_ops (cipher : CredentialCipher) (ops : list LifecycleOp) (w : World) : World :=
  foldl (fun w op => (run_op cipher op w).2) w ops.

Lemma record_budget_lifecycle cipher account_id observation :
  preserves (lifecycle cipher) (record_budget account_id observation).
Proof.
  unfold record_budget. apply preserves_bind; [apply preserves_lift|]. intros remaining.
  apply preserves_mapErr, preserves_execute. intros _ d d' Hd. unfold upsert_budget.
  repeat case_match; intros; simplify_eq; by apply budget_lifecycle.
Qed.

Lemma run_op_lifecycle cipher op w : cipher_ok cipher -> op_text op ->
  lifecycle cipher (w_db w) -> lifecycle cipher (w_db (run_op cipher op w).2).
Proof.
  intros Hc Ht Hl. destruct op as [account grant|account_id grant|account_id []|account_id ob]; cbn [run_op].
  - pose proof (connect_outcome cipher account grant w Hc Ht) as H.
    destruct (connect _ _ _ w) as [[u|e] w']; cbn [snd] in *.
    + destruct H as [_ [a H]]. by eapply granted_lifecycle; [left|..].
    + destruct H as [->|[_ [_ [a H]]]]; [done|]. by eapply granted_lifecycle; [left|..].
  - pose proof (refresh_outcome cipher account_id grant w Hc Ht) as H.
    destruct (refresh _ _ _ w) as [[u|e] w']; cbn [snd] in *.
    + destruct H as [Ha [a H]]. by eapply granted_lifecycle; [right|..].
    + destruct H as [->|[_ [Ha [a H]]]]; [done|]. by eapply granted_lifecycle; [right|..].
  - pose proof (revoke_outcome account_id w) as H.
    destruct (revoke _ _ w) as [[u|e] w']; cbn [snd] in *.
    + destruct H as [Ha [a H]]. by eapply scrubbed_lifecycle.
    + destruct H as [->|[_ [Ha [a H]]]]; [done|]. by eapply scrubbed_lifecycle.
  - exact Hl.
  - by apply record_budget_lifecycle.
Qed.

(** * Properties *)

(** [C20] The envelope format is exact. An envelope opens for an owner exactly when it is what
    sealing writes, under some nonce, of the two tokens it opens to; a sealed envelope presented
    with another key generation is refused as such, and one presented for an account whose binding
    differs is refused before anything is decrypted. *)
Theorem envelope_exact cipher owner e : cipher_ok cipher ->
  (forall cred, open cipher owner e = Ok cred <->
    exists nonce, String.length nonce = NONCE_LEN
      /\ seal_with cipher nonce owner (access_token cred) (refresh_token cred) = Ok e
      /\ valid_utf8 (access_token cred) = true /\ valid_utf8 (refresh_token cred) = true)
  /\ (forall nonce access refresh, String.length nonce = NONCE_LEN ->
       seal_with cipher nonce owner access refresh = Ok e ->
       (forall cipher', cc_generation cipher' <> cc_generation cipher ->
         open cipher' owner e = Err KeyGeneration)
       /\ (forall owner', owner_binding owner' <> owner_binding owner ->
         open cipher owner' e = Err Binding)).
Proof.
  intros Hc. split; [intros cred; by apply open_Ok|].
  intros nonce access refr Hn Hs. destruct (sealed_parses _ _ _ _ _ _ Hc Hn Hs) as [c Hp].
  split; intros other Hne; unfold open; rewrite Hp; cbn [result_bind].
  - rewrite (proj2 (Z.eqb_neq _ _)) by congruence. done.
  - rewrite Z.eqb_refl, bool_decide_eq_false_2 by congruence. done.
Qed.

(** [C19] Whatever calls a credential store receives and whatever fails on the way, the tables keep
    the lifecycle: an account is connected with exactly one stored grant, whose scopes it reports, or
    revoked with none and no scopes; both tokens of a stored grant open with the service's cipher for the
    account they are stored under, at its key generation; every connection and every revocation has its
    audit row. *)
Theorem lifecycle_invariant cipher ops w : cipher_ok cipher -> Forall op_text ops ->
  lifecycle cipher (w_db w) -> lifecycle cipher (w_db (run_ops cipher ops w)).
Proof.
  intros Hc Ht. revert w. induction Ht as [|op ops Hop Hops IH]; intros w Hl; [done|].
  apply IH. by apply run_op_lifecycle.
Qed.

(** A refresh replaces the grant atomically. When it is answered, every credential of the
    account is the new grant, whose tokens, scopes and expiry it stores, the account is connected
    with the same scopes, and the credentials of other accounts and every audit row are kept; a
    failed refresh changed nothing, or was a lost answer to the whole replacement. *)
Theorem refresh_replaces_grant cipher account_id grant w : cipher_ok cipher -> grant_text grant ->
  let replaced d d' :=
    (exists id r, credentials d' !! id = Some r /\ cr_account_id r = account_id)
    /\ (forall id r, credentials d' !! id = Some r ->
         if decide (cr_account_id r = account_id) then stores_grant cipher account_id grant r
         else credentials d !! id = Some r)
    /\ (exists a, accounts d' = <[account_id := a]> (accounts d) /\ a_connection_status a = "connected"
         /\ a_scopes a = String.concat " " (og_scopes grant))
    /\ credential_audit d ⊆ credential_audit d' /\ audited d' account_id "refreshed" in
  let '(r, w') := refresh cipher account_id grant w in
  match r with
  | Ok _ => replaced (w_db w) (w_db w')
  | Err e => w_db w' = w_db w \/ (e = Storage ConnectionLost /\ replaced (w_db w) (w_db w'))
  end.
Proof.
  intros Hc Hg replaced. pose proof (refresh_outcome cipher account_id grant w Hc Hg) as H.
  assert (forall a d d', granted cipher account_id a grant "refreshed" d d' -> replaced d d') as Hrep.
  { intros a d d' (cid & aid & r & Hcid & Haid & Hr & Hst & Hsc & ->). unfold replaced. cbn.
    split_and!.
    - exists cid, r. rewrite lookup_insert_eq. split; [done|]. by destruct Hr as (? & ? & -> & _).
    - intros id r'. rewrite lookup_insert_Some. intros [[<- <-]|[_ [Hr' Hne]%others_kept]].
      + by rewrite decide_True by by destruct Hr as (? & ? & -> & _).
      + by rewrite decide_False.
    - by exists a.
    - by apply insert_subseteq.
    - exists aid. cbn. by rewrite lookup_insert_eq. }
  destruct (refresh cipher account_id grant w) as [[u|e] w'].
  - destruct H as [_ [a H]]. by eapply Hrep.
  - destruct H as [H|[-> [_ [a H]]]]; [by left|]. right. split; [done|]. by eapply Hrep.
Qed.

(** A confirmed revocation scrubs everything secret: no credential of the account is left, the
    account reports revoked with no scopes, its audit rows are kept and joined by one for the
    revocation, and no other table or account changes; a failed one changed nothing, or was a lost
    answer to the whole scrub. An uncertain one changes nothing and says so. *)
Theorem revocation_scrubs account_id w :
  let scrubbed_all d d' :=
    (forall id r, credentials d' !! id = Some r <-> credentials d !! id = Some r /\ cr_account_id r <> account_id)
    /\ (exists a, accounts d' = <[account_id := a]> (accounts d) /\ a_connection_status a = "revoked"
         /\ a_scopes a = "")
    /\ (exists audit_id, credential_audit d !! audit_id = None
         /\ credential_audit d' = <[audit_id := mk_credential_audit_row account_id "revoked"]> (credential_audit d))
    /\ d' = set_credential_audit (credential_audit d')
         (set_credentials (credentials d') (set_accounts (accounts d') d)) in
  revoke account_id Uncertain w = (Err RevocationUncertain, w)
  /\ let '(r, w') := revoke account_id Confirmed w in
     match r with
     | Ok _ => scrubbed_all (w_db w) (w_db w')
     | Err e => w_db w' = w_db w \/ (e = Storage ConnectionLost /\ scrubbed_all (w_db w) (w_db w'))
     end.
Proof.
  intros scrubbed_all. split; [done|]. pose proof (revoke_outcome account_id w) as H.
  assert (forall a d d', scrubbed account_id a d d' -> scrubbed_all d d') as Hrep.
  { intros a d d' (aid & Haid & Hst & Hsc & ->). unfold scrubbed_all. cbn. split_and!.
    - intros id r. apply others_kept.
    - by exists a.
    - by exists aid.
    - done. }
  destruct (revoke account_id Confirmed w) as [[u|e] w'].
  - destruct H as [_ [a H]]. by eapply Hrep.
  - destruct H as [H|[-> [_ [a H]]]]; [by left|]. right. split; [done|]. by eapply Hrep.
Qed.

(** An account the archive knows cannot be connected again, a revoked one included: [connect]
    inserts the account row, so it always fails and leaves the tables as they were. *)
Theorem known_account_not_reconnected cipher account grant w : cipher_ok cipher -> grant_text grant ->
  is_Some (accounts (w_db w) !! oa_account_id account) ->
  (exists e, (connect cipher account grant w).1 = Err e)
  /\ w_db (connect cipher account grant w).2 = w_db w.
Proof.
  intros Hc Hg Hk. pose proof (connect_outcome cipher account grant w Hc Hg) as H.
  destruct (connect cipher account grant w) as [[u|e] w']; cbn.
  - destruct H as [H _]. rewrite H in Hk. by destruct Hk.
  - split; [by eexists|]. destruct H as [H|[_ [H _]]]; [done|]. rewrite H in Hk. by destruct Hk.
Qed.

End CipherLaws.

(** * Witnesses *)

Definition sample_digest (s : string) : string :=
  String.string_of_list_ascii (take 32 (rev (String.list_ascii_of_string s) ++ replicate 32 "0"%char)%list).

Definition oauth_env : Env := {|
  fault := fun _ => Delivered;
  io := fun _ => IoOk;
  Store.bus := fun _ => Delivered;
  clock := fun n => seconds (Z.of_nat n);
  mint := fun n => N.of_nat (1000 + n);
  show_uuid := show_nat_fuel 40;
  new_v5 := fun s => (900000 + number_of_bytes s)%N;
  sha256 := sample_digest;
|}.

#[export] Instance oauth_env_width : DigestWidth oauth_env.
Proof.
  intros s. unfold sha256, oauth_env, sample_digest.
  assert (forall l, String.length (String.string_of_list_ascii l) = length l) as ->.
  { intros l. induction l; simpl; congruence. }
  rewrite length_take, length_app, length_replicate. lia.
Qed.

Definition sample_tag : string := "0123456789abcdef".

(** The message in the clear with a constant tag: no secrecy, but the laws of the interface. *)
Definition sample_aead : Aead := {|
  aead_encrypt := fun _ _ _ m => Some (m +:+ sample_tag);
  aead_decrypt := fun _ _ _ c =>
    match split_at (String.length c - TAG_LEN) c with
    | Some (m, tag) => if bool_decide (tag = sample_tag) then Some m else None
    | None => None
    end;
  random_nonce := fun _ => Some "nonce-nonce-";
|}.

#[export] Instance sample_aead_laws : AeadLaws sample_aead.
Proof.
  split; cbn -[split_at sample_tag].
  - intros _ _ _ m c. split.
    + destruct (split_at _ c) as [[a b]|] eqn:E; [|done]. case_bool_decide as Hb; [|done].
      intros [= ->]. apply split_at_Some in E as [-> _]. by rewrite Hb.
    + intros [= <-]. rewrite length_append. change (String.length sample_tag) with TAG_LEN.
      rewrite Nat.add_sub, split_at_append. by rewrite bool_decide_eq_true_2.
  - intros _ _ _ m c [= <-]. by rewrite length_append.
  - intros n nonce [= <-]. done.
Qed.

Definition sample_cipher : CredentialCipher := mk_cipher "0123456789abcdef0123456789abcdef" 1.

Lemma sample_cipher_ok : cipher_ok sample_cipher.
Proof. split; [done|]. unfold u32_max. simpl. lia. Qed.

Definition sample_account : OfficialAccount := mk_account 7 3 "178414" "po4yka" Creator.
Definition sample_grant : OfficialGrant := mk_grant "access" "refresh" ["threads_basic"] 100.
Definition renewed_grant : OfficialGrant := mk_grant "access-2" "refresh-2" ["threads_basic"] 200.

Definition oauth_world : World := mkWorld empty_db 0 0 None ∅ [].
Definition connected_world : World :=
  (@connect oauth_env sample_aead sample_cipher sample_account sample_grant oauth_world).2.
Definition revoked_world : World := (@revoke oauth_env 7%N Confirmed connected_world).2.

Definition sample_envelope : CredentialEnvelope :=
  match @seal_with oauth_env sample_aead sample_cipher "nonce-nonce-" "7" "access" "refresh" with
  | Ok e => e
  | Err _ => from_ciphertext ""
  end.

Lemma envelope_exact_witness :
  @open oauth_env sample_aead sample_cipher "7" sample_envelope = Ok (mk_credential "access" "refresh")
  /\ @open oauth_env sample_aead sample_cipher "8" sample_envelope = Err Binding.
Proof.
  destruct (@envelope_exact oauth_env sample_aead _ _ sample_cipher "7" sample_envelope sample_cipher_ok)
    as [Hopen Hother].
  assert (@seal_with oauth_env sample_aead sample_cipher "nonce-nonce-" "7" "access" "refresh"
    = Ok sample_envelope) as Hs by (vm_compute; reflexivity).
  split.
  - apply Hopen. exists "nonce-nonce-". split; [reflexivity|]. split; [exact Hs|]. split; reflexivity.
  - apply (Hother "nonce-nonce-" "access" "refresh" eq_refl Hs).
    intros H. assert (bool_decide (@owner_binding oauth_env "8" = @owner_binding oauth_env "7") = false)
      as Hn by (vm_compute; reflexivity).
    apply bool_decide_eq_false in Hn. exact (Hn H).
Defined.

(** The empty archive satisfies the lifecycle, and so does what any calls leave of it. *)
Lemma empty_lifecycle : @lifecycle oauth_env sample_aead sample_cipher empty_db.
Proof. split; intros; by simplify_map_eq. Qed.

Lemma lifecycle_invariant_witness :
  let w := @run_ops oauth_env sample_aead sample_cipher
    [OpConnect sample_account sample_grant; OpRefresh 7%N renewed_grant; OpRevoke 7%N Uncertain] oauth_world in
  @lifecycle oauth_env sample_aead sample_cipher (w_db w) /\ size (credentials (w_db w)) = 1.
Proof.
  cbv zeta. split; [|vm_compute; reflexivity].
  apply (@lifecycle_invariant oauth_env sample_aead _ _ sample_cipher).
  - exact sample_cipher_ok.
  - repeat constructor; reflexivity.
  - exact empty_lifecycle.
Defined.

Lemma refresh_replaces_grant_witness :
  exists w', @refresh oauth_env sample_aead sample_cipher 7%N renewed_grant connected_world = (Ok (), w')
    /\ exists id r, credentials (w_db w') !! id = Some r /\ cr_account_id r = 7%N.
Proof.
  pose proof (@refresh_replaces_grant oauth_env sample_aead _ _ sample_cipher 7%N renewed_grant
    connected_world sample_cipher_ok (conj eq_refl eq_refl)) as H.
  assert (is_ok (@refresh oauth_env sample_aead sample_cipher 7%N renewed_grant connected_world).1 = true) as Hok
    by (vm_compute; reflexivity).
  destruct (@refresh oauth_env sample_aead sample_cipher 7%N renewed_grant connected_world) as [[[]|e] w'];
    [|discriminate Hok].
  exists w'. split; [reflexivity|]. exact (proj1 H).
Defined.

Lemma known_account_not_reconnected_witness :
  w_db (@connect oauth_env sample_aead sample_cipher sample_account renewed_grant revoked_world).2
  = w_db revoked_world.
Proof.
  apply (@known_account_not_reconnected oauth_env sample_aead _ _ sample_cipher).
  - exact sample_cipher_ok.
  - split; reflexivity.
  - apply (bool_decide_unpack _). vm_compute. reflexivity.
Defined.

(** A refresh does not look at the connection's status: an account that was revoked is
    connected again by it, with the new grant stored. *)
Example refresh_revives_revoked :
  a_connection_status <$> accounts (w_db revoked_world) !! 7%N = Some "revoked"
  /\ let '(r, w') := @refresh oauth_env sample_aead sample_cipher 7%N renewed_grant revoked_world in
     r = Ok () /\ a_connection_status <$> accounts (w_db w') !! 7%N = Some "connected"
     /\ size (credentials (w_db w')) = 1.
Proof. vm_compute. split_and!; reflexivity. Qed.

End OAuth.
