(* ===== verification/Config.v ===== *)
(** Process configuration (src/crates/threads-archive/src/config.rs): the closed set of
    [RATATOSKR__] keys, the rule each value is held to, the requirements checked once all
    entries were applied, and the reading of the process environment.

    A value is a byte string. [SocketAddr]'s and the integers' [FromStr] are the standard
    library's and are written out; the connection string parser of the database driver and
    the URL parser behind the oEmbed endpoint are parameters ([PgUrl], [Web]). *)
From S2P Require Import Prelude Schema Store PublicResolution RemovalAck.

Module Config.
Import PublicResolution.
Local Open Scope string_scope.

(** * [u32::from_str], [u64::from_str] *)

Definition to_digit (radix : Z) (c : ascii) : option Z :=
  let b := byte_val c in
  let d := (if is_ascii_digit c then b - 48
            else if in_range "a" "z" c then b - 87
            else if in_range "A" "Z" c then b - 55 else radix)%Z in
  if (d <? radix)%Z then Some d else None.

Fixpoint digits_value (max acc : Z) (s : string) : option Z :=
  match s with
  | "" => Some acc
  | String c s => d ← to_digit 10 c; acc ← checked_add max (acc * 10)%Z d; digits_value max acc s
  end.

(** A sign alone and an empty text are refused, a leading plus is skipped. *)
Definition parse_unsigned (max : Z) (s : string) : option Z :=
  match s with
  | "" => None
  | String c "" => digits_value max 0 s
  | String c rest => if bool_decide (c = "+"%char) then digits_value max 0 rest else digits_value max 0 s
  end.

(** * [SocketAddr::from_str]

    A reader takes the remaining bytes and returns what it read with what is left; one that
    fails leaves the bytes where they were. *)

Inductive IpAddr :=
  | V4 (octets : list Z)
  | V6 (segments : list Z).

Inductive SocketAddr :=
  | SocketV4 (octets : list Z) (port : Z)
  | SocketV6 (segments : list Z) (port scope_id : Z).

Definition reader (A : Type) := string -> option (A * string).

Definition read_given_char (target : ascii) : reader () := fun s =>
  match s with
  | "" => None
  | String c rest => if bool_decide (c = target) then Some ((), rest) else None
  end.

Definition read_separator {A} (sep : ascii) (index : nat) (inner : reader A) : reader A := fun s =>
  if (0 <? index)%nat then r ← read_given_char sep s; inner r.2 else inner s.

(** The digits at the head of the input: their value, how many they are, and the rest; [None]
    once there are more than [max_digits], or the value leaves the type. *)
Fixpoint read_digits (radix : Z) (max_digits : option nat) (max : Z) (result : Z) (count : nat)
    (s : string) : option (Z * nat * string) :=
  match s with
  | "" => Some (result, count, s)
  | String c rest =>
      match to_digit radix c with
      | None => Some (result, count, s)
      | Some digit =>
          match max_digits with
          | Some limit =>
              if (limit <? S count)%nat then None
              else read_digits radix max_digits max (result * radix + digit)%Z (S count) rest
          | None =>
              result ← checked_add max (result * radix)%Z digit;
              read_digits radix max_digits max result (S count) rest
          end
      end
  end.

(** [max] is the largest value of the type read. *)
Definition read_number (radix : Z) (max_digits : option nat) (allow_zero_prefix : bool) (max : Z)
  : reader Z := fun s =>
  r ← read_digits radix max_digits max 0 0 s;
  let '(result, count, rest) := r in
  let has_leading_zero := match s with String c _ => bool_decide (c = "0"%char) | "" => false end in
  if (count =? 0)%nat then None
  else if negb allow_zero_prefix && has_leading_zero && (1 <? count)%nat then None
  else if (result <=? max)%Z then Some (result, rest) else None.

Definition u8_max : Z := 255.
Definition u16_max : Z := 65535.

Fixpoint read_octets (remaining index : nat) : reader (list Z) := fun s =>
  match remaining with
  | O => Some ([], s)
  | S remaining =>
      r ← read_separator "." index (read_number 10 (Some 3) false u8_max) s;
      rs ← read_octets remaining (S index) r.2;
      Some (r.1 :: rs.1, rs.2)
  end.

Definition read_ipv4_addr : reader (list Z) := read_octets 4 0.

Definition u16_pairs (octets : list Z) : list Z :=
  match octets with
  | [one; two; three; four] => [one * 256 + two; three * 256 + four]%Z
  | _ => []
  end.

(** Up to [remaining] groups, the last two possibly as a dotted address, which the flag tells. *)
Fixpoint read_groups (remaining index : nat) (s : string) : list Z * bool * string :=
  match remaining with
  | O => ([], false, s)
  | S remaining =>
      match (if (0 <? remaining)%nat then read_separator ":" index read_ipv4_addr s else None) with
      | Some (octets, rest) => (u16_pairs octets, true, rest)
      | None =>
          match read_separator ":" index (read_number 16 (Some 4) true u16_max) s with
          | Some (group, rest) =>
              let '(groups, ipv4, rest) := read_groups remaining (S index) rest in
              (group :: groups, ipv4, rest)
          | None => ([], false, s)
          end
      end
  end.

Definition read_ipv6_addr : reader (list Z) := fun s =>
  let '(head, head_ipv4, rest) := read_groups 8 0 s in
  if (length head =? 8)%nat then Some (head, rest)
  else if head_ipv4 then None
  else
    r ← read_given_char ":" rest;
    r ← read_given_char ":" r.2;
    let '(tail, _, rest) := read_groups (8 - (length head + 1)) 0 r.2 in
    Some ((head ++ replicate (8 - length head - length tail) 0%Z ++ tail)%list, rest).

Definition read_port : reader Z := fun s =>
  r ← read_given_char ":" s; read_number 10 None true u16_max r.2.

Definition read_scope_id : reader Z := fun s =>
  r ← read_given_char "%" s; read_number 10 None true u32_max r.2.

Definition read_socket_addr_v4 : reader SocketAddr := fun s =>
  ip ← read_ipv4_addr s;
  port ← read_port ip.2;
  Some (SocketV4 ip.1 port.1, port.2).

Definition read_socket_addr_v6 : reader SocketAddr := fun s =>
  r ← read_given_char "[" s;
  ip ← read_ipv6_addr r.2;
  let '(scope_id, rest) := match read_scope_id ip.2 with Some r => r | None => (0%Z, ip.2) end in
  r ← read_given_char "]" rest;
  port ← read_port r.2;
  Some (SocketV6 ip.1 port.1 scope_id, port.2).

Definition parse_socket_addr (s : string) : option SocketAddr :=
  r ← match read_socket_addr_v4 s with
      | Some r => Some r
      | None => read_socket_addr_v6 s
      end;
  if bool_decide (r.2 = "") then Some r.1 else None.

Definition ip (a : SocketAddr) : IpAddr :=
  match a with SocketV4 o _ => V4 o | SocketV6 g _ _ => V6 g end.

Definition port (a : SocketAddr) : Z :=
  match a with SocketV4 _ p => p | SocketV6 _ p _ => p end.

Definition is_loopback (a : IpAddr) : bool :=
  match a with
  | V4 octets => bool_decide (head octets = Some 127%Z)
  | V6 segments => bool_decide (segments = [0; 0; 0; 0; 0; 0; 0; 1]%Z)
  end.

(** * [str::trim] *)

(** The characters with the Unicode property [White_Space]. *)
Definition is_whitespace (c : Z) : bool :=
  ((9 <=? c) && (c <=? 13) || (c =? 32) || (c =? 133) || (c =? 160) || (c =? 5760)
   || (8192 <=? c) && (c <=? 8202) || (c =? 8232) || (c =? 8233) || (c =? 8239)
   || (c =? 8287) || (c =? 12288))%Z.

Fixpoint drop_whitespace (cs : list Z) : list Z :=
  match cs with
  | [] => []
  | c :: rest => if is_whitespace c then drop_whitespace rest else cs
  end.

Definition trimmed (s : string) : list Z :=
  rev (drop_whitespace (rev (drop_whitespace (chars s)))).

(** * The configuration *)

Record AdminConfig := mk_admin { listen_address : SocketAddr }.
Record StorageConfig := mk_storage { database_url : option string }.
Record BusConfig := mk_bus { bus_url : string; nkey_seed_path : option string }.

Record PublicResolutionConfig := mk_public_resolution {
  oembed_endpoint : string;
  raw_object_root : option string;
  max_attempts : Z;
  batch_size : Z;
  poll_interval_ms : Z;
}.

Record TombstoneConfig := mk_tombstone { resend_after_seconds : Z; resend_cap_seconds : Z }.
Record TelemetryConfig := mk_telemetry { log_filter : string }.

Record Limits := mk_limits {
  database_connections : Z;
  database_acquire_timeout_ms : Z;
  shutdown_timeout_ms : Z;
}.

Record Config := mk_config {
  admin : AdminConfig;
  storage : StorageConfig;
  bus : BusConfig;
  public_resolution : PublicResolutionConfig;
  tombstone : TombstoneConfig;
  telemetry : TelemetryConfig;
  limits : Limits;
}.

Definition resend_policy (t : TombstoneConfig) : RemovalAck.ResendPolicy :=
  RemovalAck.mk_resend_policy (Schema.seconds (resend_after_seconds t))
    (Schema.seconds (resend_cap_seconds t)).

Definition default_config : Config :=
  mk_config
    (mk_admin (SocketV4 [127; 0; 0; 1]%Z 9084))
    (mk_storage None)
    (mk_bus "" None)
    (mk_public_resolution "https://graph.threads.com/oembed" None 5 8 2000)
    (mk_tombstone 600 21600)
    (mk_telemetry "info")
    (mk_limits 8 5000 10000).

Record Violation := mk_violation { vi_key : string; vi_rule : string }.

#[global] Instance Violation_eq_dec : EqDecision Violation.
Proof. solve_decision. Defined.

(** [ConfigError]: its violations. *)
Definition ConfigError := list Violation.

Definition newline : string := String (ascii_of_nat 10) "".

(** [Display for ConfigError]. *)
Definition display (e : ConfigError) : string :=
  foldl (fun text v => text +:+ newline +:+ "  " +:+ vi_key v +:+ " " +:+ vi_rule v)
    "configuration is invalid" e.

Definition ENV_PREFIX : string := "RATATOSKR__".
Definition RAW_OBJECT_ROOT_KEY : string := "RATATOSKR__PUBLIC_RESOLUTION__RAW_OBJECT_ROOT".
Definition RESEND_AFTER_KEY : string := "RATATOSKR__TOMBSTONE__RESEND_AFTER_SECONDS".
Definition RESEND_CAP_KEY : string := "RATATOSKR__TOMBSTONE__RESEND_CAP_SECONDS".
Definition BUS_URL_KEY : string := "RATATOSKR__BUS__URL".

(** * The assignments of [apply_entry] *)

Definition set_listen_address (x : SocketAddr) (c : Config) : Config :=
  mk_config (mk_admin x) (storage c) (bus c) (public_resolution c) (tombstone c) (telemetry c) (limits c).
Definition set_database_url (x : option string) (c : Config) : Config :=
  mk_config (admin c) (mk_storage x) (bus c) (public_resolution c) (tombstone c) (telemetry c) (limits c).
Definition set_bus (x : BusConfig) (c : Config) : Config :=
  mk_config (admin c) (storage c) x (public_resolution c) (tombstone c) (telemetry c) (limits c).
Definition set_public_resolution (x : PublicResolutionConfig) (c : Config) : Config :=
  mk_config (admin c) (storage c) (bus c) x (tombstone c) (telemetry c) (limits c).
Definition set_tombstone (x : TombstoneConfig) (c : Config) : Config :=
  mk_config (admin c) (storage c) (bus c) (public_resolution c) x (telemetry c) (limits c).
Definition set_log_filter (x : string) (c : Config) : Config :=
  mk_config (admin c) (storage c) (bus c) (public_resolution c) (tombstone c) (mk_telemetry x) (limits c).
Definition set_limits (x : Limits) (c : Config) : Config :=
  mk_config (admin c) (storage c) (bus c) (public_resolution c) (tombstone c) (telemetry c) x.

Definition set_bus_url (x : string) (c : Config) : Config :=
  set_bus (mk_bus x (nkey_seed_path (bus c))) c.
Definition set_nkey_seed_path (x : option string) (c : Config) : Config :=
  set_bus (mk_bus (bus_url (bus c)) x) c.

Definition set_oembed_endpoint (x : string) (c : Config) : Config :=
  let p := public_resolution c in
  set_public_resolution (mk_public_resolution x (raw_object_root p) (max_attempts p) (batch_size p)
    (poll_interval_ms p)) c.
Definition set_raw_object_root (x : option string) (c : Config) : Config :=
  let p := public_resolution c in
  set_public_resolution (mk_public_resolution (oembed_endpoint p) x (max_attempts p) (batch_size p)
    (poll_interval_ms p)) c.
Definition set_max_attempts (x : Z) (c : Config) : Config :=
  let p := public_resolution c in
  set_public_resolution (mk_public_resolution (oembed_endpoint p) (raw_object_root p) x (batch_size p)
    (poll_interval_ms p)) c.
Definition set_batch_size (x : Z) (c : Config) : Config :=
  let p := public_resolution c in
  set_public_resolution (mk_public_resolution (oembed_endpoint p) (raw_object_root p) (max_attempts p) x
    (poll_interval_ms p)) c.
Definition set_poll_interval_ms (x : Z) (c : Config) : Config :=
  let p := public_resolution c in
  set_public_resolution (mk_public_resolution (oembed_endpoint p) (raw_object_root p) (max_attempts p)
    (batch_size p) x) c.

Definition set_resend_after_seconds (x : Z) (c : Config) : Config :=
  set_tombstone (mk_tombstone x (resend_cap_seconds (tombstone c))) c.
Definition set_resend_cap_seconds (x : Z) (c : Config) : Config :=
  set_tombstone (mk_tombstone (resend_after_seconds (tombstone c)) x) c.

Definition set_database_connections (x : Z) (c : Config) : Config :=
  set_limits (mk_limits x (database_acquire_timeout_ms (limits c)) (shutdown_timeout_ms (limits c))) c.
Definition set_database_acquire_timeout_ms (x : Z) (c : Config) : Config :=
  set_limits (mk_limits (database_connections (limits c)) x (shutdown_timeout_ms (limits c))) c.
Definition set_shutdown_timeout_ms (x : Z) (c : Config) : Config :=
  set_limits (mk_limits (database_connections (limits c)) (database_acquire_timeout_ms (limits c)) x) c.

(** * The rules *)

Definition valid_bus_url (value : string) : bool :=
  (starts_with "nats://" value || starts_with "tls://" value)
  && negb (contains "@" value)
  && (String.length value <=? 2048)%nat.

Definition parse_in_range (value : string) (lowest highest : Z) : option Z :=
  parsed ← parse_unsigned u64_max value;
  if ((lowest <=? parsed) && (parsed <=? highest))%Z then Some parsed else None.

Definition parse_positive (max : Z) (value : string) : Result string Z :=
  (let? parsed := ok_or (parse_unsigned max value) "must be a positive integer" in
   if (parsed <=? 0)%Z then Err "must be a positive integer" else Ok parsed)%rust.

(** [Path::is_absolute] on the service's platform. *)
Definition is_absolute (path : string) : bool := starts_with "/" path.

(** The driver's [PgConnectOptions::from_str]: whether it accepts the text. *)
Class PgUrl := { pg_options_ok : string -> bool }.

Section Loading.
Context {Hweb : Web} {Hpg : PgUrl}.

Definition parse_listen_address (value : string) : Result string SocketAddr :=
  match parse_socket_addr value with
  | Some address =>
      if is_loopback (ip address) && negb (port address =? 0)%Z then Ok address
      else Err "must be a loopback address with a port"
  | None => Err "must be a socket address"
  end.

(** A value held to a condition. *)
Definition guarded {A} (ok : bool) (x : A) (rule : string) : Result string A :=
  if ok then Ok x else Err rule.

Definition parse_database_url (value : string) : Result string (option string) :=
  guarded (pg_options_ok value) (Some value)
    "must be a PostgreSQL connection URL naming user, password, host, and database".

Definition parse_bus_url (value : string) : Result string string :=
  guarded (valid_bus_url value) value "must be a credential-free nats:// or tls:// URL".

Definition parse_nkey_seed_path (value : string) : Result string (option string) :=
  guarded (is_absolute value) (Some value) "must be an absolute path to a readable nkey seed".

Definition parse_oembed_endpoint (value : string) : Result string string :=
  guarded (is_approved_endpoint value) value "must be an approved https Threads oEmbed endpoint".

Definition parse_raw_object_root (value : string) : Result string (option string) :=
  guarded (is_absolute value) (Some value) "must be an absolute directory path".

Definition parse_resend_after (value : string) : Result string Z :=
  ok_or (parse_in_range value 30 86400) "must be between 30 and 86400 seconds".

Definition parse_resend_cap (value : string) : Result string Z :=
  ok_or (parse_in_range value 1 604800) "must be at most 604800 seconds".

Definition parse_log_filter (value : string) : Result string string :=
  guarded (negb (bool_decide (trimmed value = []))) value "must be a non-empty tracing filter expression".

(** What the arm of a key does with a value: the assignment it makes, or the rule it reports. *)
Definition arm {A} (parse : string -> Result string A) (set : A -> Config -> Config) (value : string)
  : Result string (Config -> Config) :=
  (let? x := parse value in Ok (set x))%rust.

(** The arms of [apply_entry]'s match, in order. *)
Definition arms : list (string * (string -> Result string (Config -> Config))) :=
  [ ("RATATOSKR__ADMIN__LISTEN_ADDRESS", arm parse_listen_address set_listen_address);
    ("RATATOSKR__STORAGE__DATABASE_URL", arm parse_database_url set_database_url);
    (BUS_URL_KEY, arm parse_bus_url set_bus_url);
    ("RATATOSKR__BUS__NKEY_SEED_PATH", arm parse_nkey_seed_path set_nkey_seed_path);
    ("RATATOSKR__PUBLIC_RESOLUTION__OEMBED_ENDPOINT", arm parse_oembed_endpoint set_oembed_endpoint);
    (RAW_OBJECT_ROOT_KEY, arm parse_raw_object_root set_raw_object_root);
    ("RATATOSKR__PUBLIC_RESOLUTION__MAX_ATTEMPTS", arm (parse_positive u32_max) set_max_attempts);
    ("RATATOSKR__PUBLIC_RESOLUTION__BATCH_SIZE", arm (parse_positive u32_max) set_batch_size);
    ("RATATOSKR__PUBLIC_RESOLUTION__POLL_INTERVAL_MS", arm (parse_positive u64_max) set_poll_interval_ms);
    (RESEND_AFTER_KEY, arm parse_resend_after set_resend_after_seconds);
    (RESEND_CAP_KEY, arm parse_resend_cap set_resend_cap_seconds);
    ("RATATOSKR__TELEMETRY__LOG_FILTER", arm parse_log_filter set_log_filter);
    ("RATATOSKR__LIMITS__DATABASE_CONNECTIONS", arm (parse_positive u32_max) set_database_connections);
    ("RATATOSKR__LIMITS__DATABASE_ACQUIRE_TIMEOUT_MS",
      arm (parse_positive u64_max) set_database_acquire_timeout_ms);
    ("RATATOSKR__LIMITS__SHUTDOWN_TIMEOUT_MS", arm (parse_positive u64_max) set_shutdown_timeout_ms) ].

(** The first arm whose literal is the key; the last arm reports any other key. *)
Fixpoint match_key (table : list (string * (string -> Result string (Config -> Config))))
    (key value : string) : Result string (Config -> Config) :=
  match table with
  | [] => Err "is not recognized"
  | (literal, body) :: table =>
      if bool_decide (key = literal) then body value else match_key table key value
  end.

Definition apply_entry (state : Config * list Violation) (key value : string)
  : Config * list Violation :=
  match match_key arms key value with
  | Ok assign => (assign state.1, state.2)
  | Err rule => (state.1, (state.2 ++ [mk_violation key rule])%list)
  end.

(** The loop over the entries. *)
Definition apply_entries (entries : list (string * string)) (state : Config * list Violation)
  : Config * list Violation :=
  foldl (fun state e => if negb (starts_with ENV_PREFIX e.1) then state else apply_entry state e.1 e.2)
    state entries.

Definition reported (violations : list Violation) (key : string) : bool :=
  existsb (fun v => bool_decide (vi_key v = key)) violations.

(** The requirement on the bus and the evidence directory. *)
Definition require_bus (c : Config) (violations : list Violation) : list Violation :=
  if bool_decide (bus_url (bus c) = "")
  then [mk_violation BUS_URL_KEY "is required for the Threads command consumer"]
  else if bool_decide (raw_object_root (public_resolution c) = None)
          && negb (reported violations RAW_OBJECT_ROOT_KEY)
  then [mk_violation RAW_OBJECT_ROOT_KEY "is required when the bus is configured"]
  else [].

(** The comparison of the two delays. *)
Definition require_cap (c : Config) (violations : list Violation) : list Violation :=
  if (resend_cap_seconds (tombstone c) <? resend_after_seconds (tombstone c))%Z
     && negb (reported violations RESEND_CAP_KEY || reported violations RESEND_AFTER_KEY)
  then [mk_violation RESEND_CAP_KEY "must be at least the resend delay"]
  else [].

Definition from_environment (entries : list (string * string)) : Result ConfigError Config :=
  let '(c, violations) := apply_entries entries (default_config, []) in
  let violations := (violations ++ require_bus c violations)%list in
  let violations := (violations ++ require_cap c violations)%list in
  match violations with
  | [] => Ok c
  | _ => Err violations
  end.

(** The loop of [load] over the process environment, whose keys and values are any bytes. *)
Fixpoint prefixed_entries (vars : list (string * string)) : Result ConfigError (list (string * string)) :=
  match vars with
  | [] => Ok []
  | (key, value) :: vars =>
      if negb (valid_utf8 key) then prefixed_entries vars
      else if negb (starts_with ENV_PREFIX key) then prefixed_entries vars
      else if negb (valid_utf8 value) then Err [mk_violation key "must contain Unicode text"]
      else (let? entries := prefixed_entries vars in Ok ((key, value) :: entries))%rust
  end.

Definition load (vars : list (string * string)) : Result ConfigError Config :=
  (let? entries := prefixed_entries vars in from_environment entries)%rust.

(** * What an accepted configuration satisfies *)

Definition bounded (lowest highest x : Z) : Prop := (lowest <= x <= highest)%Z.

Definition socket_wf (a : SocketAddr) : Prop :=
  match a with
  | SocketV4 octets port => length octets = 4 /\ Forall (bounded 0 255) octets /\ bounded 0 65535 port
  | SocketV6 segments port scope_id =>
      length segments = 8 /\ Forall (bounded 0 65535) segments /\ bounded 0 65535 port
      /\ bounded 0 u32_max scope_id
  end.

(** What every assignment keeps, before the requirements are checked. *)
Record fields_ok (c : Config) : Prop := {
  ok_listen : let a := listen_address (admin c) in
    socket_wf a /\ is_loopback (ip a) = true /\ port a <> 0%Z;
  ok_database_url : forall u, database_url (storage c) = Some u -> pg_options_ok u = true;
  ok_bus_url : bus_url (bus c) = "" \/ valid_bus_url (bus_url (bus c)) = true;
  ok_nkey : forall p, nkey_seed_path (bus c) = Some p -> is_absolute p = true;
  ok_endpoint : let u := oembed_endpoint (public_resolution c) in
    u = oembed_endpoint (public_resolution default_config) \/ is_approved_endpoint u = true;
  ok_raw_root : forall p, raw_object_root (public_resolution c) = Some p -> is_absolute p = true;
  ok_max_attempts : bounded 1 u32_max (max_attempts (public_resolution c));
  ok_batch_size : bounded 1 u32_max (batch_size (public_resolution c));
  ok_poll_interval : bounded 1 u64_max (poll_interval_ms (public_resolution c));
  ok_resend_after : bounded 30 86400 (resend_after_seconds (tombstone c));
  ok_resend_cap : bounded 1 604800 (resend_cap_seconds (tombstone c));
  ok_log_filter : trimmed (log_filter (telemetry c)) <> [];
  ok_connections : bounded 1 u32_max (database_connections (limits c));
  ok_acquire_timeout : bounded 1 u64_max (database_acquire_timeout_ms (limits c));
  ok_shutdown_timeout : bounded 1 u64_max (shutdown_timeout_ms (limits c));
}.

Record well_formed (c : Config) : Prop := {
  wf_fields : fields_ok c;
  wf_bus : valid_bus_url (bus_url (bus c)) = true;
  wf_raw_root : exists p, raw_object_root (public_resolution c) = Some p /\ is_absolute p = true;
  wf_resend : (resend_after_seconds (tombstone c) <= resend_cap_seconds (tombstone c))%Z;
}.

(** * A reference definition of the result *)

(** The value an entry gives to the field of a key. *)
Definition accepted {A} (key : string) (parse : string -> Result string A) (e : string * string)
  : option A :=
  if bool_decide (e.1 = key) then match parse e.2 with Ok x => Some x | Err _ => None end else None.

(** A field: the last value an entry gave it, its default without one. *)
Definition field {A} (key : string) (parse : string -> Result string A) (start : A)
    (entries : list (string * string)) : A :=
  default start (last (omap (accepted key parse) entries)).

Definition config_of (entries : list (string * string)) : Config :=
  mk_config
    (mk_admin (field "RATATOSKR__ADMIN__LISTEN_ADDRESS" parse_listen_address
      (SocketV4 [127; 0; 0; 1]%Z 9084) entries))
    (mk_storage (field "RATATOSKR__STORAGE__DATABASE_URL" parse_database_url None entries))
    (mk_bus (field BUS_URL_KEY parse_bus_url "" entries)
      (field "RATATOSKR__BUS__NKEY_SEED_PATH" parse_nkey_seed_path None entries))
    (mk_public_resolution
      (field "RATATOSKR__PUBLIC_RESOLUTION__OEMBED_ENDPOINT" parse_oembed_endpoint
        "https://graph.threads.com/oembed" entries)
      (field RAW_OBJECT_ROOT_KEY parse_raw_object_root None entries)
      (field "RATATOSKR__PUBLIC_RESOLUTION__MAX_ATTEMPTS" (parse_positive u32_max) 5%Z entries)
      (field "RATATOSKR__PUBLIC_RESOLUTION__BATCH_SIZE" (parse_positive u32_max) 8%Z entries)
      (field "RATATOSKR__PUBLIC_RESOLUTION__POLL_INTERVAL_MS" (parse_positive u64_max) 2000%Z entries))
    (mk_tombstone (field RESEND_AFTER_KEY parse_resend_after 600%Z entries)
      (field RESEND_CAP_KEY parse_resend_cap 21600%Z entries))
    (mk_telemetry (field "RATATOSKR__TELEMETRY__LOG_FILTER" parse_log_filter "info" entries))
    (mk_limits (field "RATATOSKR__LIMITS__DATABASE_CONNECTIONS" (parse_positive u32_max) 8%Z entries)
      (field "RATATOSKR__LIMITS__DATABASE_ACQUIRE_TIMEOUT_MS" (parse_positive u64_max) 5000%Z entries)
      (field "RATATOSKR__LIMITS__SHUTDOWN_TIMEOUT_MS" (parse_positive u64_max) 10000%Z entries)).

(** What one entry is reported for, whatever the others are. *)
Definition refusal (e : string * string) : list Violation :=
  if starts_with ENV_PREFIX e.1 then
    match match_key arms e.1 e.2 with
    | Ok _ => []
    | Err rule => [mk_violation e.1 rule]
    end
  else [].

Definition refusals (entries : list (string * string)) : list Violation := entries ≫= refusal.

(** Every violation of an environment. *)
Definition report (entries : list (string * string)) : list Violation :=
  let c := config_of entries in
  let violations := (refusals entries ++ require_bus c (refusals entries))%list in
  (violations ++ require_cap c violations)%list.

(** * The readers *)

Lemma to_digit_range radix c d : to_digit radix c = Some d -> (0 <= d < radix)%Z.
Proof.
  unfold to_digit, is_ascii_digit, in_range. pose proof (byte_val_range c) as Hb.
  change (byte_val "0") with 48%Z. change (byte_val "9") with 57%Z.
  change (byte_val "a") with 97%Z. change (byte_val "z") with 122%Z.
  change (byte_val "A") with 65%Z. change (byte_val "Z") with 90%Z.
  repeat case_match; intros; simplify_eq; lia.
Qed.

Lemma digits_value_range max s : forall acc x,
  (0 <= acc <= max)%Z -> digits_value max acc s = Some x -> (0 <= x <= max)%Z.
Proof.
  induction s as [|c s IH]; intros acc x Hacc; simpl; [naive_solver|].
  destruct (to_digit 10 c) as [d|] eqn:Hd; [simpl|done]. apply to_digit_range in Hd.
  destruct (checked_add _ _ _) as [acc'|] eqn:Ha; [simpl|done].
  apply checked_add_Some in Ha. intros H. eapply IH; [|exact H]. lia.
Qed.

Lemma parse_unsigned_range max s x :
  (0 <= max)%Z -> parse_unsigned max s = Some x -> (0 <= x <= max)%Z.
Proof.
  intros Hm. destruct s as [|c [|c' s]]; cbn -[digits_value bool_decide]; [done| |];
    [|case_match]; apply digits_value_range; lia.
Qed.

Lemma read_digits_nonneg radix limit max s : (0 <= radix)%Z -> forall result count x n rest,
  (0 <= result)%Z -> read_digits radix limit max result count s = Some (x, n, rest) -> (0 <= x)%Z.
Proof.
  intros Hr. induction s as [|c s IH]; intros result count x n rest Hres; simpl; [naive_solver|].
  destruct (to_digit radix c) as [d|] eqn:Hd; [|naive_solver]. apply to_digit_range in Hd.
  destruct limit as [l|].
  - case_match; [done|]. apply IH. lia.
  - destruct (checked_add _ _ _) as [r|] eqn:Ha; [simpl|done].
    apply checked_add_Some in Ha. apply IH. lia.
Qed.

Lemma read_number_range radix limit zero max s x rest :
  (0 <= radix)%Z -> read_number radix limit zero max s = Some (x, rest) -> bounded 0 max x.
Proof.
  intros Hr. unfold read_number.
  destruct (read_digits _ _ _ _ _ _) as [[[y n] r]|] eqn:Hd; [simpl|done].
  apply read_digits_nonneg in Hd; [|done|lia]. unfold bounded.
  repeat case_match; intros; simplify_eq; lia.
Qed.

Lemma read_separator_Some {A} sep index (inner : reader A) s r :
  read_separator sep index inner s = Some r -> exists s', inner s' = Some r.
Proof.
  unfold read_separator. case_match; [|eauto].
  destruct (read_given_char sep s) as [[]|]; simpl; [eauto|done].
Qed.

Lemma read_octets_wf n : forall index s os rest,
  read_octets n index s = Some (os, rest) -> length os = n /\ Forall (bounded 0 255) os.
Proof.
  induction n as [|n IH]; intros index s os rest; simpl; [naive_solver|].
  destruct (read_separator _ _ _ _) as [[x s1]|] eqn:Hx; [simpl|done].
  destruct (read_octets n _ _) as [[xs s2]|] eqn:Hxs; [simpl|done].
  intros [= <- <-]. apply IH in Hxs as [<- Hall].
  apply read_separator_Some in Hx as [s' Hx]. apply read_number_range in Hx; [|lia].
  by split; [|constructor].
Qed.

Lemma u16_pairs_wf os : length os = 4 -> Forall (bounded 0 255) os ->
  length (u16_pairs os) = 2 /\ Forall (bounded 0 65535) (u16_pairs os).
Proof.
  destruct os as [|a [|b [|c [|d []]]]]; try done. intros _.
  rewrite !Forall_cons. unfold bounded. intros (? & ? & ? & ? & _). simpl.
  repeat constructor; lia.
Qed.

Lemma read_groups_wf n : forall index s gs v4 rest,
  read_groups n index s = (gs, v4, rest) -> length gs <= n /\ Forall (bounded 0 65535) gs.
Proof.
  induction n as [|n IH]; intros index s gs v4 rest; simpl; [naive_solver|].
  destruct (if (0 <? n)%nat then _ else None) as [[os r]|] eqn:Hv4.
  - case_match eqn:Hn; [|done]. apply Nat.ltb_lt in Hn. intros [= <- <- <-].
    apply read_separator_Some in Hv4 as [s' Hv4]. apply read_octets_wf in Hv4 as [Hl Hall].
    apply u16_pairs_wf in Hall as [-> Hp]; [|done]. split; [lia|done].
  - clear Hv4. destruct (read_separator _ _ _ _) as [[g r]|] eqn:Hg;
      [|intros ?; simplify_eq; split; [simpl; lia|done]].
    destruct (read_groups n _ _) as [[gs' v4'] r'] eqn:Hgs. intros [= <- <- <-].
    apply IH in Hgs as [Hl Hall]. apply read_separator_Some in Hg as [s' Hg].
    apply read_number_range in Hg; [|lia]. split; [simpl; lia|by constructor].
Qed.

Lemma read_ipv6_addr_wf s gs rest :
  read_ipv6_addr s = Some (gs, rest) -> length gs = 8 /\ Forall (bounded 0 65535) gs.
Proof.
  unfold read_ipv6_addr. destruct (read_groups 8 0 s) as [[hs v4] r] eqn:Hh.
  apply read_groups_wf in Hh as [Hl Hh]. case_match eqn:H8.
  { apply Nat.eqb_eq in H8. by intros [= <- <-]. }
  apply Nat.eqb_neq in H8. case_match; [done|].
  destruct (read_given_char ":" r) as [[[] r1]|]; [simpl|done].
  destruct (read_given_char ":" r1) as [[[] r2]|]; [cbn -[read_groups replicate]|done].
  destruct (read_groups _ 0 r2) as [[ts tv4] r3] eqn:Ht. intros [= <- <-].
  apply read_groups_wf in Ht as [Hlt Ht]. split.
  - rewrite !length_app, length_replicate. lia.
  - rewrite !Forall_app. split_and!; [done| |done]. apply Forall_replicate. split; lia.
Qed.

Lemma read_port_range s p rest : read_port s = Some (p, rest) -> bounded 0 65535 p.
Proof.
  unfold read_port. destruct (read_given_char _ _) as [[]|]; [simpl|done].
  apply read_number_range. lia.
Qed.

Lemma parse_socket_addr_wf s a : parse_socket_addr s = Some a -> socket_wf a.
Proof.
  unfold parse_socket_addr. destruct (read_socket_addr_v4 s) as [[a4 r4]|] eqn:H4; simpl.
  - case_bool_decide; [|done]. intros [= <-]. revert H4. unfold read_socket_addr_v4.
    destruct (read_ipv4_addr s) as [[os r]|] eqn:Ho; [simpl|done].
    destruct (read_port r) as [[p r']|] eqn:Hp; [simpl|done]. intros [= <- _].
    apply read_octets_wf in Ho as [? ?]. by apply read_port_range in Hp.
  - destruct (read_socket_addr_v6 s) as [[a6 r6]|] eqn:H6; simpl; [|done].
    case_bool_decide; [|done]. intros [= <-]. revert H6. unfold read_socket_addr_v6.
    destruct (read_given_char _ s) as [[[] s1]|]; [simpl|done].
    destruct (read_ipv6_addr s1) as [[gs s2]|] eqn:Hg; [simpl|done].
    destruct (match read_scope_id s2 with Some r => r | None => (0%Z, s2) end) as [sc s3] eqn:Hsc.
    destruct (read_given_char _ s3) as [[[] s4]|]; [simpl|done].
    destruct (read_port s4) as [[p r']|] eqn:Hp; [simpl|done]. intros [= <- _].
    apply read_ipv6_addr_wf in Hg as [? ?]. apply read_port_range in Hp. split_and!; [done..|].
    unfold read_scope_id in Hsc.
    destruct (read_given_char _ s2) as [[[] s5]|]; simpl in Hsc;
      [|simplify_eq; unfold bounded, u32_max; lia].
    destruct (read_number _ _ _ _ s5) as [[x s6]|] eqn:Hx; simplify_eq; [|unfold bounded, u32_max; lia].
    apply read_number_range in Hx; [done|lia].
Qed.

(** * The rules *)

Lemma guarded_Ok {A} ok (x y : A) rule : guarded ok x rule = Ok y -> ok = true /\ y = x.
Proof. unfold guarded. destruct ok; naive_solver. Qed.

Lemma parse_positive_range max value x :
  (0 <= max)%Z -> parse_positive max value = Ok x -> bounded 1 max x.
Proof.
  intros Hm. unfold parse_positive, bounded.
  destruct (parse_unsigned max value) as [y|] eqn:Hy; simpl; [|done].
  apply parse_unsigned_range in Hy; [|done]. case_match; intros; simplify_eq; lia.
Qed.

Lemma parse_in_range_range value lowest highest (rule : string) x :
  ok_or (parse_in_range value lowest highest) rule = Ok x -> bounded lowest highest x.
Proof.
  intros H. apply ok_or_Ok in H. revert H. unfold parse_in_range, bounded.
  destruct (parse_unsigned _ _) as [y|]; simpl; [|done]. case_match; intros; simplify_eq; lia.
Qed.

Lemma parse_listen_address_ok value a : parse_listen_address value = Ok a ->
  socket_wf a /\ is_loopback (ip a) = true /\ port a <> 0%Z.
Proof.
  unfold parse_listen_address. destruct (parse_socket_addr value) as [b|] eqn:Hb; [|done].
  apply parse_socket_addr_wf in Hb. case_match eqn:Hc; [|done]. intros [= <-].
  apply andb_true_iff in Hc as [? Hp%negb_true_iff%Z.eqb_neq]. done.
Qed.

(** A key is matched by one of the arms, or by none. *)
Lemma match_key_cases table key value r : match_key table key value = r ->
  (exists literal body, (literal, body) ∈ table /\ key = literal /\ body value = r)
  \/ ((key ∉ table.*1) /\ r = Err "is not recognized").
Proof.
  induction table as [|[l body] table IH]; cbn -[bool_decide].
  { intros <-. right. split; [apply not_elem_of_nil|done]. }
  case_bool_decide as Hk.
  - intros Hr. left. exists l, body. split; [by left|done].
  - intros [(l' & b' & ? & ? & ?)|[Hn ->]]%IH.
    + left. exists l', b'. split; [by right|done].
    + right. split; [|done]. rewrite not_elem_of_cons. done.
Qed.

Lemma arm_Ok {A} parse (set : A -> Config -> Config) value f :
  arm parse set value = Ok f -> exists x, parse value = Ok x /\ f = set x.
Proof. unfold arm. destruct (parse value); simpl; naive_solver. Qed.

Lemma assignment_fields_ok literal body value f c :
  (literal, body) ∈ arms -> body value = Ok f -> fields_ok c -> fields_ok (f c).
Proof.
  intros Hin Hb [].
  repeat (apply elem_of_cons in Hin as [[= -> ->]|Hin];
    [apply arm_Ok in Hb as (x & Hx & ->); constructor; try done; simpl|]).
  all: try by apply not_elem_of_nil in Hin.
  all: try by apply parse_listen_address_ok in Hx.
  all: try (by apply parse_positive_range in Hx; [|unfold u32_max, u64_max; lia]).
  all: try by apply parse_in_range_range in Hx.
  all: apply guarded_Ok in Hx as [Hok ->]; try (by intros ? [= <-]); auto.
  by apply negb_true_iff, bool_decide_eq_false in Hok.
Qed.

Lemma default_fields_ok : fields_ok default_config.
Proof.
  constructor; unfold bounded, u32_max, u64_max; simpl; try lia; try done; auto.
  split_and!; try done. repeat constructor; done.
Qed.

Lemma apply_entries_fields_ok entries : forall state,
  fields_ok state.1 -> fields_ok (apply_entries entries state).1.
Proof.
  induction entries as [|[k v] entries IH]; intros state Hok; [done|].
  unfold apply_entries. simpl. apply IH. case_match; [done|]. unfold apply_entry.
  destruct (match_key arms k v) as [f|rule] eqn:Hm; simpl; [|done].
  apply match_key_cases in Hm as [(l & b & Hin & _ & Hb)|[_ [=]]].
  by eapply assignment_fields_ok.
Qed.

(** * The reference definition *)

Lemma field_snoc {A} key parse (start : A) entries e :
  field key parse start (entries ++ [e]) = default (field key parse start entries) (accepted key parse e).
Proof.
  unfold field. rewrite omap_app. simpl. destruct (accepted key parse e) as [x|]; simpl.
  - by rewrite last_snoc.
  - by rewrite app_nil_r.
Qed.

Lemma accepted_other {A} key key' parse value : key' <> key -> @accepted A key parse (key', value) = None.
Proof. intros H. unfold accepted. by rewrite bool_decide_eq_false_2. Qed.

Lemma accepted_same {A} key parse value (x : A) :
  parse value = Ok x -> accepted key parse (key, value) = Some x.
Proof. intros H. unfold accepted. rewrite bool_decide_eq_true_2 by done. simpl. by rewrite H. Qed.

Lemma accepted_refused {A} key parse value rule :
  parse value = Err rule -> @accepted A key parse (key, value) = None.
Proof. intros H. unfold accepted. rewrite bool_decide_eq_true_2 by done. simpl. by rewrite H. Qed.

Lemma config_of_assigned entries literal body value f : (literal, body) ∈ arms -> body value = Ok f ->
  config_of (entries ++ [(literal, value)]) = f (config_of entries).
Proof.
  intros Hin Hb. unfold config_of. rewrite !field_snoc.
  repeat (apply elem_of_cons in Hin as [[= -> ->]|Hin];
    [apply arm_Ok in Hb as (x & Hx & ->); rewrite (accepted_same _ _ _ _ Hx);
     rewrite !accepted_other by done; reflexivity|]).
  by apply not_elem_of_nil in Hin.
Qed.

Lemma config_of_unchanged entries key value :
  key ∉ arms.*1 \/ (exists rule, match_key arms key value = Err rule) ->
  config_of (entries ++ [(key, value)]) = config_of entries.
Proof.
  intros Hkey. unfold config_of. rewrite !field_snoc.
  assert (forall literal A (parse : string -> Result string A) set,
    (literal, arm parse set) ∈ arms -> match_key arms literal value = arm parse set value ->
    accepted literal parse (key, value) = None) as Hnone.
  { intros literal A parse set Hin Hm. destruct (decide (key = literal)) as [->|Hne].
    - destruct Hkey as [Hn|[rule Hr]]; [destruct Hn; apply list_elem_of_fmap; by exists (literal, arm parse set)|].
      rewrite Hm in Hr. unfold arm in Hr. destruct (parse value) as [x|r] eqn:Hp; [done|].
      by eapply accepted_refused.
    - by apply accepted_other. }
  repeat (erewrite Hnone; [|by repeat (apply list_elem_of_here || apply list_elem_of_further)|done]).
  reflexivity.
Qed.

Lemma arms_prefixed : Forall (fun key => starts_with ENV_PREFIX key = true) arms.*1.
Proof. repeat constructor; done. Qed.

Lemma not_prefixed_unknown key : starts_with ENV_PREFIX key = false -> key ∉ arms.*1.
Proof.
  intros Hp Hin. pose proof arms_prefixed as Hall. rewrite Forall_forall in Hall.
  by rewrite (Hall _ Hin) in Hp.
Qed.

Lemma refusals_snoc entries e : refusals (entries ++ [e]) = (refusals entries ++ refusal e)%list.
Proof. unfold refusals. rewrite bind_app. f_equal. apply app_nil_r. Qed.

Lemma step_reference entries k v :
  (if negb (starts_with ENV_PREFIX k) then (config_of entries, refusals entries)
   else apply_entry (config_of entries, refusals entries) k v)
  = (config_of (entries ++ [(k, v)]), refusals (entries ++ [(k, v)])).
Proof.
  rewrite refusals_snoc. unfold refusal, apply_entry. cbn [fst snd].
  destruct (starts_with ENV_PREFIX k) eqn:Hp; cbn [negb].
  2: { rewrite config_of_unchanged, app_nil_r; [done|left]. by apply not_prefixed_unknown. }
  destruct (match_key arms k v) as [f|rule] eqn:Hm.
  - rewrite app_nil_r. apply match_key_cases in Hm as [(l & b & Hin & -> & Hb)|[_ [=]]].
    by rewrite (config_of_assigned _ _ _ _ _ Hin Hb).
  - rewrite config_of_unchanged; [done|right]. by exists rule.
Qed.

Lemma apply_entries_reference entries :
  apply_entries entries (default_config, []) = (config_of entries, refusals entries).
Proof.
  induction entries as [|[k v] entries IH] using rev_ind; [done|].
  unfold apply_entries. rewrite foldl_snoc. fold (apply_entries entries (default_config, [])).
  rewrite IH. apply step_reference.
Qed.

Lemma from_environment_report entries :
  from_environment entries = match report entries with [] => Ok (config_of entries) | vs => Err vs end.
Proof. unfold from_environment, report. rewrite apply_entries_reference. by destruct ((refusals _ ++ _) ++ _)%list. Qed.

(** * The order of the entries *)

Lemma omap_short {A} key parse entries : NoDup entries.*1 -> length (omap (@accepted A key parse) entries) <= 1.
Proof.
  intros Hnd. destruct (decide (key ∈ entries.*1)) as [Hin|Hout].
  - apply list_elem_of_fmap in Hin as ([k v] & -> & Hin).
    apply list_elem_of_split in Hin as (l1 & l2 & ->).
    rewrite fmap_app, fmap_cons in Hnd. apply NoDup_app in Hnd as (_ & Hl1 & Hl2).
    apply NoDup_cons in Hl2 as [Hl2 _].
    assert (forall l, k ∉ l.*1 -> omap (@accepted A k parse) l = []) as Hempty.
    { intros l Hl. induction l as [|[k' v'] l IHl]; [done|].
      rewrite fmap_cons, not_elem_of_cons in Hl. destruct Hl as [Hk Hl]. simpl.
      rewrite accepted_other by auto. by apply IHl. }
    rewrite omap_app, Hempty; [|intros Hk; apply (Hl1 _ Hk); left]. simpl.
    case_match; simpl; rewrite Hempty by done; simpl; lia.
  - replace (omap (@accepted A key parse) entries) with (@nil A); [simpl; lia|].
    induction entries as [|[k v] entries IH]; [done|].
    rewrite fmap_cons, not_elem_of_cons in Hout. destruct Hout as [Hk Hout]. simpl.
    rewrite accepted_other by auto. apply IH; [|done]. by apply NoDup_cons in Hnd as [_ ?].
Qed.

Lemma field_perm {A} key parse (start : A) entries entries' :
  entries ≡ₚ entries' -> NoDup entries.*1 -> field key parse start entries = field key parse start entries'.
Proof.
  intros Hp Hnd. unfold field. f_equal.
  assert (omap (accepted key parse) entries ≡ₚ omap (accepted key parse) entries') as Hom by by rewrite Hp.
  pose proof (omap_short key parse entries Hnd) as Hs.
  destruct (omap (accepted key parse) entries) as [|x [|]]; [..|simpl in Hs; lia].
  - by apply Permutation_nil_l in Hom as ->.
  - by apply Permutation_singleton_l in Hom as ->.
Qed.

Lemma config_of_perm entries entries' :
  entries ≡ₚ entries' -> NoDup entries.*1 -> config_of entries = config_of entries'.
Proof. intros Hp Hnd. unfold config_of. by rewrite !(field_perm _ _ _ _ _ Hp Hnd). Qed.

#[global] Instance reported_perm : Proper ((≡ₚ) ==> eq ==> eq) reported.
Proof.
  intros vs vs' Hvs k k' <-. apply eq_true_iff_eq. unfold reported.
  rewrite !existsb_exists. split; intros (v & Hv & Hk); exists v; split; try done; by rewrite Hvs + rewrite <- Hvs.
Qed.

#[global] Instance require_bus_perm c : Proper ((≡ₚ) ==> (≡ₚ)) (require_bus c).
Proof. intros vs vs' Hvs. unfold require_bus. by rewrite Hvs. Qed.

#[global] Instance require_cap_perm c : Proper ((≡ₚ) ==> (≡ₚ)) (require_cap c).
Proof. intros vs vs' Hvs. unfold require_cap. by rewrite Hvs. Qed.

Lemma report_perm entries entries' :
  entries ≡ₚ entries' -> NoDup entries.*1 -> report entries ≡ₚ report entries'.
Proof.
  intros Hp Hnd. unfold report. rewrite (config_of_perm _ _ Hp Hnd).
  assert (refusals entries ≡ₚ refusals entries') as Hr by (unfold refusals; by rewrite Hp).
  by rewrite Hr.
Qed.

Lemma reported_nil key : reported [] key = false.
Proof. done. Qed.

Lemma report_nil entries : report entries = [] ->
  bus_url (bus (config_of entries)) <> ""
  /\ raw_object_root (public_resolution (config_of entries)) <> None
  /\ (resend_after_seconds (tombstone (config_of entries))
      <= resend_cap_seconds (tombstone (config_of entries)))%Z.
Proof.
  unfold report. intros [[Hr Hb]%app_nil Hc]%app_nil.
  rewrite Hr in Hb, Hc. unfold require_cap in Hc. rewrite Hb in Hc. unfold require_bus in Hb.
  rewrite !reported_nil in *. case_bool_decide; [done|]. case_bool_decide; [done|].
  split_and!; [done..|]. case_match; [done|]. lia.
Qed.

Lemma config_of_well_formed entries : report entries = [] -> well_formed (config_of entries).
Proof.
  intros (Hb & Hr & Hc)%report_nil.
  pose proof (apply_entries_fields_ok entries (default_config, []) default_fields_ok) as Hok.
  rewrite apply_entries_reference in Hok. simpl in Hok. constructor; try done.
  - by destruct (ok_bus_url _ Hok).
  - destruct (raw_object_root _) as [p|] eqn:Hp; [|done]. exists p. split; [done|].
    by apply (ok_raw_root _ Hok).
Qed.

Lemma well_formed_schedule c n : well_formed c -> (0 <= n)%Z ->
  (Schema.seconds 30 <= RemovalAck.resend_delay (resend_policy (tombstone c)) n
   <= Schema.seconds 604800)%Z.
Proof.
  intros [Hok _ _ Hle] Hn. pose proof (ok_resend_after _ Hok) as [Ha _].
  pose proof (ok_resend_cap _ Hok) as [_ Hc]. unfold RemovalAck.resend_delay, Schema.seconds. simpl.
  unfold Schema.seconds. assert (1 <= 2 ^ Z.min n 30)%Z by (apply Z.lt_pred_le, Z.pow_pos_nonneg; lia).
  split; [|lia]. apply Z.min_glb; nia.
Qed.

(** The rules a report can name. *)
Definition RULES : list string :=
  [ "must be a loopback address with a port"; "must be a socket address";
    "must be a PostgreSQL connection URL naming user, password, host, and database";
    "must be a credential-free nats:// or tls:// URL";
    "must be an absolute path to a readable nkey seed";
    "must be an approved https Threads oEmbed endpoint"; "must be an absolute directory path";
    "must be a positive integer"; "must be between 30 and 86400 seconds";
    "must be at most 604800 seconds"; "must be a non-empty tracing filter expression";
    "is not recognized"; "is required for the Threads command consumer";
    "is required when the bus is configured"; "must be at least the resend delay" ].

Lemma match_key_rule key value rule : match_key arms key value = Err rule -> rule ∈ RULES.
Proof.
  intros [(l & b & Hin & _ & Hb)|[_ [= ->]]]%match_key_cases; [|apply (bool_decide_unpack _); done].
  assert (forall A (parse : string -> Result string A) set, b = arm parse set ->
    (forall r, parse value = Err r -> r ∈ RULES) -> rule ∈ RULES) as Hrule.
  { intros A parse set -> Hp. unfold arm in Hb. destruct (parse value) eqn:He; simplify_eq/=. eauto. }
  repeat (apply elem_of_cons in Hin as [[= -> ->]|Hin]; [eapply Hrule; [reflexivity|]|]).
  all: try by apply not_elem_of_nil in Hin.
  all: unfold parse_listen_address, parse_database_url, parse_bus_url, parse_nkey_seed_path,
    parse_oembed_endpoint, parse_raw_object_root, parse_positive, parse_resend_after, parse_resend_cap,
    parse_log_filter, guarded, ok_or, result_bind.
  all: intros r; repeat case_match; intros; simplify_eq; apply (bool_decide_unpack _); done.
Qed.

(** * Properties *)

(** [C21] A configuration that was accepted is well formed: the listener is a loopback address
    with octets or segments in range and a nonzero port, the database URL one the driver
    parses, the bus a credential-free URL, the seed and evidence paths absolute and the latter
    present, every count and timeout positive and within its integer type, and the two delays
    within their bounds and in order; so the schedule handed to the outbox pump keeps every
    delay between thirty seconds and a week, however often a removal was resent. *)
Theorem accepted_config_well_formed entries c : from_environment entries = Ok c ->
  well_formed c
  /\ forall n, (0 <= n)%Z ->
     (Schema.seconds 30 <= RemovalAck.resend_delay (resend_policy (tombstone c)) n
      <= Schema.seconds 604800)%Z.
Proof.
  rewrite from_environment_report. destruct (report entries) as [|v vs] eqn:Hr; [|done].
  intros [= <-]. apply config_of_well_formed in Hr as Hwf.
  split; [done|]. intros n Hn. by apply well_formed_schedule.
Qed.

(** ** The requirements, read off the entries *)

(** Some entry of this key has this property. *)
Definition some_entry (key : string) (p : string -> bool) (entries : list (string * string)) : bool :=
  existsb (fun e => bool_decide (e.1 = key) && p e.2) entries.

Definition out_of_range (lowest highest : Z) (value : string) : bool :=
  match parse_in_range value lowest highest with Some _ => false | None => true end.

(** A bus must be given; with one, the evidence directory must be named; and the cap of the resend
    schedule must not be below its first delay, as far as both were read. *)
Definition requirements (entries : list (string * string)) : list Violation :=
  (if negb (some_entry BUS_URL_KEY valid_bus_url entries)
   then [mk_violation BUS_URL_KEY "is required for the Threads command consumer"]
   else if negb (some_entry RAW_OBJECT_ROOT_KEY (fun _ => true) entries)
   then [mk_violation RAW_OBJECT_ROOT_KEY "is required when the bus is configured"]
   else [])
  ++ (if (field RESEND_CAP_KEY parse_resend_cap 21600 entries <? field RESEND_AFTER_KEY parse_resend_after 600 entries)%Z
         && negb (some_entry RESEND_CAP_KEY (out_of_range 1 604800) entries)
         && negb (some_entry RESEND_AFTER_KEY (out_of_range 30 86400) entries)
      then [mk_violation RESEND_CAP_KEY "must be at least the resend delay"]
      else []).

(** A key is reported for its entries exactly when one of them is refused. *)
Lemma reported_refusals key entries : starts_with ENV_PREFIX key = true ->
  reported (refusals entries) key
  = some_entry key (fun value => match match_key arms key value with Ok _ => false | Err _ => true end) entries.
Proof.
  intros Hkey. unfold reported, some_entry, refusals. induction entries as [|[k v] entries IH]; [done|].
  cbn [mbind list_bind existsb fst snd]. rewrite existsb_app, IH. f_equal. unfold refusal. cbn [fst snd].
  case_bool_decide as E; [subst k; rewrite Hkey|].
  - destruct (match_key arms key v); cbn; [done|]. by rewrite bool_decide_eq_true_2.
  - destruct (starts_with ENV_PREFIX k); [|done]. destruct (match_key arms k v); [done|]. cbn.
    by rewrite bool_decide_eq_false_2.
Qed.

Lemma some_entry_ext key p q entries : (forall v, p v = q v) -> some_entry key p entries = some_entry key q entries.
Proof. intros H. unfold some_entry. induction entries; cbn; [done|]. by rewrite H, IHentries. Qed.

(** A field is an accepted value of its key, or its default when no entry of the key is accepted. *)
Lemma field_cases {A} key (parse : string -> Result string A) start entries :
  (some_entry key (fun v => is_ok (parse v)) entries = false /\ field key parse start entries = start)
  \/ (some_entry key (fun v => is_ok (parse v)) entries = true
      /\ exists v, parse v = Ok (field key parse start entries)).
Proof.
  unfold field, some_entry. induction entries as [|[k v] entries IH] using rev_ind; [by left|].
  rewrite existsb_app, omap_app. cbn [existsb fst snd]. rewrite orb_false_r.
  assert (omap (accepted key parse) [(k, v)]
    = if bool_decide (k = key) && is_ok (parse v) then match parse v with Ok x => [x] | Err _ => [] end else []) as ->.
  { cbn. unfold accepted. cbn. case_bool_decide; [|done]. by destruct (parse v). }
  destruct (bool_decide (k = key)); cbn [andb]; [|by rewrite app_nil_r, orb_false_r].
  destruct (parse v) as [x|e] eqn:Ep; cbn [is_ok]; [|by rewrite app_nil_r, orb_false_r].
  right. rewrite orb_true_r, last_snoc. split; [done|]. by exists v.
Qed.

Lemma require_bus_exact entries : require_bus (config_of entries) (refusals entries)
  = if negb (some_entry BUS_URL_KEY valid_bus_url entries)
    then [mk_violation BUS_URL_KEY "is required for the Threads command consumer"]
    else if negb (some_entry RAW_OBJECT_ROOT_KEY (fun _ => true) entries)
    then [mk_violation RAW_OBJECT_ROOT_KEY "is required when the bus is configured"]
    else [].
Proof.
  unfold require_bus. rewrite reported_refusals by done. cbn [config_of bus bus_url public_resolution raw_object_root].
  rewrite (some_entry_ext BUS_URL_KEY valid_bus_url (fun v => is_ok (parse_bus_url v)))
    by (intros v; unfold parse_bus_url, guarded; by destruct (valid_bus_url v)).
  destruct (field_cases BUS_URL_KEY parse_bus_url "" entries) as [[-> ->]|[-> [v Hv]]]; [done|]. cbn [negb].
  rewrite bool_decide_eq_false_2.
  2: { intros H. rewrite H in Hv. unfold parse_bus_url, guarded in Hv. destruct (valid_bus_url v) eqn:E; [|done].
       injection Hv as ->. done. }
  assert (some_entry RAW_OBJECT_ROOT_KEY (fun _ => true) entries
    = some_entry RAW_OBJECT_ROOT_KEY (fun v => is_ok (parse_raw_object_root v)) entries
      || some_entry RAW_OBJECT_ROOT_KEY (fun value => match match_key arms RAW_OBJECT_ROOT_KEY value with
           | Ok _ => false | Err _ => true end) entries) as ->.
  { clear. unfold some_entry. induction entries as [|[k v] entries IH]; [done|]. cbn [existsb fst snd]. rewrite IH.
    change (match_key arms RAW_OBJECT_ROOT_KEY v) with (arm parse_raw_object_root set_raw_object_root v). unfold arm.
    destruct (parse_raw_object_root v), (bool_decide (k = RAW_OBJECT_ROOT_KEY)); cbn;
      by rewrite ?orb_true_r, ?orb_false_r. }
  destruct (field_cases RAW_OBJECT_ROOT_KEY parse_raw_object_root None entries) as [[-> ->]|[-> [w Hw]]].
  - by rewrite bool_decide_eq_true_2.
  - rewrite bool_decide_eq_false_2; [done|]. intros H. rewrite H in Hw. unfold parse_raw_object_root, guarded in Hw.
    by destruct (is_absolute w).
Qed.

Lemma require_cap_exact entries violations : reported violations RESEND_CAP_KEY = reported (refusals entries) RESEND_CAP_KEY ->
  reported violations RESEND_AFTER_KEY = reported (refusals entries) RESEND_AFTER_KEY ->
  require_cap (config_of entries) violations
  = if (field RESEND_CAP_KEY parse_resend_cap 21600 entries <? field RESEND_AFTER_KEY parse_resend_after 600 entries)%Z
         && negb (some_entry RESEND_CAP_KEY (out_of_range 1 604800) entries)
         && negb (some_entry RESEND_AFTER_KEY (out_of_range 30 86400) entries)
    then [mk_violation RESEND_CAP_KEY "must be at least the resend delay"]
    else [].
Proof.
  intros Hcap Hafter. unfold require_cap. rewrite Hcap, Hafter, !reported_refusals by done.
  cbn [config_of tombstone resend_cap_seconds resend_after_seconds].
  rewrite (some_entry_ext RESEND_CAP_KEY _ (out_of_range 1 604800)), (some_entry_ext RESEND_AFTER_KEY _ (out_of_range 30 86400)).
  - by rewrite negb_orb, andb_assoc.
  - intros v. change (match_key arms RESEND_AFTER_KEY v) with (arm parse_resend_after set_resend_after_seconds v).
    unfold arm, parse_resend_after, out_of_range. by destruct (parse_in_range v 30 86400).
  - intros v. change (match_key arms RESEND_CAP_KEY v) with (arm parse_resend_cap set_resend_cap_seconds v).
    unfold arm, parse_resend_cap, out_of_range. by destruct (parse_in_range v 1 604800).
Qed.

Lemma report_requirements entries : report entries = (refusals entries ++ requirements entries)%list.
Proof.
  unfold report, requirements. cbv zeta. rewrite <- require_bus_exact, <- app_assoc. do 2 f_equal.
  assert (forall key, key = RESEND_CAP_KEY \/ key = RESEND_AFTER_KEY ->
    reported (refusals entries ++ require_bus (config_of entries) (refusals entries))%list key = reported (refusals entries) key)
    as Hkeys.
  { intros key Hkey. unfold reported. rewrite existsb_app. unfold require_bus.
    destruct Hkey as [-> | ->]; repeat case_match; cbn; by rewrite orb_false_r. }
  apply require_cap_exact; apply Hkeys; auto.
Qed.

(** [C33] All entries are examined: the report is every entry's own refusal, in the order of the
    entries and whatever the other entries are, followed by the requirements that do not hold, each
    read off the entries: no entry gives a valid bus; with one, no entry names the evidence directory;
    the last accepted cap of the resend schedule is below the last accepted delay, where no entry of
    either was refused. Without any, each field of the configuration is the last value an entry gave
    it, or its default. *)
Theorem environment_report_exact entries :
  from_environment entries
  = match (refusals entries ++ requirements entries)%list with [] => Ok (config_of entries) | vs => Err vs end.
Proof. rewrite from_environment_report. by rewrite report_requirements. Qed.

(** The order in which the process environment lists its variables does not matter: the
    same configuration is accepted, or the same violations are reported. *)
Theorem environment_order_irrelevant entries entries' :
  entries ≡ₚ entries' -> NoDup entries.*1 ->
  match from_environment entries, from_environment entries' with
  | Ok c, Ok c' => c = c'
  | Err vs, Err vs' => vs ≡ₚ vs'
  | _, _ => False
  end.
Proof.
  intros Hp Hnd. rewrite !from_environment_report, (config_of_perm _ _ Hp Hnd).
  pose proof (report_perm _ _ Hp Hnd) as Hr.
  destruct (report entries) as [|v vs], (report entries') as [|v' vs']; try done.
  - by apply Permutation_nil_cons in Hr.
  - symmetry in Hr. by apply Permutation_nil_cons in Hr.
Qed.

(** A report renders no supplied value: each line names the key of an entry, or one of the
    three keys a requirement is about, and one of a fixed list of rules. *)
Theorem report_discloses_no_value entries vs : from_environment entries = Err vs ->
  forall v, v ∈ vs ->
    (vi_key v ∈ entries.*1 \/ vi_key v ∈ [BUS_URL_KEY; RAW_OBJECT_ROOT_KEY; RESEND_CAP_KEY])
    /\ vi_rule v ∈ RULES.
Proof.
  rewrite from_environment_report. intros Herr v Hv.
  assert (v ∈ report entries) as Hin by (destruct (report entries); [done|by injection Herr as <-]).
  clear Herr Hv. unfold report in Hin. rewrite !elem_of_app in Hin. destruct Hin as [[Hin|Hin]|Hin].
  - apply list_elem_of_bind in Hin as ([k x] & Hin & Hkx). unfold refusal in Hin. cbn [fst snd] in Hin.
    destruct (starts_with ENV_PREFIX k); [|by apply not_elem_of_nil in Hin].
    destruct (match_key arms k x) as [f|rule] eqn:Hm; [by apply not_elem_of_nil in Hin|].
    apply list_elem_of_singleton in Hin as ->. split; [|by eapply match_key_rule].
    left. apply list_elem_of_fmap. by exists (k, x).
  - split; [right|]; revert Hin; unfold require_bus; repeat case_match; intros Hin;
      first [by apply not_elem_of_nil in Hin | apply list_elem_of_singleton in Hin as ->];
      apply (bool_decide_unpack _); done.
  - split; [right|]; revert Hin; unfold require_cap; repeat case_match; intros Hin;
      first [by apply not_elem_of_nil in Hin | apply list_elem_of_singleton in Hin as ->];
      apply (bool_decide_unpack _); done.
Qed.

(** The first variable under the prefix whose value is not Unicode text. *)
Fixpoint first_unreadable (vars : list (string * string)) : option string :=
  match vars with
  | [] => None
  | (key, value) :: vars =>
      if valid_utf8 key && starts_with ENV_PREFIX key && negb (valid_utf8 value) then Some key
      else first_unreadable vars
  end.

(** The variables a configuration is read from. *)
Definition readable (vars : list (string * string)) : list (string * string) :=
  filter (fun e => valid_utf8 e.1 && starts_with ENV_PREFIX e.1 = true) vars.

(** What the process environment gives: with a value under the prefix that is not Unicode
    text, the report is that one violation and none of the others the environment has; otherwise
    the outcome is that of the variables whose key is Unicode text under the prefix. *)
Theorem load_outcome vars :
  load vars = match first_unreadable vars with
              | Some key => Err [mk_violation key "must contain Unicode text"]
              | None => from_environment (readable vars)
              end.
Proof.
  unfold load.
  assert (prefixed_entries vars = match first_unreadable vars with
    | Some key => Err [mk_violation key "must contain Unicode text"]
    | None => Ok (readable vars) end) as ->; [|by destruct (first_unreadable vars)].
  unfold readable. induction vars as [|[k v] vars IH]; [done|]. cbn [prefixed_entries first_unreadable].
  rewrite filter_cons. cbn [fst snd].
  destruct (valid_utf8 k); cbn [negb andb]; [|by rewrite decide_False].
  destruct (starts_with ENV_PREFIX k); cbn [negb]; [|by rewrite decide_False].
  rewrite decide_True by done. destruct (valid_utf8 v); cbn [negb]; [|done].
  rewrite IH. by destruct (first_unreadable vars).
Qed.

End Loading.

(** * Witnesses *)

Definition sample_web : Web :=
  Build_Web (fun _ => None) (fun _ => None) (fun _ _ => None).

Definition sample_pg : PgUrl := Build_PgUrl (fun _ => false).

Definition sample_entries : list (string * string) :=
  [ ("RATATOSKR__BUS__URL", "nats://127.0.0.1:4222");
    ("PATH", "/usr/bin");
    ("RATATOSKR__PUBLIC_RESOLUTION__RAW_OBJECT_ROOT", "/var/lib/threads");
    ("RATATOSKR__ADMIN__LISTEN_ADDRESS", "[::1]:9000");
    ("RATATOSKR__TOMBSTONE__RESEND_AFTER_SECONDS", "+900") ].

Lemma accepted_config_well_formed_witness :
  exists c, @from_environment sample_web sample_pg sample_entries = Ok c
    /\ @well_formed sample_web sample_pg c.
Proof.
  eexists. assert (@from_environment sample_web sample_pg sample_entries = Ok _) as H
    by (vm_compute; reflexivity).
  split; [exact H|]. exact (proj1 (@accepted_config_well_formed sample_web sample_pg _ _ H)).
Defined.

Lemma environment_order_irrelevant_witness :
  exists c, @from_environment sample_web sample_pg sample_entries = Ok c
    /\ @from_environment sample_web sample_pg (reverse sample_entries) = Ok c.
Proof.
  assert (NoDup sample_entries.*1) as Hnd by (apply (bool_decide_unpack _); vm_compute; reflexivity).
  pose proof (@environment_order_irrelevant sample_web sample_pg sample_entries (reverse sample_entries)
    (symmetry (reverse_Permutation _)) Hnd) as H.
  destruct (@from_environment sample_web sample_pg sample_entries) as [c|e] eqn:E; [|vm_compute in E; discriminate].
  destruct (from_environment (reverse _)) as [c'|]; [|destruct H].
  exists c. split; [reflexivity|]. by rewrite H.
Defined.

(** A refused environment: an unknown key, and a bus that is required. *)
Lemma report_discloses_no_value_witness :
  exists vs, @from_environment sample_web sample_pg [("RATATOSKR__API_TOKEN", "secret")] = Err vs
    /\ length vs = 2 /\ Forall (fun v => vi_rule v ∈ RULES) vs.
Proof.
  eexists. assert (@from_environment sample_web sample_pg [("RATATOSKR__API_TOKEN", "secret")] = Err _) as H
    by (vm_compute; reflexivity).
  split; [exact H|]. split; [reflexivity|]. apply Forall_forall. intros v Hv.
  exact (proj2 (@report_discloses_no_value sample_web sample_pg _ _ H v Hv)).
Defined.

End Config.
