(* ===== verification/System.v ===== *)
(** The service as a whole: its workers as steps on one world, and what holds in every reachable
    state.

    A step is one call of a worker's operation with arbitrary arguments: a submission, a
    delivered or refused command, the claim, an attempt and the report of the resolver, a
    synchronized page, a completion fact, a pass of the pump, an answer of Knowledge, a received or
    imported export, a chunk of a reprocessing, a change of an official connection, a read. Steps
    interleave freely; a resolver may report a row it never claimed. *)
From S2P Require Import Prelude Permalink Schema Store Publishing Capture Reporting BrowserCapture RawObjects PublicResolution CaptureResolution AccountSync Knowledge RemovalAck OutboxRelay DeletionAcks MediaRetention Reprocessing ExportArchive DataExport OAuth.

Module System.
Import Schema Store Reporting.
Local Open Scope string_scope.
Local Open Scope store_scope.

Section Silent.
Context {Henv : Env} {Hcon : Publishing.Contracts} {Hrep : ReportContracts} {Hweb : PublicResolution.Web}
  {Hprov : AccountSync.OfficialOwnContentProvider} (policy : CaptureResolution.ResolverPolicy).

Lemma submit_silent r : silent (Capture.submit r).
Proof. unfold Capture.submit. silent_steps. Qed.

Lemma append_report_silent target report : silent (append_report target report).
Proof. unfold append_report. silent_steps. Qed.

Lemma deliver_silent c : silent (BrowserCapture.deliver c).
Proof.
  unfold BrowserCapture.deliver, BrowserCapture.deliver_body, BrowserCapture.claim_delivery. silent_steps;
    apply append_report_silent.
Qed.

Lemma reject_silent c : silent (BrowserCapture.reject c).
Proof.
  unfold BrowserCapture.reject, BrowserCapture.reject_body, BrowserCapture.claim_delivery. silent_steps;
    apply append_report_silent.
Qed.

Lemma append_origin_fact_silent origin : silent (Publishing.append_origin_fact origin).
Proof.
  unfold Publishing.append_origin_fact, Publishing.build_snapshot, Publishing.load_post, Publishing.load_raw,
    Publishing.load_relations, Publishing.ensure_source. silent_steps.
Qed.

Lemma append_fact_silent id : silent (Publishing.append_fact id).
Proof.
  unfold Publishing.append_fact, Publishing.load_capture_origin. silent_steps; apply append_origin_fact_silent.
Qed.

Lemma record_observation_silent id o : silent (Capture.record_observation id o).
Proof.
  unfold Capture.record_observation, Capture.mark_unavailable, Capture.mark_unavailable_body.
  silent_steps; apply append_fact_silent.
Qed.

Lemma store_silent bytes : silent (RawObjects.store bytes).
Proof.
  unfold RawObjects.store, RawObjects.create_once, RawObjects.verify_raw_object. silent_steps; intros w;
    unfold RawObjects.fs_try_exists, RawObjects.fs_read, RawObjects.fs_step, RawObjects.fs_create_new,
      RawObjects.fs_write_all; repeat case_match; done.
Qed.

Lemma resolve_and_record_silent id link : silent (PublicResolution.resolve_and_record id link).
Proof.
  unfold PublicResolution.resolve_and_record, PublicResolution.record, PublicResolution.record_body,
    PublicResolution.record_relations, PublicResolution.record_relation.
  silent_steps; try apply store_silent; try apply append_fact_silent. done.
Qed.

Lemma claim_silent now : silent (CaptureResolution.claim policy now).
Proof. unfold CaptureResolution.claim, CaptureResolution.claim_body. silent_steps. Qed.

Lemma attempt_silent row now : silent (CaptureResolution.attempt_ policy row now).
Proof.
  unfold CaptureResolution.attempt_, CaptureResolution.record_transient_failure, CaptureResolution.observe.
  silent_steps; try apply record_observation_silent; apply resolve_and_record_silent.
Qed.

Lemma report_silent row terminal : silent (CaptureResolution.report row terminal).
Proof.
  unfold CaptureResolution.report, CaptureResolution.report_body, CaptureResolution.terminal_report,
    CaptureResolution.stored_source, Publishing.social_source_id_for.
  silent_steps; apply append_report_silent.
Qed.

Lemma sync_silent account availability : silent (AccountSync.sync account availability).
Proof.
  unfold AccountSync.sync, AccountSync.sync_body, AccountSync.checkpoint, AccountSync.record_raw,
    AccountSync.record_post, AccountSync.record_reply_relation, AccountSync.append_source_facts,
    AccountSync.save_checkpoint, Publishing.append_official_fact, Publishing.post_updated_at.
  silent_steps; try apply store_silent; try apply append_fact_silent; try apply append_origin_fact_silent. done.
Qed.

Lemma blob_task_silent task_id : silent (MediaRetention.process_blob_deletion_task task_id).
Proof.
  unfold MediaRetention.process_blob_deletion_task, MediaRetention.record_blob_failure,
    MediaRetention.backend_delete, RawObjects.delete_if_matches, RawObjects.verify_raw_object.
  silent_steps; intros w; unfold RawObjects.fs_try_exists, RawObjects.fs_read, RawObjects.fs_step,
    RawObjects.fs_remove_file; repeat case_match; done.
Qed.

Lemma receive_silent {Hzip : ExportArchive.ZipLibrary} user_ref bytes : silent (DataExport.receive user_ref bytes).
Proof.
  unfold DataExport.receive, DataExport.persist_receipt, DataExport.persist_receipt_body,
    DataExport.insert_archive_raw, DataExport.load_receipt, DataExport.sql.
  silent_steps. apply store_silent.
Qed.

Lemma store_stream_silent reader max_bytes media_type : silent (RawObjects.store_stream reader max_bytes media_type).
Proof.
  assert (forall output max r n acc, silent (RawObjects.copy_loop r output max n acc)) as Hc.
  { intros output max. induction r as [|[chunk|] r IH]; intros n acc; cbn; silent_steps; auto.
    intros w. unfold RawObjects.fs_write_all. repeat case_match; done. }
  unfold RawObjects.store_stream, RawObjects.temporary_path, RawObjects.create_temporary, RawObjects.copy_and_hash,
    RawObjects.promote_temporary, RawObjects.verify_raw_object.
  silent_steps; try apply Hc; intros w; unfold RawObjects.fs_read, RawObjects.fs_step, RawObjects.fs_create_new,
    RawObjects.fs_remove_file, RawObjects.fs_hard_link; repeat case_match; done.
Qed.

Lemma receive_stream_silent {Hzip : ExportArchive.ZipLibrary} user_ref reader :
  silent (DataExport.receive_stream user_ref reader).
Proof.
  unfold DataExport.receive_stream, DataExport.persist_receipt, DataExport.persist_receipt_body,
    DataExport.insert_archive_raw, DataExport.load_receipt, DataExport.sql.
  silent_steps. apply store_stream_silent.
Qed.

Lemma reconcile_silent {Hzip : ExportArchive.ZipLibrary} receipt parsed : silent (DataExport.reconcile receipt parsed).
Proof.
  assert (forall raw ps n, silent (DataExport.reconcile_posts receipt raw ps n)) as Hp.
  { intros raw. induction ps as [|post ps IH]; intros n; cbn; unfold DataExport.record_export_post,
      DataExport.record_normalized_post, DataExport.count_record, DataExport.sql, Publishing.append_export_fact,
      Publishing.post_updated_at;
      silent_steps; auto using append_origin_fact_silent. }
  assert (forall relations n, silent (DataExport.reconcile_relations receipt relations n)) as Hr.
  { induction relations as [|r relations IH]; intros n; cbn; unfold DataExport.record_export_relation,
      DataExport.record_warning, DataExport.sql; silent_steps; auto. }
  assert (forall raw names n, silent (DataExport.reconcile_unknown receipt raw names n)) as Hu.
  { intros raw. induction names as [|x names IH]; intros n; cbn; unfold DataExport.record_unknown_section,
      DataExport.count_record, DataExport.sql; silent_steps; auto. }
  unfold DataExport.reconcile, DataExport.reconcile_body, DataExport.load_archive_raw_object,
    DataExport.capture_identities, DataExport.finish_run, DataExport.sql. silent_steps; auto.
Qed.

Lemma import_silent {Hzip : ExportArchive.ZipLibrary} receipt : silent (DataExport.import receipt).
Proof.
  unfold DataExport.import, DataExport.load_run_status, DataExport.mark_failed, DataExport.sql,
    RawObjects.read_verified, RawObjects.verify_raw_object.
  silent_steps; try apply reconcile_silent; intros w; unfold RawObjects.fs_read, RawObjects.fs_step;
    repeat case_match; done.
Qed.

Lemma apply_chunk_silent owner run_id operation_id inputs fingerprint max_items :
  silent (Reprocessing.apply_chunk owner run_id operation_id inputs fingerprint max_items).
Proof.
  assert (forall id items cp, silent (Reprocessing.insert_items id items cp)) as Hi.
  { intros id. induction items as [|item items IH]; intros cp; cbn; silent_steps; auto. }
  unfold Reprocessing.apply_chunk, Reprocessing.apply_chunk_body, Reprocessing.ensure_reprocessing_run,
    Reprocessing.finish_reprocessing_run. silent_steps; auto.
Qed.

Lemma credentials_silent {Haead : OAuth.Aead} cipher op : silent (OAuth.run_op cipher op).
Proof.
  destruct op as [| |account_id []|]; cbn; unfold OAuth.connect, OAuth.refresh, OAuth.scrub_revoked, OAuth.record_budget,
    OAuth.connect_body, OAuth.refresh_body, OAuth.scrub_body, OAuth.store_credential, OAuth.append_audit,
    OAuth.storage, OAuth.seal; silent_steps; done.
Qed.

Lemma completion_silent event c : silent (Knowledge.record event c).
Proof. unfold Knowledge.record, Knowledge.record_body, Knowledge.reject_locally_removed. silent_steps. Qed.

End Silent.

(** * The invariant *)

(** What holds of the tables and the broker between steps: captures are unique per owner and key,
    every browser command is answered once, every reported capture has one terminal report, and
    published events are on the broker with published removals armed. *)
Record service_inv (w : World) : Prop := {
  si_keys : Capture.keys_unique (w_db w);
  si_delivery : BrowserCapture.delivery_inv (w_db w);
  si_reported : CaptureResolution.reported_inv (w_db w);
  si_relay : OutboxRelay.relay_inv (w_db w) (w_bus w);
}.

(** The owner and key of every capture are those before, or the capture is new. *)
Lemma keys_unique_same d d' : (forall id,
    (fun c => (c_user_ref c, c_idempotency_key c)) <$> captures d' !! id
    = (fun c => (c_user_ref c, c_idempotency_key c)) <$> captures d !! id) ->
  Capture.keys_unique d -> Capture.keys_unique d'.
Proof.
  intros H Hu id1 id2 c1 c2 H1 H2 Ho Hk.
  assert (forall id c, captures d' !! id = Some c -> exists c0, captures d !! id = Some c0
    /\ c_user_ref c0 = c_user_ref c /\ c_idempotency_key c0 = c_idempotency_key c) as Hback.
  { intros id c Hc. specialize (H id). rewrite Hc in H. simpl in H.
    destruct (captures d !! id) as [c0|]; simplify_eq/=. by exists c0. }
  destruct (Hback _ _ H1) as (c1' & ? & ? & ?), (Hback _ _ H2) as (c2' & ? & ? & ?).
  eapply Hu; [done|done|congruence|congruence].
Qed.

(** New rows of the outbox are unpublished. *)
Lemma relay_inv_fresh d d' stored : (forall event o, outbox_events d' !! event = Some o ->
    outbox_events d !! event = Some o \/ o_published_at o = None) ->
  OutboxRelay.relay_inv d stored -> OutboxRelay.relay_inv d' stored.
Proof.
  intros Hf [Hs Ha]. split; intros id o Ho Hp;
    (destruct (Hf _ _ Ho) as [Hl|Hn];
      [|unfold RemovalAck.is_published in Hp; rewrite Hn in Hp; by apply bool_decide_eq_true in Hp as []]).
  - by apply Hs.
  - by eapply Ha.
Qed.

(** Between two worlds no report was filed or withdrawn, no command was recorded, no capture came, went or
    changed its key or its report guard, and the pump's invariant survives. *)
Record neutral (w w' : World) : Prop := {
  nt_queued id : count_where (outbox_events (w_db w')) (BrowserCapture.queued_by id)
    = count_where (outbox_events (w_db w)) (BrowserCapture.queued_by id);
  nt_refused id : count_where (outbox_events (w_db w')) (BrowserCapture.refused_by id)
    = count_where (outbox_events (w_db w)) (BrowserCapture.refused_by id);
  nt_terminal id : count_where (outbox_events (w_db w')) (CaptureResolution.terminal_for id)
    = count_where (outbox_events (w_db w)) (CaptureResolution.terminal_for id);
  nt_inbox id : inbox_events (w_db w') !! (BrowserCapture.CONSUMER_NAME, id)
    = inbox_events (w_db w) !! (BrowserCapture.CONSUMER_NAME, id);
  nt_keys id : CaptureResolution.capture_key <$> captures (w_db w') !! id
    = CaptureResolution.capture_key <$> captures (w_db w) !! id;
  nt_relay : OutboxRelay.relay_inv (w_db w) (w_bus w) -> OutboxRelay.relay_inv (w_db w') (w_bus w');
}.

Lemma neutral_keys w w' : neutral w w' -> Capture.keys_unique (w_db w) -> Capture.keys_unique (w_db w').
Proof.
  intros Hn. apply keys_unique_same. intros id. pose proof (nt_keys _ _ Hn id) as K.
  destruct (captures (w_db w') !! id), (captures (w_db w) !! id); simpl in *; try done.
  unfold CaptureResolution.capture_key in K. by injection K as -> -> _.
Qed.

Lemma neutral_service w w' : neutral w w' -> service_inv w -> service_inv w'.
Proof.
  intros Hn [Hk Hd Hr Hl]. split.
  - by eapply neutral_keys.
  - intros id. by rewrite (nt_queued _ _ Hn), (nt_refused _ _ Hn), (nt_inbox _ _ Hn).
  - intros id. rewrite (nt_terminal _ _ Hn), (Hr id).
    by rewrite (CaptureResolution.key_reported _ _ _ (nt_keys _ _ Hn id)).
  - by apply Hn.
Qed.

Lemma quiet_neutral w w' : CaptureResolution.quiet (w_db w) (w_db w') -> w_bus w' = w_bus w -> neutral w w'.
Proof.
  intros [O C G F I K] Hb.
  assert (forall (p : Uuid -> outbox_row -> bool), (forall ev o, p ev o = true -> is_Some (o_causation_id o)) ->
    count_where (outbox_events (w_db w')) p = count_where (outbox_events (w_db w)) p) as Hc.
  { intros p Hp. apply count_where_same. intros ev o H. apply C. by eapply Hp. }
  split.
  - intros id. apply Hc. intros ev o [H%bool_decide_eq_true _]%andb_true_iff. by rewrite H.
  - intros id. apply Hc. intros ev o [H%bool_decide_eq_true _]%andb_true_iff. by rewrite H.
  - intros id. apply count_where_same. intros ev o H. by eapply O.
  - intros id. by rewrite I.
  - done.
  - rewrite Hb. by apply relay_inv_fresh.
Qed.

Lemma quiet_call {E A} (m : M E A) w :
  (forall d0, preserves (CaptureResolution.quiet d0) m) -> silent m -> neutral w (m w).2.
Proof. intros Hq Hs. apply quiet_neutral; [apply Hq, CaptureResolution.quiet_refl|apply Hs]. Qed.

Section Steps.
Context {Henv : Env} {Hcon : Publishing.Contracts} {Hrep : ReportContracts} {Hweb : PublicResolution.Web}
  {Hprov : AccountSync.OfficialOwnContentProvider} {Hack : DeletionAcks.AckCodec}
  {Hzip : ExportArchive.ZipLibrary} {Haead : OAuth.Aead} `{!ReportLaws Hrep}.

(** ** Submissions *)

Lemma submit_service r w : service_inv w -> service_inv (Capture.submit r w).2.
Proof.
  intros [Hk Hd Hr Hl]. pose proof (Capture.submit_frame r w Hk) as (Hk' & Hsub & Heq & Hnew).
  pose proof (submit_silent r w) as Hb. split; [done|..].
  - rewrite Heq. done.
  - intros id. rewrite Heq. simpl. rewrite (Hr id). unfold CaptureResolution.is_reported. simpl.
    destruct (captures (w_db w) !! id) as [c|] eqn:E; [by rewrite (lookup_weaken _ _ _ _ E Hsub)|].
    destruct (captures (w_db (Capture.submit r w).2) !! id) as [c|] eqn:E'; [|done].
    by rewrite (Hnew _ _ E' E).
  - rewrite Hb, Heq. destruct Hl as [Hs Ha]. by split.
Qed.

(** ** Browser commands *)

(** Storing the capture of a command keeps the keys unique and reports nothing. *)
Lemma stored_as_captures c d new_id id caps : BrowserCapture.stored_as c d new_id id caps ->
  Capture.keys_unique d -> Capture.keys_unique (set_captures caps d)
  /\ forall id', CaptureResolution.is_reported (set_captures caps d) id' = CaptureResolution.is_reported d id'.
Proof.
  intros Hst Hu. destruct Hst as [id row Hk|now Hk Hn]; [by destruct d|]. split.
  - by apply Capture.keys_unique_insert.
  - intros id'. unfold CaptureResolution.is_reported. simpl.
    destruct (decide (id' = new_id)) as [->|]; [by rewrite lookup_insert_eq, Hn|by rewrite lookup_insert_ne].
Qed.

(** A fresh row that is no terminal report of a capture. *)
Lemma reported_inv_insert d d' event o : outbox_events d !! event = None ->
  outbox_events d' = <[event := o]> (outbox_events d) ->
  (forall id, CaptureResolution.terminal_for id event o = false) ->
  (forall id, CaptureResolution.is_reported d' id = CaptureResolution.is_reported d id) ->
  CaptureResolution.reported_inv d -> CaptureResolution.reported_inv d'.
Proof.
  intros Hev Ho Ht Hr Hinv id. rewrite Ho, count_where_insert, Ht, Hr by done. rewrite <- (Hinv id). done.
Qed.

Lemma relay_inv_insert d d' event o stored : outbox_events d' = <[event := o]> (outbox_events d) ->
  o_published_at o = None -> OutboxRelay.relay_inv d stored -> OutboxRelay.relay_inv d' stored.
Proof.
  intros Ho Hn. apply relay_inv_fresh. intros ev o'. rewrite Ho.
  intros [[_ <-]|[_ Hl]]%lookup_insert_Some; auto.
Qed.

(** A committed report of a command: the row is unpublished and carries no removal. *)
Lemma deliver_service c w : service_inv w -> service_inv (BrowserCapture.deliver c w).2.
Proof using All.
  intros [Hk Hd Hr Hl]. pose proof (deliver_silent c w) as Hb.
  pose proof (BrowserCapture.consume_inv (inl c) w Hd) as [Hd' _]. simpl in Hd'.
  enough (Capture.keys_unique (w_db (BrowserCapture.deliver c w).2)
    /\ CaptureResolution.reported_inv (w_db (BrowserCapture.deliver c w).2)
    /\ OutboxRelay.relay_inv (w_db (BrowserCapture.deliver c w).2) (w_bus w)) as (? & ? & ?)
    by (split; try done; by rewrite Hb).
  clear Hd' Hb. unfold BrowserCapture.deliver.
  destruct (transaction_atomic BrowserCapture.InboxPersistence (BrowserCapture.deliver_body c) w)
    as [->|(out & w0 & w1 & Hw & _ & _ & Hbody & ->)]; [done|].
  apply BrowserCapture.deliver_body_Ok in Hbody
    as [(_ & -> & _)|(cap & ev & pl & now & caps & _ & _ & Hst & Hev & Hpl & ->)]; rewrite Hw in *; [done|].
  destruct (stored_as_captures _ _ _ _ _ Hst Hk) as [Hk' Hrep'].
  unfold BrowserCapture.delivered. split; [exact Hk'|split].
  - eapply reported_inv_insert; [exact Hev|reflexivity| |exact Hrep'|exact Hr].
    intros id. unfold CaptureResolution.terminal_for, report_row, new_outbox_row. simpl. rewrite Hpl.
    by rewrite andb_false_r.
  - by eapply relay_inv_insert.
Qed.

Lemma reject_service c w : service_inv w -> service_inv (BrowserCapture.reject c w).2.
Proof using All.
  intros [Hk Hd Hr Hl]. pose proof (reject_silent c w) as Hb.
  pose proof (BrowserCapture.consume_inv (inr c) w Hd) as [Hd' _]. simpl in Hd'.
  enough (Capture.keys_unique (w_db (BrowserCapture.reject c w).2)
    /\ CaptureResolution.reported_inv (w_db (BrowserCapture.reject c w).2)
    /\ OutboxRelay.relay_inv (w_db (BrowserCapture.reject c w).2) (w_bus w)) as (? & ? & ?)
    by (split; try done; by rewrite Hb).
  clear Hd' Hb. unfold BrowserCapture.reject.
  destruct (transaction_atomic BrowserCapture.InboxPersistence (BrowserCapture.reject_body c) w)
    as [->|(out & w0 & w1 & Hw & _ & _ & Hbody & ->)]; [done|].
  apply BrowserCapture.reject_body_Ok in Hbody
    as [(_ & -> & _)|(ev & pl & now & _ & _ & Hev & Hpl & ->)]; rewrite Hw in *; [done|].
  split; [exact Hk|split].
  - eapply reported_inv_insert; [exact Hev|reflexivity| |done|exact Hr].
    intros id. unfold CaptureResolution.terminal_for, report_row, new_outbox_row. simpl. done.
  - by eapply relay_inv_insert.
Qed.

(** ** The resolver *)

Lemma claim_neutral policy now w : neutral w (CaptureResolution.claim policy now w).2.
Proof.
  apply quiet_call; [intros d0; apply CaptureResolution.claim_quiet|apply claim_silent].
Qed.

Lemma attempt_neutral policy row now w : neutral w (CaptureResolution.attempt_ policy row now w).2.
Proof.
  apply quiet_call; [intros d0; apply CaptureResolution.attempt_quiet|apply attempt_silent].
Qed.

Lemma report_service row terminal w : service_inv w -> service_inv (CaptureResolution.report row terminal w).2.
Proof using All.
  intros [Hk Hd Hr Hl]. pose proof (report_silent row terminal w) as Hb.
  pose proof (CaptureResolution.report_inv row terminal w Hr) as Hr'.
  enough (Capture.keys_unique (w_db (CaptureResolution.report row terminal w).2)
    /\ BrowserCapture.delivery_inv (w_db (CaptureResolution.report row terminal w).2)
    /\ OutboxRelay.relay_inv (w_db (CaptureResolution.report row terminal w).2) (w_bus w)) as (? & ? & ?)
    by (split; try done; by rewrite Hb).
  clear Hr' Hb. unfold CaptureResolution.report.
  destruct (transaction_atomic CaptureResolution.ResolverPersistence (CaptureResolution.report_body row terminal) w)
    as [->|(out & w0 & w1 & Hw & _ & _ & Hbody & ->)]; [done|].
  apply CaptureResolution.report_body_Ok in Hbody
    as (c & r & ev & pl & now & now' & Hc & Hn & Hev & Ht & Hpl & _ & ->). rewrite Hw in *.
  split; [|split].
  - eapply keys_unique_same; [|exact Hk]. intros id. simpl.
    destruct (decide (id = CaptureResolution.du_capture_id row)) as [->|];
      [by rewrite lookup_insert_eq, Hc|by rewrite lookup_insert_ne].
  - intros id. simpl. rewrite !count_where_insert, <- (Hd id) by done.
    unfold BrowserCapture.queued_by at 1, BrowserCapture.refused_by at 1, report_row, new_outbox_row. simpl.
    rewrite Hpl, andb_false_r. by destruct r; rewrite ?andb_false_r.
  - by eapply relay_inv_insert.
Qed.

(** ** Pages of the official listing and blob tasks *)

Lemma append_origin_fact_quiet d0 origin :
  preserves (CaptureResolution.quiet d0) (Publishing.append_origin_fact origin).
Proof.
  intros w Hq. eapply CaptureResolution.quiet_published; [exact Hq|].
  apply (Publishing.append_origin_fact_frame (w_db w) origin w), Publishing.published_from_refl.
Qed.

Lemma record_post_quiet d0 account_id raw_object_id post :
  preserves (CaptureResolution.quiet d0) (AccountSync.record_post account_id raw_object_id post).
Proof.
  unfold AccountSync.record_post, AccountSync.record_reply_relation, AccountSync.append_source_facts,
    Publishing.append_official_fact, Publishing.post_updated_at.
  preserve_steps; try apply CaptureResolution.append_fact_quiet; try apply append_origin_fact_quiet.
  - apply preserves_query. intros t d id d' Hq [-> _]%AccountSync.upsert_own_post_Ok.
    by eapply CaptureResolution.quiet_other.
  - apply preserves_execute. intros t d d' Hq (_ & _ & ->)%insert_post_revision_Ok.
    by eapply CaptureResolution.quiet_other.
  - apply preserves_execute. intros t d d' Hq H.
    eapply PublicResolution.upsert_relation_frame in H; [|apply PublicResolution.only_relations_refl].
    rewrite H. by eapply CaptureResolution.quiet_other.
Qed.

Lemma sync_quiet d0 account_id availability :
  preserves (CaptureResolution.quiet d0) (AccountSync.sync account_id availability).
Proof.
  unfold AccountSync.sync, AccountSync.checkpoint. preserve_steps; [by intros w Hq|apply CaptureResolution.store_quiet|].
  apply preserves_transaction_body. unfold AccountSync.sync_body, AccountSync.record_raw, AccountSync.save_checkpoint.
  preserve_steps; [|apply record_post_quiet|].
  - apply preserves_execute. intros t d d' Hq [_ ->]%insert_raw_object_Ok. by eapply CaptureResolution.quiet_other.
  - apply preserves_execute. intros t d d' Hq H. destruct (negb _); simplify_eq. by eapply CaptureResolution.quiet_other.
Qed.

Lemma sync_neutral account_id availability w : neutral w (AccountSync.sync account_id availability w).2.
Proof. apply quiet_call; [intros d0; apply sync_quiet|apply sync_silent]. Qed.

(** ** Completion facts *)

Lemma completion_neutral event_id c w : neutral w (Knowledge.record event_id c w).2.
Proof.
  pose proof (completion_silent event_id c w) as Hb.
  assert (captures (w_db (Knowledge.record event_id c w).2) = captures (w_db w)
    /\ outbox_events (w_db (Knowledge.record event_id c w).2) = outbox_events (w_db w)
    /\ forall id, inbox_events (w_db (Knowledge.record event_id c w).2) !! (BrowserCapture.CONSUMER_NAME, id)
         = inbox_events (w_db w) !! (BrowserCapture.CONSUMER_NAME, id)) as (Ec & Eo & Ei).
  { unfold Knowledge.record.
    destruct (transaction_atomic (fun e => e) (Knowledge.record_body event_id c) w)
      as [->|(f & w0 & w1 & Hd0 & _ & _ & Hbody & ->)]; [done|].
    apply Knowledge.completion_body_Ok in Hbody as (out & _ & Hrec). rewrite Hd0 in Hrec.
    destruct Hrec; simpl; split_and!; try done; intros id; by rewrite lookup_insert_ne. }
  split; [intros; by rewrite ?Eo, ?Ec, ?Ei..|]. rewrite Hb. intros [Hs Ha]. split; rewrite Eo; done.
Qed.

(** ** The pump and the answers of Knowledge *)

(** The part of an outbox row that the counts of reports are about. *)
Definition report_part (o : outbox_row) : string * string * Uuid * Payload * option Uuid :=
  (o_event_type o, o_aggregate_type o, o_aggregate_id o, o_payload o, o_causation_id o).

(** Updates of the outbox that keep that part of every row. *)
Lemma same_reports w w' : captures (w_db w') = captures (w_db w) -> inbox_events (w_db w') = inbox_events (w_db w) ->
  (forall id, report_part <$> outbox_events (w_db w') !! id = report_part <$> outbox_events (w_db w) !! id) ->
  (OutboxRelay.relay_inv (w_db w) (w_bus w) -> OutboxRelay.relay_inv (w_db w') (w_bus w')) -> neutral w w'.
Proof.
  intros Ec Ei Eo Hl.
  assert (report_part <$> outbox_events (w_db w') = report_part <$> outbox_events (w_db w)) as E.
  { apply map_eq. intros id. by rewrite !lookup_fmap. }
  assert (forall p : Uuid -> string * string * Uuid * Payload * option Uuid -> bool,
    count_where (outbox_events (w_db w')) (fun id o => p id (report_part o))
    = count_where (outbox_events (w_db w)) (fun id o => p id (report_part o))) as Hcount.
  { intros p. etrans; [apply count_where_fmap|]. rewrite E. symmetry. apply count_where_fmap. }
  split; [intros id|intros id|intros id|by rewrite Ei|by rewrite Ec|done].
  - exact (Hcount (fun _ r => bool_decide (r.2 = Some id)
      && match pl_body r.1.2 with ReportBody (QueuedReport _) => true | _ => false end)).
  - exact (Hcount (fun _ r => bool_decide (r.2 = Some id) && bool_decide (r.1.1.1.2 = "operation"))).
  - exact (Hcount (fun _ r => bool_decide (r.1.1.1.1 = OPERATION_REPORT_EVENT)
      && bool_decide (r.1.1.1.2 = "capture") && bool_decide (r.1.1.2 = id)
      && match pl_body r.1.2 with
         | ReportBody (UnavailableReport _ _) | ReportBody (PreservedReport _ _) => true
         | _ => false
         end)).
Qed.

(** The pump writes no other table. *)
Definition only_outbox (d0 d : db) : Prop := captures d = captures d0 /\ inbox_events d = inbox_events d0.

Lemma update_event_only d0 d id p f : only_outbox d0 d -> only_outbox d0 (RemovalAck.update_event id p f d).
Proof. unfold RemovalAck.update_event. intros H. repeat case_match; done. Qed.

Lemma publish_row_only d0 subject id payload : preserves (only_outbox d0) (OutboxRelay.publish_row subject id payload).
Proof. intros w Hw. unfold OutboxRelay.publish_row, OutboxRelay.publish. by destruct (bus (w_tick w)). Qed.

Lemma flush_outbox_only d0 policy : preserves (only_outbox d0) (OutboxRelay.flush_outbox policy).
Proof.
  assert (forall id, preserves (only_outbox d0) (RemovalAck.mark_published id policy)) as Hm.
  { intros id. apply preserves_execute. intros t d d' Hd [= <-]. by apply update_event_only. }
  assert (forall id, preserves (only_outbox d0) (RemovalAck.record_resend id policy)) as Hs.
  { intros id. apply preserves_execute. intros t d d' Hd H. cbv zeta in H. repeat case_match; simplify_eq; try done.
    by apply update_event_only. }
  assert (forall id class, preserves (only_outbox d0) (OutboxRelay.record_failure id class)) as Hf.
  { intros id class. apply preserves_execute. intros t d d' Hd H. repeat case_match; simplify_eq; try done.
    by apply update_event_only. }
  assert (forall rows ff, preserves (only_outbox d0) (OutboxRelay.publish_rows rows policy ff)) as Hp.
  { induction rows as [|[id o] rest IH]; intros ff; simpl; preserve_steps; auto. apply publish_row_only. }
  assert (forall rows, preserves (only_outbox d0) (OutboxRelay.resend_rows rows policy)) as Hrs.
  { induction rows as [|row rest IH]; simpl; preserve_steps; auto. apply publish_row_only. }
  unfold OutboxRelay.flush_outbox, OutboxRelay.resend_unacknowledged, RemovalAck.due_resends,
    RemovalAck.unacknowledged_removals. preserve_steps; auto.
Qed.

Lemma pump_neutral policy w : neutral w (OutboxRelay.flush_outbox policy w).2.
Proof.
  destruct (OutboxRelay.flush_outbox_relayed policy w) as [Hle _ Hinv].
  destruct (flush_outbox_only (w_db w) policy w ltac:(done)) as [Ec Ei].
  apply same_reports; [done|done| |exact Hinv]. intros id. specialize (Hle id).
  inversion Hle as [o o' [Hid _] Eo Eo'|Eo Eo']; simpl; [|done].
  unfold OutboxRelay.identity in Hid. unfold report_part. injection Hid as -> -> _ _ -> -> ->. done.
Qed.

Lemma answer_neutral payload w : neutral w (DeletionAcks.settle payload w).2.
Proof.
  pose proof (DeletionAcks.settle_relay_inv payload w) as Hinv.
  pose proof (DeletionAcks.settle_cases payload w) as H. destruct (DeletionAcks.settle payload w) as [kind w'].
  destruct H as (_ & Hd & _). simpl in *.
  destruct Hd as [Hd|(id & o & outcome & t & (ack & _ & _ & _ & _ & Ho & _) & Hd)]; rewrite Hd in *;
    (apply same_reports; [by rewrite Hd..| |by rewrite Hd]); rewrite Hd; [done|].
  intros id'. simpl. destruct (decide (id' = id)) as [->|]; [by rewrite lookup_insert_eq, Ho|by rewrite lookup_insert_ne].
Qed.

(** ** Blob deletion tasks *)

Lemma blob_task_quiet d0 task_id :
  preserves (CaptureResolution.quiet d0) (MediaRetention.process_blob_deletion_task task_id).
Proof.
  assert (forall state failure, preserves (CaptureResolution.quiet d0)
    (execute (fun _ => MediaRetention.advance_task task_id state failure))) as Hadvance.
  { intros state failure. apply preserves_execute. intros t d d' Hq H. unfold MediaRetention.advance_task in H.
    repeat case_match; simplify_eq; [done| |done]. by eapply CaptureResolution.quiet_other. }
  unfold MediaRetention.process_blob_deletion_task, MediaRetention.record_blob_failure, MediaRetention.backend_delete.
  preserve_steps; try apply Hadvance. intros w Hq.
  pose proof (RawObjects.delete_frame (bt_blob_ref a) (bt_content_hash a) w) as H.
  destruct (RawObjects.delete_if_matches _ _ w) as [r w']. by destruct H as (_ & -> & _).
Qed.

Lemma blob_task_neutral task_id w : neutral w (MediaRetention.process_blob_deletion_task task_id w).2.
Proof.
  apply quiet_call; [intros d0; apply blob_task_quiet|apply blob_task_silent].
Qed.

(** ** Exports, reprocessing and official connections *)

(** A statement on a table other than captures, inbox and outbox. *)
Lemma execute_quiet d0 (f : Time -> db -> Result SqlError db) :
  (forall t d d', f t d = Ok d' -> captures d' = captures d /\ outbox_events d' = outbox_events d
    /\ inbox_events d' = inbox_events d) -> preserves (CaptureResolution.quiet d0) (execute f).
Proof.
  intros Hf. apply preserves_execute. intros t d d' Hq (Ec & Eo & Ei)%Hf. by eapply CaptureResolution.quiet_other.
Qed.

Lemma persist_receipt_quiet d0 user_ref raw :
  preserves (CaptureResolution.quiet d0) (DataExport.persist_receipt user_ref raw).
Proof.
  apply preserves_transaction_body. unfold DataExport.persist_receipt_body, DataExport.insert_archive_raw,
    DataExport.load_receipt, DataExport.sql. preserve_steps.
  - apply preserves_query. intros t d x d' Hq. unfold DataExport.insert_export_run.
    repeat case_match; intros; simplify_eq; [done|]. by eapply CaptureResolution.quiet_other.
  - apply execute_quiet. by intros t d d' [_ ->]%insert_raw_object_Ok.
Qed.

Lemma receive_neutral user_ref bytes w : neutral w (DataExport.receive user_ref bytes w).2.
Proof.
  apply quiet_call; [intros d0|apply receive_silent]. unfold DataExport.receive. preserve_steps;
    [apply CaptureResolution.store_quiet|apply persist_receipt_quiet].
Qed.

Lemma receive_stream_neutral user_ref reader w : neutral w (DataExport.receive_stream user_ref reader w).2.
Proof.
  apply quiet_call; [intros d0|apply receive_stream_silent]. unfold DataExport.receive_stream. preserve_steps;
    [|apply persist_receipt_quiet].
  intros w' Hq. destruct (RawObjects.store_stream _ _ _ w') as [r w1] eqn:E.
  apply RawObjects.store_stream_frame in E; [|done]. cbn. by destruct E as [-> _].
Qed.

Lemma reconcile_posts_quiet d0 receipt raw ps : forall n,
  preserves (CaptureResolution.quiet d0) (DataExport.reconcile_posts receipt raw ps n).
Proof.
  induction ps as [|post ps IH]; intros n; cbn; unfold DataExport.record_export_post,
    DataExport.record_normalized_post, DataExport.count_record, DataExport.sql, Publishing.append_export_fact,
    Publishing.post_updated_at; preserve_steps; try apply append_origin_fact_quiet; try apply IH.
  - apply preserves_query. intros t d id d' Hq (p & -> & _)%DataExport.upsert_export_post_Ok.
    by eapply CaptureResolution.quiet_other.
  - apply execute_quiet. by intros t d d' (_ & _ & ->)%insert_post_revision_Ok.
  - apply execute_quiet. by intros t d d' [_ ->]%DataExport.insert_export_record_Ok.
Qed.

Lemma reconcile_relations_quiet d0 receipt relations : forall n,
  preserves (CaptureResolution.quiet d0) (DataExport.reconcile_relations receipt relations n).
Proof.
  induction relations as [|r relations IH]; intros n; cbn; unfold DataExport.record_export_relation,
    DataExport.record_warning, DataExport.sql; preserve_steps; try apply IH.
  - apply execute_quiet. intros t d d' H.
    eapply PublicResolution.upsert_relation_frame in H; [|apply PublicResolution.only_relations_refl]. by rewrite H.
  - apply execute_quiet. by intros t d d' [_ ->]%DataExport.insert_export_record_Ok.
Qed.

Lemma reconcile_unknown_quiet d0 receipt raw names : forall n,
  preserves (CaptureResolution.quiet d0) (DataExport.reconcile_unknown receipt raw names n).
Proof.
  induction names as [|x names IH]; intros n; cbn; unfold DataExport.record_unknown_section,
    DataExport.count_record, DataExport.sql; preserve_steps; try apply IH.
  apply execute_quiet. by intros t d d' [_ ->]%DataExport.insert_export_record_Ok.
Qed.

Lemma import_neutral receipt w : neutral w (DataExport.import receipt w).2.
Proof.
  apply quiet_call; [intros d0|apply import_silent].
  unfold DataExport.import, DataExport.load_run_status, DataExport.mark_failed, DataExport.sql. preserve_steps.
  - intros w' Hq. by rewrite DataExport.read_verified_db.
  - apply preserves_transaction_body. unfold DataExport.reconcile_body, DataExport.load_archive_raw_object,
      DataExport.capture_identities, DataExport.finish_run, DataExport.sql. preserve_steps.
    + apply reconcile_posts_quiet.
    + apply reconcile_relations_quiet.
    + apply reconcile_unknown_quiet.
    + apply execute_quiet. by intros t d d' [= <-].
  - apply execute_quiet. by intros t d d' [= <-].
Qed.

Lemma apply_chunk_neutral owner run_id operation_id inputs fingerprint max_items w : neutral w (Reprocessing.apply_chunk owner run_id operation_id inputs fingerprint max_items w).2.
Proof.
  apply quiet_call; [intros d0|apply apply_chunk_silent].
  assert (forall id items cp, preserves (CaptureResolution.quiet d0) (Reprocessing.insert_items id items cp)) as Hi.
  { intros id. induction items as [|item items IH]; intros cp; cbn; preserve_steps; [|apply IH].
    apply execute_quiet. by intros t d d' (_ & ->)%Reprocessing.insert_item_Ok. }
  apply preserves_transaction_body.
  unfold Reprocessing.apply_chunk_body, Reprocessing.ensure_reprocessing_run,
    Reprocessing.finish_reprocessing_run. preserve_steps; try apply Hi.
  - apply execute_quiet. intros t d d'. unfold Reprocessing.insert_run. repeat case_match; intros; by simplify_eq.
  - apply execute_quiet. by intros t d d' [= <-].
Qed.

Lemma storage_quiet d0 f :
  (forall d d', f d = Ok d' -> captures d' = captures d /\ outbox_events d' = outbox_events d
    /\ inbox_events d' = inbox_events d) -> preserves (CaptureResolution.quiet d0) (OAuth.storage f).
Proof. intros Hf. apply preserves_mapErr, execute_quiet. intros t. apply Hf. Qed.

Lemma credential_neutral cipher op w : neutral w (OAuth.run_op cipher op w).2.
Proof.
  apply quiet_call; [intros d0|apply credentials_silent].
  assert (forall cipher owner a b, preserves (CaptureResolution.quiet d0) (OAuth.seal cipher owner a b)) as Hseal
    by (intros ???? w' Hq; by rewrite OAuth.seal_db).
  assert (forall id kind, preserves (CaptureResolution.quiet d0) (OAuth.append_audit id kind)) as Haudit.
  { intros. unfold OAuth.append_audit. preserve_steps. apply storage_quiet. intros d d'.
    unfold OAuth.insert_audit. repeat case_match; intros; by simplify_eq. }
  assert (forall cipher id grant a b, preserves (CaptureResolution.quiet d0)
    (OAuth.store_credential cipher id grant a b)) as Hstore.
  { intros. unfold OAuth.store_credential. preserve_steps. apply storage_quiet. intros d d'.
    unfold OAuth.insert_credential. repeat case_match; intros; by simplify_eq. }
  destruct op as [| |account_id []|]; cbn; unfold OAuth.connect, OAuth.refresh, OAuth.scrub_revoked,
    OAuth.record_budget; preserve_steps; try apply Hseal; try apply preserves_transaction_body;
    unfold OAuth.connect_body, OAuth.refresh_body, OAuth.scrub_body; preserve_steps;
    try apply Hstore; try apply Haudit; apply storage_quiet; intros d d';
    unfold OAuth.insert_account, OAuth.update_account, OAuth.upsert_budget; cbv zeta;
    repeat case_match; intros; by simplify_eq.
Qed.

(** * The service *)

(** One call of a worker. The resolver's steps take any due record, the pump any policy, and
    completion facts and answers any content, so a step may also come from a stale or repeated
    message. *)
Inductive service_step : World -> World -> Prop :=
| step_submit request w : service_step w (Capture.submit request w).2
| step_deliver command w : service_step w (BrowserCapture.deliver command w).2
| step_reject command w : service_step w (BrowserCapture.reject command w).2
| step_claim policy now w : service_step w (CaptureResolution.claim policy now w).2
| step_attempt policy row now w : service_step w (CaptureResolution.attempt_ policy row now w).2
| step_report row terminal w : service_step w (CaptureResolution.report row terminal w).2
| step_sync account availability w : service_step w (AccountSync.sync account availability w).2
| step_completion event_id completion w : service_step w (Knowledge.record event_id completion w).2
| step_pump policy w : service_step w (OutboxRelay.flush_outbox policy w).2
| step_answer payload w : service_step w (DeletionAcks.settle payload w).2
| step_blob_task task_id w : service_step w (MediaRetention.process_blob_deletion_task task_id w).2
| step_receive user_ref bytes w : service_step w (DataExport.receive user_ref bytes w).2
| step_receive_stream user_ref reader w : service_step w (DataExport.receive_stream user_ref reader w).2
| step_import receipt w : service_step w (DataExport.import receipt w).2
| step_reprocess owner run_id operation_id inputs fingerprint max_items w :
    service_step w (Reprocessing.apply_chunk owner run_id operation_id inputs fingerprint max_items w).2
| step_credential cipher op w : service_step w (OAuth.run_op cipher op w).2
(* a read, or a call that reaches neither the tables nor the broker *)
| step_read w w' : w_db w' = w_db w -> w_bus w' = w_bus w -> service_step w w'.

Hint Resolve claim_neutral attempt_neutral sync_neutral completion_neutral pump_neutral answer_neutral
  blob_task_neutral receive_neutral receive_stream_neutral import_neutral apply_chunk_neutral credential_neutral : rust.

Lemma read_neutral w w' : w_db w' = w_db w -> w_bus w' = w_bus w -> neutral w w'.
Proof. intros Hd Hb. split; by rewrite ?Hd, ?Hb. Qed.

(** Only submissions, browser commands and terminal reports touch captures, commands or reports. *)
Lemma step_cases w w' : service_step w w' -> neutral w w'
  \/ (exists request, w' = (Capture.submit request w).2) \/ (exists c, w' = (BrowserCapture.deliver c w).2)
  \/ (exists c, w' = (BrowserCapture.reject c w).2)
  \/ (exists row terminal, w' = (CaptureResolution.report row terminal w).2).
Proof using All. destruct 1; eauto 7 using read_neutral with rust. Qed.

Lemma service_step_inv w w' : service_step w w' -> service_inv w -> service_inv w'.
Proof using All.
  intros [Hn|[[request ->]|[[c ->]|[[c ->]|(row & terminal & ->)]]]]%step_cases;
    eauto using neutral_service, submit_service, deliver_service, reject_service, report_service.
Qed.

Lemma steps_inv w w' : rtc service_step w w' -> service_inv w -> service_inv w'.
Proof using All. induction 1; eauto using service_step_inv. Qed.

(** [C1] The service as a whole: let submissions, browser commands, the resolver's claims, attempts
    and reports, synchronized pages, completion facts, passes of the pump, answers of Knowledge,
    blob tasks, export imports, reprocessing and changes of connections interleave in any order, with any loss of round trips, answers, file operations and
    broker messages. In every reachable state no owner has two captures under one key, every
    recorded browser command has exactly one answer, every reported operation exactly one
    terminal report and no other, every published event is on the broker under its subject, and
    every published removal is armed for its next copy. *)
Theorem service_invariant w w' : rtc service_step w w' -> service_inv w -> service_inv w'.
Proof using All. apply steps_inv. Qed.

End Steps.

(** * Witness *)

Lemma service_inv_empty : service_inv (sample_world empty_db).
Proof.
  split; done.
Qed.

(** A command is delivered twice, the pump runs, and the queued report is on the broker. *)
Definition served : World :=
  let deliver := @BrowserCapture.deliver sample_env sample_report_contracts (BrowserCapture.sample_command 1 50) in
  (@OutboxRelay.flush_outbox sample_env RemovalAck.default_policy
    (deliver (deliver (sample_world empty_db)).2).2).2.

Lemma service_invariant_witness : service_inv served
  /\ count_where (outbox_events (w_db served)) (BrowserCapture.queued_by 1) = 1%Z /\ length (w_bus served) = 1.
Proof.
  split; [|by vm_compute].
  eapply (@service_invariant sample_env Publishing.sample_contracts sample_report_contracts
    PublicResolution.sample_web (AccountSync.fixed_provider (AccountSync.mk_page EmptyString [] None)) DeletionAcks.sample_codec
    ExportArchive.sample_library OAuth.sample_aead _ (sample_world empty_db));
    [|apply service_inv_empty].
  eapply rtc_l; [apply step_deliver|]. eapply rtc_l; [apply step_deliver|].
  eapply rtc_l; [apply step_pump|]. apply rtc_refl.
Defined.

End System.
