(* ===== verification/Archive.v ===== *)
(** The service with owner deletion among its steps.

    [System] proves exactly-once accounting for runs without a deletion. A deletion
    (src/crates/threads-archive/src/privacy_deletion.rs) removes its target's capture and withdraws facts
    and reports that were queued for it, so afterwards a command or a capture may have lost its report,
    and what is left of the accounting is "at most once". Here deletions interleave with every other call
    of the service, and that accounting is an invariant. *)
From S2P Require Import Prelude Schema Store Reporting BrowserCapture Capture Publishing PublicResolution CaptureResolution AccountSync RemovalAck OutboxRelay DeletionAcks ExportArchive OAuth PrivacyDeletion OwnerErasure System.

Module Archive.
Import Schema Store Reporting System.
Local Open Scope string_scope.
Local Open Scope Z_scope.

(** A command that was not recorded has no report; a processed one at most one queued report and no
    refusal; a rejected one at most one refusal and no queued report. *)
Definition answered_at_most_once (d : db) : Prop := forall id,
  let queued := count_where (outbox_events d) (BrowserCapture.queued_by id) in
  let refused := count_where (outbox_events d) (BrowserCapture.refused_by id) in
  match inbox_events d !! (BrowserCapture.CONSUMER_NAME, id) with
  | None => queued = 0 /\ refused = 0
  | Some outcome => if bool_decide (outcome = "rejected") then queued = 0 /\ refused <= 1 else queued <= 1 /\ refused = 0
  end.

(** A capture has at most one terminal report, and none while it is stored unreported. *)
Definition reported_at_most_once (d : db) : Prop := forall id,
  count_where (outbox_events d) (CaptureResolution.terminal_for id) <= 1 /\
  (forall c, captures d !! id = Some c -> c_operation_reported_at c = None ->
     count_where (outbox_events d) (CaptureResolution.terminal_for id) = 0).

Record archive_inv (w : World) : Prop := {
  ai_keys : Capture.keys_unique (w_db w);
  ai_answers : answered_at_most_once (w_db w);
  ai_reports : reported_at_most_once (w_db w);
  ai_relay : OutboxRelay.relay_inv (w_db w) (w_bus w);
}.

(** No capture is stored under an identifier that a report was filed under: UUIDv7 values do not repeat. *)
Definition fresh_captures (w w' : World) : Prop := forall id,
  captures (w_db w) !! id = None -> is_Some (captures (w_db w') !! id) ->
  count_where (outbox_events (w_db w)) (CaptureResolution.terminal_for id) = 0.

(** The exactly-once state is in particular an at-most-once state. *)
Lemma service_archive w : service_inv w -> archive_inv w.
Proof.
  intros [Hk Hd Hr Hl]. split; [done|..|done].
  - intros id. specialize (Hd id). cbv zeta. repeat case_match; simplify_eq; lia.
  - intros id. rewrite (Hr id). unfold CaptureResolution.is_reported. split; [case_match; lia|].
    intros c -> ->. done.
Qed.

Lemma neutral_archive w w' : neutral w w' -> archive_inv w -> archive_inv w'.
Proof.
  intros Hn [Hk Hd Hr Hl]. split; [by eapply neutral_keys|..|by apply Hn].
  - intros id. rewrite (nt_queued _ _ Hn), (nt_refused _ _ Hn), (nt_inbox _ _ Hn). apply Hd.
  - intros id. rewrite (nt_terminal _ _ Hn). destruct (Hr id) as [H1 H0]. split; [done|].
    intros c Hc Hnone. pose proof (nt_keys _ _ Hn id) as K. rewrite Hc in K.
    destruct (captures (w_db w) !! id) as [c0|] eqn:E; [|done]. injection K as _ _ K.
    apply (H0 c0); [done|congruence].
Qed.

Section Steps.
Context {Henv : Env} {Hcon : Publishing.Contracts} {Hrep : ReportContracts} {Hweb : PublicResolution.Web}
  {Hprov : AccountSync.OfficialOwnContentProvider} {Hack : DeletionAcks.AckCodec}
  {Hzip : ExportArchive.ZipLibrary} {Haead : OAuth.Aead} `{!ReportLaws Hrep}.

Lemma submit_archive r w : fresh_captures w (Capture.submit r w).2 ->
  archive_inv w -> archive_inv (Capture.submit r w).2.
Proof.
  intros Hf [Hk Hd Hr Hl]. pose proof (Capture.submit_frame r w Hk) as (Hk' & Hsub & Heq & _).
  pose proof (submit_silent r w) as Hb. split; [done|..].
  - rewrite Heq. done.
  - assert (outbox_events (w_db (Capture.submit r w).2) = outbox_events (w_db w)) as Ho by (by rewrite Heq).
    intros id. destruct (Hr id) as [H1 H0]. rewrite Ho. split; [done|]. intros c Hc Hnone.
    destruct (captures (w_db w) !! id) as [c0|] eqn:E.
    + pose proof (lookup_weaken _ _ _ _ E Hsub) as Hw. rewrite Hc in Hw. simplify_eq. eauto.
    + apply Hf; [done|]. eauto.
  - rewrite Hb, Heq. destruct Hl as [Hs Ha]. by split.
Qed.

(** Recording a command with its one answer. *)
Lemma answered_claimed d d' id outcome event o :
  answered_at_most_once d -> inbox_events d !! (BrowserCapture.CONSUMER_NAME, id) = None ->
  outbox_events d !! event = None -> o_causation_id o = Some id ->
  (BrowserCapture.queued_by id event o, BrowserCapture.refused_by id event o)
    = (negb (bool_decide (outcome = "rejected")), bool_decide (outcome = "rejected")) ->
  outbox_events d' = <[event := o]> (outbox_events d) ->
  inbox_events d' = <[(BrowserCapture.CONSUMER_NAME, id) := outcome]> (inbox_events d) ->
  answered_at_most_once d'.
Proof.
  intros Hd Hin Hev Hcause Hq Ho Hi id'. specialize (Hd id'). cbv zeta in *.
  rewrite Ho, Hi, !count_where_insert by done.
  destruct (decide (id' = id)) as [->|Hne].
  - rewrite lookup_insert_eq. rewrite Hin in Hd. injection Hq as -> ->. destruct Hd as [-> ->].
    by case_bool_decide.
  - rewrite lookup_insert_ne by congruence.
    assert (BrowserCapture.queued_by id' event o = false /\ BrowserCapture.refused_by id' event o = false) as [-> ->].
    { unfold BrowserCapture.queued_by, BrowserCapture.refused_by. rewrite Hcause.
      by rewrite (bool_decide_eq_false_2 (Some id = Some id')) by congruence. }
    exact Hd.
Qed.

(** A fresh row that is no terminal report, with captures that are as before or new. *)
Lemma reported_insert d d' event o : outbox_events d !! event = None ->
  outbox_events d' = <[event := o]> (outbox_events d) ->
  (forall id, CaptureResolution.terminal_for id event o = false) ->
  (forall id c, captures d' !! id = Some c -> captures d !! id = Some c
     \/ (captures d !! id = None /\ count_where (outbox_events d) (CaptureResolution.terminal_for id) = 0)) ->
  reported_at_most_once d -> reported_at_most_once d'.
Proof.
  intros Hev Ho Ht Hc Hr id. rewrite Ho, count_where_insert, Ht by done. destruct (Hr id) as [H1 H0].
  split; [done|]. intros c Hcap Hnone. destruct (Hc _ _ Hcap) as [Hold|[_ Hz]]; [by eapply H0|done].
Qed.

Lemma deliver_archive c w : fresh_captures w (BrowserCapture.deliver c w).2 ->
  archive_inv w -> archive_inv (BrowserCapture.deliver c w).2.
Proof using All.
  intros Hf [Hk Hd Hr Hl]. pose proof (deliver_silent c w) as Hb. revert Hf.
  enough (fresh_captures w (BrowserCapture.deliver c w).2 ->
    Capture.keys_unique (w_db (BrowserCapture.deliver c w).2)
    /\ answered_at_most_once (w_db (BrowserCapture.deliver c w).2)
    /\ reported_at_most_once (w_db (BrowserCapture.deliver c w).2)
    /\ OutboxRelay.relay_inv (w_db (BrowserCapture.deliver c w).2) (w_bus w)) as H
    by (intros (? & ? & ? & ?)%H; split; try done; by rewrite Hb).
  unfold fresh_captures. clear Hb. unfold BrowserCapture.deliver.
  destruct (transaction_atomic BrowserCapture.InboxPersistence (BrowserCapture.deliver_body c) w)
    as [->|(out & w0 & w1 & Hw & _ & _ & Hbody & ->)]; [done|].
  apply BrowserCapture.deliver_body_Ok in Hbody
    as [(_ & -> & _)|(cap & ev & pl & now & caps & _ & Hin & Hst & Hev & Hpl & ->)]; rewrite Hw in *; [done|].
  intros Hf. destruct (stored_as_captures _ _ _ _ _ Hst Hk) as [Hk' _].
  unfold BrowserCapture.delivered in *. split_and!; [exact Hk'|..].
  - eapply (answered_claimed (w_db w) _ (BrowserCapture.bc_command_id c) "processed" ev);
      [done|done|done| | |reflexivity|reflexivity]; [done|].
    unfold BrowserCapture.queued_by, BrowserCapture.refused_by, report_row, new_outbox_row. simpl.
    by rewrite Hpl, bool_decide_eq_true_2.
  - eapply reported_insert; [exact Hev|reflexivity|..|exact Hr].
    + intros id. unfold CaptureResolution.terminal_for, report_row, new_outbox_row. simpl. rewrite Hpl.
      by rewrite andb_false_r.
    + intros id c' Hc'. cbn in *. destruct (captures (w_db w) !! id) as [c0|] eqn:E; [left|right; eauto].
      destruct Hst as [? ? _|? _ Hn]; [congruence|].
      apply lookup_insert_Some in Hc' as [[<- _]|[_ Hc']]; congruence.
  - by eapply relay_inv_insert.
Qed.

Lemma reject_archive c w : archive_inv w -> archive_inv (BrowserCapture.reject c w).2.
Proof using All.
  intros [Hk Hd Hr Hl]. pose proof (reject_silent c w) as Hb.
  enough (Capture.keys_unique (w_db (BrowserCapture.reject c w).2)
    /\ answered_at_most_once (w_db (BrowserCapture.reject c w).2)
    /\ reported_at_most_once (w_db (BrowserCapture.reject c w).2)
    /\ OutboxRelay.relay_inv (w_db (BrowserCapture.reject c w).2) (w_bus w)) as (? & ? & ? & ?)
    by (split; try done; by rewrite Hb).
  clear Hb. unfold BrowserCapture.reject.
  destruct (transaction_atomic BrowserCapture.InboxPersistence (BrowserCapture.reject_body c) w)
    as [->|(out & w0 & w1 & Hw & _ & _ & Hbody & ->)]; [done|].
  apply BrowserCapture.reject_body_Ok in Hbody
    as [(_ & -> & _)|(ev & pl & now & _ & Hin & Hev & Hpl & ->)]; rewrite Hw in *; [done|].
  split_and!; [exact Hk|..].
  - eapply (answered_claimed (w_db w) _ (BrowserCapture.rj_command_id c) "rejected" ev);
      [done|done|done| | |reflexivity|reflexivity]; [done|].
    unfold BrowserCapture.queued_by, BrowserCapture.refused_by, report_row, new_outbox_row. simpl.
    by rewrite Hpl, bool_decide_eq_true_2.
  - eapply reported_insert; [exact Hev|reflexivity|done| |exact Hr]. by left.
  - by eapply relay_inv_insert.
Qed.

Lemma report_archive row terminal w : archive_inv w -> archive_inv (CaptureResolution.report row terminal w).2.
Proof using All.
  intros [Hk Hd Hr Hl]. pose proof (report_silent row terminal w) as Hb.
  enough (Capture.keys_unique (w_db (CaptureResolution.report row terminal w).2)
    /\ answered_at_most_once (w_db (CaptureResolution.report row terminal w).2)
    /\ reported_at_most_once (w_db (CaptureResolution.report row terminal w).2)
    /\ OutboxRelay.relay_inv (w_db (CaptureResolution.report row terminal w).2) (w_bus w)) as (? & ? & ? & ?)
    by (split; try done; by rewrite Hb).
  clear Hb. unfold CaptureResolution.report.
  destruct (transaction_atomic CaptureResolution.ResolverPersistence (CaptureResolution.report_body row terminal) w)
    as [->|(out & w0 & w1 & Hw & _ & _ & Hbody & ->)]; [done|].
  apply CaptureResolution.report_body_Ok in Hbody
    as (c & r & ev & pl & now & now' & Hc & Hn & Hev & Ht & Hpl & _ & ->). rewrite Hw in *.
  split_and!.
  - eapply keys_unique_same; [|exact Hk]. intros id. simpl.
    destruct (decide (id = CaptureResolution.du_capture_id row)) as [->|];
      [by rewrite lookup_insert_eq, Hc|by rewrite lookup_insert_ne].
  - intros id. simpl. rewrite !count_where_insert by done.
    assert (forall o, o = report_row (CaptureResolution.report_target row) pl now' ->
      BrowserCapture.queued_by id ev o = false /\ BrowserCapture.refused_by id ev o = false) as Hrow.
    { intros o ->. unfold BrowserCapture.queued_by, BrowserCapture.refused_by, report_row, new_outbox_row. simpl.
      rewrite Hpl. by destruct r; rewrite ?andb_false_r. }
    destruct (Hrow _ eq_refl) as [-> ->]. apply Hd.
  - intros id. simpl. rewrite count_where_insert by done. destruct (Hr id) as [H1 H0].
    destruct (decide (id = CaptureResolution.du_capture_id row)) as [->|Hne].
    + rewrite lookup_insert_eq, (H0 c Hc Hn). split; [case_match; lia|]. by intros c' [= <-].
    + assert (CaptureResolution.terminal_for id ev (report_row (CaptureResolution.report_target row) pl now') = false) as ->.
      { unfold CaptureResolution.terminal_for, report_row, new_outbox_row. simpl.
        by rewrite (bool_decide_eq_false_2 (CaptureResolution.du_capture_id row = id)) by done. }
      rewrite lookup_insert_ne by done. auto.
  - by eapply relay_inv_insert.
Qed.

(** A deletion stores no capture and changes none it keeps. *)
Lemma erasure_captures request w : captures (w_db (PrivacyDeletion.apply request w).2) ⊆ captures (w_db w).
Proof.
  destruct (OwnerErasure.erasure_cases request w) as [->|(_ & _ & (sids & d1 & Hown & Hposts))]; [done|].
  apply OwnerErasure.posts_removed_frame, OwnerErasure.pf_rest in Hposts. rewrite Hposts. cbn.
  destruct (OwnerErasure.or_removed _ _ _ _ _ Hown) as (posts_ & _ & Hrem).
  assert (captures d1 = captures (w_db w)) as Hc by (by rewrite (OwnerErasure.sr_rest _ _ _ _ _ Hrem)).
  rewrite <- Hc. destruct (PrivacyDeletion.rq_target request) as [id|id]; cbn; [apply delete_subseteq|done].
Qed.

Lemma erasure_spared request w : OwnerErasure.spared request (w_db w) (w_db (PrivacyDeletion.apply request w).2).
Proof.
  destruct (OwnerErasure.erasure_cases request w) as [->|H]; [apply OwnerErasure.spared_refl|by apply OwnerErasure.committed_spared].
Qed.

(** It adds no event but the removals it queues. *)
Lemma erasure_count request w (p : Uuid -> outbox_row -> bool) :
  (forall ev o sid, OwnerErasure.removal_fact request sid o -> p ev o = false) ->
  count_where (outbox_events (w_db (PrivacyDeletion.apply request w).2)) p <= count_where (outbox_events (w_db w)) p.
Proof.
  intros Hp. apply count_where_le. intros ev o Ht Ho.
  destruct (OwnerErasure.sp_events _ _ _ (erasure_spared request w) ev o Ho) as [|[sid Hf]]; [done|].
  by rewrite (Hp _ _ _ Hf) in Ht.
Qed.

Lemma erasure_queued request w id :
  count_where (outbox_events (w_db (PrivacyDeletion.apply request w).2)) (BrowserCapture.queued_by id)
  <= count_where (outbox_events (w_db w)) (BrowserCapture.queued_by id).
Proof.
  apply erasure_count. intros ev o sid (_ & Hb & _). unfold BrowserCapture.queued_by. by rewrite Hb, andb_false_r.
Qed.

Lemma erasure_refused request w id :
  count_where (outbox_events (w_db (PrivacyDeletion.apply request w).2)) (BrowserCapture.refused_by id)
  <= count_where (outbox_events (w_db w)) (BrowserCapture.refused_by id).
Proof.
  apply erasure_count. intros ev o sid (_ & _ & _ & _ & _ & _ & Hcause). unfold BrowserCapture.refused_by. by rewrite Hcause.
Qed.

Lemma erasure_terminal request w id :
  count_where (outbox_events (w_db (PrivacyDeletion.apply request w).2)) (CaptureResolution.terminal_for id)
  <= count_where (outbox_events (w_db w)) (CaptureResolution.terminal_for id).
Proof.
  apply erasure_count. intros ev o sid (_ & Hb & _). unfold CaptureResolution.terminal_for. by rewrite Hb, andb_false_r.
Qed.

Lemma erasure_archive request w : archive_inv w -> archive_inv (PrivacyDeletion.apply request w).2.
Proof.
  intros [Hk Hd Hr Hl]. pose proof (erasure_captures request w) as Hc.
  pose proof (OwnerErasure.apply_other_writer request w) as How.
  pose proof (erasure_queued request w) as Hq. pose proof (erasure_refused request w) as Hf.
  pose proof (erasure_terminal request w) as Ht. pose proof (erasure_spared request w) as Hs.
  set (w' := (PrivacyDeletion.apply request w).2) in *. split.
  - intros id1 id2 c1 c2 H1 H2. apply Hk; by eapply lookup_weaken.
  - intros id. cbv zeta. rewrite (OwnerErasure.sp_inbox _ _ _ Hs). specialize (Hd id). cbv zeta in Hd.
    specialize (Hq id). specialize (Hf id).
    pose proof (count_where_nonneg (outbox_events (w_db w')) (BrowserCapture.queued_by id)).
    pose proof (count_where_nonneg (outbox_events (w_db w')) (BrowserCapture.refused_by id)).
    repeat case_match; lia.
  - intros id. specialize (Ht id).
    pose proof (count_where_nonneg (outbox_events (w_db w')) (CaptureResolution.terminal_for id)).
    destruct (Hr id) as [H1 H0]. split; [lia|]. intros c Hcap Hnone.
    specialize (H0 c (lookup_weaken _ _ _ _ Hcap Hc) Hnone). lia.
  - by eapply DeletionAcks.other_relay_inv.
Qed.

(** A call of a worker that stores captures under fresh identifiers, or an owner's deletion. *)
Inductive archive_step : World -> World -> Prop :=
| archive_service w w' : service_step w w' -> fresh_captures w w' -> archive_step w w'
| archive_delete request w : archive_step w (PrivacyDeletion.apply request w).2.

Lemma archive_step_inv w w' : archive_step w w' -> archive_inv w -> archive_inv w'.
Proof using All.
  destruct 1 as [w w' Hstep Hf|request w]; [|apply erasure_archive].
  apply step_cases in Hstep as [Hn|[[request ->]|[[c ->]|[[c ->]|(row & terminal & ->)]]]];
    eauto using neutral_archive, submit_archive, deliver_archive, reject_archive, report_archive.
Qed.

(** [C2] The service with owner deletions: let deletions of captures and connections interleave with every
    call of the service, in any order and with any losses. In every reachable state no owner has two
    captures under one key, every browser command has at most one answer and an unrecorded one none,
    every capture has at most one terminal report and none while it is stored unreported, every
    published event is on the broker and every published removal is armed for its next copy. *)
Theorem archive_invariant w w' : rtc archive_step w w' -> archive_inv w -> archive_inv w'.
Proof using All. induction 1; eauto using archive_step_inv. Qed.

End Steps.

(** * Witness *)

(** A command is delivered, its capture is deleted, and the command arrives again. *)
Definition deleted : World :=
  let deliver := @BrowserCapture.deliver sample_env sample_report_contracts (BrowserCapture.sample_command 1 50) in
  let w1 := (deliver (sample_world empty_db)).2 in
  let request := PrivacyDeletion.mk_request 70
    (BrowserCapture.bc_user_ref (BrowserCapture.sample_command 1 50)) (PrivacyDeletion.TCapture 1000) in
  (deliver (@PrivacyDeletion.apply sample_env Publishing.sample_contracts request w1).2).2.

Lemma archive_invariant_witness : archive_inv deleted /\ captures (w_db deleted) = ∅.
Proof.
  split; [|by vm_compute].
  eapply (@archive_invariant sample_env Publishing.sample_contracts sample_report_contracts
    PublicResolution.sample_web (AccountSync.fixed_provider (AccountSync.mk_page EmptyString [] None)) DeletionAcks.sample_codec
    ExportArchive.sample_library OAuth.sample_aead _ (sample_world empty_db));
    [|apply service_archive, service_inv_empty].
  eapply rtc_l; [apply archive_service; [apply step_deliver|]|].
  { by intros id _ _. }
  eapply rtc_l; [apply archive_delete|].
  eapply rtc_once, archive_service; [apply step_deliver|].
  intros id _ [c Hc]. vm_compute in Hc. discriminate.
Defined.

End Archive.
