(* ===== verification/Intake.v ===== *)
(** Deliveries, refusals and submissions of several processes at once
    (src/crates/threads-archive/src/browser_capture_inbox.rs: [deliver], [reject], [claim_delivery];
    src/crates/threads-archive/src/capture.rs: [submit]).

    [BrowserCapture] and [Capture] run one call at a time. Here the statements of any number of
    calls interleave: each transaction sees what is committed under its own writes (PostgreSQL's READ
    COMMITTED), and an insert waits while another open transaction has its key: the inbox row of a
    command, the owner and idempotency key of a capture, or a minted identifier. A committed key never
    makes [on conflict do nothing] wait, [on conflict do update] waits for the row. The rest of the
    service commits in between, around the rows that are locked.

    The theorems: whatever interleaves, the tables are those of the same calls run one after another,
    so the accounting of [System] and [Archive] for atomic calls is that of concurrent ones; and the
    waiting transactions never wait for each other in a circle. *)
From S2P Require Import Prelude Arbiters Permalink Schema Store Capture Reporting BrowserCapture Publishing PublicResolution CaptureResolution AccountSync DeletionAcks ExportArchive OAuth PrivacyDeletion OwnerErasure System Archive.

Module Intake.
Import Schema Store Reporting BrowserCapture Capture Arbiters.
Local Open Scope string_scope.

(** What two open transactions can meet at. *)
Inductive Arbiter :=
| InboxKey (command_id : Uuid)               (* inbox_events_pkey, for this consumer *)
| CaptureKey (user_ref : Uuid) (key : string) (* captures_user_ref_idempotency_key_key, and the row's lock *)
| CaptureId (id : Uuid)                      (* captures_pkey *)
| EventId (id : Uuid).                       (* outbox_events_pkey *)

(** The rows a transaction has written and not committed. *)
Record Writes := mk_writes {
  wr_inbox : gmap (string * Uuid) string;
  wr_captures : gmap Uuid capture_row;
  wr_outbox : gmap Uuid outbox_row;
}.

Definition no_writes : Writes := mk_writes ∅ ∅ ∅.

(** What its next statement sees: its own rows over what is committed. *)
Definition visible (w : Writes) (d : db) : db :=
  set_outbox_events (wr_outbox w ∪ outbox_events d)
    (set_inbox_events (wr_inbox w ∪ inbox_events d) (set_captures (wr_captures w ∪ captures d) d)).

(** The row a statement wrote under a key. *)
Definition noted {K A} `{Countable K} (k : K) (after : gmap K A) (ws : gmap K A) : gmap K A :=
  match after !! k with Some row => <[k := row]> ws | None => ws end.

Inductive Call :=
| Deliver (c : BrowserCaptureCommand)
| Reject (c : RejectedCommand)
| Submit (r : CaptureRequest).

(** Where a call is; [now] is the time its transaction began. *)
Inductive Session :=
| Delivering (c : BrowserCaptureCommand) (now : Time)
| Rejecting (c : RejectedCommand) (now : Time)
| Submitting (r : CaptureRequest) (now : Time)      (* its insert is a transaction of its own *)
| Repeated (m : Call) (now : Time)                  (* the command was recorded before *)
| Claimed (c : BrowserCaptureCommand) (now : Time) (w : Writes)
| Refused (c : RejectedCommand) (now : Time) (w : Writes)
| Stored (c : BrowserCaptureCommand) (now : Time) (capture_id : Uuid) (w : Writes)
| Answered (c : BrowserCaptureCommand) (now : Time) (capture_id event : Uuid) (w : Writes)
| RefusalFiled (c : RejectedCommand) (now : Time) (event : Uuid) (w : Writes)
| Submitted (r : CaptureRequest) (now : Time) (capture_id : Uuid) (w : Writes).

Definition call_of (t : Session) : Call :=
  match t with
  | Delivering c _ | Claimed c _ _ | Stored c _ _ _ | Answered c _ _ _ _ => Deliver c
  | Rejecting c _ | Refused c _ _ | RefusalFiled c _ _ _ => Reject c
  | Submitting r _ | Submitted r _ _ _ => Submit r
  | Repeated m _ => m
  end.

Definition began_at (t : Session) : Time :=
  match t with
  | Delivering _ now | Rejecting _ now | Submitting _ now | Repeated _ now | Claimed _ now _ | Refused _ now _
  | Stored _ now _ _ | Answered _ now _ _ _ | RefusalFiled _ now _ _ | Submitted _ now _ _ => now
  end.

Definition writes_of (t : Session) : Writes :=
  match t with
  | Claimed _ _ w | Refused _ _ w | Stored _ _ _ w | Answered _ _ _ _ w | RefusalFiled _ _ _ w
  | Submitted _ _ _ w => w
  | _ => no_writes
  end.

(** The capture whose row or key is locked. *)
Definition locked_key (t : Session) : option (Uuid * string) :=
  match t with
  | Stored c _ _ _ | Answered c _ _ _ _ => Some (bc_user_ref c, bc_idempotency_key c)
  | Submitted r _ _ _ => Some (rq_user_ref r, rq_idempotency_key r)
  | _ => None
  end.

Definition holds (t : Session) (k : Arbiter) : Prop :=
  match k with
  | InboxKey id => is_Some (wr_inbox (writes_of t) !! (CONSUMER_NAME, id))
  | CaptureKey u key => locked_key t = Some (u, key)
  | CaptureId id => is_Some (wr_captures (writes_of t) !! id)
  | EventId id => is_Some (wr_outbox (writes_of t) !! id)
  end.

Section Sessions.
Context {Henv : Env} {Hrep : ReportContracts}.

Definition deliver_target (c : BrowserCaptureCommand) (capture_id : Uuid) : ReportTarget :=
  mk_report_target (bc_user_ref c) (bc_operation_id c) (bc_command_id c) (AggCapture capture_id).

Definition reject_target (c : RejectedCommand) : ReportTarget :=
  mk_report_target (rj_user_ref c) (rj_operation_id c) (rj_command_id c) AggOperation.

(** The statement that follows, with the identifier it mints: the keys it waits for and where the
    call is afterwards; [None] when it fails or there is none. *)
Definition intake_statement (new_id : Uuid) (d : db) (t : Session) : option (list Arbiter * Session) :=
  match t with
  | Delivering c now =>
      match claim_row (bc_command_id c) "processed" now d with
      | Ok (true, v) => Some ([InboxKey (bc_command_id c)],
          Claimed c now (mk_writes (noted (CONSUMER_NAME, bc_command_id c) (inbox_events v) ∅) ∅ ∅))
      | Ok (false, _) => Some ([], Repeated (Deliver c) now)
      | Err _ => None
      end
  | Rejecting c now =>
      match claim_row (rj_command_id c) "rejected" now d with
      | Ok (true, v) => Some ([InboxKey (rj_command_id c)],
          Refused c now (mk_writes (noted (CONSUMER_NAME, rj_command_id c) (inbox_events v) ∅) ∅ ∅))
      | Ok (false, _) => Some ([], Repeated (Reject c) now)
      | Err _ => None
      end
  | Submitting r now =>
      match insert_submission new_id r now d with
      | Ok (Some (id, _), v) => Some ([CaptureKey (rq_user_ref r) (rq_idempotency_key r); CaptureId id],
          Submitted r now id (mk_writes ∅ (noted id (captures v) ∅) ∅))
      | Ok (None, _) | Err _ => None
      end
  | Claimed c now w =>
      match upsert_command new_id c now (visible w d) with
      | Ok (id, v) =>
          let key := CaptureKey (bc_user_ref c) (bc_idempotency_key c) in
          if bool_decide (captures (visible w d) !! id = None)
          then Some ([key; CaptureId id], Stored c now id
                 (mk_writes (wr_inbox w) (noted id (captures v) (wr_captures w)) (wr_outbox w)))
          else Some ([key], Stored c now id w)
      | Err _ => None
      end
  | Stored c now capture_id w =>
      let queued := QueuedReport (bc_operation_id c) in
      match construct_report queued, file_report new_id (deliver_target c capture_id) queued now (visible w d) with
      | Ok _, Ok v => Some ([EventId new_id], Answered c now capture_id new_id
          (mk_writes (wr_inbox w) (wr_captures w) (noted new_id (outbox_events v) (wr_outbox w))))
      | _, _ => None
      end
  | Refused c now w =>
      let failed := UnavailableReport (rj_operation_id c) SU_Inaccessible in
      match construct_report failed, file_report new_id (reject_target c) failed now (visible w d) with
      | Ok _, Ok v => Some ([EventId new_id], RefusalFiled c now new_id
          (mk_writes (wr_inbox w) (wr_captures w) (noted new_id (outbox_events v) (wr_outbox w))))
      | _, _ => None
      end
  | Repeated _ _ | Answered _ _ _ _ _ | RefusalFiled _ _ _ _ | Submitted _ _ _ _ => None
  end.

(** [commit()], or the end of the one statement of [submit]: when it finds the key it writes nothing
    and is over at once. *)
Definition commit (d : db) (t : Session) : option db :=
  match t with
  | Repeated _ _ => Some d
  | Submitting r _ =>
      match capture_by_key d (rq_user_ref r) (rq_idempotency_key r) with Some _ => Some d | None => None end
  | Answered _ _ _ _ w | RefusalFiled _ _ _ w | Submitted _ _ _ w => Some (visible w d)
  | _ => None
  end.

End Sessions.

Definition key_of (c : capture_row) : Uuid * string := (c_user_ref c, c_idempotency_key c).

(** A transaction of another component: it stores no capture and no command of this consumer, renames
    no capture, keeps the rows that are locked, takes no minted identifier and answers no command. *)
Record bystander (H : Arbiter -> Prop) (d d' : db) : Prop := {
  by_inbox id : inbox_events d' !! (CONSUMER_NAME, id) = inbox_events d !! (CONSUMER_NAME, id);
  by_captures id c' : captures d' !! id = Some c' -> exists c, captures d !! id = Some c /\ key_of c = key_of c';
  by_locked id c : captures d !! id = Some c -> H (CaptureKey (c_user_ref c) (c_idempotency_key c)) ->
    is_Some (captures d' !! id);
  by_events id : H (EventId id) -> outbox_events d !! id = None -> outbox_events d' !! id = None;
  by_queued id : (count_where (outbox_events d') (queued_by id) <= count_where (outbox_events d) (queued_by id))%Z;
  by_refused id : (count_where (outbox_events d') (refused_by id) <= count_where (outbox_events d) (refused_by id))%Z;
}.

Section Protocol.
Context {Henv : Env} {Hrep : ReportContracts}.

Definition intake_protocol : KeyProtocol db Session Arbiter := {|
  kp_begin t := match t with Delivering _ _ | Rejecting _ _ | Submitting _ _ => True | _ => False end;
  kp_statement d t ks t' := exists new_id, intake_statement new_id d t = Some (ks, t');
  kp_holds := holds;
  kp_commit d t d' := commit d t = Some d';
  kp_fails d t := commit d t = None /\ exists new_id, captures (visible (writes_of t) d) !! new_id = None
    /\ outbox_events (visible (writes_of t) d) !! new_id = None /\ intake_statement new_id d t = None;
  kp_other := bystander;
|}.

(** * One call by itself *)

Inductive Answer :=
| Delivery (r : Result BrowserCaptureInboxError BrowserCaptureDelivery)
| Submission (r : Result CaptureError SubmitOutcome).

Definition run_call (E : Env) (m : Call) (w : World) : Answer * World :=
  match m with
  | Deliver c => let '(r, w') := @deliver E Hrep c w in (Delivery r, w')
  | Reject c => let '(r, w') := @reject E Hrep c w in (Delivery r, w')
  | Submit r => let '(out, w') := @submit E r w in (Submission out, w')
  end.

(** What the call returns; a submission that found its key reads its answer in another statement. *)
Definition answer_of (t : Session) : option Answer :=
  match t with
  | Repeated _ _ => Some (Delivery (Ok Duplicate))
  | Answered _ _ capture_id _ _ => Some (Delivery (Ok (BrowserCapture.Accepted capture_id)))
  | RefusalFiled _ _ _ _ => Some (Delivery (Ok BrowserCapture.Rejected))
  | Submitted r now id _ => Some (Submission (Ok (Created (accepted r id now))))
  | _ => None
  end.

(** A run in which every round trip is answered, with its clock and the identifiers it mints. *)
Definition one_call (now : Time) (first second : Uuid) : Env := {|
  fault := fun _ => Delivered;
  io := io;
  bus := bus;
  clock := fun _ => now;
  mint := fun n => match n with O => first | S _ => second end;
  show_uuid := show_uuid;
  new_v5 := new_v5;
  sha256 := sha256;
|}.

#[local] Instance one_call_healthy now first second : Healthy (one_call now first second).
Proof. done. Qed.

(** The call of a session, run alone on the tables at the time it began: it leaves [d'] and gives the
    session's answer. *)
Definition ran_alone (t : Session) (d d' : db) : Prop :=
  exists first second answer w,
    run_call (one_call (began_at t) first second) (call_of t) (sample_world d) = (answer, w)
    /\ w_db w = d' /\ forall a, answer_of t = Some a -> answer = a.

(** * What a call relies on *)

Record claimed (id : Uuid) (outcome : string) (w : Writes) (d : db) : Prop := {
  cl_written : wr_inbox w = {[(CONSUMER_NAME, id) := outcome]};
  cl_absent : inbox_events d !! (CONSUMER_NAME, id) = None;
}.

(** The capture of a command is committed and locked, or it is the call's own row. *)
Inductive capture_stored (c : BrowserCaptureCommand) (now : Time) (id : Uuid) (rows : gmap Uuid capture_row)
  (d : db) : Prop :=
| stored_there row : rows = ∅ ->
    capture_by_key d (bc_user_ref c) (bc_idempotency_key c) = Some (id, row) -> capture_stored c now id rows d
| stored_here : rows = {[id := row_of_command c now]} ->
    capture_by_key d (bc_user_ref c) (bc_idempotency_key c) = None -> captures d !! id = None ->
    capture_stored c now id rows d.

(** The call's own report is accepted by every outbox without its event. *)
Definition filed (target : ReportTarget) (report : OperationReported) (now : Time) (event : Uuid)
  (rows : gmap Uuid outbox_row) (d : db) : Prop :=
  exists payload, rows = {[event := report_row target payload now]} /\ outbox_events d !! event = None
    /\ construct_report report = Ok () /\ pl_body payload = ReportBody report
    /\ forall d0, outbox_events d0 !! event = None -> file_report event target report now d0
         = Ok (set_outbox_events (<[event := report_row target payload now]> (outbox_events d0)) d0).

Definition knows (d : db) (t : Session) : Prop :=
  match t with
  | Delivering _ _ | Rejecting _ _ | Submitting _ _ => True
  | Repeated (Deliver c) _ => is_Some (inbox_events d !! (CONSUMER_NAME, bc_command_id c))
  | Repeated (Reject c) _ => is_Some (inbox_events d !! (CONSUMER_NAME, rj_command_id c))
  | Repeated (Submit _) _ => False
  | Claimed c _ w => claimed (bc_command_id c) "processed" w d /\ wr_captures w = ∅ /\ wr_outbox w = ∅
  | Refused c _ w => claimed (rj_command_id c) "rejected" w d /\ wr_captures w = ∅ /\ wr_outbox w = ∅
  | Stored c now id w => claimed (bc_command_id c) "processed" w d
      /\ capture_stored c now id (wr_captures w) d /\ wr_outbox w = ∅
  | Answered c now id event w => claimed (bc_command_id c) "processed" w d
      /\ capture_stored c now id (wr_captures w) d
      /\ filed (deliver_target c id) (QueuedReport (bc_operation_id c)) now event (wr_outbox w) d
  | RefusalFiled c now event w => claimed (rj_command_id c) "rejected" w d /\ wr_captures w = ∅
      /\ filed (reject_target c) (UnavailableReport (rj_operation_id c) SU_Inaccessible) now event (wr_outbox w) d
  | Submitted r now id w => wr_inbox w = ∅ /\ wr_captures w = {[id := row_of_request r now]} /\ wr_outbox w = ∅
      /\ capture_by_key d (rq_user_ref r) (rq_idempotency_key r) = None /\ captures d !! id = None
  end.

(** Commits that leave alone what the keys [H] stand for. *)
Record around (H : Arbiter -> Prop) (d d' : db) : Prop := {
  ar_inbox id : H (InboxKey id) -> inbox_events d !! (CONSUMER_NAME, id) = None ->
    inbox_events d' !! (CONSUMER_NAME, id) = None;
  ar_recorded id : is_Some (inbox_events d !! (CONSUMER_NAME, id)) -> is_Some (inbox_events d' !! (CONSUMER_NAME, id));
  ar_absent u k : H (CaptureKey u k) -> capture_by_key d u k = None -> capture_by_key d' u k = None;
  ar_present u k id row : H (CaptureKey u k) -> capture_by_key d u k = Some (id, row) ->
    exists row', capture_by_key d' u k = Some (id, row');
  ar_id id : H (CaptureId id) -> captures d !! id = None -> captures d' !! id = None;
  ar_event id : H (EventId id) -> outbox_events d !! id = None -> outbox_events d' !! id = None;
}.

Lemma claimed_around id outcome w t d d' : around (holds t) d d' -> writes_of t = w ->
  claimed id outcome w d -> claimed id outcome w d'.
Proof.
  intros Ha <- [Hw Hn]. split; [done|]. eapply ar_inbox; [done| |done]. cbn. rewrite Hw, lookup_singleton_eq. eauto.
Qed.

Lemma stored_around c now id w t d d' : around (holds t) d d' -> writes_of t = w ->
  locked_key t = Some (bc_user_ref c, bc_idempotency_key c) ->
  capture_stored c now id (wr_captures w) d -> capture_stored c now id (wr_captures w) d'.
Proof.
  intros Ha <- Hl [row Hr Hk|Hr Hk Hn].
  - destruct (ar_present _ _ _ Ha _ _ _ _ Hl Hk) as [row' Hk']. by eapply stored_there.
  - apply stored_here; [done|by eapply ar_absent|]. eapply ar_id; [done| |done].
    cbn. rewrite Hr, lookup_singleton_eq. eauto.
Qed.

Lemma filed_around target report now event w t d d' : around (holds t) d d' -> writes_of t = w ->
  filed target report now event (wr_outbox w) d -> filed target report now event (wr_outbox w) d'.
Proof.
  intros Ha <- (payload & Hw & Hn & Hrest). exists payload. split; [done|]. split; [|done].
  eapply ar_event; [done| |done]. cbn. rewrite Hw, lookup_singleton_eq. eauto.
Qed.

Lemma knows_around d d' t : around (holds t) d d' -> knows d t -> knows d' t.
Proof.
  intros Ha. destruct t as [| | |[c|c|r] now|c now w|c now w|c now id w|c now id event w|c now event w|r now id w];
    cbn [knows]; try done; try (by apply ar_recorded with (H := holds (Repeated (Deliver c) now)));
    try (by apply ar_recorded with (H := holds (Repeated (Reject c) now))).
  1-5: intros (? & ? & ?); split_and!; try done;
    first [by eapply (claimed_around _ _ _ _ _ _ Ha eq_refl)
          |by eapply (stored_around _ _ _ _ _ _ _ Ha eq_refl eq_refl)
          |by eapply (filed_around _ _ _ _ _ _ _ _ Ha eq_refl)].
  intros (Hi & Hc & Ho & Hk & Hn). split_and!; try done; [by eapply ar_absent|].
  eapply ar_id; [done| |done]. cbn. rewrite Hc, lookup_singleton_eq. eauto.
Qed.

(** * What a commit changes *)

(** The capture a call has written, if any, is new and under its locked key. *)
Lemma knows_captures d t : knows d t ->
  wr_captures (writes_of t) = ∅ \/ exists id row, wr_captures (writes_of t) = {[id := row]}
    /\ captures d !! id = None /\ capture_by_key d (c_user_ref row) (c_idempotency_key row) = None
    /\ locked_key t = Some (key_of row).
Proof.
  destruct t as [| | |m now|c now w|c now w|c now id w|c now id event w|c now event w|r now id w]; cbn;
    try (intros; by left); try (intros (_ & ? & _); by left).
  - intros (_ & [row Hr _|Hr Hk Hn] & _); [by left|right]. by eexists id, _.
  - intros (_ & [row Hr _|Hr Hk Hn] & _); [by left|right]. by eexists id, _.
  - intros (_ & Hr & _ & Hk & Hn). right. by eexists id, _.
Qed.

(** The tables grow by rows under the keys that are held. *)
Record grown (H : Arbiter -> Prop) (d d' : db) : Prop := {
  gr_inbox id : ~ H (InboxKey id) -> inbox_events d' !! (CONSUMER_NAME, id) = inbox_events d !! (CONSUMER_NAME, id);
  gr_recorded id : is_Some (inbox_events d !! (CONSUMER_NAME, id)) -> is_Some (inbox_events d' !! (CONSUMER_NAME, id));
  gr_captures id c : captures d' !! id = Some c ->
    captures d !! id = Some c \/ (H (CaptureKey (c_user_ref c) (c_idempotency_key c)) /\ H (CaptureId id));
  gr_kept : captures d ⊆ captures d';
  gr_event id : ~ H (EventId id) -> outbox_events d' !! id = outbox_events d !! id;
}.

Lemma visible_grown d t : knows d t -> grown (holds t) d (visible (writes_of t) d).
Proof.
  intros Hknows. pose proof (knows_captures _ _ Hknows) as Hc. split; cbn.
  - intros id Hn. apply lookup_union_r. by apply eq_None_not_Some.
  - intros id Hin. apply lookup_union_is_Some. by right.
  - intros id c [Hw|[_ Hd]]%lookup_union_Some_raw; [right|by left]. split; [|eauto].
    destruct Hc as [E|(id' & row & E & _ & _ & Hl)]; rewrite E in Hw; [done|].
    by apply lookup_singleton_Some in Hw as [_ <-].
  - apply map_union_subseteq_r. destruct Hc as [->|(id & row & -> & Hn & _)]; [apply map_disjoint_empty_l|].
    by apply map_disjoint_singleton_l.
  - intros id Hn. apply lookup_union_r. by apply eq_None_not_Some.
Qed.

Lemma visible_keys_unique d t : knows d t -> keys_unique d -> keys_unique (visible (writes_of t) d).
Proof.
  intros Hknows Hu. unfold keys_unique. cbn. destruct (knows_captures _ _ Hknows) as [->|(id & row & -> & Hn & Hk & _)].
  - rewrite (left_id_L ∅ (∪)). exact Hu.
  - rewrite <- insert_union_singleton_l. by apply (keys_unique_insert d id row).
Qed.

Lemma by_key_unique d id c : keys_unique d -> captures d !! id = Some c ->
  capture_by_key d (c_user_ref c) (c_idempotency_key c) = Some (id, c).
Proof.
  intros Hu Hc. destruct (capture_by_key d _ _) as [[id' c']|] eqn:E.
  - apply capture_by_key_Some in E as (Hc' & Hou & Hok).
    assert (id' = id) as -> by (eapply Hu; eauto). by simplify_eq.
  - by destruct (proj1 (capture_by_key_None _ _ _) E _ _ Hc).
Qed.

(** What one call commits leaves the others their knowledge. *)
Lemma grown_around H H' d d' : keys_unique d' -> grown H d d' -> (forall k, H k -> ~ H' k) -> around H' d d'.
Proof.
  intros Hu [Hi Hrec Hc Hkept Ho] Hdis. split.
  - intros id Hh Hn. rewrite Hi; [done|]. intros Hh'. by eapply Hdis.
  - done.
  - intros u k Hh Hn. apply capture_by_key_None. intros id c Hd [Hcu Hck].
    destruct (Hc _ _ Hd) as [Hold|[Hkey _]].
    + by destruct (proj1 (capture_by_key_None _ _ _) Hn _ _ Hold).
    + apply (Hdis _ Hkey). by rewrite Hcu, Hck.
  - intros u k id row Hh (Hd & <- & <-)%capture_by_key_Some. exists row. apply by_key_unique; [done|].
    by eapply lookup_weaken.
  - intros id Hh Hn. destruct (captures d' !! id) as [c|] eqn:E; [|done].
    destruct (Hc _ _ E) as [|[_ Hid]]; [congruence|]. by destruct (Hdis _ Hid).
  - intros id Hh Hn. rewrite Ho; [done|]. intros Hh'. by eapply Hdis.
Qed.

(** Nor does a bystander take it away. *)
Lemma bystander_keys H d d' : bystander H d d' -> keys_unique d -> keys_unique d'.
Proof.
  intros Hby Hu id1 id2 c1 c2 H1 H2 Ho Hk.
  destruct (by_captures _ _ _ Hby _ _ H1) as (b1 & Hb1 & [= E1 E1']), (by_captures _ _ _ Hby _ _ H2) as (b2 & Hb2 & [= E2 E2']).
  eapply Hu; [done|done|congruence|congruence].
Qed.

Lemma bystander_around H H' d d' : keys_unique d -> bystander H d d' -> (forall k, H' k -> H k) -> around H' d d'.
Proof.
  intros Hu Hby Hsub. pose proof (bystander_keys _ _ _ Hby Hu) as Hu'. destruct Hby as [Hi Hc Hl He _ _]. split.
  - intros id _ Hn. by rewrite Hi.
  - intros id. by rewrite Hi.
  - intros u k _ Hn. apply capture_by_key_None. intros id c Hd [Hcu Hck].
    destruct (Hc _ _ Hd) as (c0 & Hd0 & [= E1 E2]).
    destruct (proj1 (capture_by_key_None _ _ _) Hn _ _ Hd0). split; congruence.
  - intros u k id row Hh (Hd & Hcu & Hck)%capture_by_key_Some.
    destruct (Hl _ _ Hd) as [row' Hd']; [apply Hsub; by rewrite Hcu, Hck|]. exists row'.
    destruct (Hc _ _ Hd') as (c0 & Hd0 & [= E1 E2]). simplify_eq.
    rewrite E1, E2. by apply by_key_unique.
  - intros id _ Hn. destruct (captures d' !! id) as [c|] eqn:E; [|done].
    destruct (Hc _ _ E) as (c0 & Hd0 & _). congruence.
  - intros id Hh Hn. auto.
Qed.

(** * The statements *)

Lemma visible_by_key w d u k : wr_captures w = ∅ -> capture_by_key (visible w d) u k = capture_by_key d u k.
Proof. intros Hw. unfold capture_by_key, visible. cbn. by rewrite Hw, (left_id_L ∅ (∪)). Qed.

Lemma claim_row_Ok id outcome now d b v : claim_row id outcome now d = Ok (b, v) -> b = true ->
  inbox_events d !! (CONSUMER_NAME, id) = None /\ noted (CONSUMER_NAME, id) (inbox_events v) ∅ = {[(CONSUMER_NAME, id) := outcome]}.
Proof.
  unfold claim_row. destruct (inbox_events d !! _) eqn:E; intros; simplify_eq/=. split; [done|].
  unfold noted. by rewrite lookup_insert_eq.
Qed.

Lemma claim_row_found id outcome now d v : claim_row id outcome now d = Ok (false, v) ->
  is_Some (inbox_events d !! (CONSUMER_NAME, id)).
Proof. unfold claim_row. destruct (inbox_events d !! _); intros; simplify_eq; eauto. Qed.

Lemma upsert_stored new_id c now w d id v : wr_captures w = ∅ ->
  upsert_command new_id c now (visible w d) = Ok (id, v) ->
  capture_stored c now id
    (if bool_decide (captures (visible w d) !! id = None) then noted id (captures v) (wr_captures w) else wr_captures w) d.
Proof.
  intros Hw. assert (captures (visible w d) = captures d) as Hcaps by (cbn; by rewrite Hw, (left_id_L ∅ (∪))).
  intros [(row & Hk & ->)|(-> & Hk & Hn & ->)]%upsert_command_Ok; rewrite visible_by_key in Hk by done.
  - rewrite bool_decide_eq_false_2; [by eapply stored_there|]. rewrite Hcaps.
    apply capture_by_key_Some in Hk as (-> & _). done.
  - rewrite bool_decide_eq_true_2 by done. rewrite Hcaps in Hn. apply stored_here; [|done|done].
    unfold noted. cbn. by rewrite lookup_insert_eq, Hw, insert_empty.
Qed.

Context `{!ReportLaws Hrep}.

Lemma file_filed new_id target report now w d v : wr_outbox w = ∅ -> construct_report report = Ok () ->
  file_report new_id target report now (visible w d) = Ok v ->
  filed target report now new_id (noted new_id (outbox_events v) (wr_outbox w)) d.
Proof using All.
  intros Hw Hc (payload & Hn & Hb & -> & Hany)%file_report_Ok. exists payload.
  cbn in Hn. rewrite Hw, (left_id_L ∅ (∪)) in Hn. split_and!; try done.
  unfold noted. cbn. by rewrite lookup_insert_eq, Hw, insert_empty.
Qed.

Lemma statement_knows new_id d t ks t' : knows d t -> intake_statement new_id d t = Some (ks, t') -> knows d t'.
Proof using All.
  intros Hk Hnext. destruct t as [c now|c now|r now| |c now w|c now w|c now id w| | |]; cbn in Hnext, Hk; try done.
  - destruct (claim_row _ _ _ _) as [[[] v]|] eqn:E; simplify_eq/=; [|by eapply claim_row_found].
    destruct (claim_row_Ok _ _ _ _ _ _ E eq_refl). by split_and!; [split|..].
  - destruct (claim_row _ _ _ _) as [[[] v]|] eqn:E; simplify_eq/=; [|by eapply claim_row_found].
    destruct (claim_row_Ok _ _ _ _ _ _ E eq_refl). by split_and!; [split|..].
  - destruct (insert_submission _ _ _ _) as [[[[id ?]|] v]|] eqn:E; simplify_eq/=.
    apply insert_submission_Ok in E as [([=] & _)|([= -> ->] & Hn & Hkey & ->)]. split_and!; try done.
    unfold noted. cbn. by rewrite lookup_insert_eq.
  - destruct Hk as ([Hi Hn] & Hc & Ho). destruct (upsert_command _ _ _ _) as [[id v]|] eqn:E; [|done].
    pose proof (upsert_stored _ _ _ _ _ _ _ Hc E) as Hst. cbn in Hst.
    case_bool_decide; injection Hnext as <- <-; by split_and!; [split|..].
  - destruct Hk as ([Hi Hn] & Hc & Ho). destruct (construct_report _) as [[]|] eqn:Ec; [|done].
    destruct (file_report _ _ _ _ _) eqn:Ef; simplify_eq/=. split_and!; [done|done|by eapply file_filed].
  - destruct Hk as ([Hi Hn] & Hc & Ho). destruct (construct_report _) as [[]|] eqn:Ec; [|done].
    destruct (file_report _ _ _ _ _) eqn:Ef; simplify_eq/=. split_and!; [done|done|by eapply file_filed].
Qed.

(** A row that is written under a key was already there, or is the one that was waited for. *)
Lemma noted_Some {K A} `{Countable K} (k j : K) (after ws : gmap K A) :
  is_Some (noted k after ws !! j) -> is_Some (ws !! j) \/ j = k.
Proof.
  unfold noted. destruct (after !! k); [|by left]. intros [x [[-> _]|[_ Hj]]%lookup_insert_Some]; eauto.
Qed.

Lemma statement_waited new_id d t ks t' k : intake_statement new_id d t = Some (ks, t') -> holds t' k ->
  holds t k \/ k ∈ ks.
Proof.
  destruct t as [c now|c now|r now| |c now w|c now w|c now id w| | |]; cbn; try done;
    intros Hnext; repeat case_match; simplify_eq/=; destruct k; cbn; try rewrite lookup_empty;
    try (by intros []); try (by auto);
    try (intros [Hold|Hnew]%noted_Some; [try (rewrite lookup_empty in Hold; by destruct Hold); by left
      |simplify_eq; right; set_solver]).
  all: intros; simplify_eq; right; set_solver.
Qed.

(** * A committed call is the same call run alone *)

Lemma visible_rows w d : visible w d = set_outbox_events (wr_outbox w ∪ outbox_events d)
  (set_inbox_events (wr_inbox w ∪ inbox_events d) (set_captures (wr_captures w ∪ captures d) d)).
Proof. done. Qed.

Lemma set_captures_same d : set_captures (captures d) d = d.
Proof. by destruct d. Qed.

(** The upsert of a delivery that runs now, with the identifier it stored or minted. *)
Lemma upsert_again c now id rows inbox d : capture_stored c now id rows d ->
  upsert_command id c now (set_inbox_events inbox d)
  = Ok (id, set_inbox_events inbox (set_captures (rows ∪ captures d) d)).
Proof.
  intros [row -> Hk| -> Hk Hn]; unfold upsert_command.
  - change (capture_by_key (set_inbox_events inbox d)) with (capture_by_key d). rewrite Hk.
    by rewrite (left_id_L ∅ (∪)), set_captures_same.
  - change (capture_by_key (set_inbox_events inbox d)) with (capture_by_key d). rewrite Hk.
    by rewrite insert_command_accepted, <- insert_union_singleton_l.
Qed.

Lemma deliver_again c now id event w d :
  knows d (Answered c now id event w) -> ran_alone (Answered c now id event w) d (visible w d).
Proof.
  intros ([Hi Hn] & Hst & payload & Ho & Hev & Hc & Hb & Hany). exists id, event.
  set (inbox := <[(CONSUMER_NAME, bc_command_id c) := "processed"]> (inbox_events d)).
  pose proof (upsert_again _ _ _ _ inbox _ Hst) as Hup.
  set (d2 := set_inbox_events inbox (set_captures _ d)) in Hup.
  destruct (@append_report_filed (one_call now id event) Hrep _ (deliver_target c id) (QueuedReport (bc_operation_id c))
    (mkWorld d2 3 1 (Some now) ∅ []) _ (Hany d2 Hev)) as (w1 & Happ & Hw1).
  assert (@deliver_body (one_call now id event) Hrep c (@txn_start (one_call now id event) (sample_world d))
    = (Ok (Commit (BrowserCapture.Accepted id)), w1)) as Hbody.
  { unfold deliver_body, claim_delivery. run_steps; cbn.
    - unfold claim_row. by rewrite Hn.
    - cbn. run_steps.
      + exact Hup.
      + by rewrite Hc.
      + exact Happ. }
  eexists _, _. cbn [call_of began_at run_call]. unfold deliver.
  rewrite (@transaction_run (one_call now id event) _ _ _ InboxPersistence _ _ _ _ Hbody).
  split; [done|]. split; [|by intros a [= <-]]. cbn. rewrite Hw1.
  by rewrite visible_rows, Hi, Ho, <- !insert_union_singleton_l.
Qed.

Lemma reject_again c now event w d :
  knows d (RefusalFiled c now event w) -> ran_alone (RefusalFiled c now event w) d (visible w d).
Proof.
  intros ([Hi Hn] & Hcaps & payload & Ho & Hev & Hc & Hb & Hany). exists event, event.
  set (d2 := set_inbox_events (<[(CONSUMER_NAME, rj_command_id c) := "rejected"]> (inbox_events d)) d).
  destruct (@append_report_filed (one_call now event event) Hrep _ (reject_target c)
    (UnavailableReport (rj_operation_id c) SU_Inaccessible)
    (mkWorld d2 2 0 (Some now) ∅ []) _ (Hany d2 Hev)) as (w1 & Happ & Hw1).
  assert (@reject_body (one_call now event event) Hrep c (@txn_start (one_call now event event) (sample_world d))
    = (Ok (Commit BrowserCapture.Rejected), w1)) as Hbody.
  { unfold reject_body, claim_delivery. run_steps; cbn.
    - unfold claim_row. by rewrite Hn.
    - cbn [negb]. run_steps; [by rewrite Hc|exact Happ]. }
  eexists _, _. cbn [call_of began_at run_call]. unfold reject.
  rewrite (@transaction_run (one_call now event event) _ _ _ InboxPersistence _ _ _ _ Hbody).
  split; [done|]. split; [|by intros a [= <-]]. cbn. rewrite Hw1.
  by rewrite visible_rows, Hi, Ho, Hcaps, (left_id_L ∅ (∪)), set_captures_same, <- !insert_union_singleton_l.
Qed.

Lemma submit_again r now id w d :
  knows d (Submitted r now id w) -> ran_alone (Submitted r now id w) d (visible w d).
Proof.
  intros (Hi & Hc & Ho & Hk & Hn). exists id, id.
  assert (exists w1, @submit (one_call now id id) r (sample_world d) = (Ok (Created (accepted r id now)), w1)
    /\ w_db w1 = set_captures (<[id := row_of_request r now]> (captures d)) d) as (w1 & Hrun & Hw1).
  { eexists. split; [unfold submit; run_steps|].
    - cbn. unfold insert_submission. rewrite Hk. by rewrite insert_request_accepted.
    - reflexivity.
    - done. }
  eexists _, _. cbn [call_of began_at run_call]. rewrite Hrun. split; [done|]. split; [|by intros a [= <-]].
  rewrite Hw1, visible_rows, Hi, Hc, Ho, !(left_id_L ∅ (∪)), <- insert_union_singleton_l. by destruct d.
Qed.

(** A call that finds its key writes nothing. *)
Lemma repeated_again m now d : knows d (Repeated m now) -> ran_alone (Repeated m now) d d.
Proof.
  intros Hk. exists 0%N, 0%N. destruct m as [c|c|r]; [| |done]; cbn in Hk; destruct Hk as [outcome Hk].
  - assert (exists w1, @deliver_body (one_call now 0%N 0%N) Hrep c (@txn_start (one_call now 0%N 0%N) (sample_world d))
      = (Ok (Commit Duplicate), w1) /\ w_db w1 = d) as (w1 & Hbody & Hw1).
    { eexists. split; [unfold deliver_body, claim_delivery; run_steps|].
      - cbn. unfold claim_row. by rewrite Hk.
      - reflexivity.
      - done. }
    eexists _, _. cbn [call_of began_at run_call]. unfold deliver.
    rewrite (@transaction_run (one_call now 0%N 0%N) _ _ _ InboxPersistence _ _ _ _ Hbody).
    split; [done|]. split; [done|by intros a [= <-]].
  - assert (exists w1, @reject_body (one_call now 0%N 0%N) Hrep c (@txn_start (one_call now 0%N 0%N) (sample_world d))
      = (Ok (Commit Duplicate), w1) /\ w_db w1 = d) as (w1 & Hbody & Hw1).
    { eexists. split; [unfold reject_body, claim_delivery; run_steps|].
      - cbn. unfold claim_row. by rewrite Hk.
      - reflexivity.
      - done. }
    eexists _, _. cbn [call_of began_at run_call]. unfold reject.
    rewrite (@transaction_run (one_call now 0%N 0%N) _ _ _ InboxPersistence _ _ _ _ Hbody).
    split; [done|]. split; [done|by intros a [= <-]].
Qed.

Lemma replay_again r now d : is_Some (capture_by_key d (rq_user_ref r) (rq_idempotency_key r)) ->
  ran_alone (Submitting r now) d d.
Proof.
  intros [[id row] Hk]. exists 0%N, 0%N. cbn [call_of began_at run_call].
  destruct (@submit (one_call now 0%N 0%N) r (sample_world d)) as [out w1] eqn:Hrun. eexists _, _. split; [done|].
  split; [|done]. revert Hrun. unfold submit, bind, now_v7, mapErr, read, query. cbn.
  unfold insert_submission. rewrite Hk. cbn. rewrite Hk. cbn.
  by destruct (record_from_row id row); cbn; intros [= <- <-].
Qed.

(** A call that has not begun to write keeps nothing. *)
Lemma opening_free t k : kp_begin intake_protocol t -> ~ holds t k.
Proof. intros Hb. destruct t, k; try done; by intros []. Qed.

(** * Any interleaving *)

Record intake_inv (d : db) : Prop := {
  ii_keys : keys_unique d;
  ii_answers : Archive.answered_at_most_once d;
}.

(** A command is recorded together with its one answer. *)
Lemma answers_committed d t d' : knows d t -> commit d t = Some d' ->
  Archive.answered_at_most_once d -> Archive.answered_at_most_once d'.
Proof using All.
  intros Hk Hc Ha. destruct t as [| | |m now|c now w|c now w|c now id w|c now id event w|c now event w|r now id w];
    cbn in Hc; try done; try (case_match; [|done]); injection Hc as <-; [done|done|..].
  - destruct Hk as ([Hi Hn] & Hst & payload & Ho & Hev & _ & Hb & _).
    eapply (Archive.answered_claimed d _ (bc_command_id c) "processed" event
        (report_row (deliver_target c id) payload now));
      [done|done|done|reflexivity| |cbn; by rewrite Ho, <- insert_union_singleton_l
      |cbn; by rewrite Hi, <- insert_union_singleton_l].
    unfold queued_by, refused_by, report_row, new_outbox_row. cbn. by rewrite Hb, bool_decide_eq_true_2.
  - destruct Hk as ([Hi Hn] & Hst & payload & Ho & Hev & _ & Hb & _).
    eapply (Archive.answered_claimed d _ (rj_command_id c) "rejected" event
        (report_row (reject_target c) payload now));
      [done|done|done|reflexivity| |cbn; by rewrite Ho, <- insert_union_singleton_l
      |cbn; by rewrite Hi, <- insert_union_singleton_l].
    unfold queued_by, refused_by, report_row, new_outbox_row. cbn. by rewrite Hb, bool_decide_eq_true_2.
  - destruct Hk as (Hi & _ & Ho & _). unfold Archive.answered_at_most_once, visible. cbn.
    rewrite Hi, Ho, !(left_id_L ∅ (∪)). exact Ha.
Qed.

Lemma commit_again d t d' : knows d t -> commit d t = Some d' -> ran_alone t d d'.
Proof.
  intros Hk Hc. destruct t as [| |r now|m now| | | | | |]; cbn in Hc; try done; simplify_eq.
  - destruct (capture_by_key d _ _) eqn:E; simplify_eq. apply replay_again. by rewrite E.
  - by apply repeated_again.
  - by eapply deliver_again.
  - by eapply reject_again.
  - by eapply submit_again.
Qed.

Lemma commit_writes d t d' : commit d t = Some d' -> d' = d \/ d' = visible (writes_of t) d.
Proof. destruct t; cbn; intros; repeat case_match; simplify_eq; auto. Qed.

Lemma bystander_answers H d d' : bystander H d d' ->
  Archive.answered_at_most_once d -> Archive.answered_at_most_once d'.
Proof.
  intros Hby Ha id. specialize (Ha id). cbv zeta in *. rewrite (by_inbox _ _ _ Hby).
  pose proof (by_queued _ _ _ Hby id). pose proof (by_refused _ _ _ Hby id).
  pose proof (count_where_nonneg (outbox_events d') (queued_by id)).
  pose proof (count_where_nonneg (outbox_events d') (refused_by id)).
  repeat case_match; lia.
Qed.

#[global] Instance intake_laws : KeyLaws intake_protocol intake_inv knows ran_alone.
Proof using All.
  split; cbn.
  - intros d t Hb. by destruct t.
  - intros t k. apply opening_free.
  - intros d t ks t' _ Hk (new_id & Hnext). by eapply statement_knows.
  - intros d t ks t' k (new_id & Hnext). by eapply statement_waited.
  - intros d t d' [Hu Ha] Hk Hc. split; [split|by eapply commit_again]; [|by eapply answers_committed].
    destruct (commit_writes _ _ _ Hc) as [->| ->]; [done|by apply visible_keys_unique].
  - intros d t d' u [Hu Ha] Ht Hk Hc Hdis. destruct (commit_writes _ _ _ Hc) as [->| ->]; [done|].
    eapply knows_around; [|done]. eapply grown_around; [by apply visible_keys_unique|by apply visible_grown|done].
  - intros H d d' [Hu Ha] Hby. split; [split; [by eapply bystander_keys|by eapply bystander_answers]|].
    intros t Hk Hsub. eapply knows_around; [|done]. by eapply bystander_around.
Qed.

Lemma call_of_statement d t ks t' : kp_statement intake_protocol d t ks t' -> call_of t' = call_of t.
Proof. intros [new_id Hnext]. destruct t; cbn in Hnext; try done; repeat case_match; by simplify_eq/=. Qed.


(** * Nobody waits in a circle *)

#[global] Instance holds_dec t k : Decision (holds t k).
Proof. destruct k; unfold holds; apply _. Defined.

Definition session_holds (k : Arbiter) (s : option Session) : Prop :=
  match s with Some t => holds t k | None => False end.

#[global] Instance session_holds_dec k s : Decision (session_holds k s).
Proof. destruct s; unfold session_holds; apply _. Defined.

(** A key is free for a session that does not keep it, or another session keeps it. *)
Lemma free_or_kept (ts : list (option Session)) i t k : ts !! i = Some (Some t) -> ~ holds t k ->
  free intake_protocol ts i [k] \/ exists j u, ts !! j = Some (Some u) /\ holds u k.
Proof.
  intros Hi Ht. destruct (decide (Exists (session_holds k) ts)) as [He|Hn].
  - right. apply Exists_exists in He as ([u|] & [j Hj]%list_elem_of_lookup & Hu); [eauto|done].
  - left. intros j k' ->%list_elem_of_singleton (u & Hj & Hu). destruct Hn. apply Exists_exists.
    exists (Some u). split; [by eapply list_elem_of_lookup_2|done].
Qed.

(** The identifiers of uncommitted rows. *)
Definition private_ids (ts : list (option Session)) : gset Uuid :=
  ⋃ ((fun s => match s with
               | Some t => dom (wr_captures (writes_of t)) ∪ dom (wr_outbox (writes_of t))
               | None => ∅
               end) <$> ts).

(** [Uuid::now_v7] can mint an identifier that no row has, committed or not. *)
Lemma fresh_id (ts : list (option Session)) d : exists id, captures d !! id = None /\ outbox_events d !! id = None
  /\ forall j u, ts !! j = Some (Some u) ->
       wr_captures (writes_of u) !! id = None /\ wr_outbox (writes_of u) !! id = None.
Proof.
  set (used := dom (captures d) ∪ dom (outbox_events d) ∪ private_ids ts).
  pose proof (is_fresh used) as Hf. exists (fresh used). generalize dependent (fresh used).
  intros id Hf. unfold used in Hf.
  rewrite !not_elem_of_union, !not_elem_of_dom in Hf. destruct Hf as [[Hc Ho] Hp]. split_and!; [done|done|].
  intros j u Hj. rewrite <- !not_elem_of_dom, <- not_elem_of_union. intros Hin. apply Hp.
  apply elem_of_union_list. eexists. split; [|exact Hin]. apply list_elem_of_fmap.
  exists (Some u). split; [done|by eapply list_elem_of_lookup_2].
Qed.

Lemma fresh_free (ts : list (option Session)) i id ks : (forall j u, ts !! j = Some (Some u) ->
    wr_captures (writes_of u) !! id = None /\ wr_outbox (writes_of u) !! id = None) ->
  free intake_protocol ts i ks -> forall k, k = CaptureId id \/ k = EventId id -> free intake_protocol ts i (ks ++ [k])%list.
Proof.
  intros Hf Hks k Hk j k' [Hin| ->%list_elem_of_singleton]%elem_of_app (u & Hj & Hu); [eapply Hks; [done|by exists u]|].
  exfalso. destruct (Hf _ _ Hj) as [Hc Ho]. destruct Hk as [-> | ->]; cbn in Hu.
  - rewrite Hc in Hu. by destruct Hu.
  - rewrite Ho in Hu. by destruct Hu.
Qed.

(** A call that has its report, or none to write, commits. *)
Lemma settled_advances d (ts : list (option Session)) i t d' : ts !! i = Some (Some t) -> commit d t = Some d' ->
  advances intake_protocol (mk_sessions d ts) i.
Proof. intros Hi Hc. eexists. exact (advance_commit intake_protocol _ _ _ _ _ Hi Hc). Qed.

Lemma statement_advances d (ts : list (option Session)) i t new_id ks t' : ts !! i = Some (Some t) ->
  intake_statement new_id d t = Some (ks, t') -> free intake_protocol ts i ks ->
  advances intake_protocol (mk_sessions d ts) i.
Proof. intros Hi Hn Hf. eexists. eapply (advance_statement intake_protocol); [done|by exists new_id|done]. Qed.

(** A call that has every key but that of its report files it, or returns that it is refused. *)
Lemma filing_advances d (ts : list (option Session)) i t : ts !! i = Some (Some t) ->
  match t with Stored _ _ _ _ | Refused _ _ _ => True | _ => False end ->
  advances intake_protocol (mk_sessions d ts) i.
Proof.
  intros Hi Ht. destruct (fresh_id ts d) as (id & Hc & Ho & Hp). destruct (Hp _ _ Hi) as [Hwc Hw].
  assert (free intake_protocol ts i []) as Hnil by (by intros j k []%not_elem_of_nil).
  pose proof (fresh_free ts i id [] Hp Hnil (EventId id) (or_intror eq_refl)) as Hfree.
  destruct (intake_statement id d t) as [[ks t']|] eqn:Hnext.
  - eapply (statement_advances _ _ _ _ id); [done|exact Hnext|].
    destruct t; try done; cbn in Hnext; repeat case_match; by simplify_eq/=.
  - eexists. eapply (advance_error intake_protocol); [done|]. split; [by destruct t|]. exists id.
    split_and!; [cbn; by rewrite lookup_union_None..|done].
Qed.

(** A call that keeps the key of a capture has nothing to wait for. *)
Lemma capture_holder_advances d (ts : list (option Session)) i t u k : ts !! i = Some (Some t) -> holds t (CaptureKey u k) ->
  advances intake_protocol (mk_sessions d ts) i.
Proof.
  intros Hi Ht. destruct t; try done; first [by eapply filing_advances|by eapply settled_advances].
Qed.

Lemma claimed_advances d (ts : list (option Session)) i c now w : ts !! i = Some (Some (Claimed c now w)) ->
  exists j, advances intake_protocol (mk_sessions d ts) j.
Proof.
  intros Hi. destruct (free_or_kept ts i _ (CaptureKey (bc_user_ref c) (bc_idempotency_key c)) Hi) as [Hf|(j & u & Hj & Hu)];
    [done| |exists j; by eapply capture_holder_advances].
  exists i. destruct (fresh_id ts d) as (id & Hc & Ho & Hp). destruct (Hp _ _ Hi) as [Hw _].
  destruct (upsert_command_total id c now (visible w d)) as (a & caps & Hup);
    [cbn; by rewrite lookup_union_None|].
  destruct (bool_decide (captures (visible w d) !! a = None)) eqn:E.
  - assert (a = id) as ->.
    { apply upsert_command_Ok in Hup as [(row & (Hk & _)%capture_by_key_Some & _)|(-> & _)]; [|done].
      apply bool_decide_eq_true in E. congruence. }
    eapply (statement_advances _ _ _ _ id); [done|cbn [intake_statement]; rewrite Hup, E; done|].
    by apply (fresh_free ts i id [_] Hp Hf _ (or_introl eq_refl)).
  - eapply (statement_advances _ _ _ _ id); [done|cbn [intake_statement]; rewrite Hup, E; done|done].
Qed.

(** A call that keeps the record of a command can go on, or waits for one that can. *)
Lemma recorder_advances d (ts : list (option Session)) i t id : ts !! i = Some (Some t) -> holds t (InboxKey id) ->
  exists j, advances intake_protocol (mk_sessions d ts) j.
Proof.
  intros Hi Ht. destruct t; try (by destruct Ht);
    first [by eapply claimed_advances|exists i; first [by eapply filing_advances|by eapply settled_advances]].
Qed.

Lemma open_advances d (ts : list (option Session)) i t : ts !! i = Some (Some t) ->
  exists j, advances intake_protocol (mk_sessions d ts) j.
Proof.
  intros Hi. assert (free intake_protocol ts i []) as Hnil by (by intros j k []%not_elem_of_nil).
  destruct t as [c now|c now|r now| |c now w|c now w|c now id w|c now id event w|c now event w|r now id w];
    try (exists i; first [by eapply filing_advances|by eapply settled_advances]).
  - destruct (inbox_events d !! (CONSUMER_NAME, bc_command_id c)) eqn:E.
    { exists i. eapply (statement_advances _ _ _ _ 0%N); [done|cbn; unfold claim_row; by rewrite E|done]. }
    destruct (free_or_kept ts i _ (InboxKey (bc_command_id c)) Hi) as [Hf|(j & u & Hj & Hu)];
      [by intros []| |by eapply recorder_advances].
    exists i. eapply (statement_advances _ _ _ _ 0%N); [done|cbn; unfold claim_row; by rewrite E|done].
  - destruct (inbox_events d !! (CONSUMER_NAME, rj_command_id c)) eqn:E.
    { exists i. eapply (statement_advances _ _ _ _ 0%N); [done|cbn; unfold claim_row; by rewrite E|done]. }
    destruct (free_or_kept ts i _ (InboxKey (rj_command_id c)) Hi) as [Hf|(j & u & Hj & Hu)];
      [by intros []| |by eapply recorder_advances].
    exists i. eapply (statement_advances _ _ _ _ 0%N); [done|cbn; unfold claim_row; by rewrite E|done].
  - destruct (fresh_id ts d) as (id & Hc & Ho & Hp).
    destruct (capture_by_key d (rq_user_ref r) (rq_idempotency_key r)) eqn:E.
    { exists i. eapply (settled_advances _ _ _ _ d); [done|cbn; by rewrite E]. }
    destruct (free_or_kept ts i _ (CaptureKey (rq_user_ref r) (rq_idempotency_key r)) Hi) as [Hf|(j & u & Hj & Hu)];
      [done| |exists j; by eapply capture_holder_advances].
    exists i. eapply (statement_advances _ _ _ _ id); [done| |by apply (fresh_free ts i id [_] Hp Hf _ (or_introl eq_refl))].
    cbn. unfold insert_submission. by rewrite E, insert_request_accepted.
  - by eapply claimed_advances.
Qed.

(** The statements a call still has to send. *)
Definition remaining (t : Session) : nat :=
  match t with
  | Delivering _ _ => 3
  | Rejecting _ _ | Claimed _ _ _ => 2
  | Submitting _ _ | Refused _ _ _ | Stored _ _ _ _ => 1
  | Repeated _ _ | Answered _ _ _ _ _ | RefusalFiled _ _ _ _ | Submitted _ _ _ _ => 0
  end.

Lemma statement_remaining d t ks t' : kp_statement intake_protocol d t ks t' -> remaining t' < remaining t.
Proof.
  intros [new_id Hnext]. cbn in Hnext. destruct t; cbn in *; try done; repeat case_match; simplify_eq/=; lia.
Qed.

(** The contract crates refuse the report the call has to file. *)
Definition report_refused (d : db) (t : Session) : Prop :=
  let refuses target report now w := (exists x, construct_report report = Err x)
    \/ exists event x, file_report event target report now (visible w d) = Err (ReportContract x) in
  match t with
  | Stored c now id w => refuses (deliver_target c id) (QueuedReport (bc_operation_id c)) now w
  | Refused c now w => refuses (reject_target c) (UnavailableReport (rj_operation_id c) SU_Inaccessible) now w
  | _ => False
  end.

(** No other statement of the intake is an error. *)
Lemma fails_refused d t : kp_fails intake_protocol d t -> report_refused d t.
Proof.
  intros (Hcommit & id & Hc & Ho & Hnext). destruct t as [c now|c now|r now|m now|c now w|c now w|c now cap w| | |];
    cbn in Hcommit, Hc, Ho; try done; cbn in Hnext.
  - unfold claim_row in Hnext. by destruct (inbox_events d !! _).
  - unfold claim_row in Hnext. by destruct (inbox_events d !! _).
  - unfold insert_submission in Hnext. destruct (capture_by_key _ _ _); [done|].
    rewrite (left_id_L ∅ (∪)) in Hc. by rewrite insert_request_accepted in Hnext.
  - destruct (upsert_command_total id c now (visible w d) Hc) as (a & caps & Hup). rewrite Hup in Hnext.
    by case_bool_decide.
  - cbn. destruct (construct_report _) eqn:Ec; [|left; eauto]. right.
    destruct (file_report id _ _ _ _) eqn:Ef; [done|].
    destruct (file_report_refused _ _ _ _ (visible w d) _ Ho Ef) as [x ->]. eauto.
  - cbn. destruct (construct_report _) eqn:Ec; [|left; eauto]. right.
    destruct (file_report id _ _ _ _) eqn:Ef; [done|].
    destruct (file_report_refused _ _ _ _ (visible w d) _ Ho Ef) as [x ->]. eauto.
Qed.

(** [C5] Concurrent intake neither deadlocks nor starves: whatever calls are open, every schedule of
    their statements, commits and returned errors ends after at most four steps per call, and all of
    them can end that way, none cut short from outside; the only error a call returns is that the
    contract crates refuse its report. *)
Theorem concurrent_intake_drains c :
  (forall n c', nsteps (fun a b => exists i, advance intake_protocol i a b) n c c' -> n <= 4 * length (sessions c))
  /\ (exists c', rtc (fun a b => exists i, advance intake_protocol i a b) c c'
       /\ forall i t, sessions c' !! i <> Some (Some t))
  /\ forall d t, kp_fails intake_protocol d t -> report_refused d t.
Proof.
  destruct (drains intake_protocol remaining statement_remaining open_advances c) as [Hb He].
  split_and!; [|done|apply fails_refused]. intros n c' Hn. etrans; [by eapply Hb|]. unfold work. clear.
  induction (sessions c) as [|[t|] ts IH]; cbn; [lia| |lia]. destruct t; cbn; lia.
Qed.

End Protocol.

(** * The rest of the archive *)

(** A commit that waits for the rows and identifiers other transactions keep. *)
Record apart (H : Arbiter -> Prop) (d d' : db) : Prop := {
  ap_locked id c : captures d !! id = Some c -> H (CaptureKey (c_user_ref c) (c_idempotency_key c)) ->
    is_Some (captures d' !! id);
  ap_events id : H (EventId id) -> outbox_events d !! id = None -> outbox_events d' !! id = None;
}.

(** Steps that are neutral in the sense of [System]. *)
Lemma neutral_bystander (H : Arbiter -> Prop) w w' : System.neutral w w' -> apart H (w_db w) (w_db w') ->
  bystander H (w_db w) (w_db w').
Proof.
  intros Hn [Hl He]. split; [apply Hn| |done|done|..].
  - intros id c' Hc. pose proof (System.nt_keys _ _ Hn id) as K. rewrite Hc in K.
    destruct (captures (w_db w) !! id) as [c|]; [|done]. exists c. split; [done|].
    unfold CaptureResolution.capture_key, key_of in *. cbn in K. congruence.
  - intros id. by rewrite (System.nt_queued _ _ Hn).
  - intros id. by rewrite (System.nt_refused _ _ Hn).
Qed.

Lemma erasure_bystander {Henv : Env} {Hcon : Publishing.Contracts} (H : Arbiter -> Prop) request w :
  apart H (w_db w) (w_db (PrivacyDeletion.apply request w).2) ->
  bystander H (w_db w) (w_db (PrivacyDeletion.apply request w).2).
Proof.
  intros [Hl He]. split; [|..|done|done|apply Archive.erasure_queued|apply Archive.erasure_refused].
  - intros id. by rewrite (OwnerErasure.sp_inbox _ _ _ (Archive.erasure_spared request w)).
  - intros id c' Hc. exists c'. split; [|done]. eapply lookup_weaken; [exact Hc|apply Archive.erasure_captures].
Qed.

Lemma report_bystander {Henv : Env} {Hcon : Publishing.Contracts} {Hrep : ReportContracts} `{!ReportLaws Hrep}
    (H : Arbiter -> Prop) row terminal w :
  apart H (w_db w) (w_db (CaptureResolution.report row terminal w).2) ->
  bystander H (w_db w) (w_db (CaptureResolution.report row terminal w).2).
Proof.
  unfold CaptureResolution.report. destruct (transaction_atomic CaptureResolution.ResolverPersistence
    (CaptureResolution.report_body row terminal) w) as [->|(out & w0 & w1 & Hw & _ & _ & Hbody & ->)].
  { intros [Hl He]. split; eauto; done. }
  apply CaptureResolution.report_body_Ok in Hbody as (c & r & ev & pl & now & now' & Hc & Hn & Hev & Ht & Hpl & _ & ->).
  rewrite Hw in *. intros [Hl He].
  assert (forall id o, o = report_row (CaptureResolution.report_target row) pl now' ->
    queued_by id ev o = false /\ refused_by id ev o = false) as Hrow.
  { intros id o ->. unfold queued_by, refused_by, report_row, new_outbox_row. cbn. rewrite Hpl.
    by destruct r; rewrite ?andb_false_r. }
  split; [done| |done|done|..].
  - intros id c'. cbn. intros [[<- <-]|[Hne Hd]]%lookup_insert_Some; eauto.
  - intros id. cbn. rewrite count_where_insert by done. by destruct (Hrow id _ eq_refl) as [-> _].
  - intros id. cbn. rewrite count_where_insert by done. by destruct (Hrow id _ eq_refl) as [_ ->].
Qed.

(** Every step of the archive is one of the calls of the intake, or a bystander of them as soon as it
    waits for what they keep. *)
Theorem archive_step_bystander {Henv : Env} {Hcon : Publishing.Contracts} {Hrep : ReportContracts}
    {Hweb : PublicResolution.Web} {Hprov : AccountSync.OfficialOwnContentProvider} {Hack : DeletionAcks.AckCodec}
    {Hzip : ExportArchive.ZipLibrary} {Haead : OAuth.Aead} `{!ReportLaws Hrep} w w' :
  Archive.archive_step w w' ->
  (exists m, w' = (run_call Henv m w).2)
  \/ forall H, apart H (w_db w) (w_db w') -> bystander H (w_db w) (w_db w').
Proof.
  intros [w0 w1 Hstep _|request w0]; [|right; intros H; apply erasure_bystander].
  apply System.step_cases in Hstep as [Hn|[[r ->]|[[c ->]|[[c ->]|(row & terminal & ->)]]]].
  - right. intros H. by apply neutral_bystander.
  - left. exists (Submit r). unfold run_call. by destruct (Capture.submit r w0).
  - left. exists (Deliver c). unfold run_call. by destruct (BrowserCapture.deliver c w0).
  - left. exists (Reject c). unfold run_call. by destruct (BrowserCapture.reject c w0).
  - right. intros H. apply report_bystander.
Qed.

(** * Two copies of a command and a submission under its key *)

Definition sample_command : BrowserCaptureCommand :=
  mk_command 7%N 1%N 8%N "sha256:00" "https://www.threads.net/@a/post/B" "https://www.threads.net/@a/post/B" 0
    "browser_extension" "explicit_user_capture".

Definition after (new_id : Uuid) (d : db) (t : Session) : Session :=
  match @intake_statement sample_env sample_report_contracts new_id d t with Some (_, t') => t' | None => t end.

Definition first_claimed : Session := Eval vm_compute in after 0%N empty_db (Delivering sample_command 0).
Definition first_stored : Session := Eval vm_compute in after 20%N empty_db first_claimed.
Definition first_answered : Session := Eval vm_compute in after 21%N empty_db first_stored.
Definition first_committed : db := visible (writes_of first_answered) empty_db.

#[local] Abbreviation sample_protocol := (@intake_protocol sample_env sample_report_contracts).

(** The second copy opens its transaction while the first is open: it cannot record the command, and
    when the first has committed it finds it recorded. *)
Lemma second_copy_waits new_id ks t' :
  @intake_statement sample_env sample_report_contracts new_id empty_db (Delivering sample_command 1) = Some (ks, t') ->
  ~ free sample_protocol [Some first_claimed; Some (Delivering sample_command 1)] 1 ks
  /\ after new_id first_committed (Delivering sample_command 1) = Repeated (Deliver sample_command) 1.
Proof.
  intros Hnext. vm_compute in Hnext. injection Hnext as <- <-. split; [|by vm_compute].
  intros Hf. specialize (Hf 0 (InboxKey 7%N)). discriminate Hf; [by left|].
  exists first_claimed. split; [done|]. vm_compute. eauto.
Qed.

Definition first_events : list (Event (T := Session)) :=
  [Begins 0 (Delivering sample_command 0); Begins 1 (Delivering sample_command 1); Commits 0 first_answered;
   Commits 1 (Repeated (Deliver sample_command) 1)].

Lemma first_run : run sample_protocol (mk_sessions empty_db []) first_events (mk_sessions first_committed [None; None]).
Proof.
  assert (forall ts i, free sample_protocol ts i []) as Hnil by (by intros ts i j k []%not_elem_of_nil).
  assert (forall t ks, free sample_protocol [Some t; Some (Delivering sample_command 1)] 0 ks) as Hfirst.
  { intros t ks [|[|j]] k _ (u & Hj & Hu); [done| |done]. injection Hj as <-.
    by apply (@opening_free sample_env sample_report_contracts) in Hu. }
  pose proof (run_start sample_protocol (mk_sessions empty_db [])) as R.
  eapply run_step in R; [|by apply (event_begin sample_protocol _ [] (Delivering sample_command 0))].
  eapply run_step in R; [|eapply (event_statement sample_protocol _ _ 0 _ _ first_claimed);
    [done|exists 0%N; by vm_compute|by intros [|j] k _ (u & Hj & _)]].
  eapply run_step in R; [|by apply (event_begin sample_protocol _ [Some first_claimed] (Delivering sample_command 1))].
  eapply run_step in R; [|eapply (event_statement sample_protocol _ _ 0 _ _ first_stored);
    [done|exists 20%N; by vm_compute|apply Hfirst]].
  eapply run_step in R; [|eapply (event_statement sample_protocol _ _ 0 _ _ first_answered);
    [done|exists 21%N; by vm_compute|apply Hfirst]].
  eapply run_step in R; [|by eapply (event_commit sample_protocol _ _ 0 first_answered)].
  eapply run_step in R; [|eapply (event_statement sample_protocol _ _ 1 _ _ (Repeated (Deliver sample_command) 1));
    [done|exists 0%N; by vm_compute|done]].
  eapply run_step in R; [|by eapply (event_commit sample_protocol _ _ 1 (Repeated (Deliver sample_command) 1))].
  exact R.
Qed.


End Intake.
