(* ===== verification/BusWorker.v ===== *)
(** The bus worker (src/crates/threads-archive/src/nats.rs): verification of the provisioned durable,
    the watch over the broker connection, the settlement of one command delivery, and the loop that
    alternates deliveries with passes of the outbox pump.

    What the loop's [select!] sees is a list of events: a shutdown request, a tick of the outbox
    timer with the connection's state, a message, an error or the end of the stream. The
    acknowledgement of a message may fail, which its event says. *)
From S2P Require Import Prelude Schema Store Reporting BrowserCapture Publishing PublicResolution CaptureResolution AccountSync RemovalAck OutboxRelay DeletionAcks ExportArchive OAuth System.

Module BusWorker.
Import Schema Store Reporting BrowserCapture OutboxRelay DeletionAcks System.
Local Open Scope string_scope.
Local Open Scope store_scope.

Definition COMMAND_STREAM : string := "ratatoskr_commands".
Definition COMMAND_SUBJECT : string := "cmd.threads.capture.requested.v1".
Definition DISCONNECT_GRACE : Z := seconds 5.
Definition TRANSIENT_NAK_DELAY : Z := seconds 2.

Record ConsumerInfo := mk_consumer_info {
  ci_stream_name : string;
  ci_name : string;
  ci_config : ConsumerConfig;
}.

Definition validate_preprovisioned_consumer (stream_name consumer_name : string) (config : ConsumerConfig)
  : Result NatsError () :=
  if negb (bool_decide (stream_name = COMMAND_STREAM))
     || negb (bool_decide (consumer_name = CONSUMER_NAME))
     || negb (bool_decide (cc_durable_name config = Some CONSUMER_NAME))
  then Err Bus
  else if negb (bool_decide (cc_filter_subject config = COMMAND_SUBJECT)) then Err Bus
  else if bool_decide (is_Some (cc_deliver_subject config))
          || negb (bool_decide (cc_ack_policy config = AckExplicit))
  then Err Bus
  else Ok ().

(** [open_consumer], given the broker's answer to the lookup. *)
Definition open_consumer (lookup : option ConsumerInfo) : Result NatsError ConsumerInfo :=
  match lookup with
  | None => Err Bus
  | Some info =>
      (let? _ := validate_preprovisioned_consumer (ci_stream_name info) (ci_name info) (ci_config info) in
       Ok info)%rust
  end.

(** [ensure_command_consumer]. *)
Definition ensure_command_consumer (lookup : option ConsumerInfo) : Result NatsError () :=
  (let? _ := open_consumer lookup in Ok ())%rust.

(** [ConnectionWatch]: since when the connection was seen down. *)
Record ConnectionWatch := mk_watch { lost_since : option Time }.

Definition check (connected : bool) (now : Time) (watch : ConnectionWatch)
  : Result NatsError () * ConnectionWatch :=
  if connected then (Ok (), mk_watch None)
  else
    let since := default now (lost_since watch) in
    (if (DISCONNECT_GRACE <=? now - since)%Z then Err Bus else Ok (), mk_watch (Some since)).

Section Worker.
Context {Henv : Env} {Hrep : ReportContracts} {Hcodec : CommandCodec}.

(** The result of [ack_with]. *)
Definition settled (ack_ok : bool) : Result NatsError () := if ack_ok then Ok () else Err Bus.

(** [handle_delivery] after the inbox answered: what is asked of the broker, if anything. *)
Definition after_inbox (policy : RemovalAck.ResendPolicy) (ack_ok : bool)
    (delivered : Result BrowserCaptureInboxError BrowserCaptureDelivery) (w : World)
  : Result NatsError () * option AckKind * World :=
  match delivered with
  | Ok _ =>
      match flush_outbox policy w with
      | (Ok _, w') => (settled ack_ok, Some Ack, w')
      | (Err e, w') => (Err e, None, w')
      end
  | Err (InboxPersistence _) => (settled ack_ok, Some (Nak TRANSIENT_NAK_DELAY), w)
  | Err (InboxContract _) => (Err Bus, None, w)
  end.

Definition handle_delivery (policy : RemovalAck.ResendPolicy) (payload : string) (ack_ok : bool) (w : World)
  : Result NatsError () * option AckKind * World :=
  match intake payload with
  | IntakeAccepted command => let '(r, w') := deliver command w in after_inbox policy ack_ok r w'
  | IntakeRejected command _ => let '(r, w') := reject command w in after_inbox policy ack_ok r w'
  | IntakeInvalid _ => (settled ack_ok, Some Term, w)
  end.

Inductive Event :=
| Stop
| Tick (connected : bool) (now : Time)
| Delivery (payload : string) (ack_ok : bool)
| DeliveryError
| StreamEnd.

(** The loop, with the settlements it asked for; [None] when it still waits after [events]. *)
Fixpoint run_loop (policy : RemovalAck.ResendPolicy) (events : list Event) (watch : ConnectionWatch) (w : World)
  : option (Result NatsError ()) * list (string * AckKind) * World :=
  match events with
  | [] => (None, [], w)
  | Stop :: _ => (Some (Ok ()), [], w)
  | Tick connected now :: rest =>
      let '(r, watch) := check connected now watch in
      match r with
      | Err e => (Some (Err e), [], w)
      | Ok _ =>
          match flush_outbox policy w with
          | (Ok _, w') => run_loop policy rest watch w'
          | (Err e, w') => (Some (Err e), [], w')
          end
      end
  | StreamEnd :: _ => (Some (Err Bus), [], w)
  | DeliveryError :: _ => (Some (Err Bus), [], w)
  | Delivery payload ack_ok :: rest =>
      let '(r, kind, w') := handle_delivery policy payload ack_ok w in
      let asked := match kind with Some k => [(payload, k)] | None => [] end in
      match r with
      | Err e => (Some (Err e), asked, w')
      | Ok _ =>
          let '(result, settlements, w'') := run_loop policy rest watch w' in
          (result, (asked ++ settlements)%list, w'')
      end
  end.

(** [run]: the durable is opened and verified, the outbox flushed once, then the loop. *)
Definition run (policy : RemovalAck.ResendPolicy) (lookup : option ConsumerInfo) (messages_ok : bool)
    (events : list Event) (w : World) : option (Result NatsError ()) * list (string * AckKind) * World :=
  match open_consumer lookup with
  | Err e => (Some (Err e), [], w)
  | Ok _ =>
      if negb messages_ok then (Some (Err Bus), [], w)
      else match flush_outbox policy w with
           | (Err e, w') => (Some (Err e), [], w')
           | (Ok _, w') => run_loop policy events (mk_watch None) w'
           end
  end.

(** * What the worker does *)

(** The command a message carries for this service, accepted or refused. *)
Definition command_of (payload : string) : option Uuid :=
  match intake payload with
  | IntakeAccepted c => Some (bc_command_id c)
  | IntakeRejected c _ => Some (rj_command_id c)
  | IntakeInvalid _ => None
  end.

(** A settlement that loses nothing: an acknowledged command is recorded with its one report, a
    terminated message is nobody's, and a message put back carries a command. *)
Definition settled_soundly (d : db) (m : string * AckKind) : Prop :=
  match m.2 with
  | Ack => exists id, command_of m.1 = Some id /\ is_Some (inbox_events d !! (CONSUMER_NAME, id))
      /\ (count_where (outbox_events d) (queued_by id) + count_where (outbox_events d) (refused_by id) = 1)%Z
  | Term => command_of m.1 = None
  | Nak delay => is_Some (command_of m.1) /\ delay = TRANSIENT_NAK_DELAY
  end.

Context `{!ReportLaws Hrep}.

Lemma deliver_recorded c w out w' : deliver c w = (Ok out, w') ->
  is_Some (inbox_events (w_db w') !! (CONSUMER_NAME, bc_command_id c)).
Proof.
  unfold deliver. intros (w0 & w1 & Hd & _ & _ & [[Hb ->]|[Hb _]])%transaction_Ok.
  - apply deliver_body_Ok in Hb as [(_ & -> & ?)|(cap & ev & pl & now & caps & _ & _ & _ & _ & _ & ->)]; [done|].
    cbn. by rewrite lookup_insert_eq.
  - unfold deliver_body in Hb. apply bind_Ok in Hb as (claimed & w2 & _ & Hb).
    destruct claimed; cbn [negb] in Hb; run_ok.
Qed.

Lemma reject_recorded c w out w' : reject c w = (Ok out, w') ->
  is_Some (inbox_events (w_db w') !! (CONSUMER_NAME, rj_command_id c)).
Proof.
  unfold reject. intros (w0 & w1 & Hd & _ & _ & [[Hb ->]|[Hb _]])%transaction_Ok.
  - apply reject_body_Ok in Hb as [(_ & -> & ?)|(ev & pl & now & _ & _ & _ & _ & ->)]; [done|].
    cbn. by rewrite lookup_insert_eq.
  - unfold reject_body in Hb. apply bind_Ok in Hb as (claimed & w2 & _ & Hb).
    destruct claimed; cbn [negb] in Hb; run_ok.
Qed.

End Worker.

(** * The worker among the other workers *)

Section Refinement.
Context {Henv : Env} {Hcon : Publishing.Contracts} {Hrep : ReportContracts} {Hweb : PublicResolution.Web}
  {Hprov : AccountSync.OfficialOwnContentProvider} {Hack : AckCodec}
  {Hzip : ExportArchive.ZipLibrary} {Haead : OAuth.Aead} {Hlaws : ReportLaws Hrep} {Hcodec : CommandCodec}.

(** What a settlement says of the inbox. *)
Definition recorded (d : db) (m : string * AckKind) : Prop :=
  match m.2 with
  | Ack => exists id, command_of m.1 = Some id /\ is_Some (inbox_events d !! (CONSUMER_NAME, id))
  | Term => command_of m.1 = None
  | Nak delay => is_Some (command_of m.1) /\ delay = TRANSIENT_NAK_DELAY
  end.

Lemma recorded_mono d d' m : inbox_events d ⊆ inbox_events d' -> recorded d m -> recorded d' m.
Proof.
  intros Hsub. unfold recorded. destruct m as [payload []]; cbn; [|done..].
  intros (id & Hc & [x Hx]). exists id. split; [done|]. exists x. by eapply lookup_weaken.
Qed.

Lemma recorded_sound d m : delivery_inv d -> recorded d m -> settled_soundly d m.
Proof.
  intros Hd. unfold recorded, settled_soundly. destruct m as [payload []]; cbn; [|done..].
  intros (id & Hc & [outcome Hx]). exists id. split_and!; [done|by eexists|].
  specialize (Hd id). rewrite Hx in Hd. case_bool_decide; injection Hd as -> ->; done.
Qed.

Lemma flush_inbox policy w : inbox_events (w_db (flush_outbox policy w).2) = inbox_events (w_db w).
Proof. by destruct (flush_outbox_only (w_db w) policy w ltac:(done)). Qed.

(** Between two points of the loop: steps of the service, and no recorded command forgotten. *)
Definition progressed (w w' : World) : Prop :=
  rtc service_step w w' /\ (service_inv w -> inbox_events (w_db w) ⊆ inbox_events (w_db w')).

Lemma progressed_refl w : progressed w w.
Proof. by split. Qed.

Lemma progressed_trans w1 w2 w3 : progressed w1 w2 -> progressed w2 w3 -> progressed w1 w3.
Proof using All.
  intros [H1 I1] [H2 I2]. split; [by etrans|]. intros Hs. etrans; [by apply I1|].
  apply I2. by eapply steps_inv.
Qed.

Lemma flush_progressed policy w : progressed w (flush_outbox policy w).2.
Proof. split; [apply rtc_once, step_pump|]. by rewrite flush_inbox. Qed.

Lemma consume_progressed delivery w : progressed w (consume delivery w).
Proof using All.
  split; [|intros Hs; by apply consume_inv, Hs].
  destruct delivery; apply rtc_once; [apply step_deliver|apply step_reject].
Qed.

(** What [handle_delivery] does, for an inbox answer that recorded the command. *)
Lemma after_inbox_progressed policy ack_ok r w payload id :
  command_of payload = Some id ->
  (forall out, r = Ok out -> is_Some (inbox_events (w_db w) !! (CONSUMER_NAME, id))) ->
  let '(_, kind, w') := after_inbox policy ack_ok r w in
  progressed w w' /\ (forall k, kind = Some k -> recorded (w_db w') (payload, k)).
Proof.
  intros Hc Hrec. unfold after_inbox. destruct r as [out|[e|reason]].
  - pose proof (flush_progressed policy w) as Hf. pose proof (flush_inbox policy w) as Hi.
    destruct (flush_outbox policy w) as [[u|e] w']; cbn in *; (split; [done|]); [|done].
    intros k [= <-]. exists id. rewrite Hi. eauto.
  - split; [apply progressed_refl|]. intros k [= <-]. split; [by exists id|done].
  - split; [apply progressed_refl|done].
Qed.

Lemma handle_delivery_progressed policy payload ack_ok w :
  let '(_, kind, w') := handle_delivery policy payload ack_ok w in
  progressed w w' /\ (forall k, kind = Some k -> recorded (w_db w') (payload, k)).
Proof using All.
  unfold handle_delivery. destruct (intake payload) as [c|c reason|reason] eqn:Hi.
  - pose proof (consume_progressed (inl c) w) as Hp. cbn in Hp.
    destruct (deliver c w) as [r w1] eqn:Hd. cbn in Hp.
    pose proof (after_inbox_progressed policy ack_ok r w1 payload (bc_command_id c)) as H.
    destruct (after_inbox policy ack_ok r w1) as [[r' kind] w']. destruct H as [H1 H2].
    + unfold command_of. by rewrite Hi.
    + intros out ->. by eapply deliver_recorded.
    + split; [by eapply progressed_trans|done].
  - pose proof (consume_progressed (inr c) w) as Hp. cbn in Hp.
    destruct (reject c w) as [r w1] eqn:Hd. cbn in Hp.
    pose proof (after_inbox_progressed policy ack_ok r w1 payload (rj_command_id c)) as H.
    destruct (after_inbox policy ack_ok r w1) as [[r' kind] w']. destruct H as [H1 H2].
    + unfold command_of. by rewrite Hi.
    + intros out ->. by eapply reject_recorded.
    + split; [by eapply progressed_trans|done].
  - split; [apply progressed_refl|]. intros k [= <-]. unfold recorded, command_of. cbn. by rewrite Hi.
Qed.

(** The loop as steps of the service, with every settlement it asked for still right at its end. *)
Lemma run_loop_progressed policy events : forall watch w,
  let '(_, settlements, w') := run_loop policy events watch w in
  progressed w w' /\ (service_inv w -> Forall (recorded (w_db w')) settlements).
Proof using All.
  induction events as [|e events IH]; intros watch w; [split; [apply progressed_refl|done]|].
  destruct e as [|connected now|payload ack_ok| |]; cbn [run_loop];
    try (split; [apply progressed_refl|done]).
  - destruct (check connected now watch) as [[u|e] watch']; [|split; [apply progressed_refl|done]].
    pose proof (flush_progressed policy w) as Hf.
    destruct (flush_outbox policy w) as [[u'|e] w1]; cbn in Hf; [|by split].
    specialize (IH watch' w1). destruct (run_loop policy events watch' w1) as [[r s] w2].
    destruct IH as [H1 H2]. split; [by eapply progressed_trans|]. intros Hs. apply H2.
    eapply steps_inv; [apply Hf|done].
  - pose proof (handle_delivery_progressed policy payload ack_ok w) as Hh.
    destruct (handle_delivery policy payload ack_ok w) as [[r kind] w1]. destruct Hh as [Hp Hk].
    assert (Forall (recorded (w_db w1)) (match kind with Some k => [(payload, k)] | None => [] end)) as Hasked.
    { destruct kind; [|done]. constructor; [by apply Hk|done]. }
    destruct r as [u|e]; [|by split].
    specialize (IH watch w1). destruct (run_loop policy events watch w1) as [[r s] w2].
    destruct IH as [H1 H2]. split; [by eapply progressed_trans|]. intros Hs.
    assert (service_inv w1) as Hs1 by (eapply steps_inv; [apply Hp|done]).
    apply Forall_app. split; [|by apply H2]. eapply Forall_impl; [exact Hasked|].
    intros m. apply recorded_mono. destruct H1 as [_ Hsub]. by apply Hsub.
Qed.

(** [C10] Whatever the broker sends and however the connection and the database fail, a run of the bus
    worker keeps the service's invariant, and when it is over every settlement it asked for is
    right: an acknowledged message is a command recorded in the inbox with
    exactly one report, a terminated one carries no command for this service, and a command whose
    write failed was put back with a delay. Without the provisioned durable it does nothing. *)
Theorem settlements_sound policy lookup messages_ok events w : service_inv w ->
  let '(result, settlements, w') := run policy lookup messages_ok events w in
  service_inv w' /\ Forall (settled_soundly (w_db w')) settlements
  /\ (is_ok (open_consumer lookup) = false -> (result, settlements, w') = (Some (Err Bus), [], w)).
Proof using All.
  intros Hs. unfold run.
  destruct (open_consumer lookup) as [info|e] eqn:Ho; cbn [is_ok].
  2: { assert (e = Bus) as ->.
       { revert Ho. unfold open_consumer, validate_preprovisioned_consumer.
         destruct lookup; [|naive_solver]. repeat case_match; naive_solver. }
       split_and!; done. }
  destruct messages_ok; cbn [negb]; [|split_and!; done].
  pose proof (flush_progressed policy w) as Hf.
  destruct (flush_outbox policy w) as [[u|e] w1]; cbn in Hf.
  2: { split_and!; [eapply steps_inv; [apply Hf|done]|done|done]. }
  pose proof (run_loop_progressed policy events (mk_watch None) w1) as H.
  destruct (run_loop policy events (mk_watch None) w1) as [[r s] w2]. destruct H as [Hp Hrec].
  destruct (progressed_trans _ _ _ Hf Hp) as [Hsteps _].
  assert (service_inv w2) as Hs2 by by eapply steps_inv.
  split_and!; [done| |done]. eapply Forall_impl.
  - apply Hrec. eapply steps_inv; [apply Hf|done].
  - intros m. apply recorded_sound, Hs2.
Qed.

(** ** The resolver and the consumer of acknowledgements *)

Lemma preserves_recorded policy row w :
  w_db (CaptureResolution.recorded_terminal policy row w).2 = w_db w.
Proof.
  assert (preserves (fun d => d = w_db w) (CaptureResolution.recorded_terminal policy row)) as H; [|by apply H].
  unfold CaptureResolution.recorded_terminal. preserve_steps.
Qed.

Lemma read_steps {A} (m : M CaptureResolution.ResolverError A) w : silent m ->
  w_db (m w).2 = w_db w -> rtc service_step w (m w).2.
Proof. intros Hs Hd. apply rtc_once, step_read; [done|apply Hs]. Qed.

Lemma bind_steps {E A B} (m : M E A) (k : A -> M E B) w :
  rtc service_step w (m w).2 -> (forall a w1, rtc service_step w1 (k a w1).2) -> rtc service_step w (bind m k w).2.
Proof.
  intros Hm Hk. unfold bind. destruct (m w) as [[a|e] w1]; cbn in *; [by etrans|done].
Qed.

Lemma process_steps policy row now w : rtc service_step w (CaptureResolution.process policy row now w).2.
Proof.
  unfold CaptureResolution.process. apply bind_steps.
  - apply read_steps.
    + unfold CaptureResolution.recorded_terminal. silent_steps.
    + apply (preserves_recorded policy row w).
  - intros [terminal|] w1; [apply rtc_once, step_report|]. apply bind_steps.
    + apply rtc_once, step_attempt.
    + intros [terminal|] w2; [apply rtc_once, step_report|apply rtc_refl].
Qed.

Lemma process_all_steps policy due now : forall n w,
  rtc service_step w (CaptureResolution.process_all policy due now n w).2.
Proof.
  induction due as [|row due IH]; intros n w; [apply rtc_refl|]. cbn.
  apply bind_steps; [apply process_steps|intros b w1; apply IH].
Qed.

Lemma resolver_steps policy wakes : forall w, rtc service_step w (CaptureResolution.run policy wakes w).2.
Proof.
  induction wakes as [|[|now] wakes IH]; intros w; [apply rtc_refl..|]. cbn.
  assert (rtc service_step w (CaptureResolution.run_due_once policy now w).2) as H.
  { unfold CaptureResolution.run_due_once. apply bind_steps; [apply rtc_once, step_claim|].
    intros due w1. apply bind_steps; [apply process_all_steps|intros n w2; apply rtc_refl]. }
  destruct (CaptureResolution.run_due_once policy now w) as [[s|e] w1]; cbn in *; [|done]. by etrans.
Qed.

Lemma acks_steps events : forall summary w,
  rtc service_step w (consume_deletion_acks events summary w).2.
Proof.
  induction events as [|[| |payload| |[]] events IH]; intros summary w; cbn; try apply rtc_refl; [|apply IH].
  pose proof (step_answer payload w) as Hs. destruct (settle payload w) as [kind w1]. cbn in Hs.
  specialize (IH (count_message (apply payload w).1 summary) w1).
  destruct (consume_deletion_acks events _ w1) as [[r kinds] w2]. cbn in *. by eapply rtc_l.
Qed.

(** The background workers only take the service's steps: whatever wakes them and whatever fails, a run of
    the bus worker, of the resolver's loop and of the acknowledgement consumer is each a sequence of
    those steps, so they keep its invariant whichever way their steps interleave. *)
Lemma workers_take_service_steps resend policy consumer events wakes durable messages_ok messages w :
  rtc service_step w (run resend consumer messages_ok events w).2
  /\ rtc service_step w (CaptureResolution.run policy wakes w).2
  /\ rtc service_step w (run_deletion_acks durable messages_ok messages w).2.
Proof using All.
  split_and!; [|apply resolver_steps|].
  - unfold run. destruct (open_consumer consumer); [|apply rtc_refl]. destruct messages_ok; [|apply rtc_refl].
    pose proof (flush_progressed resend w) as [Hf _]. cbn [negb].
    destruct (flush_outbox resend w) as [[u|e] w1]; cbn in *; [|done].
    pose proof (run_loop_progressed resend events (mk_watch None) w1) as H.
    destruct (run_loop resend events (mk_watch None) w1) as [[r s] w2]. destruct H as [[Hp _] _]. cbn. by etrans.
  - unfold run_deletion_acks. destruct (acks_consumer durable); [|apply rtc_refl].
    destruct messages_ok; [apply acks_steps|apply rtc_refl].
Qed.

End Refinement.

(** The watch over a sequence of checks, each with the connection's state and the time. *)
Definition watched (checks : list (bool * Time)) (watch : ConnectionWatch) : ConnectionWatch :=
  foldl (fun watch c => (check c.1 c.2 watch).2) watch checks.

(** The connection was found down at [t0] and at every check since, and up before that or never checked. *)
Definition down_since (checks : list (bool * Time)) (t0 : Time) : Prop :=
  exists before outage, checks = (before ++ (false, t0) :: outage)%list
    /\ Forall (fun c => c.1 = false) outage /\ (before = [] \/ exists b t, before = (b ++ [(true, t)])%list).

(** The last check found the connection down, five seconds or more after the outage was first seen. *)
Definition lasting (checks : list (bool * Time)) : Prop :=
  exists t0 now, down_since checks t0 /\ last checks = Some (false, now) /\ (seconds 5 <= now - t0)%Z.

Lemma down_since_snoc_up checks t t0 : ~ down_since (checks ++ [(true, t)]) t0.
Proof.
  intros (before & outage & Heq & Hout & _). destruct outage as [|c outage _] using rev_ind.
  - by apply app_inj_tail in Heq as [_ [=]].
  - rewrite app_comm_cons, app_assoc in Heq. apply app_inj_tail in Heq as [_ <-].
    apply Forall_app in Hout as [_ Hc]. by inversion Hc.
Qed.

Lemma down_since_snoc_down checks t t0 :
  down_since (checks ++ [(false, t)]) t0 <->
  down_since checks t0 \/ t0 = t /\ (checks = [] \/ exists b u, checks = (b ++ [(true, u)])%list).
Proof.
  split.
  - intros (before & outage & Heq & Hout & Hb). destruct outage as [|c outage _] using rev_ind.
    + apply app_inj_tail in Heq as [-> [= ->]]. auto.
    + rewrite app_comm_cons, app_assoc in Heq. apply app_inj_tail in Heq as [-> <-].
      apply Forall_app in Hout as [Hout _]. left. by exists before, outage.
  - intros [(before & outage & -> & Hout & Hb)|[-> Hc]].
    + exists before, (outage ++ [(false, t)])%list. split_and!; [by rewrite <- app_assoc|apply Forall_app; by repeat constructor|done].
    + by exists checks, [].
Qed.

(** The watch remembers exactly since when the connection is down. *)
Lemma watched_since checks : let since := lost_since (watched checks (mk_watch None)) in
  (forall t0, since = Some t0 <-> down_since checks t0)
  /\ (since = None <-> checks = [] \/ exists b t, checks = (b ++ [(true, t)])%list).
Proof.
  induction checks as [|[c t] checks [IHs IHn]] using rev_ind; cbn zeta.
  - split; [|cbn; naive_solver]. intros t0. split; [done|]. intros (before & ? & Heq & _). by destruct before.
  - unfold watched in *. rewrite foldl_snoc. destruct c; cbn.
    + split; [|by split; eauto]. intros t0. split; [done|]. by intros ?%down_since_snoc_up.
    + set (since := lost_since _) in *. split.
      * intros t0. rewrite down_since_snoc_down, <- IHs, <- IHn. destruct since; cbn; naive_solver.
      * split; [done|]. intros [Heq|(b & u & Heq)]; [by destruct checks|by apply app_inj_tail in Heq as [_ [=]]].
Qed.

(** A check ends the worker exactly on a lasting outage. *)
Lemma check_lasting connected now checks :
  (fst (check connected now (watched checks (mk_watch None))) = Ok () /\ ~ lasting (checks ++ [(connected, now)]))
  \/ (fst (check connected now (watched checks (mk_watch None))) = Err Bus /\ lasting (checks ++ [(connected, now)])).
Proof.
  pose proof (proj1 (watched_since (checks ++ [(connected, now)]))) as Hs. unfold watched in *.
  rewrite foldl_snoc in Hs. set (watch := foldl _ _ checks) in *. cbn in Hs. unfold lasting. rewrite last_snoc.
  destruct connected; cbn in *.
  - left. split; [done|]. by intros (t0 & now' & _ & [=] & _).
  - assert (down_since (checks ++ [(false, now)]) (default now (lost_since watch))) as Hd by by apply Hs.
    unfold DISCONNECT_GRACE. destruct (seconds 5 <=? _)%Z eqn:Hg; [right|left]; (split; [done|]).
    + exists (default now (lost_since watch)), now. split_and!; [done|done|lia].
    + intros (t0 & now' & Ht0%Hs & [= <-] & Hlong). injection Ht0 as <-. lia.
Qed.

Section Shape.
Context {Henv : Env} {Hrep : ReportContracts} {Hcodec : CommandCodec}.

Definition ticks (events : list Event) : list (bool * Time) :=
  omap (fun e => match e with Tick connected now => Some (connected, now) | _ => None end) events.

Definition payloads (events : list Event) : list string :=
  omap (fun e => match e with Delivery payload _ => Some payload | _ => None end) events.

(** The events the loop may pass over. *)
Definition passed_over (e : Event) : Prop :=
  match e with Tick _ _ => True | Delivery _ ack_ok => ack_ok = true | Stop | DeliveryError | StreamEnd => False end.

(** Why the loop fails at the event [ev], after [handled] and the checks [before], with the messages
    [settled] asked to be settled. *)
Definition ends_with (policy : RemovalAck.ResendPolicy) (before : list (bool * Time)) (handled : list Event) (ev : Event)
    (settled : list string) (e : NatsError) (w' : World) : Prop :=
  let flush_failed := exists w1, flush_outbox policy w1 = (Err e, w') in
  match ev with
  | Stop => False
  | StreamEnd | DeliveryError => e = Bus /\ settled = payloads handled
  | Tick connected now => settled = payloads handled
      /\ (e = Bus /\ lasting (before ++ ticks handled ++ [(connected, now)]) \/ flush_failed)
  | Delivery payload ack_ok =>
      e = Bus /\ ack_ok = false /\ settled = (payloads handled ++ [payload])%list
      \/ (e = Bus \/ flush_failed) /\ settled = payloads handled /\ is_Some (command_of payload)
  end.

(** A run of the loop over [events] that began after the checks [before]. *)
Definition loop_shape policy (before : list (bool * Time)) (events : list Event)
    (out : option (Result NatsError ()) * list (string * AckKind) * World) : Prop :=
  let '(result, settlements, w') := out in
  exists handled rest, events = (handled ++ rest)%list /\ Forall passed_over handled
    /\ (forall l connected now r, handled = (l ++ Tick connected now :: r)%list ->
         ~ lasting (before ++ ticks l ++ [(connected, now)]))
    /\ match result with
       | None => rest = [] /\ settlements.*1 = payloads handled
       | Some (Ok _) => head rest = Some Stop /\ settlements.*1 = payloads handled
       | Some (Err e) => exists ev, head rest = Some ev /\ ends_with policy before handled ev settlements.*1 e w'
       end.

(** A handled event put before a shape. *)
Lemma loop_shape_cons policy before ev events asked result settlements w' :
  passed_over ev -> (forall connected now, ev = Tick connected now -> ~ lasting (before ++ [(connected, now)])) ->
  asked.*1 = payloads [ev] ->
  loop_shape policy (before ++ ticks [ev]) events (result, settlements, w') ->
  loop_shape policy before (ev :: events) (result, (asked ++ settlements)%list, w').
Proof.
  intros Hp Hl Ha (handled & rest & -> & Hf & Hno & Hres). exists (ev :: handled), rest.
  assert (forall l x, before ++ ticks (ev :: l) ++ x = (before ++ ticks [ev]) ++ ticks l ++ x)%list as Ht.
  { intros l x. rewrite <- app_assoc. f_equal. unfold ticks. change (ev :: l) with ([ev] ++ l)%list.
    by rewrite omap_app, app_assoc. }
  assert (forall l, payloads (ev :: l) = payloads [ev] ++ payloads l)%list as Hpl.
  { intros l. unfold payloads. change (ev :: l) with ([ev] ++ l)%list. by rewrite omap_app. }
  split_and!; [done|by constructor| |].
  - intros [|e' l] connected now r [= -> Heq]; cbn [app].
    + by apply Hl.
    + rewrite Ht. by apply (Hno l connected now r).
  - rewrite fmap_app, (Hpl handled), Ha. destruct result as [[u|e]|].
    + by destruct Hres as [? ->].
    + destruct Hres as (ev' & Hh & Hend). exists ev'. split; [done|]. unfold ends_with in *.
      rewrite (Hpl handled). destruct ev' as [|c t|p ack_ok| |]; [done|rewrite Ht; by destruct Hend as [-> ?]| |by destruct Hend as [-> ->]..].
      destruct Hend as [(? & ? & ->)|(? & -> & ?)]; [left|right]; split_and!; rewrite ?app_assoc; done.
    + by destruct Hres as [? ->].
Qed.

Lemma loop_shape_end policy before ev events result settlements w' :
  match result with
  | None => False
  | Some (Ok _) => ev = Stop /\ settlements = []
  | Some (Err e) => ends_with policy before [] ev settlements.*1 e w'
  end -> loop_shape policy before (ev :: events) (result, settlements, w').
Proof.
  intros H. exists [], (ev :: events). split_and!; [done|done|by intros [] ? ? ?|].
  destruct result as [[u|e]|]; [by destruct H as [-> ->]|by exists ev|done].
Qed.

(** What a delivery asks of the broker. *)
Lemma handle_delivery_asks policy payload ack_ok w : let '(r, kind, w') := handle_delivery policy payload ack_ok w in
  match r with
  | Ok _ => ack_ok = true /\ is_Some kind
  | Err e => e = Bus /\ ack_ok = false /\ is_Some kind
      \/ (e = Bus \/ exists w1, flush_outbox policy w1 = (Err e, w')) /\ kind = None /\ is_Some (command_of payload)
  end.
Proof.
  unfold handle_delivery, command_of. destruct (intake payload) as [c|c reason|reason].
  1: destruct (deliver c w) as [r w1]. 2: destruct (reject c w) as [r w1].
  3: destruct ack_ok; cbn; naive_solver.
  all: unfold after_inbox; destruct r as [out|[e|reason']]; cbn; [|destruct ack_ok; cbn; naive_solver|naive_solver].
  all: destruct (flush_outbox policy w1) as [[u|e] w2] eqn:Hf; [destruct ack_ok; cbn; naive_solver|].
  all: right; split_and!; eauto.
Qed.

Lemma run_loop_shape policy events : forall before w,
  loop_shape policy before events (run_loop policy events (watched before (mk_watch None)) w).
Proof.
  induction events as [|ev events IH]; intros before w.
  { exists [], []. split_and!; [done|done|by intros [] ? ? ?|done|done]. }
  destruct ev as [|connected now|payload ack_ok| |]; cbn [run_loop]; try (apply loop_shape_end; cbn; done).
  - pose proof (check_lasting connected now before) as Hc.
    assert ((check connected now (watched before (mk_watch None))).2
      = watched (before ++ [(connected, now)]) (mk_watch None)) as Hw by (unfold watched; by rewrite foldl_snoc).
    destruct (check connected now _) as [r watch]. cbn in Hc, Hw. subst watch.
    destruct Hc as [[-> Hn]|[-> Hy]]; [|apply loop_shape_end; cbn; auto].
    destruct (flush_outbox policy w) as [[u|e] w1] eqn:Hf; [|apply loop_shape_end; cbn; eauto].
    specialize (IH (before ++ [(connected, now)])%list w1). destruct (run_loop _ _ _ _) as [[result settlements] w2].
    apply (loop_shape_cons policy before (Tick connected now) events []); [done|by intros ? ? [= <- <-]|done|exact IH].
  - pose proof (handle_delivery_asks policy payload ack_ok w) as Hh.
    destruct (handle_delivery policy payload ack_ok w) as [[r kind] w1]. destruct r as [u|e].
    + destruct Hh as [-> [k ->]]. specialize (IH before w1). destruct (run_loop _ _ _ _) as [[result settlements] w2].
      apply (loop_shape_cons policy before (Delivery payload true)); [done..|]. by rewrite app_nil_r.
    + apply loop_shape_end. cbn. destruct Hh as [(? & ? & k & ->)|(? & -> & ?)]; cbn; auto.
Qed.


End Shape.

(** * Witnesses *)

(** The codec that reads the text "capture" as one well-formed command. *)
Definition sample_codec : CommandCodec := {|
  CommandEnvelope := unit;
  env_command_id := fun _ => 1%N;
  env_tenant_user := fun _ => Some 7%N;
  payload_as := fun _ => Ok (mk_requested "threads" "browser_extension" "explicit_user_capture"
    "https://threads.net/@a/post/B" "2026-01-01T00:00:00Z" "sha256" "ab" 50%N);
  from_json := fun s => if bool_decide (s = "capture") then Ok () else Err "malformed";
  parse_from_rfc3339 := fun _ => Some 5000%Z;
|}.

Definition sample_lookup : option ConsumerInfo :=
  Some (mk_consumer_info COMMAND_STREAM CONSUMER_NAME
    (mk_consumer_config (Some CONSUMER_NAME) COMMAND_SUBJECT AckExplicit (seconds 30) None)).

Definition sample_run (events : list Event) (w : World) :=
  @run sample_env sample_report_contracts sample_codec RemovalAck.default_policy sample_lookup true events w.

Lemma settlements_sound_witness :
  let '(result, settlements, w') :=
    sample_run [Delivery "capture" true; Delivery "noise" true; Delivery "capture" true; Stop]
      (sample_world empty_db) in
  settlements = [("capture", Ack); ("noise", Term); ("capture", Ack)]
  /\ service_inv w' /\ length (w_bus w') = 1.
Proof.
  pose proof (@settlements_sound sample_env Publishing.sample_contracts sample_report_contracts
    PublicResolution.sample_web (AccountSync.fixed_provider (AccountSync.mk_page EmptyString [] None))
    DeletionAcks.sample_codec ExportArchive.sample_library OAuth.sample_aead _ sample_codec RemovalAck.default_policy sample_lookup true
    [Delivery "capture" true; Delivery "noise" true; Delivery "capture" true; Stop]
    (sample_world empty_db) service_inv_empty) as H.
  fold (sample_run [Delivery "capture" true; Delivery "noise" true; Delivery "capture" true; Stop]
    (sample_world empty_db)) in H.
  assert (let '(r, s, w') := sample_run [Delivery "capture" true; Delivery "noise" true; Delivery "capture" true; Stop]
    (sample_world empty_db) in s = [("capture", Ack); ("noise", Term); ("capture", Ack)] /\ length (w_bus w') = 1)
    as Hs by (vm_compute; split; reflexivity).
  destruct (sample_run _ _) as [[r s] w']. destruct H as (Hinv & _), Hs as [Hs Hb].
  split; [exact Hs|]. split; [exact Hinv|exact Hb].
Defined.

(** The outage seen at the second second ends the run at the ninth, after the message between. *)
Example outage_ends_run :
  let '(result, settlements, _) := sample_run [Tick true (seconds 1); Tick false (seconds 2); Delivery "capture" true;
    Tick false (seconds 6); Tick false (seconds 9); Stop] (sample_world empty_db) in
  result = Some (Err Bus) /\ settlements = [("capture", Ack)].
Proof. vm_compute. split; reflexivity. Qed.

(** Thirty-two older events wait in the outbox. *)
Definition backlog : World := sample_world (set_outbox_events
  (list_to_map ((fun n => (N.of_nat n, sample_event "social.source.updated.v1" (-1) 0)) <$> seq 1 32)) empty_db).

(** A command is acknowledged although its own report was not published: a pass of the pump takes
    the thirty-two oldest due rows, so behind a backlog of that size the queued report stays
    unpublished while the delivery that wrote it is acknowledged. *)
Example acknowledged_before_published :
  let '(r, kind, w1) := @handle_delivery sample_env sample_report_contracts sample_codec
      RemovalAck.default_policy "capture" true backlog in
  r = Ok () /\ kind = Some Ack /\ length (w_bus w1) = 32
  /\ exists event o, outbox_events (w_db w1) !! event = Some o /\ queued_by 1%N event o = true
       /\ RemovalAck.is_published o = false.
Proof. vm_compute. split_and!; [reflexivity..|]. eexists 1001%N, _. split_and!; reflexivity. Qed.

End BusWorker.
