(* ===== verification/Service.v ===== *)
(** The process (src/services/threads-archive/src: lib.rs, workers.rs, main.rs): the facts readiness is
    computed from and the operator routes, the boot sequence with its exit codes, the supervised run
    until shutdown, and the command line that reprocesses an export.

    The boot is a function of what the environment answers at each of its stages ([Stages]); the run
    after it is a step relation, in which the database prober, the workers and the shutdown signal
    interleave freely. The UUID parser is a parameter ([UuidText]). *)
From S2P Require Import Prelude Schema Store Publishing PublicResolution Config DeletionAcks BusWorker Reprocessing DataExport.

(** * Readiness *)

Module Runtime.
Local Open Scope string_scope.

(** What is known of a dependency or worker. *)
Inductive Fact := ABSENT | UP | DOWN.

#[global] Instance Fact_eq_dec : EqDecision Fact.
Proof. solve_decision. Defined.

Inductive WorkerKind := Bus | Resolver | DeletionAcks.

#[global] Instance WorkerKind_eq_dec : EqDecision WorkerKind.
Proof. solve_decision. Defined.

Record RuntimeState := mk_runtime {
  startup_complete : bool;
  draining : bool;
  database : Fact;
  bus : Fact;
  resolver : Fact;
  deletion_acks : Fact;
}.

(** [RuntimeState::new]. *)
Definition new_runtime : RuntimeState := mk_runtime false false ABSENT ABSENT ABSENT ABSENT.

Definition mark_startup_complete (s : RuntimeState) : RuntimeState :=
  mk_runtime true (draining s) (database s) (bus s) (resolver s) (deletion_acks s).

Definition begin_draining (s : RuntimeState) : RuntimeState :=
  mk_runtime (startup_complete s) true (database s) (bus s) (resolver s) (deletion_acks s).

Definition fact (up : bool) : Fact := if up then UP else DOWN.

Definition set_database_reachable (reachable : bool) (s : RuntimeState) : RuntimeState :=
  mk_runtime (startup_complete s) (draining s) (fact reachable) (bus s) (resolver s) (deletion_acks s).

Definition set_bus_ready (ready : bool) (s : RuntimeState) : RuntimeState :=
  mk_runtime (startup_complete s) (draining s) (database s) (fact ready) (resolver s) (deletion_acks s).

Definition set_resolver_ready (ready : bool) (s : RuntimeState) : RuntimeState :=
  mk_runtime (startup_complete s) (draining s) (database s) (bus s) (fact ready) (deletion_acks s).

Definition set_deletion_acks_ready (ready : bool) (s : RuntimeState) : RuntimeState :=
  mk_runtime (startup_complete s) (draining s) (database s) (bus s) (resolver s) (fact ready).

Definition worker_stopped (kind : WorkerKind) (s : RuntimeState) : RuntimeState :=
  match kind with
  | Bus => set_bus_ready false s
  | Resolver => set_resolver_ready false s
  | DeletionAcks => set_deletion_acks_ready false s
  end.

Definition is_ready (s : RuntimeState) : bool :=
  startup_complete s && negb (draining s)
  && negb (bool_decide (bus s = DOWN))
  && negb (bool_decide (resolver s = DOWN))
  && negb (bool_decide (deletion_acks s = DOWN)).

Inductive CheckName := CBus | CDatabase | CDeletionAcks | CDrain | CResolver | CStartup.

#[global] Instance CheckName_eq_dec : EqDecision CheckName.
Proof. solve_decision. Defined.

(** The order the enumeration derives. *)
Definition name_index (n : CheckName) : nat :=
  match n with CBus => 0 | CDatabase => 1 | CDeletionAcks => 2 | CDrain => 3 | CResolver => 4 | CStartup => 5 end.

Inductive CheckState := Pass | Fail.

#[global] Instance CheckState_eq_dec : EqDecision CheckState.
Proof. solve_decision. Defined.

Inductive CheckReason := StartupIncomplete | ShutdownRequested | DependencyUnavailable | WorkerStopped.

#[global] Instance CheckReason_eq_dec : EqDecision CheckReason.
Proof. solve_decision. Defined.

Record Check := mk_check { ck_name : CheckName; ck_state : CheckState; ck_reason : option CheckReason }.

#[global] Instance Check_eq_dec : EqDecision Check.
Proof. solve_decision. Defined.

Definition pass (subject : bool) : CheckState := if subject then Pass else Fail.

(** [bool::then_some]. *)
Definition then_some {A} (b : bool) (x : A) : option A := if b then Some x else None.

Definition worker_check (name : CheckName) (state : Fact) : list Check :=
  if bool_decide (state = ABSENT) then []
  else let up := bool_decide (state = UP) in [mk_check name (pass up) (then_some (negb up) WorkerStopped)].

Definition checks (s : RuntimeState) : list Check :=
  let checks :=
    [ mk_check CDrain (pass (negb (draining s))) (then_some (draining s) ShutdownRequested);
      mk_check CStartup (pass (startup_complete s)) (then_some (negb (startup_complete s)) StartupIncomplete) ] in
  let checks := (checks ++ if bool_decide (database s = ABSENT) then [] else
    let up := bool_decide (database s = UP) in
    [mk_check CDatabase (pass up) (then_some (negb up) DependencyUnavailable)])%list in
  let checks := (checks ++ worker_check CBus (bus s) ++ worker_check CDeletionAcks (deletion_acks s)
    ++ worker_check CResolver (resolver s))%list in
  sort_by (fun a b => (name_index (ck_name a) <=? name_index (ck_name b))%nat) checks.

(** ** The operator routes *)

Inductive Body :=
| LiveBody
| ReadyBody (state : string) (checks : list Check)
| MetricsBody (text : string)
| VersionBody
| NoBody.

Record Response := mk_response { rs_status : Z; rs_cache_control : option string; rs_body : Body }.

(** A [GET] on a route, before the [no_store] layer. *)
Definition route (s : RuntimeState) (render_metrics : string) (path : string) : Response :=
  if bool_decide (path = "/health/live") then mk_response 200 None LiveBody
  else if bool_decide (path = "/health/ready") then
    let ready := is_ready s in
    mk_response (if ready then 200 else 503) None
      (ReadyBody (if ready then "ready" else "not_ready") (checks s))
  else if bool_decide (path = "/metrics") then mk_response 200 None (MetricsBody render_metrics)
  else if bool_decide (path = "/version") then mk_response 200 None VersionBody
  else mk_response 404 None NoBody.

Definition no_store (response : Response) : Response :=
  mk_response (rs_status response) (Some "no-store") (rs_body response).

Definition admin_router (s : RuntimeState) (render_metrics path : string) : Response :=
  no_store (route s render_metrics path).

(** ** What readiness reports *)

(** Readiness and its report agree. The list names each check once, in order; a check passes
    exactly without a reason; and the service answers 200 exactly when every listed check but the
    database's passes, 503 otherwise, never to be cached. *)
Theorem readiness_report_exact s render_metrics :
  let response := admin_router s render_metrics "/health/ready" in
  StronglySorted lt ((fun c => name_index (ck_name c)) <$> checks s)
  /\ Forall (fun c => ck_state c = Pass <-> ck_reason c = None) (checks s)
  /\ (is_ready s = true <-> forall c, c ∈ checks s -> ck_name c <> CDatabase -> ck_state c = Pass)
  /\ rs_status response = (if is_ready s then 200 else 503)%Z
  /\ rs_cache_control response = Some "no-store"
  /\ rs_body response = ReadyBody (if is_ready s then "ready" else "not_ready") (checks s).
Proof.
  destruct s as [st dr da bu re de]. split_and!; [| | |done..].
  - destruct st, dr, da, bu, re, de; vm_compute; repeat constructor.
  - destruct st, dr, da, bu, re, de; vm_compute; repeat constructor; discriminate.
  - assert (forall l, (forall c, c ∈ l -> ck_name c <> CDatabase -> ck_state c = Pass) <->
      forallb (fun c => bool_decide (ck_name c = CDatabase) || bool_decide (ck_state c = Pass)) l = true) as ->.
    { intros l. rewrite forallb_forall. setoid_rewrite <- list_elem_of_In.
      setoid_rewrite orb_true_iff. setoid_rewrite bool_decide_eq_true.
      split; intros H c Hc; specialize (H c Hc); [destruct (decide (ck_name c = CDatabase)); auto|naive_solver]. }
    destruct st, dr, da, bu, re, de; vm_compute; split; (done || discriminate).
Qed.

End Runtime.

(** * Boot and supervision *)

Module Process.
Import Runtime.
Local Open Scope string_scope.

(** [ExitCode]: the process's status. *)
Definition SUCCESS : Z := 0.
Definition FAILURE : Z := 1.
Definition EX_CONFIG : Z := 78.

(** What the environment answers at each stage of the boot. *)
Record Stages := mk_stages {
  sg_vars : list (string * string);                    (* the process environment *)
  sg_telemetry : bool;                                 (* the telemetry pipeline was installed *)
  sg_connect : bool;                                   (* the database was reached *)
  sg_schema : bool;                                    (* the schema was applied *)
  sg_bus : bool;                                       (* the broker accepted the connection *)
  sg_consumer : option BusWorker.ConsumerInfo;         (* its answer to the lookup of the command durable *)
  sg_acks : option DeletionAcks.ConsumerConfig;        (* and of the acknowledgement durable *)
  sg_mkdir : bool;                                     (* the evidence directory exists *)
  sg_client : bool;                                    (* the HTTP client was built *)
  sg_bind : bool;                                      (* the operator listener was bound *)
}.

Section Boot.
Context {Hweb : PublicResolution.Web} {Hpg : Config.PgUrl}.

(** A stage that must answer. *)
Definition stage (ok : bool) : Result Z () := if ok then Ok () else Err FAILURE.

(** [ApprovedOembedClient::new]. *)
Definition oembed_client (endpoint : string) (built : bool) : bool :=
  is_ok (PublicResolution.new_client (fun _ => built) endpoint).

(** [spawn_nats_consumer] and [spawn_deletion_acks], as far as they can refuse. *)
Definition spawn_nats_consumer (sg : Stages) : Result Z () :=
  stage (is_ok (BusWorker.ensure_command_consumer (sg_consumer sg))).

Definition spawn_deletion_acks (sg : Stages) : Result Z () :=
  stage (is_ok (DeletionAcks.acks_consumer (sg_acks sg))).

(** [spawn_capture_resolver], as far as it can refuse. *)
Definition spawn_capture_resolver (config : Config.PublicResolutionConfig) (sg : Stages) : Result Z () :=
  match Config.raw_object_root config with
  | None => Err FAILURE
  | Some _ =>
      (let? _ := stage (sg_mkdir sg) in
       stage (oembed_client (Config.oembed_endpoint config) (sg_client sg)))%rust
  end.

(** The facts the boot sets once the listener is bound. *)
Definition started : RuntimeState :=
  mark_startup_complete (set_resolver_ready true (set_deletion_acks_ready true (set_bus_ready true new_runtime))).

(** [tokio_main] up to the serving of the operator plane. *)
Definition boot (sg : Stages) : Result Z (Config.Config * RuntimeState) :=
  (let? config := map_err (fun _ => EX_CONFIG) (Config.load (sg_vars sg)) in
   let? _ := stage (sg_telemetry sg) in
   let? _ := ok_or (Config.database_url (Config.storage config)) FAILURE in
   let? _ := stage (sg_connect sg) in
   let? _ := stage (sg_schema sg) in
   let? _ := stage (sg_bus sg) in
   let? _ := spawn_nats_consumer sg in
   let? _ := spawn_deletion_acks sg in
   let? _ := spawn_capture_resolver (Config.public_resolution config) sg in
   let? _ := stage (sg_bind sg) in
   Ok (config, started))%rust.

(** [check_config]. *)
Definition check_config (vars : list (string * string)) : Z :=
  match Config.load vars with Ok _ => SUCCESS | Err _ => EX_CONFIG end.

(** What the environment has to grant beyond a valid configuration. *)
Definition granted (sg : Stages) (config : Config.Config) : bool :=
  sg_telemetry sg && bool_decide (is_Some (Config.database_url (Config.storage config)))
  && sg_connect sg && sg_schema sg && sg_bus sg
  && is_ok (BusWorker.ensure_command_consumer (sg_consumer sg)) && is_ok (DeletionAcks.acks_consumer (sg_acks sg))
  && sg_mkdir sg && sg_client sg && sg_bind sg.

(** The default endpoint is an approved one; the URL parser decides. *)
Definition default_endpoint_approved : Prop :=
  PublicResolution.is_approved_endpoint (Config.oembed_endpoint (Config.public_resolution Config.default_config)) = true.

Lemma load_well_formed vars c : Config.load vars = Ok c -> Config.well_formed c.
Proof.
  unfold Config.load. destruct (Config.prefixed_entries vars) as [es|]; [|done]. simpl.
  rewrite Config.from_environment_report. destruct (Config.report es) eqn:Hr; [|done].
  intros [= <-]. by apply Config.config_of_well_formed.
Qed.

(** The boot's outcome: an invalid configuration, and nothing else, ends the process with status
    78; with a valid one it starts exactly when the environment grants what it needs and ends with
    status 1 otherwise. The resolver's own refusals of a missing evidence directory setting and of an
    unapproved endpoint are never the reason: an accepted configuration has both. *)
Theorem boot_outcome sg : default_endpoint_approved ->
  boot sg = match Config.load (sg_vars sg) with
            | Err _ => Err EX_CONFIG
            | Ok config => if granted sg config then Ok (config, started) else Err FAILURE
            end.
Proof.
  intros Hdef. unfold boot. destruct (Config.load (sg_vars sg)) as [config|] eqn:Hl; [|done].
  apply load_well_formed in Hl as [Hok _ (root & Hroot & _) _].
  assert (PublicResolution.is_approved_endpoint (Config.oembed_endpoint (Config.public_resolution config)) = true)
    as Hep.
  { destruct (Config.ok_endpoint _ Hok) as [->|H]; [exact Hdef|exact H]. }
  cbn [map_err result_bind]. unfold granted, spawn_nats_consumer, spawn_deletion_acks, spawn_capture_resolver, oembed_client.
  rewrite Hroot, PublicResolution.new_client_ok, Hep.
  destruct (sg_telemetry sg); [|done].
  destruct (Config.database_url _); cbn [ok_or result_bind stage andb];
    [rewrite bool_decide_eq_true_2 by by eexists|by rewrite bool_decide_eq_false_2 by by intros [? [=]]].
  destruct (sg_connect sg); [|done]. destruct (sg_schema sg); [|done]. destruct (sg_bus sg); [|done].
  destruct (is_ok (BusWorker.ensure_command_consumer _)); [|done]. destruct (is_ok (DeletionAcks.acks_consumer _)); [|done].
  destruct (sg_mkdir sg); [|done]. destruct (sg_client sg); [|done]. by destruct (sg_bind sg).
Qed.

End Boot.

(** ** The run after the boot *)

Inductive Phase :=
| Serving
| Draining                       (* a shutdown signal arrived *)
| Lingering (kind : WorkerKind)  (* a worker returned early; the operator plane still answers *)
| Exited (status : Z).

Record Proc := mk_proc { pr_runtime : RuntimeState; pr_phase : Phase }.

(** [serve_admin] with the prober beside it. The prober's first answer may come at any time after the
    boot spawned it. *)
Inductive step : Proc -> Proc -> Prop :=
| step_probe reachable s phase : (forall status, phase <> Exited status) ->
    step (mk_proc s phase) (mk_proc (set_database_reachable reachable s) phase)
| step_server_ended (ok : bool) s :
    step (mk_proc s Serving) (mk_proc s (Exited (if ok then SUCCESS else FAILURE)))
| step_signal s :
    step (mk_proc s Serving) (mk_proc (begin_draining s) Draining)
| step_signal_failed s :
    step (mk_proc s Serving) (mk_proc s (Exited FAILURE))
| step_drained (in_time : bool) s :
    step (mk_proc s Draining) (mk_proc s (Exited (if in_time then SUCCESS else FAILURE)))
| step_worker_exit kind s :
    step (mk_proc s Serving) (mk_proc (worker_stopped kind s) (Lingering kind))
| step_lingered (still_serving : bool) kind s :
    step (mk_proc s (Lingering kind))
      (mk_proc (if still_serving then begin_draining s else s) (Exited FAILURE)).

Definition booted : Proc := mk_proc started Serving.

(** What the supervision has decided. *)
Definition consistent (p : Proc) : Prop :=
  startup_complete (pr_runtime p) = true
  /\ match pr_phase p with
     | Serving => is_ready (pr_runtime p) = true
     | Draining => draining (pr_runtime p) = true
     | Lingering _ => is_ready (pr_runtime p) = false
     | Exited _ => True
     end.

Lemma probe_ready reachable s : is_ready (set_database_reachable reachable s) = is_ready s.
Proof. done. Qed.

Lemma worker_stopped_not_ready kind s : is_ready (worker_stopped kind s) = false.
Proof.
  destruct s as [[] [] ? b r a], kind; cbn; try done; destruct b, r, a; done.
Qed.

Lemma draining_not_ready s : draining s = true -> is_ready s = false.
Proof. unfold is_ready. intros ->. by rewrite andb_false_r. Qed.

Lemma step_consistent p p' : step p p' -> consistent p -> consistent p'.
Proof.
  destruct 1; intros [Hs Hp]; split; cbn in *; try done.
  - by destruct kind.
  - apply worker_stopped_not_ready.
  - by destruct still_serving.
Qed.

(** The process once a worker returned or the shutdown began. *)
Definition stopping (p : Proc) : bool :=
  match pr_phase p with Serving => false | _ => true end.

Lemma step_stopping p p' : step p p' -> stopping p = true -> stopping p' = true.
Proof. destruct 1; try done. Qed.

Lemma steps_consistent p p' : rtc step p p' -> consistent p -> consistent p'.
Proof. induction 1; eauto using step_consistent. Qed.

Lemma steps_stopping p p' : rtc step p p' -> stopping p = true -> stopping p' = true.
Proof. induction 1; eauto using step_stopping. Qed.

(** A worker returned early, or the process failed. *)
Definition failing (p : Proc) : Prop :=
  (exists kind, pr_phase p = Lingering kind) \/ pr_phase p = Exited FAILURE.

Lemma step_failing p p' : step p p' -> failing p -> failing p'.
Proof.
  unfold failing. destruct 1 as [? ? phase Hne|?|?|?|?|?|?]; cbn; intros [[k Hk]|Hk]; simplify_eq; eauto.
Qed.

Lemma steps_failing p p' : rtc step p p' -> failing p -> failing p'.
Proof. induction 1; eauto using step_failing. Qed.

(** [C35] From the boot on, in every order of probes, worker exits, signals and server ends: the
    process is ready exactly while it serves undisturbed; once a worker has returned or the shutdown
    has begun it is not ready while it still answers, and never serves again; and a run that a worker
    ended leaves with a failure status. *)
Theorem supervision_sound p : rtc step booted p ->
  consistent p
  /\ (forall q, rtc step p q -> stopping p = true ->
       stopping q = true /\ ((forall status, pr_phase q <> Exited status) -> is_ready (pr_runtime q) = false))
  /\ (forall kind q status, pr_phase p = Lingering kind -> rtc step p q -> pr_phase q = Exited status ->
       status = FAILURE).
Proof.
  intros Hp. apply steps_consistent in Hp as Hc; [|done]. split_and!; [done| |].
  - intros q Hq Hst. apply steps_stopping in Hq as Hs; [|done]. apply steps_consistent in Hq as [_ Hq]; [|done].
    split; [done|]. intros Hne. destruct q as [s []]; cbn in *; try done.
    + by apply draining_not_ready.
    + by destruct (Hne status).
  - intros kind q status Hk Hq He. apply steps_failing in Hq; [|by left; eexists].
    destruct Hq as [[? H]|H]; congruence.
Qed.

(** The boot marks the process ready without waiting for the prober it spawned: a process
    reports itself ready while no answer of the database has been recorded, and its report has no
    database check. *)
Example ready_before_first_probe :
  is_ready (pr_runtime booted) = true /\ database (pr_runtime booted) = ABSENT
  /\ (CDatabase ∉ (ck_name <$> checks (pr_runtime booted)))
  /\ exists p, rtc step booted p /\ is_ready (pr_runtime p) = true /\ database (pr_runtime p) = DOWN.
Proof.
  split_and!; [reflexivity..| |].
  - apply (bool_decide_unpack _). vm_compute. reflexivity.
  - exists (mk_proc (set_database_reachable false started) Serving).
    split_and!; [|reflexivity..]. apply rtc_once, step_probe. intros ? [=].
Qed.

(** ** Witnesses *)

Lemma supervision_sound_witness :
  let p := mk_proc (worker_stopped Resolver started) (Lingering Resolver) in
  is_ready (pr_runtime p) = false.
Proof.
  cbv zeta. destruct (supervision_sound (mk_proc (worker_stopped Resolver started) (Lingering Resolver)))
    as [[_ H] _]; [|exact H].
  apply rtc_once. apply step_worker_exit.
Defined.

Definition sample_web : PublicResolution.Web :=
  PublicResolution.Build_Web
    (fun u => if bool_decide (u = "https://graph.threads.com/oembed")
              then Some (PublicResolution.mk_url "https" (Some "graph.threads.com") "/oembed" None) else None)
    (fun _ => None) (fun _ _ => None).

Definition sample_pg : Config.PgUrl := Config.Build_PgUrl (fun _ => true).

Definition sample_stages (schema_ok : bool) : Stages :=
  mk_stages
    (("RATATOSKR__STORAGE__DATABASE_URL", "postgres://u:p@h/d") :: Config.sample_entries)
    true true schema_ok true BusWorker.sample_lookup
    (Some (DeletionAcks.mk_consumer_config (Some DeletionAcks.DURABLE) DeletionAcks.FILTER_SUBJECT
      DeletionAcks.AckExplicit DeletionAcks.ACK_WAIT None)) true true true.

Lemma boot_outcome_witness :
  is_ok (@boot sample_web sample_pg (sample_stages true)) = true
  /\ @boot sample_web sample_pg (sample_stages false) = Err FAILURE.
Proof.
  rewrite !(@boot_outcome sample_web sample_pg) by (vm_compute; reflexivity).
  split; vm_compute; reflexivity.
Defined.

End Process.

(** * The reprocess-export command *)

Module Cli.
Import Schema Store Reprocessing.
Local Open Scope string_scope.
Local Open Scope store_scope.

(** [Uuid::from_str]. *)
Class UuidText := { parse_uuid : string -> option Uuid }.

Inductive ReprocessMode := DryRun | Apply.

#[global] Instance ReprocessMode_eq_dec : EqDecision ReprocessMode.
Proof. solve_decision. Defined.

Record ReprocessCommand := mk_command {
  rc_mode : ReprocessMode;
  rc_owner : Uuid;
  rc_export_run_id : Uuid;
  rc_operation_id : option Uuid;
}.

(** The variables of the flag loop. *)
Record Flags := mk_flags {
  fl_owner : option Uuid;
  fl_run_id : option Uuid;
  fl_parser : option string;
  fl_operation_id : option Uuid;
}.

Section Command.
Context {Huuid : UuidText}.

(** One turn of the loop. *)
Definition read_flag (flag value : string) (f : Flags) : Result string Flags :=
  (if bool_decide (flag = "--owner") && bool_decide (fl_owner f = None) then
     let? id := ok_or (parse_uuid value) "--owner must be a UUID" in
     Ok (mk_flags (Some id) (fl_run_id f) (fl_parser f) (fl_operation_id f))
   else if bool_decide (flag = "--run-id") && bool_decide (fl_run_id f = None) then
     let? id := ok_or (parse_uuid value) "--run-id must be a UUID" in
     Ok (mk_flags (fl_owner f) (Some id) (fl_parser f) (fl_operation_id f))
   else if bool_decide (flag = "--parser") && bool_decide (fl_parser f = None) then
     Ok (mk_flags (fl_owner f) (fl_run_id f) (Some value) (fl_operation_id f))
   else if bool_decide (flag = "--operation-id") && bool_decide (fl_operation_id f = None) then
     let? id := ok_or (parse_uuid value) "--operation-id must be a UUID" in
     Ok (mk_flags (fl_owner f) (fl_run_id f) (fl_parser f) (Some id))
   else Err "unknown or duplicate reprocess-export flag")%rust.

(** The loop over the arguments after the mode, two at a time. *)
Fixpoint read_flags (arguments : list string) (f : Flags) : Result string Flags :=
  match arguments with
  | [] => Ok f
  | [_] => Err "every flag requires one value"
  | flag :: value :: rest => (let? f := read_flag flag value f in read_flags rest f)%rust
  end.

Definition parse_reprocess_command (arguments : list string) : Result string ReprocessCommand :=
  match arguments with
  | command :: arguments =>
      if negb (bool_decide (command = "reprocess-export")) then Err "invalid reprocess-export command" else
      match arguments with
      | [] => Err "mode must be dry-run or apply"
      | mode :: arguments =>
          (let? mode := (if bool_decide (mode = "dry-run") then Ok DryRun
                         else if bool_decide (mode = "apply") then Ok Apply
                         else Err "mode must be dry-run or apply") in
           let? f := read_flags arguments (mk_flags None None None None) in
           if negb (bool_decide (fl_parser f = Some SUPPORTED_REPROCESSING_PARSER))
           then Err "--parser is not registered" else
           if bool_decide (mode = DryRun) && bool_decide (is_Some (fl_operation_id f))
           then Err "dry-run does not accept --operation-id" else
           if bool_decide (mode = Apply) && bool_decide (fl_operation_id f = None)
           then Err "apply requires --operation-id" else
           let? owner := ok_or (fl_owner f) "--owner is required" in
           let? run_id := ok_or (fl_run_id f) "--run-id is required" in
           Ok (mk_command mode owner run_id (fl_operation_id f)))%rust
      end
  | [] => Err "invalid reprocess-export command"
  end.

(** A parsed application names its operation, a parsed dry run has none: the nil identifier that
    stands for a missing one is never used. *)
Lemma parsed_operation arguments command : parse_reprocess_command arguments = Ok command ->
  rc_mode command = Apply <-> is_Some (rc_operation_id command).
Proof.
  unfold parse_reprocess_command. destruct arguments as [|c [|mode rest]]; [done|by case_match|].
  destruct (negb _); [done|].
  destruct (if bool_decide (mode = "dry-run") then _ else _) as [m|]; cbn [result_bind]; [|done].
  destruct (read_flags rest _) as [f|]; cbn [result_bind]; [|done].
  destruct (negb _); [done|]. destruct f as [owner run_id parser operation]. cbn.
  destruct m, operation as [op|]; cbn; try done.
  all: destruct owner, run_id; cbn; try done; intros [= <-]; cbn; naive_solver.
Qed.

End Command.

Definition classification (value : string) : Result SqlError ReprocessClassification :=
  if bool_decide (value = "normalized") then Ok Normalized
  else if bool_decide (value = "unknown_record") then Ok UnknownRecord
  else if bool_decide (value = "unknown_section") then Ok UnknownSection
  else if bool_decide (value = "conflict") then Ok Conflict
  else if bool_decide (value = "warning") then Ok Warning
  else Err (Protocol "unregistered retained export record kind").

(** [collect::<Result<Vec<_>, _>>]. *)
Fixpoint collect {A B E} (f : A -> Result E B) (l : list A) : Result E (list B) :=
  match l with
  | [] => Ok []
  | x :: l => (let? y := f x in let? ys := collect f l in Ok (y :: ys))%rust
  end.

Section Run.
Context {Henv : Env}.

Definition input_of (record : Uuid * string) : Result SqlError ReprocessInput :=
  (let? c := classification record.2 in Ok (mk_input (show_uuid record.1) c None))%rust.

Definition load_reprocessing_inputs (command : ReprocessCommand) : M SqlError (list ReprocessInput * string) :=
  let* archive_hash := read (fun _ d =>
    match export_runs d !! rc_export_run_id command with
    | Some run => if bool_decide (er_user_ref run = rc_owner command)
                     && bool_decide (is_Some (er_detected_version run))
                  then Ok (er_archive_hash run) else Err RowNotFound
    | None => Err RowNotFound
    end) in
  let* records := read (fun _ d => Ok ((fun kv => (kv.1, xr_record_kind kv.2)) <$>
    select (export_records d) (fun _ r => bool_decide (xr_run_id r = rc_export_run_id command)))) in
  let* inputs := lift (collect input_of records) in
  let state_fingerprint := Publishing.hex archive_hash in
  if negb (String.length state_fingerprint =? 64)%nat
  then throw (Protocol "archive hash is not a SHA-256 digest")
  else ret (inputs, state_fingerprint).

(** [run_reprocess_export] on a database that was reached: the report it renders, with the run and
    whether it completed. The source passes [usize::MAX] as the chunk's bound; [length inputs], the length of
    the whole plan, takes the same items. *)
Definition run_reprocess_export (command : ReprocessCommand)
  : M SqlError (ReprocessReport * option (Uuid * bool)) :=
  let* loaded := load_reprocessing_inputs command in
  let '(inputs, fingerprint) := loaded in
  match rc_mode command with
  | DryRun =>
      let* report := dry_run (rc_owner command) (rc_export_run_id command) inputs fingerprint in
      ret (report, None)
  | Apply =>
      let* outcome := apply_chunk (rc_owner command) (rc_export_run_id command)
        (default 0%N (rc_operation_id command)) inputs fingerprint (length inputs) in
      ret (oc_report outcome, Some (oc_reprocessing_run_id outcome, oc_completed outcome))
  end.

End Run.

(** * A reprocessing from the command line *)

(** The retained records of an export run, in the order of their identifiers. *)
Definition records_of (run_id : Uuid) (d : db) : list (Uuid * export_record_row) :=
  select (export_records d) (fun _ r => bool_decide (xr_run_id r = run_id)).

Definition class_of (r : export_record_row) : ReprocessClassification :=
  match classification (xr_record_kind r) with Ok c => c | Err _ => Warning end.

Section Healthy.
Context {Henv : Env} {Hh : Healthy Henv} {Hw : DigestWidth Henv}.

Definition inputs_of (run_id : Uuid) (d : db) : list ReprocessInput :=
  (fun kv => mk_input (show_uuid kv.1) (class_of kv.2) None) <$> records_of run_id d.

(** The command may reprocess this run: it is the owner's, its version is known, its hash a digest,
    and its records have kinds of the schema's vocabulary and identifiers shown apart. *)
Record reprocessable (command : ReprocessCommand) (run : export_run_row) (d : db) : Prop := {
  re_run : export_runs d !! rc_export_run_id command = Some run;
  re_owner : er_user_ref run = rc_owner command;
  re_version : is_Some (er_detected_version run);
  re_hash : String.length (er_archive_hash run) = 32;
  re_kinds : forall id r, (id, r) ∈ records_of (rc_export_run_id command) d ->
    xr_record_kind r ∈ DataExport.record_kind_vocabulary;
  re_keys : forall id r, (id, r) ∈ records_of (rc_export_run_id command) d -> key_check (show_uuid id) = true;
  re_distinct : NoDup (in_item_key <$> inputs_of (rc_export_run_id command) d);
}.

Lemma classification_total value : value ∈ DataExport.record_kind_vocabulary ->
  exists c, classification value = Ok c /\ wire_name c = value.
Proof.
  unfold DataExport.record_kind_vocabulary. rewrite !elem_of_cons, elem_of_nil.
  intros H. destruct_or! H; subst; eexists; (split; [vm_compute; reflexivity|reflexivity]) || done.
Qed.

Lemma collect_inputs records : (forall kv, kv ∈ records -> xr_record_kind kv.2 ∈ DataExport.record_kind_vocabulary) ->
  collect input_of ((fun kv : Uuid * export_record_row => (kv.1, xr_record_kind kv.2)) <$> records)
  = Ok ((fun kv => mk_input (show_uuid kv.1) (class_of kv.2) None) <$> records).
Proof.
  induction records as [|[id r] records IH]; intros Hk; [done|]. cbn.
  destruct (classification_total (xr_record_kind r)) as (c & Hc & _); [apply (Hk (id, r)); left|].
  unfold input_of at 1, class_of at 1. cbn. rewrite Hc. cbn. rewrite IH; [done|].
  intros kv Hkv. apply Hk. by right.
Qed.

Lemma load_reprocessing_inputs_run command run w : reprocessable command run (w_db w) ->
  load_reprocessing_inputs command w
  = (Ok (inputs_of (rc_export_run_id command) (w_db w), Publishing.hex (er_archive_hash run)), tick (tick w)).
Proof using Hh.
  intros [Hr Ho Hv Hl Hk _ _]. unfold load_reprocessing_inputs, bind at 1. rewrite read_healthy, Hr.
  rewrite !bool_decide_eq_true_2 by done. cbn [andb]. unfold bind at 1. rewrite read_healthy.
  unfold bind, lift. change (w_db (tick w)) with (w_db w). fold (records_of (rc_export_run_id command) (w_db w)).
  rewrite collect_inputs by (intros [id r] Hin; by eapply Hk).
  assert (String.length (Publishing.hex (er_archive_hash run)) = 64) as ->; [|done].
  generalize (er_archive_hash run) Hl. clear. intros s Hs.
  assert (forall s, String.length (Publishing.hex s) = (2 * String.length s)%nat) as H.
  { induction s0 as [|c s0 IH]; [done|]. cbn [Publishing.hex String.length]. rewrite IH. lia. }
  rewrite H, Hs. done.
Qed.

Lemma inputs_storable command run d : reprocessable command run d ->
  plan_storable (inputs_of (rc_export_run_id command) d) (Publishing.hex (er_archive_hash run)).
Proof.
  intros [_ _ _ Hl _ Hkeys _]. split; [rewrite hex_text_length, Hl; done|].
  intros input Hin. apply list_elem_of_fmap in Hin as ([id r] & -> & Hin). split; [by eapply Hkeys|done].
Qed.

(** [C32] Reprocessing from the command line, end to end on a healthy database. A dry run changes no
    table and renders the plan of the run's retained records; an application of the same run by
    its owner, from any stage its operation is at, renders the same plan and completes it in this one call, with every
    record's item stored. *)
Theorem reprocess_export_end_to_end command run w :
  let inputs := inputs_of (rc_export_run_id command) (w_db w) in
  let report := migration_dry_run inputs (Publishing.hex (er_archive_hash run)) in
  reprocessable command run (w_db w) ->
  match rc_mode command with
  | DryRun => exists w', run_reprocess_export command w = (Ok (report, None), w') /\ w_db w' = w_db w
  | Apply => forall operation_id k, rc_operation_id command = Some operation_id ->
      progress (rc_owner command) (rc_export_run_id command) operation_id report k (w_db w) ->
      export_reprocessing_runs (w_db w) !! mint (w_minted w) = None ->
      exists run_id w', run_reprocess_export command w = (Ok (report, Some (run_id, true)), w')
        /\ begun (rc_owner command) (rc_export_run_id command) operation_id report (length inputs) (w_db w')
  end.
Proof using Hh Hw.
  intros inputs report Hre. unfold run_reprocess_export.
  pose proof (load_reprocessing_inputs_run _ _ _ Hre) as Hload. fold inputs in Hload. destruct (rc_mode command).
  - unfold bind at 1. rewrite Hload. unfold dry_run, bind at 1, bind at 1. rewrite read_healthy. change (w_db (tick (tick w))) with (w_db w).
    rewrite (re_run _ _ _ Hre), bool_decide_eq_true_2 by apply Hre. eexists. split; [reflexivity|done].
  - intros operation_id k Hop Hp Hmint. rewrite Hop. change (default 0%N (Some operation_id)) with operation_id.
    destruct (apply_chunks_complete (rc_owner command) (rc_export_run_id command) operation_id inputs
      (Publishing.hex (er_archive_hash run)) (length inputs) 0 k (tick (tick w)))
      as (outcome & w' & Ha & Hc & Hr & Hb).
    + apply Hre.
    + by apply inputs_storable.
    + exact Hp.
    + cbn. by rewrite (re_run _ _ _ Hre).
    + exact Hmint.
    + lia.
    + exists (oc_reprocessing_run_id outcome), w'. split; [|exact Hb].
      unfold bind. cbn [apply_chunks] in Ha. rewrite Hload, Ha, Hc, Hr. reflexivity.
Qed.

End Healthy.

(** ** Witness: an export of two records, reprocessed by its owner *)

Definition cli_world : World := sample_world
  (set_export_records
    {[11%N := mk_export_record_row 5 "normalized" "posts" (Some "p1") None UnknownSectionPayload;
      12%N := mk_export_record_row 5 "unknown_section" "likes.json" None None UnknownSectionPayload]}
    (set_export_runs
      {[5%N := mk_export_run_row 7 "0123456789abcdef0123456789abcdef" "blob" 3 "parser" "completed"
                 (Some "1") 2 None None]} empty_db)).

Definition cli_command (mode : ReprocessMode) : ReprocessCommand :=
  mk_command mode 7 5 (match mode with Apply => Some 9%N | DryRun => None end).

Definition cli_run : export_run_row :=
  mk_export_run_row 7 "0123456789abcdef0123456789abcdef" "blob" 3 "parser" "completed" (Some "1") 2 None None.

Lemma cli_reprocessable mode : @reprocessable digest_env (cli_command mode) cli_run (w_db cli_world).
Proof.
  split; [reflexivity|reflexivity|by eexists|reflexivity|..].
  - intros id r Hin. change (rc_export_run_id (cli_command mode)) with 5%N in Hin.
    assert (Forall (fun kv : Uuid * export_record_row =>
      xr_record_kind kv.2 ∈ DataExport.record_kind_vocabulary) (records_of 5 (w_db cli_world))) as H
      by (apply (bool_decide_unpack _); vm_compute; reflexivity).
    rewrite Forall_forall in H. exact (H _ Hin).
  - intros id r Hin. change (rc_export_run_id (cli_command mode)) with 5%N in Hin.
    assert (Forall (fun kv : Uuid * export_record_row =>
      key_check (@show_uuid digest_env kv.1) = true) (records_of 5 (w_db cli_world))) as H
      by (apply (bool_decide_unpack _); vm_compute; reflexivity).
    rewrite Forall_forall in H. exact (H _ Hin).
  - apply (bool_decide_unpack _). vm_compute. reflexivity.
Qed.

Lemma reprocess_export_end_to_end_witness :
  (exists report w', @run_reprocess_export digest_env (cli_command DryRun) cli_world = (Ok (report, None), w'))
  /\ exists report run_id w',
       @run_reprocess_export digest_env (cli_command Apply) cli_world = (Ok (report, Some (run_id, true)), w').
Proof.
  split.
  - destruct (@reprocess_export_end_to_end digest_env _ _ (cli_command DryRun) cli_run cli_world
      (cli_reprocessable DryRun)) as (w' & H & _). eexists _, w'. exact H.
  - destruct (@reprocess_export_end_to_end digest_env _ _ (cli_command Apply) cli_run cli_world
      (cli_reprocessable Apply) 9%N 0%nat eq_refl) as (run_id & w' & H & _).
    + left. split; [reflexivity|]. split; [intros k [r H]; exfalso; exact (lookup_empty_Some k r H)|].
      intros id r H. exfalso. exact (lookup_empty_Some id r H).
    + reflexivity.
    + eexists _, run_id, w'. exact H.
Defined.

End Cli.
