(* ===== verification/Disclosure.v ===== *)
(** What the process prints of its configuration and of credentials
    (the [Debug] implementations of src/crates/threads-archive/src/config.rs and
    src/crates/threads-archive/src/oauth.rs, and the texts of [check_config] and of the start in
    src/services/threads-archive/src/main.rs).

    [check-config] prints the whole effective configuration and the start logs it, which is safe
    because every secret member redacts itself. A [DebugValue] is what an
    implementation hands the formatter;
    [compact] and [pretty] are the standard library's [{:?}] and [{:#?}] of it. How the standard library
    quotes a string, a path, an address or a time is a parameter. *)
From S2P Require Import Prelude Telemetry PublicResolution OAuth Config Service.

Module Disclosure.
Import OAuth Config.
Local Open Scope string_scope.

(** * The formatter *)

#[warnings="-register-all"]
Inductive DebugValue :=
| Plain (text : string)                              (* a value that writes its own text *)
| Struct (name : string) (fields : list (string * DebugValue)) (* [debug_struct] with [field]s *)
| Tuple (name : string) (fields : list DebugValue)         (* [debug_tuple] *)
| Sequence (items : list DebugValue).                      (* [debug_list] *)

Fixpoint separated (sep : string) (texts : list string) : string :=
  match texts with
  | [] => ""
  | [text] => text
  | text :: texts => text +:+ sep +:+ separated sep texts
  end.

(** [{:?}]. *)
Fixpoint compact (v : DebugValue) : string :=
  match v with
  | Plain text => text
  | Struct name [] => name
  | Struct name fields =>
      name +:+ " { " +:+ separated ", " (map (fun kv => kv.1 +:+ ": " +:+ compact kv.2) fields) +:+ " }"
  | Tuple name [] => name
  | Tuple name fields => name +:+ "(" +:+ separated ", " (map compact fields) +:+ ")"
  | Sequence items => "[" +:+ separated ", " (map compact items) +:+ "]"
  end.

(** The formatter's [PadAdapter]: four spaces before every line. *)
Fixpoint padded (at_line_start : bool) (text : string) : string :=
  match text with
  | EmptyString => ""
  | String c text =>
      (if at_line_start then "    " else "") +:+ String c (padded (bool_decide (c = ascii_of_nat 10)) text)
  end.

(** One entry of a pretty-printed group. *)
Definition entry (text : string) : string := padded true (text +:+ "," +:+ newline).

(** [{:#?}]. *)
Fixpoint pretty (v : DebugValue) : string :=
  match v with
  | Plain text => text
  | Struct name [] => name
  | Struct name fields =>
      name +:+ " {" +:+ newline
      +:+ String.concat "" (map (fun kv => entry (kv.1 +:+ ": " +:+ pretty kv.2)) fields) +:+ "}"
  | Tuple name [] => name
  | Tuple name fields =>
      name +:+ "(" +:+ newline +:+ String.concat "" (map (fun x => entry (pretty x)) fields) +:+ ")"
  | Sequence [] => "[]"
  | Sequence items => "[" +:+ newline +:+ String.concat "" (map (fun x => entry (pretty x)) items) +:+ "]"
  end.

(** The standard library's texts of leaves. *)
Class DebugText := {
  debug_str : string -> string;          (* a quoted and escaped string *)
  debug_path : string -> string;         (* a quoted and escaped path *)
  debug_addr : SocketAddr -> string;
  debug_int : Z -> string;
  debug_time : Z -> string;              (* [chrono]'s [DateTime<Utc>] *)
}.

Section Rendering.
Context {Htext : DebugText}.

Definition debug_option {A} (f : A -> DebugValue) (o : option A) : DebugValue :=
  match o with Some x => Tuple "Some" [f x] | None => Plain "None" end.

Definition redacted : DebugValue := Plain (debug_str "[REDACTED]").

(** * The configuration *)

Definition debug_admin (c : AdminConfig) : DebugValue :=
  Struct "AdminConfig" [("listen_address", Plain (debug_addr (listen_address c)))].

(** [Debug for StorageConfig], written by hand. *)
Definition debug_storage (c : StorageConfig) : DebugValue := Struct "StorageConfig" [("database_url", redacted)].

Definition debug_bus (c : BusConfig) : DebugValue :=
  Struct "BusConfig" [("url", Plain (debug_str (bus_url c)));
    ("nkey_seed_path", debug_option (fun p => Plain (debug_path p)) (nkey_seed_path c))].

Definition debug_public_resolution (c : PublicResolutionConfig) : DebugValue :=
  Struct "PublicResolutionConfig" [("oembed_endpoint", Plain (debug_str (oembed_endpoint c)));
    ("raw_object_root", debug_option (fun p => Plain (debug_path p)) (raw_object_root c));
    ("max_attempts", Plain (debug_int (max_attempts c)));
    ("batch_size", Plain (debug_int (batch_size c)));
    ("poll_interval_ms", Plain (debug_int (poll_interval_ms c)))].

Definition debug_tombstone (c : TombstoneConfig) : DebugValue :=
  Struct "TombstoneConfig" [("resend_after_seconds", Plain (debug_int (resend_after_seconds c)));
    ("resend_cap_seconds", Plain (debug_int (resend_cap_seconds c)))].

Definition debug_telemetry (c : TelemetryConfig) : DebugValue :=
  Struct "TelemetryConfig" [("log_filter", Plain (debug_str (log_filter c)))].

Definition debug_limits (c : Limits) : DebugValue :=
  Struct "Limits" [("database_connections", Plain (debug_int (database_connections c)));
    ("database_acquire_timeout_ms", Plain (debug_int (database_acquire_timeout_ms c)));
    ("shutdown_timeout_ms", Plain (debug_int (shutdown_timeout_ms c)))].

(** The derived [Debug] of [Config]. *)
Definition debug_config (c : Config) : DebugValue :=
  Struct "Config" [("admin", debug_admin (admin c)); ("storage", debug_storage (storage c));
    ("bus", debug_bus (bus c)); ("public_resolution", debug_public_resolution (public_resolution c));
    ("tombstone", debug_tombstone (tombstone c)); ("telemetry", debug_telemetry (telemetry c));
    ("limits", debug_limits (limits c))].

(** * Credentials *)

Definition debug_grant (g : OfficialGrant) : DebugValue :=
  Struct "OfficialGrant" [("access_token", redacted); ("refresh_token", redacted);
    ("scopes", Sequence (map (fun s => Plain (debug_str s)) (og_scopes g)));
    ("expires_at", Plain (debug_time (og_expires_at g)))].

Definition debug_cipher (c : CredentialCipher) : DebugValue :=
  Struct "CredentialCipher" [("key", redacted); ("generation", Plain (debug_int (cc_generation c)))].

Definition debug_envelope (e : CredentialEnvelope) : DebugValue :=
  Struct "CredentialEnvelope" [("ciphertext", redacted)].

Definition debug_credential (c : OfficialCredential) : DebugValue := Plain "OfficialCredential([REDACTED])".

(** * What the process prints *)

Context {Hweb : PublicResolution.Web} {Hpg : PgUrl}.

(** The text [check_config] writes to the standard error. *)
Definition check_config_text (vars : list (string * string)) : string :=
  Telemetry.SERVICE_NAME +:+
  match load vars with
  | Ok c => ": configuration is valid." +:+ newline +:+ pretty (debug_config c)
  | Err e => ": " +:+ display e
  end +:+ newline.

(** What a start prints of its configuration: the field of the first log record, or the refusal on the
    standard error. *)
Definition start_text (vars : list (string * string)) : string :=
  match load vars with
  | Ok c => compact (debug_config c)
  | Err e => Telemetry.SERVICE_NAME +:+ ": " +:+ display e +:+ newline
  end.

(** * Nothing secret is printed *)

Definition DATABASE_URL_KEY : string := "RATATOSKR__STORAGE__DATABASE_URL".

(** Configurations that differ at most in the database URL. *)
Definition same_public (c c' : Config) : Prop := set_database_url None c = set_database_url None c'.

#[global] Instance same_public_equivalence : Equivalence same_public.
Proof. split; unfold same_public; [by intros ?|by intros ? ?|intros ? ? ? -> ->; done]. Qed.

#[global] Instance debug_config_proper : Proper (same_public ==> eq) debug_config.
Proof. intros [] [] [=]. by subst. Qed.

(** Two variables an observer cannot tell apart: the same one, one refused by the same rule with
    whatever other value, or an accepted database URL. *)
Definition alike (e e' : string * string) : Prop :=
  e.1 = e'.1 /\ valid_utf8 e.2 = valid_utf8 e'.2 /\
  (e.2 = e'.2
   \/ (exists rule, match_key arms e.1 e.2 = Err rule /\ match_key arms e.1 e'.2 = Err rule)
   \/ (e.1 = DATABASE_URL_KEY /\ pg_options_ok e.2 = true /\ pg_options_ok e'.2 = true)).

Lemma alike_refusal e e' : alike e e' -> refusal e = refusal e'.
Proof.
  destruct e as [k v], e' as [k' v']. unfold alike, refusal. cbn.
  intros (<- & _ & [<-|[(rule & Hr & Hr')|(-> & Hp & Hp')]]); [done|by rewrite Hr, Hr'|].
  cbn. unfold arm, parse_database_url, guarded. by rewrite Hp, Hp'.
Qed.

Lemma alike_refusals entries entries' : Forall2 alike entries entries' -> refusals entries = refusals entries'.
Proof.
  unfold refusals. induction 1 as [|e e' es es' He _ IH]; [done|].
  rewrite !bind_cons. by rewrite (alike_refusal _ _ He), IH.
Qed.

(** A field that is not the database URL. *)
Lemma alike_field {A} key (parse : string -> Result string A) set start entries entries' :
  key <> DATABASE_URL_KEY -> (forall v, match_key arms key v = arm parse set v) ->
  Forall2 alike entries entries' -> field key parse start entries = field key parse start entries'.
Proof.
  intros Hne Hm Hall. unfold field. f_equal. f_equal. induction Hall as [|[k v] [k' v'] es es' He _ IH]; [done|].
  assert (accepted key parse (k, v) = accepted key parse (k', v')) as Hacc; [|cbn; by rewrite Hacc, IH].
  unfold alike in He. cbn [fst snd] in He. destruct He as (<- & _ & He).
  destruct (decide (k = key)) as [->|Hk]; [|by rewrite !accepted_other].
  destruct He as [<-|[(rule & Hr & Hr')|(Hdb & _)]]; [done| |done].
  rewrite Hm in Hr, Hr'. unfold arm, accepted in *. cbn [fst snd]. by destruct (parse v), (parse v').
Qed.

Lemma alike_config entries entries' : Forall2 alike entries entries' ->
  same_public (config_of entries) (config_of entries').
Proof.
  intros Hall. unfold same_public, config_of, set_database_url. cbn [admin storage bus public_resolution tombstone telemetry limits].
  repeat (erewrite (alike_field _ _ _ _ entries entries'); [|done|by intros v|exact Hall]). reflexivity.
Qed.

Lemma alike_report entries entries' : Forall2 alike entries entries' -> report entries = report entries'.
Proof.
  intros Hall. unfold report. rewrite (alike_refusals _ _ Hall).
  pose proof (alike_config _ _ Hall) as Hc. generalize dependent (config_of entries).
  generalize (config_of entries'). intros c' c Hc. unfold require_bus, require_cap.
  rewrite (f_equal bus Hc : bus c = bus c'), (f_equal public_resolution Hc : public_resolution c = public_resolution c').
  by rewrite (f_equal tombstone Hc : tombstone c = tombstone c').
Qed.

Lemma alike_first_unreadable vars vars' : Forall2 alike vars vars' -> first_unreadable vars = first_unreadable vars'.
Proof.
  induction 1 as [|[k v] [k' v'] es es' He _ IH]; [done|]. unfold alike in He. cbn [fst snd] in He.
  destruct He as (<- & Hu & _). cbn [first_unreadable]. by rewrite Hu, IH.
Qed.

Lemma alike_readable vars vars' : Forall2 alike vars vars' -> Forall2 alike (readable vars) (readable vars').
Proof.
  unfold readable. induction 1 as [|e e' es es' He _ IH]; [done|]. rewrite !filter_cons.
  pose proof He as (Hk & _ & _). rewrite <- Hk. case_decide; [by constructor|done].
Qed.

(** Loading answers the same report, or configurations with the same public part. *)
Lemma alike_load vars vars' : Forall2 alike vars vars' ->
  match load vars, load vars' with
  | Ok c, Ok c' => same_public c c'
  | Err e, Err e' => e = e'
  | _, _ => False
  end.
Proof.
  intros Hall. rewrite !load_outcome, (alike_first_unreadable _ _ Hall).
  destruct (first_unreadable vars'); [done|]. apply alike_readable in Hall.
  rewrite !from_environment_report, (alike_report _ _ Hall).
  destruct (report (readable vars')); [by apply alike_config|done].
Qed.

(** [C34] The process prints nothing secret of its environment: two environments that differ in the
    value of an accepted database URL, or in values refused by the same rule, give the same text of
    [check-config], the same startup record and the same refusal. *)
Theorem configuration_undisclosed vars vars' : Forall2 alike vars vars' ->
  check_config_text vars = check_config_text vars' /\ start_text vars = start_text vars'.
Proof.
  intros Hall%alike_load. unfold check_config_text, start_text.
  destruct (load vars) as [c|e], (load vars') as [c'|e']; try done; [|by subst].
  by rewrite Hall.
Qed.

(** Grants, keys, envelopes and credentials print the same for all secrets. *)
Lemma credentials_undisclosed a r a' r' scopes expires_at key key' generation e e' c c' :
  debug_grant (mk_grant a r scopes expires_at) = debug_grant (mk_grant a' r' scopes expires_at)
  /\ debug_cipher (mk_cipher key generation) = debug_cipher (mk_cipher key' generation)
  /\ debug_envelope e = debug_envelope e' /\ debug_credential c = debug_credential c'.
Proof. done. Qed.

End Rendering.

(** * Witness *)

Definition sample_text : DebugText := {|
  debug_str s := s;
  debug_path s := s;
  debug_addr _ := "127.0.0.1:9084";
  debug_int n := if (n =? 5)%Z then "5" else "8";
  debug_time _ := "now";
|}.

Definition pg_urls : PgUrl := Build_PgUrl (starts_with "postgres://").

Definition with_database (url : string) : list (string * string) :=
  ((DATABASE_URL_KEY, url) :: sample_entries)%list.

Lemma configuration_undisclosed_witness :
  @check_config_text sample_text sample_web pg_urls (with_database "postgres://u:secret@db/threads")
  = @check_config_text sample_text sample_web pg_urls (with_database "postgres://u:other@db/threads")
  /\ exists c, @load sample_web pg_urls (with_database "postgres://u:secret@db/threads") = Ok c.
Proof.
  split; [|vm_compute; eauto].
  apply (@configuration_undisclosed sample_text sample_web pg_urls).
  repeat constructor; try (by left); right; right; by vm_compute.
Defined.

End Disclosure.
