(* ===== verification/Workers.v ===== *)
(** The task plumbing of the process (src/services/threads-archive/src: workers.rs, scheduler.rs and the
    end of main.rs): one-shot channels between the supervisor and its workers, the supervision of the
    three workers beside the operator plane, the time an exit takes, and the synchronization timer.

    [Service.Process] says what the process does when a worker has returned; here the worker's task and
    its channels are explicit, so that the theorems say when the supervisor learns of it. *)
From S2P Require Import Prelude Schema Store Database Service.

(** * Workers *)

Module Workers.
Import Schema Runtime Process.
Local Open Scope string_scope.

(** A one-shot channel as its receiver sees it. *)
Inductive Channel := Open | Sent | Dropped.

(** A receiver's poll is ready once a value was sent or the sender is gone. *)
Definition ready (c : Channel) : bool := match c with Open => false | Sent | Dropped => true end.

Definition send (c : Channel) : Channel := match c with Open => Sent | Sent | Dropped => c end.

Definition drop_sender (c : Channel) : Channel := match c with Open => Dropped | Sent | Dropped => c end.

(** The [Display] of a worker kind. *)
Definition kind_name (kind : WorkerKind) : string :=
  match kind with Bus => "bus" | Resolver => "resolver" | DeletionAcks => "deletion_acks" end.

Inductive Task := Running | Returned (ok : bool) | Panicked.

Record Worker := mk_worker {
  wk_kind : WorkerKind;
  wk_stop : Channel;       (* the worker polls it as its [StopSignal] *)
  wk_exited : Channel;     (* the supervisor polls it *)
  wk_task : Task;
}.

Definition spawn (kind : WorkerKind) : Worker := mk_worker kind Open Open Running.

(** [StopSignal::poll]. *)
Definition poll_stop (w : Worker) : bool := ready (wk_stop w).

(** [Worker::exited]: its answer once it resolves. *)
Definition exited (w : Worker) : option WorkerKind := if ready (wk_exited w) then Some (wk_kind w) else None.

(** What happens to a worker: its work returns, logs its result and signals; or it panics, which drops
    the sender; the supervisor asks it to stop, or is dropped itself. *)
Inductive worker_step : Worker -> Worker -> Prop :=
| work_returns kind stop dn ok :
    worker_step (mk_worker kind stop dn Running) (mk_worker kind stop (send dn) (Returned ok))
| work_panics kind stop dn :
    worker_step (mk_worker kind stop dn Running) (mk_worker kind stop (drop_sender dn) Panicked)
| stop_asked kind stop dn task :
    worker_step (mk_worker kind stop dn task) (mk_worker kind (send stop) dn task)
| supervisor_dropped kind stop dn task :
    worker_step (mk_worker kind stop dn task) (mk_worker kind (drop_sender stop) dn task).

Definition over (w : Worker) : Prop := wk_task w <> Running.

(** The completion signal tells whether the task is over. *)
Definition signalled (w : Worker) : Prop := ready (wk_exited w) = true <-> over w.

Lemma spawn_signalled kind : signalled (spawn kind).
Proof. split; [done|by intros []]. Qed.

Lemma worker_step_kind w w' : worker_step w w' -> wk_kind w' = wk_kind w.
Proof. by destruct 1. Qed.

Lemma worker_step_signalled w w' : worker_step w w' -> signalled w -> signalled w'.
Proof.
  unfold signalled, over. destruct 1 as [kind stop dn ok|kind stop dn|kind stop dn task|kind stop dn task];
    cbn; intros Hs; [by destruct dn|by destruct dn|done|done].
Qed.

(** ** The three workers beside the operator plane *)

Record Supervised := mk_supervised { sv_proc : Proc; sv_workers : list Worker }.

Definition supervised : Supervised :=
  mk_supervised booted [spawn Bus; spawn DeletionAcks; spawn Resolver].

(** The [select!] over the three completion signals. *)
Definition worker_exit (ws : list Worker) (kind : WorkerKind) : Prop :=
  exists i w, ws !! i = Some w /\ exited w = Some kind.

(** A step of the process; its worker branch needs a completion signal. *)
Inductive supervised_step : Supervised -> Supervised -> Prop :=
| sv_worker p ws i w w' : ws !! i = Some w -> worker_step w w' ->
    supervised_step (mk_supervised p ws) (mk_supervised p (<[i := w']> ws))
| sv_process p p' ws : Process.step p p' ->
    (forall kind, pr_phase p = Serving -> pr_phase p' = Lingering kind -> worker_exit ws kind) ->
    supervised_step (mk_supervised p ws) (mk_supervised p' ws).

(** What holds of the supervised workers in every state. *)
Record watched (s : Supervised) : Prop := {
  wt_signals : Forall signalled (sv_workers s);
  wt_kinds : wk_kind <$> sv_workers s = [Bus; DeletionAcks; Resolver];
  wt_cause kind : pr_phase (sv_proc s) = Lingering kind ->
    exists w, w ∈ sv_workers s /\ wk_kind w = kind /\ over w;
}.

Lemma worker_step_over w w' : worker_step w w' -> over w -> over w'.
Proof. unfold over. by destruct 1. Qed.

Lemma step_lingering p p' kind : Process.step p p' -> pr_phase p' = Lingering kind ->
  pr_phase p = Lingering kind \/ pr_phase p = Serving.
Proof. destruct 1; cbn; intros; simplify_eq; auto. Qed.

Lemma supervised_step_watched s s' : supervised_step s s' -> watched s -> watched s'.
Proof.
  intros Hstep [Hsig Hkinds Hcause]. destruct Hstep as [p ws i w w' Hi Hw|p p' ws Hp Hexit]; cbn in *.
  - assert (wk_kind <$> <[i := w']> ws = wk_kind <$> ws) as Hk.
    { rewrite list_fmap_insert. apply list_insert_id. by rewrite list_lookup_fmap, Hi, (worker_step_kind _ _ Hw). }
    split; cbn; [|by rewrite Hk|].
    + apply Forall_insert; [done|]. eapply worker_step_signalled; [done|]. by eapply Forall_lookup_1.
    + intros kind Hph. destruct (Hcause kind Hph) as (v & [j Hj]%list_elem_of_lookup & Hv & Ho).
      destruct (decide (j = i)) as [->|Hne].
      * rewrite Hi in Hj. injection Hj as <-. exists w'. split_and!;
          [|by rewrite (worker_step_kind _ _ Hw)|by eapply worker_step_over].
        eapply list_elem_of_lookup_2. by apply list_lookup_insert_eq, (lookup_lt_Some _ _ _ Hi).
      * exists v. split; [|done]. eapply list_elem_of_lookup_2. by rewrite list_lookup_insert_ne.
  - split; cbn; [done|done|]. intros kind Hph.
    destruct (step_lingering _ _ _ Hp Hph) as [Hl|Hl]; [by apply Hcause|].
    destruct (Hexit kind) as (i & w & Hi & Hx); [done|done|].
    unfold exited in Hx. destruct (ready (wk_exited w)) eqn:Hr; [|done]. injection Hx as <-.
    exists w. split_and!; [by eapply list_elem_of_lookup_2|done|]. eapply Forall_lookup_1 in Hsig; [|done]. by apply Hsig.
Qed.

Lemma supervised_watched s : rtc supervised_step supervised s -> watched s.
Proof.
  intros Hsteps. assert (watched supervised) as Hinit.
  { split; cbn; [repeat constructor; try done; by intros []|done|done]. }
  revert Hinit. induction Hsteps as [|? ? ? Hstep _ IH]; [done|]. eauto using supervised_step_watched.
Qed.

(** [C37] No worker is lost unnoticed: in every state the process can reach, a worker's completion signal
    has resolved exactly when its task has returned or panicked; while the process serves, the end of any
    worker's task lets it step to the exit for that worker, after which it is not ready; and
    it takes that exit for a worker only when that worker's task is over. *)
Theorem worker_loss_noticed s : rtc supervised_step supervised s ->
  (forall w, w ∈ sv_workers s -> exited w = Some (wk_kind w) <-> over w) /\
  (forall w, w ∈ sv_workers s -> over w -> pr_phase (sv_proc s) = Serving ->
     exists s', supervised_step s s' /\ pr_phase (sv_proc s') = Lingering (wk_kind w)
       /\ is_ready (pr_runtime (sv_proc s')) = false) /\
  (forall kind, pr_phase (sv_proc s) = Lingering kind ->
     exists w, w ∈ sv_workers s /\ wk_kind w = kind /\ over w).
Proof.
  intros [Hsig Hkinds Hcause]%supervised_watched. rewrite Forall_forall in Hsig. split_and!; [|..|done].
  - intros w Hw. pose proof (Hsig _ Hw) as Hs. unfold signalled in Hs. rewrite <- Hs.
    unfold exited. by destruct (ready _).
  - intros w Hw Ho Hph. destruct s as [[rt ph] ws]; cbn in *. subst ph.
    exists (mk_supervised (mk_proc (worker_stopped (wk_kind w) rt) (Lingering (wk_kind w))) ws).
    split_and!; [|done|apply worker_stopped_not_ready]. apply sv_process; [constructor|]. cbn.
    intros kind _ [= <-]. pose proof Hw as [i Hi]%list_elem_of_lookup. exists i, w. split; [done|].
    unfold exited. by rewrite (proj2 (Hsig _ Hw) Ho).
Qed.

(** ** The prober and the signals *)

Definition DATABASE_PROBE_INTERVAL : Z := seconds 5.

(** One turn of the loop of [spawn_database_prober], with what happens to its [select 1]. *)
Definition probe (answer : Store.Fault) (s : RuntimeState) : RuntimeState :=
  set_database_reachable (is_ok (Database.ping answer)) s.

(** Such a turn is a step of the process, whatever it answers. *)
Lemma probe_step answer s phase : (forall status, phase <> Exited status) ->
  Process.step (mk_proc s phase) (mk_proc (probe answer s) phase).
Proof. apply step_probe. Qed.

(** What [shutdown_signal] sees first; [CtrlC false] is a handler that could not be installed. *)
Inductive SignalEvent := Terminate | CtrlC (ok : bool).

Definition shutdown_signal (handler_installed : bool) (event : SignalEvent) : bool :=
  handler_installed && match event with Terminate => true | CtrlC ok => ok end.

(** ** The time an exit takes *)

Definition WORKER_STOP_GRACE : Z := seconds 5.
Definition FAILURE_LINGER : Z := seconds 2.

(** [tokio::time::timeout] of something that takes [after] (never, when [None]): the time it waited, and
    whether that ended first. *)
Definition timeout (bound : Z) (after : option Z) : Z * bool :=
  match after with
  | Some t => if (t <=? bound)%Z then (t, true) else (bound, false)
  | None => (bound, false)
  end.

(** [Worker::stop]: the time it waits for a worker that needs [after] to return. *)
Definition stop (grace : Z) (after : option Z) : Z := (timeout grace after).1.

(** Why the operator plane stops. *)
Inductive Cause :=
| ServerEnded (ok : bool)
| ShutdownSignal (ok : bool)        (* the answer of [shutdown_signal] *)
| WorkerExit (kind : WorkerKind).

(** How long the parts take: the server once it is told to stop, and before it is; closing the pool. *)
Record Delays := mk_delays {
  dl_server : option Z;
  dl_server_alone : option Z;
  dl_close : Z;
}.

(** [serve_admin] from its cause on: the time it takes and its result. *)
Definition serve_admin (shutdown_timeout : Z) (cause : Cause) (dl : Delays) : Z * Result string () :=
  match cause with
  | ServerEnded ok => (dl_close dl, if ok then Ok () else Err "server error")
  | ShutdownSignal false => (0%Z, Err "signal error")
  | ShutdownSignal true =>
      let '(t, in_time) := timeout shutdown_timeout (dl_server dl) in
      ((t + dl_close dl)%Z,
       if in_time then Ok () else Err "the operator server did not stop within the shutdown bound")
  | WorkerExit kind =>
      let '(t, stopped) := timeout FAILURE_LINGER (dl_server_alone dl) in
      let drain := if stopped then 0%Z else (timeout shutdown_timeout (dl_server dl)).1 in
      ((t + drain + dl_close dl)%Z, Err ("the " ++ kind_name kind ++ " worker returned before shutdown"))
  end.

(** The end of [tokio_main]: the workers are stopped one after the other, and the status is the
    result's. *)
Definition finish (shutdown_timeout : Z) (cause : Cause) (dl : Delays) (resolver acks bus : option Z) : Z * Z :=
  let '(t, result) := serve_admin shutdown_timeout cause dl in
  ((t + stop WORKER_STOP_GRACE resolver + stop WORKER_STOP_GRACE acks + stop WORKER_STOP_GRACE bus)%Z,
   if is_ok result then SUCCESS else FAILURE).

(** The drop of the runtime that [#[tokio::main]] made: it waits for the blocking tasks that are still
    running ([tokio::fs] in the resolver; a worker whose grace ran out may have left one), each given by the
    time it still needs, [None] for one that never ends. *)
Definition drop_runtime (blocking : list (option Z)) : option Z :=
  foldr (fun task acc => t ← task; rest ← acc; Some (Z.max t rest)) (Some 0%Z) blocking.

(** The whole of [tokio_main] from its cause to the end of the process: the time it takes, when it ends
    at all, and the status. *)
Definition leave (shutdown_timeout : Z) (cause : Cause) (dl : Delays) (resolver acks bus : option Z)
    (blocking : list (option Z)) : option Z * Z :=
  let '(t, status) := finish shutdown_timeout cause dl resolver acks bus in
  ((fun d => t + d)%Z <$> drop_runtime blocking, status).

(** The process just after its cause, as a step of [Service.Process] leaves it. *)
Definition after_cause (cause : Cause) (s : RuntimeState) : Proc :=
  match cause with
  | ServerEnded ok => mk_proc s (Exited (if ok then SUCCESS else FAILURE))
  | ShutdownSignal true => mk_proc (begin_draining s) Draining
  | ShutdownSignal false => mk_proc s (Exited FAILURE)
  | WorkerExit kind => mk_proc (worker_stopped kind s) (Lingering kind)
  end.

(** The computed end is a run of the step relation: the cause is a step of the serving process, and from
    there it reaches an exit with the status [finish] gives. *)
Lemma finish_steps shutdown_timeout cause dl resolver acks bus s :
  Process.step (mk_proc s Serving) (after_cause cause s) /\
  exists s', rtc Process.step (after_cause cause s)
    (mk_proc s' (Exited (finish shutdown_timeout cause dl resolver acks bus).2)).
Proof.
  unfold finish, serve_admin. destruct cause as [ok|[]|kind]; cbn.
  - split; [constructor|]. exists s. by destruct ok.
  - split; [constructor|]. destruct (timeout shutdown_timeout _) as [t in_time]. exists (begin_draining s).
    destruct in_time; apply rtc_once; [apply (step_drained true)|apply (step_drained false)].
  - split; [constructor|]. by exists s.
  - split; [constructor|]. destruct (timeout FAILURE_LINGER _) as [t stopped]. cbn.
    exists (begin_draining (worker_stopped kind s)). apply rtc_once, (step_lingered true).
Qed.

Lemma timeout_bound bound after : (0 <= bound)%Z -> (forall t, after = Some t -> (0 <= t)%Z) ->
  (0 <= (timeout bound after).1 <= bound)%Z.
Proof.
  intros Hb Ha. unfold timeout. destruct after as [t|]; [|cbn; lia]. specialize (Ha t eq_refl).
  destruct (t <=? bound)%Z eqn:E; cbn; lia.
Qed.

Definition takes_time (after : option Z) : Prop := forall t, after = Some t -> (0 <= t)%Z.

(** A drop that ends has waited for every task and no longer than the slowest. *)
Lemma drop_runtime_bound blocking d : (0 <= d)%Z -> Forall (fun task => exists t, task = Some t /\ (t <= d)%Z) blocking ->
  exists t, drop_runtime blocking = Some t /\ (0 <= t <= d)%Z.
Proof.
  intros Hd. induction 1 as [|task rest (t & -> & Ht) _ (u & Hu & Hub)];
    [exists 0%Z; split; [done|lia]|].
  unfold drop_runtime in *. cbn. rewrite Hu. cbn. exists (Z.max t u). split; [done|lia].
Qed.

Lemma drop_runtime_None blocking : drop_runtime blocking = None <-> None ∈ blocking.
Proof.
  unfold drop_runtime. induction blocking as [|[t|] rest IH]; cbn; [by split; [|intros ?%not_elem_of_nil]| |split; [by left|done]].
  rewrite elem_of_cons, <- IH. destruct (foldr _ _ rest); cbn; naive_solver.
Qed.

(** How long the body of [tokio_main] takes at most from its cause on. *)
Definition body_bound (shutdown_timeout : Z) (cause : Cause) (dl : Delays) : Z :=
  shutdown_timeout + (match cause with WorkerExit _ => seconds 2 | _ => 0 end) + dl_close dl + seconds 15.

Lemma finish_bound shutdown_timeout cause dl resolver acks bus :
  (0 <= shutdown_timeout)%Z -> (0 <= dl_close dl)%Z -> takes_time (dl_server dl) -> takes_time (dl_server_alone dl) ->
  takes_time resolver -> takes_time acks -> takes_time bus ->
  ((finish shutdown_timeout cause dl resolver acks bus).1 <= body_bound shutdown_timeout cause dl)%Z.
Proof.
  intros Hs Hc Hsrv Hal Hr Ha Hb.
  pose proof (timeout_bound shutdown_timeout _ Hs Hsrv) as T1.
  pose proof (timeout_bound FAILURE_LINGER _ ltac:(done) Hal) as T2.
  pose proof (timeout_bound WORKER_STOP_GRACE _ ltac:(done) Hr) as T3.
  pose proof (timeout_bound WORKER_STOP_GRACE _ ltac:(done) Ha) as T4.
  pose proof (timeout_bound WORKER_STOP_GRACE _ ltac:(done) Hb) as T5.
  unfold finish, serve_admin, stop, body_bound in *. unfold FAILURE_LINGER, WORKER_STOP_GRACE, seconds in *.
  destruct cause as [[]|[]|kind]; cbn; try lia.
  - destruct (timeout shutdown_timeout _) as [t []]; cbn in *; lia.
  - destruct (timeout _ (dl_server_alone dl)) as [t []]; cbn in *; lia.
Qed.

Lemma finish_status shutdown_timeout cause dl resolver acks bus :
  (finish shutdown_timeout cause dl resolver acks bus).2 = SUCCESS <->
  cause = ServerEnded true \/ cause = ShutdownSignal true /\ (timeout shutdown_timeout (dl_server dl)).2 = true.
Proof.
  unfold finish, serve_admin. destruct cause as [[]|[]|kind]; cbn; try naive_solver.
  - destruct (timeout shutdown_timeout _) as [t []]; cbn; naive_solver.
  - destruct (timeout FAILURE_LINGER _) as [t b]; cbn; naive_solver.
Qed.


(** * Witnesses *)

Lemma worker_loss_noticed_witness :
  let lost := mk_supervised booted [mk_worker Bus Open Dropped Panicked; spawn DeletionAcks; spawn Resolver] in
  rtc supervised_step supervised lost
  /\ exists s', supervised_step lost s' /\ pr_phase (sv_proc s') = Lingering Bus
       /\ is_ready (pr_runtime (sv_proc s')) = false.
Proof.
  intros lost. assert (rtc supervised_step supervised lost) as Hrun.
  { apply rtc_once. exact (sv_worker booted [spawn Bus; spawn DeletionAcks; spawn Resolver] 0 (spawn Bus) _
      eq_refl (work_panics Bus Open Open)). }
  split; [exact Hrun|].
  destruct (worker_loss_noticed lost Hrun) as (_ & H & _).
  apply (H (mk_worker Bus Open Dropped Panicked)); [by left|done|reflexivity].
Defined.


End Workers.

(** * The synchronization timer *)

Module Scheduler.

Record OwnAccountSyncScheduler := mk_scheduler { interval : Z }.

(** [OwnAccountSyncScheduler::enabled]. *)
Definition enabled (interval : Z) : option OwnAccountSyncScheduler :=
  if (interval =? 0)%Z then None else Some (mk_scheduler interval).

(** The n-th tick of [tokio::time::interval] created at [start]; it panics on a zero period. *)
Definition tick_at (period start : Z) (n : nat) : option Z :=
  if (period =? 0)%Z then None else Some (start + Z.of_nat n * period)%Z.

(** [run_one_due_tick]: the worker's calls, with the time of each; [None] for a panic. *)
Definition run_one_due_tick (s : OwnAccountSyncScheduler) (start : Z) (account_key : string)
  : option (list (Z * string)) :=
  match tick_at (interval s) start 0, tick_at (interval s) start 1 with
  | Some _, Some due => Some [(due, account_key)]
  | _, _ => None
  end.

(** An enabled scheduler never panics and calls the worker once, one interval after it started. *)
Lemma scheduler_runs_once period s start account_key : enabled period = Some s ->
  run_one_due_tick s start account_key = Some [((start + period)%Z, account_key)].
Proof.
  unfold enabled, run_one_due_tick, tick_at. destruct (period =? 0)%Z eqn:E; [done|]. intros [= <-]. cbn.
  rewrite E. by rewrite Z.mul_1_l.
Qed.

End Scheduler.
