(* ===== verification/Main.v ===== *)
(** The binary (src/services/threads-archive/src/main.rs) from its arguments to its exit status, with the
    broker connection it makes (src/crates/threads-archive/src/nats.rs).

    [Service] has the parts: the boot as a function of what its stages answered, the command line's
    grammar and the reprocessing. Here the stages are answered by the components themselves
    ([Telemetry.init_telemetry], [Database.connect], [Database.apply_schema], [connect_bus]), the
    commands are dispatched, and the report is rendered as JSON. What the host and the libraries do is
    in [Host] and [Broker]. *)
From S2P Require Import Prelude Schema Store Telemetry Database Publishing PublicResolution Config DeletionAcks BusWorker Reprocessing Service Workers.

(** * The broker connection *)

Module Transport.
Local Open Scope string_scope.
Local Open Scope rust_scope.

Definition INBOX_PREFIX : string := "_INBOX_threads".

Record ConnectOptions := mk_options { co_nkey : option string; co_inbox_prefix : option string }.

Definition new_options : ConnectOptions := mk_options None None.
Definition with_nkey (seed : string) : ConnectOptions := mk_options (Some seed) None.
Definition custom_inbox_prefix (prefix : string) (o : ConnectOptions) : ConnectOptions :=
  mk_options (co_nkey o) (Some prefix).

Inductive ClientState := Connected | Disconnected | ClientPending.

(** The file system and the NATS client library. *)
Class Broker := {
  Client : Type;
  read_to_string : string -> option string;
  nats_connect : ConnectOptions -> string -> option Client;
  connection_state : Client -> ClientState;
}.

Inductive ConnectError := Credential | BusRefused.

Section Connect.
Context {Hbroker : Broker}.

(** The JetStream context is made over the same client. *)
Record NatsConnection := mk_connection { client : Client; context : Client }.

Definition connection_of (answer : option Client) : Result ConnectError NatsConnection :=
  let? client := ok_or answer BusRefused in Ok (mk_connection client client).

(** [NatsConnection::connect]. *)
Definition connect (url : string) : Result ConnectError NatsConnection :=
  connection_of (nats_connect (custom_inbox_prefix INBOX_PREFIX new_options) url).

(** [NatsConnection::connect_with_nkey]. *)
Definition connect_with_nkey (url seed_path : string) : Result ConnectError NatsConnection :=
  let? seed := ok_or (read_to_string seed_path) Credential in
  connection_of (nats_connect (custom_inbox_prefix INBOX_PREFIX (with_nkey (trim seed))) url).

(** [NatsConnection::is_connected]. *)
Definition is_connected (c : NatsConnection) : bool :=
  match connection_state (client c) with Connected => true | Disconnected | ClientPending => false end.

(** [connect_bus]. *)
Definition connect_bus (bus : Config.BusConfig) : Result Z NatsConnection :=
  map_err (fun _ => Process.FAILURE)
    (match Config.nkey_seed_path bus with
     | Some seed_path => connect_with_nkey (Config.bus_url bus) seed_path
     | None => connect (Config.bus_url bus)
     end).

(** The one broker identity: a connection that was made goes to the configured address, receives its
    replies under the service's own inbox prefix, and carries the trimmed content of the configured
    seed file; with a seed configured the service never connects without it, and an unreadable
    seed refuses the start whatever the broker would answer. *)
Theorem connect_bus_identity bus :
  (forall c, connect_bus bus = Ok c -> exists o,
     nats_connect o (Config.bus_url bus) = Some (client c) /\ context c = client c
     /\ co_inbox_prefix o = Some INBOX_PREFIX
     /\ co_nkey o = (trim <$> (Config.nkey_seed_path bus ≫= read_to_string))
     /\ (is_Some (Config.nkey_seed_path bus) -> is_Some (co_nkey o))) /\
  (forall path, Config.nkey_seed_path bus = Some path -> read_to_string path = None ->
     connect_bus bus = Err Process.FAILURE).
Proof.
  unfold connect_bus, connect_with_nkey, connect, connection_of. split.
  - intros c. destruct (Config.nkey_seed_path bus) as [path|]; cbn.
    + destruct (read_to_string path) as [seed|]; cbn; [|done].
      destruct (nats_connect _ _) as [cl|] eqn:Hc; cbn; [|done]. intros [= <-].
      eexists. split_and!; [exact Hc|done..|]. eauto.
    + destruct (nats_connect _ _) as [cl|] eqn:Hc; cbn; [|done]. intros [= <-].
      eexists. split_and!; [exact Hc|done..].
  - intros path -> Hr. by rewrite Hr.
Qed.

End Connect.

End Transport.

(** * The report of the command line *)

Module Report.
Import Schema Reprocessing Cli.
Local Open Scope string_scope.

#[warnings="-register-all"]
Inductive Json :=
| JNull
| JBool (b : bool)
| JNum (n : Z)
| JStr (s : string)
| JArr (l : list Json)
| JObj (l : list (string * Json)).

Definition opt {A} (f : A -> Json) (o : option A) : Json := match o with Some x => f x | None => JNull end.

Section Render.
Context {Henv : Store.Env}.

Definition uuid_json (id : Uuid) : Json := JStr (Store.show_uuid id).

Definition item_json (item : ReprocessReportItem) : Json :=
  JObj [("item_key", JStr (it_item_key item)); ("classification", JStr (wire_name (it_classification item)));
        ("digest", opt JStr (it_digest item))].

Definition render_cli_report (mode : string) (command : ReprocessCommand) (report : ReprocessReport)
    (applied : option (Uuid * bool)) : Json :=
  JObj [("mode", JStr mode); ("owner", uuid_json (rc_owner command));
        ("export_run_id", uuid_json (rc_export_run_id command));
        ("parser_version", JStr SUPPORTED_REPROCESSING_PARSER);
        ("operation_id", opt uuid_json (rc_operation_id command));
        ("reprocessing_run_id", opt uuid_json (fst <$> applied));
        ("completed", opt JBool (snd <$> applied));
        ("report", JObj
          [("items", JArr (item_json <$> rp_items report));
           ("counts", JObj ((fun kv => (kv.1, JNum kv.2)) <$> map_to_list (rp_counts report)));
           ("warnings", JArr (JStr <$> rp_warnings report)); ("conflicts", JArr (JStr <$> rp_conflicts report));
           ("plan_fingerprint", JStr (rp_plan_fingerprint report));
           ("state_fingerprint", JStr (rp_state_fingerprint report))])].

End Render.

(** What a consumer of the output reads back. *)
Definition field (k : string) (j : Json) : option Json :=
  match j with JObj l => snd <$> List.find (fun kv => String.eqb kv.1 k) l | _ => None end.

Definition to_str (j : Json) : option string := match j with JStr s => Some s | _ => None end.
Definition to_num (j : Json) : option Z := match j with JNum n => Some n | _ => None end.
Definition to_bool (j : Json) : option bool := match j with JBool b => Some b | _ => None end.
Definition to_opt {A} (f : Json -> option A) (j : Json) : option (option A) :=
  match j with JNull => Some None | _ => Some <$> f j end.
Definition to_list {A} (f : Json -> option A) (j : Json) : option (list A) :=
  match j with JArr l => mapM f l | _ => None end.

Definition to_classification (j : Json) : option ReprocessClassification :=
  name ← to_str j;
  List.find (fun c => String.eqb (wire_name c) name) [Normalized; UnknownRecord; UnknownSection; Conflict; Warning; Omitted].

Definition to_item (j : Json) : option ReprocessReportItem :=
  key ← field "item_key" j ≫= to_str;
  class ← field "classification" j ≫= to_classification;
  digest ← field "digest" j ≫= to_opt to_str;
  Some (mk_item key class digest).

Definition to_counts (j : Json) : option (gmap string Z) :=
  match j with
  | JObj l => list_to_map <$> mapM (fun kv : string * Json => (kv.1,.) <$> to_num kv.2) l
  | _ => None
  end.

Definition to_report (j : Json) : option ReprocessReport :=
  items ← field "items" j ≫= to_list to_item;
  counts ← field "counts" j ≫= to_counts;
  warnings ← field "warnings" j ≫= to_list to_str;
  conflicts ← field "conflicts" j ≫= to_list to_str;
  plan ← field "plan_fingerprint" j ≫= to_str;
  state ← field "state_fingerprint" j ≫= to_str;
  Some (mk_report items counts warnings conflicts plan state).

Section Roundtrip.
Context {Henv : Store.Env} {Huuid : UuidText} (Hparse : forall id, parse_uuid (Store.show_uuid id) = Some id).

Definition to_uuid (j : Json) : option Uuid := to_str j ≫= parse_uuid.

Definition read_cli_report (j : Json)
  : option (string * Uuid * Uuid * option Uuid * option Uuid * option bool * ReprocessReport) :=
  mode ← field "mode" j ≫= to_str;
  owner ← field "owner" j ≫= to_uuid;
  run ← field "export_run_id" j ≫= to_uuid;
  operation ← field "operation_id" j ≫= to_opt to_uuid;
  reprocessing ← field "reprocessing_run_id" j ≫= to_opt to_uuid;
  completed ← field "completed" j ≫= to_opt to_bool;
  report ← field "report" j ≫= to_report;
  Some (mode, owner, run, operation, reprocessing, completed, report).

Lemma to_opt_opt {A} (f : A -> Json) g (o : option A) :
  (forall x, g (f x) = Some x) -> (forall x, f x <> JNull) -> to_opt g (opt f o) = Some o.
Proof. intros Hg Hn. destruct o as [x|]; [|done]. cbn. specialize (Hn x). unfold to_opt. rewrite Hg. by destruct (f x). Qed.

Lemma to_list_list {A} (f : A -> Json) g l : (forall x, g (f x) = Some x) -> to_list g (JArr (f <$> l)) = Some l.
Proof. intros Hg. cbn. induction l as [|x l IH]; [done|]. cbn. by rewrite Hg, IH. Qed.

Lemma to_item_item item : to_item (item_json item) = Some item.
Proof. unfold to_item. cbn -[to_opt opt]. rewrite (to_opt_opt JStr to_str) by done. by destruct item as [? [] ?]. Qed.

Lemma to_counts_counts (m : gmap string Z) :
  to_counts (JObj ((fun kv => (kv.1, JNum kv.2)) <$> map_to_list m)) = Some m.
Proof.
  cbn. rewrite <- (list_to_map_to_list m) at 2.
  assert (forall l : list (string * Z),
    mapM (fun kv : string * Json => (kv.1,.) <$> to_num kv.2) ((fun kv => (kv.1, JNum kv.2)) <$> l) = Some l) as ->; [|done].
  intros l. induction l as [|[k n] l IH]; [done|]. cbn. by rewrite IH.
Qed.

(** The report printed by [reprocess-export] loses nothing: the mode, the owner, the export run, the
    operation, the reprocessing run, its completion and the whole report are read back from it. *)
Theorem cli_report_roundtrip mode command report applied :
  read_cli_report (render_cli_report mode command report applied)
  = Some (mode, rc_owner command, rc_export_run_id command, rc_operation_id command, fst <$> applied, snd <$> applied, report).
Proof using Hparse.
  assert (forall id, to_uuid (uuid_json id) = Some id) as Hu by exact Hparse.
  unfold read_cli_report, render_cli_report. cbn -[to_uuid to_opt to_report opt].
  rewrite !Hu. cbn -[to_uuid to_opt to_report opt].
  rewrite !(to_opt_opt uuid_json to_uuid) by done. rewrite (to_opt_opt JBool to_bool) by done.
  cbn -[to_report]. unfold to_report. cbn -[to_list to_counts].
  rewrite (to_list_list item_json to_item) by apply to_item_item.
  rewrite !(to_list_list JStr to_str) by done. rewrite to_counts_counts. by destruct report.
Qed.

End Roundtrip.

(** ** Witness: identifiers written in unary *)

Definition tally (n : N) : string := N.iter n (String "1") "".

Lemma length_tally n : String.length (tally n) = N.to_nat n.
Proof.
  unfold tally. induction n as [|n IH] using N.peano_ind; [done|].
  rewrite N.iter_succ. cbn. rewrite IH. lia.
Qed.

Definition tally_env : Store.Env := {|
  Store.fault := @Store.fault Store.sample_env; Store.io := @Store.io Store.sample_env;
  Store.bus := @Store.bus Store.sample_env; Store.clock := @Store.clock Store.sample_env;
  Store.mint := @Store.mint Store.sample_env; Store.show_uuid := tally;
  Store.new_v5 := @Store.new_v5 Store.sample_env; Store.sha256 := @Store.sha256 Store.sample_env;
|}.

Definition tally_text : UuidText := {| parse_uuid := fun s => Some (N.of_nat (String.length s)) |}.

Definition sample_report : ReprocessReport :=
  mk_report [mk_item "11" Normalized (Some "d"); mk_item "12" Omitted None] {["normalized" := 1%Z; "omitted" := 1%Z]}
    [] ["12"] "plan" "state".

Lemma cli_report_roundtrip_witness :
  @read_cli_report tally_text (@render_cli_report tally_env "apply" (mk_command Apply 7 5 (Some 9%N)) sample_report
    (Some (3%N, true)))
  = Some ("apply", 7%N, 5%N, Some 9%N, Some 3%N, Some true, sample_report).
Proof.
  apply (@cli_report_roundtrip tally_env tally_text).
  intros id. cbn. rewrite length_tally. f_equal. lia.
Defined.

End Report.

(** * From the arguments to the exit status *)

Module Main.
Import Schema Store Reprocessing Process Cli Report.
Local Open Scope string_scope.

(** How far standard output takes the three writes of the report: its text, the line feed and the flush. *)
Record Output := mk_output { out_text : bool; out_newline : bool; out_flush : bool }.

(** What the host and the libraries answer in one run of the process. *)
Record Host := mk_host {
  h_vars : list (string * string);                       (* the process environment *)
  h_parses : string -> bool;                             (* the grammar of log filters *)
  h_build : Telemetry.Build;
  h_pg : Database.PoolOptions -> string -> Result SqlError ();   (* connecting the pool *)
  h_faults : nat -> Fault;                               (* of the round trips that apply the schema *)
  h_consumer : option BusWorker.ConsumerInfo;
  h_acks : option DeletionAcks.ConsumerConfig;
  h_mkdir : bool;
  h_client : bool;
  h_bind : bool;
  h_cause : Workers.Cause;                               (* why the operator plane stops *)
  h_delays : Workers.Delays;
  h_blocking : list (option Z);                          (* the file operations that outlive the workers *)
  h_runtime : bool;                                      (* the Tokio runtime can be built *)
  h_stdout : Output;
  h_stderr : bool;                                       (* standard error accepts what is written *)
}.

(** What the process left on its standard output of the report. *)
Inductive Printed :=
| NoReport
| Partial (report : Json)        (* none, some or all of it, without the confirmed flush *)
| Full (report : Json).

(** What one run leaves: its status, what it printed, the catalogue and the process's telemetry. *)
Record Exit := mk_exit {
  ex_status : Z;
  ex_stdout : Printed;
  ex_catalogue : Database.Catalogue;
  ex_globals : Telemetry.Globals Z;
}.

Definition USAGE : Z := 2.

(** The status of a process whose main thread panicked. *)
Definition PANICKED : Z := 101.

(** [write_json_stdout]: each of its three writes may fail, after the ones before it went out. *)
Definition write_json_stdout (out : Output) (value : Json) : Printed * bool :=
  if negb (out_text out) then (Partial value, false)
  else if negb (out_newline out) then (Partial value, false)
  else if negb (out_flush out) then (Partial value, false)
  else (Full value, true).

(** [eprintln!] before the status [status]: it panics when standard error refuses the text. *)
Definition eprintln (h : Host) (status : Z) : Z := if h_stderr h then status else PANICKED.

Section Main.
Context {Henv : Env} {Hweb : PublicResolution.Web} {Hpg : Config.PgUrl} {Huuid : UuidText}
  {Hbroker : Transport.Broker}.

(** [run_reprocess_export] with its database, on the world [w]. *)
Definition run_reprocess (h : Host) (command : ReprocessCommand) (url : string) (c : Database.Catalogue)
    (w : World) : Z * Printed * Database.Catalogue :=
  if negb (h_runtime h) then (PANICKED, NoReport, c) else
  match Database.connect (h_pg h) url 2 (seconds 5) with
  | Err _ => (eprintln h FAILURE, NoReport, c)
  | Ok _ =>
      match Database.apply_schema (h_faults h) c with
      | (Ok _, Some d) =>
          match run_reprocess_export command (with_db d w) with
          | (Err _, w') => (eprintln h FAILURE, NoReport, Some (w_db w'))
          | (Ok (report, applied), w') =>
              let mode := match rc_mode command with DryRun => "dry-run" | Apply => "apply" end in
              let '(printed, written) := write_json_stdout (h_stdout h) (render_cli_report mode command report applied) in
              (if written then SUCCESS else eprintln h FAILURE, printed, Some (w_db w'))
          end
      | (_, c') => (eprintln h FAILURE, NoReport, c')
      end
  end.

(** [reprocess_export]. *)
Definition reprocess_export (h : Host) (arguments : list string) (c : Database.Catalogue) (w : World)
  : Z * Printed * Database.Catalogue :=
  match parse_reprocess_command arguments with
  | Err _ => (eprintln h USAGE, NoReport, c)
  | Ok command =>
      match Config.load (h_vars h) with
      | Err _ => (eprintln h EX_CONFIG, NoReport, c)
      | Ok config =>
          match Config.database_url (Config.storage config) with
          | None => (eprintln h EX_CONFIG, NoReport, c)
          | Some url => run_reprocess h command url c w
          end
      end
  end.

(** The stages of the boot, answered by the components. *)
Definition stages (h : Host) (config : Config.Config) (g : Telemetry.Globals Z) (c : Database.Catalogue) : Stages :=
  let limits := Config.limits config in
  mk_stages (h_vars h)
    (is_ok (Telemetry.init_telemetry (h_parses h) 1%Z (h_build h) (Config.log_filter (Config.telemetry config)) g).1)
    (is_ok (Database.connect (h_pg h) (default "" (Config.database_url (Config.storage config)))
      (Config.database_connections limits) (Config.database_acquire_timeout_ms limits * 1000)))
    (is_ok (Database.apply_schema (h_faults h) c).1)
    (is_ok (Transport.connect_bus (Config.bus config)))
    (h_consumer h) (h_acks h) (h_mkdir h) (h_client h) (h_bind h).

(** Whether the failed boot [sg] said why with [eprintln!]; the other stages report through [tracing]. *)
Definition refused_on_stderr (sg : Stages) (config : Config.Config) : bool :=
  negb (sg_telemetry sg)
  || bool_decide (Config.database_url (Config.storage config) = None)
  || (sg_connect sg && sg_schema sg && sg_bus sg
      && is_ok (spawn_nats_consumer sg) && is_ok (spawn_deletion_acks sg)
      && bool_decide (Config.raw_object_root (Config.public_resolution config) = None)).

(** [tokio_main] to its end; [workers] is how long the resolver, the acknowledgement consumer and the bus
    worker take to stop. *)
Definition tokio_main (h : Host) (workers : option Z * option Z * option Z) (g : Telemetry.Globals Z)
    (c : Database.Catalogue) : Exit :=
  if negb (h_runtime h) then mk_exit PANICKED NoReport c g else
  match Config.load (h_vars h) with
  | Err _ => mk_exit (eprintln h EX_CONFIG) NoReport c g
  | Ok config =>
      let sg := stages h config g c in
      let g' := (Telemetry.init_telemetry (h_parses h) 1%Z (h_build h) (Config.log_filter (Config.telemetry config)) g).2 in
      let c' := if sg_telemetry sg && bool_decide (is_Some (Config.database_url (Config.storage config))) && sg_connect sg
                then (Database.apply_schema (h_faults h) c).2 else c in
      match boot sg with
      | Err status => mk_exit (if refused_on_stderr sg config then eprintln h status else status) NoReport c' g'
      | Ok (config, _) =>
          let '(_, status) := Workers.leave (Config.shutdown_timeout_ms (Config.limits config) * 1000)
            (h_cause h) (h_delays h) workers.1.1 workers.1.2 workers.2 (h_blocking h) in
          mk_exit status NoReport c' g'
      end
  end.

(** [main] on the whole argument vector, the program's name first: [std::env::args] panics at the first
    argument that is not Unicode text. The status is that of the process once it ends; whether a serving
    process ends is [Workers.leave]'s first result. *)
Definition main (h : Host) (argv : list string) (workers : option Z * option Z * option Z)
    (g : Telemetry.Globals Z) (c : Database.Catalogue) (w : World) : Exit :=
  if negb (forallb valid_utf8 argv) then mk_exit PANICKED NoReport c g else
  let arguments := tail argv in
  if bool_decide (head arguments = Some "reprocess-export") then
    let '(status, printed, c') := reprocess_export h arguments c w in mk_exit status printed c' g
  else if bool_decide (head arguments = Some "check-config") then
    mk_exit (eprintln h (check_config (h_vars h))) NoReport c g
  else tokio_main h workers g c.

(** A boot whose configuration loads fails with status 1 only. *)
Lemma boot_failure sg config status :
  Config.load (sg_vars sg) = Ok config -> boot sg = Err status -> status = FAILURE.
Proof.
  unfold boot, spawn_nats_consumer, spawn_deletion_acks, spawn_capture_resolver, stage, result_bind, ok_or. intros ->. cbn.
  repeat case_match; intros; simplify_eq; done.
Qed.

(** Whether the whole report was printed. *)
Definition printed_full (p : Printed) : Prop := match p with Full _ => True | NoReport | Partial _ => False end.

(** A host on which nothing panics once the arguments are read. *)
Definition calm (h : Host) : bool := h_runtime h && h_stderr h.

Lemma uncalm h : calm h = false -> h_runtime h = false \/ h_stderr h = false.
Proof. apply andb_false_iff. Qed.

Lemma eprintln_cases h status : eprintln h status = status \/ eprintln h status = PANICKED /\ calm h = false.
Proof. unfold calm, eprintln. destruct (h_stderr h); [auto|]. right. split; [done|apply andb_false_r]. Qed.

Lemma run_reprocess_status h command url c w status printed c' :
  run_reprocess h command url c w = (status, printed, c') ->
  (status = SUCCESS \/ status = FAILURE \/ status = PANICKED /\ calm h = false)
  /\ (status = SUCCESS <-> printed_full printed).
Proof.
  unfold run_reprocess, write_json_stdout. intros H.
  destruct (eprintln_cases h FAILURE) as [He|[He Hc]]; rewrite He in H.
  - destruct (h_runtime h) eqn:Hr; [|unfold calm; rewrite Hr]; cbn in H; repeat case_match; simplify_eq; naive_solver.
  - repeat case_match; simplify_eq; naive_solver.
Qed.

Lemma tokio_main_status h workers g c :
  match Config.load (h_vars h) with
  | Err _ => tokio_main h workers g c = mk_exit (if h_runtime h then eprintln h EX_CONFIG else PANICKED) NoReport c g
  | Ok _ => ex_status (tokio_main h workers g c) = SUCCESS \/ ex_status (tokio_main h workers g c) = FAILURE
      \/ ex_status (tokio_main h workers g c) = PANICKED /\ calm h = false
  end.
Proof.
  unfold tokio_main. destruct (Config.load (h_vars h)) as [config|] eqn:Hl; [|by destruct (h_runtime h)].
  destruct (h_runtime h) eqn:Hr; [|right; right; unfold calm; by rewrite Hr]. cbn [negb].
  destruct (boot _) as [[config' rt]|status] eqn:Hb.
  - unfold Workers.leave, Workers.finish. destruct (Workers.serve_admin _ _ _) as [t r]. cbn. destruct (is_ok r); auto.
  - cbn. rewrite (boot_failure (stages h config g c) _ _ Hl Hb).
    destruct (refused_on_stderr _ _); [|auto]. destruct (eprintln_cases h FAILURE) as [->|]; auto.
Qed.

(** Closes a row of the table of exit statuses. *)
Local Ltac exit_table :=
  unfold USAGE, EX_CONFIG, SUCCESS, FAILURE, PANICKED, printed_full in *; cbn in *;
  split_and!; first [by intros _ ? ?; destruct_or?; congruence | set_solver | naive_solver].

(** The rows in which the status [s] was announced on standard error. *)
Local Ltac refused h s := destruct (eprintln_cases h s) as [->|[-> Hc%uncalm]]; exit_table.

(** Whether the arguments ask for a reprocessing, and ask for it well. *)
Definition asks_reprocess (arguments : list string) : bool := bool_decide (head arguments = Some "reprocess-export").

Definition no_database (vars : list (string * string)) : bool :=
  match Config.load vars with
  | Ok config => bool_decide (Config.database_url (Config.storage config) = None)
  | Err _ => false
  end.

(** [C36] The exit status of the binary, from any argument vector, environment and answers of its host. It is
    0, 1, 2, 78 or 101. A vector with an argument that is not Unicode text gives 101 and leaves everything
    untouched; 101 comes otherwise only when the runtime cannot be built or standard error refuses a text. On
    a host where neither happens and with Unicode arguments, the status is 2 exactly for a malformed
    reprocessing command, and 78 exactly when the configuration does not load, or names no database for a
    reprocessing, after a well-formed command. On every host, a run that ends with 2 or 78
    has touched neither the database nor the telemetry and printed nothing, and a reprocessing ends with 0
    exactly when the whole report was written and flushed. *)
Theorem main_exit_status h argv workers g c w :
  let e := main h argv workers g c w in
  let arguments := tail argv in
  let malformed := asks_reprocess arguments && negb (is_ok (parse_reprocess_command arguments)) in
  let unicode := forallb valid_utf8 argv in
  ex_status e ∈ [0; 1; 2; 78; 101]%Z /\
  (unicode = false -> e = mk_exit 101%Z NoReport c g) /\
  (ex_status e = 101%Z -> unicode = false \/ h_runtime h = false \/ h_stderr h = false) /\
  (unicode = true -> h_runtime h = true -> h_stderr h = true ->
     (ex_status e = 2%Z <-> malformed = true) /\
     (ex_status e = 78%Z <-> malformed = false /\
        (is_ok (Config.load (h_vars h)) = false \/ asks_reprocess arguments = true /\ no_database (h_vars h) = true))) /\
  (ex_status e = 2%Z \/ ex_status e = 78%Z -> ex_catalogue e = c /\ ex_globals e = g /\ ex_stdout e = NoReport) /\
  (asks_reprocess arguments = true -> ex_status e = 0%Z <-> printed_full (ex_stdout e)).
Proof.
  cbv zeta. unfold main, asks_reprocess, reprocess_export, no_database.
  destruct (forallb valid_utf8 argv); cbn [negb]; [|exit_table].
  case_bool_decide as Hrep; cbn [andb].
  - destruct (parse_reprocess_command (tail argv)) as [command|] eqn:Hp; cbn; [|refused h USAGE].
    destruct (Config.load (h_vars h)) as [config|] eqn:Hl; cbn; [|refused h EX_CONFIG].
    destruct (Config.database_url _) as [url|] eqn:Hu; cbn; [|refused h EX_CONFIG].
    destruct (run_reprocess h command url c w) as [[status printed] c'] eqn:Hr. cbn.
    destruct (run_reprocess_status _ _ _ _ _ _ _ _ Hr) as [[->|[->|[-> Hc%uncalm]]] Hpr]; exit_table.
  - case_bool_decide as Hcheck.
    { unfold check_config. destruct (Config.load (h_vars h)); cbn; [refused h SUCCESS|refused h EX_CONFIG]. }
    pose proof (tokio_main_status h workers g c) as Ht. destruct (Config.load (h_vars h)) eqn:Hl.
    + destruct Ht as [Ht|[Ht|[Ht Hc%uncalm]]]; rewrite Ht; exit_table.
    + rewrite Ht. destruct (h_runtime h) eqn:Hr; [refused h EX_CONFIG|cbn; exit_table].
Qed.

End Main.

End Main.
